(* ===== verification/_CoqProject ===== *)
-Q . S2P
Prelude.v
Grid.v
Boards.v
Life.v
Orbit.v
Patterns.v
Plane.v
Edges.v
Random.v
Tick.v
Display.v
Object.v
Neighbors.v
Engine.v
Symmetry.v
Translation.v
Seed.v
Render.v
Api.v
Scenarios.v
Main.v
Stagnation.v
Hardware.v
Sketch.v
