(* ===== verification/Prelude.v ===== *)
(** * Conway's Game of Life on a 32x64 LED matrix: a verification development

    The program under [src/src] is an Arduino sketch for a Raspberry Pi Pico
    that drives a HUB75 LED panel.  It has two source files:

    - [simulation.h]: the class [ConwaysGame].  It owns two byte arrays
      [genMap_1] and [genMap_2] of [gameRows] x [gameColumns] cells (32 x 64),
      two pointers [currentGenMap] and [nextGenMap] that select one of them,
      the display colour [simColor] and a pointer to the display.  Its
      methods are the two constructors, [initSeed], [calcNextGen], the private
      helper [checkNeighbors], [drawCurGen] and [setColor].
    - [main.cpp]: the pin tables, the global display object and the global
      simulation object, [setup] (bring-up, splash text, first seed) and
      [loop] (reseed when the last generation changed at most
      [updateThreshold] cells, advance, draw, show, delay).

    ** Files of the development, in dependency order

    - [Prelude] (this file): what every component shares.  Machine integers
      as [Z] with the wrap-around written out ([wrap], [uint8_t], [uint16_t],
      [uint32_t]); the C conversions between bytes and truth values; arrays
      indexed by a C [int] whose out-of-range accesses are errors ([zlookup],
      [zupdate]); the counted [for] loop over a state in the error monad
      ([iterM], [for_loop]) with its unrolling lemmas and its invariant rules
      ([for_loop_inv], and [for_loop2_inv] for two nested loops); the same
      loop read literally with fuel ([c_for]) and the theorem that it
      terminates and agrees with [for_loop]; finite sums over an index
      range ([sumZ]); the hint databases [gol] and the tactics the later
      files use ([by_compute], [decide_cases], ...).
    - [Grid]: the type of one generation map, [byte [gameRows][gameColumns]],
      as a list of rows of bytes; [Grid.get] and [Grid.set] are the C array
      read and write and return [None] outside the array; the shape invariant
      [Grid.wf], the cell invariant [Grid.boolean] (every byte is 0 or 1), the
      zero-initialised map, pointwise extensionality, the tabulated map and
      the count of differing cells.
    - [Boards]: concrete generation maps (a single cell, the block, the
      blinker, a corner cluster, a map that breaks the cell invariant), the
      inputs at which the general theorems are instantiated.
    - [Life]: the abstract specification.  A generation is a field
      [Z -> Z -> bool]; [Life.rule] is Conway's rule, [Life.live_neighbours]
      counts the eight surrounding cells that lie inside the board, and
      [Life.next] is one generation step on a bounded (non-toroidal) board.
      The laws of the rule (birth on three, death by isolation and by
      overpopulation) are proved here once, for every board.  Fields are
      compared everywhere ([Life.feq]) or on the board ([Life.board_eq]);
      the step and the change count are [Proper] for them.
    - [Orbit]: the generations that follow one another.  A board has
      finitely many cells, so some generation comes back and the game
      repeats itself from then on ([Orbit.eventually_periodic], by the
      pigeonhole principle on the cells as a vector of booleans).  For a
      program that watches how many cells a step changes this is a
      dichotomy ([Orbit.settles]): some step changes at most [threshold]
      cells, or the generations end in a cycle all of whose steps change
      more.
    - [Patterns]: generations given by the list of their live cells
      ([Patterns.cells]), and the named patterns of the specification: the
      single cell, the block and the blinker, by their anchor cell.
    - [Plane]: the game away from the edges.  [Plane.step] is the game as
      it is usually defined, on the unbounded plane.  The bounded step
      [Life.next] agrees with it exactly as long as the generation and its
      successor fit the board ([Plane.next_step]), and the step on the
      plane commutes with every translation ([Plane.step_shift]).  A
      finite generation is stepped by running the step on a box around its
      cells ([Plane.step_cells]); so the named patterns and the glider are
      stepped once, where their lists are written down, and then hold at
      every position of every board ([Plane.next_move],
      [Plane.changes_move]).
    - [Edges]: the game at the edges.  One generation on the board is one
      generation on the plane with the cells outside the board killed
      before and after ([Edges.next_clip]), with no condition on the
      generation.  The bounded step commutes with the translations that
      move a generation along an edge ([Edges.next_slide]), so a pattern
      on an edge is stepped once, by computation on the board of the
      program, and then at every position along that edge: a blinker that
      lies on the top edge dies in two generations, and a glider that
      lands on the bottom edge becomes a block.
    - [Random]: the interface [RandomSource] of the pseudo-random source
      behind Arduino's [randomSeed] and [random], with its range law, and
      the instances used to run the model: a scripted source, a constant
      source and a linear congruential generator.  The model of the
      simulation is proved against the interface only.
    - [Tick]: the abstract machine of the sketch, parametric in the board
      and the threshold.  A state is a generation, the last change count
      and the source; [Tick.tick] is the seed check followed by one step.
      States are compared on the board ([Tick.eq]), and the operations are
      [Proper] for it.  As long as the steps change more than [threshold]
      cells the machine only steps, and the tick after the first step that
      changes fewer takes a seed ([Tick.run_steps], [Tick.run_stagnates]).
      [Tick.feed] is the machine with the analog input as a list of
      readings, one of which is used up per seed, started by
      [Tick.power_up].
    - [Display]: the part of the display driver the sketch relies on,
      modelled from the library's documented behaviour since its code is not
      in the repository: a canvas of 16-bit pixels keyed by position,
      [Display.color565], the clipped [Display.drawPixel] and
      [Display.show], which copies the canvas to the visible frame.
    - [Object]: the data members of the class [ConwaysGame] as a record.
      Pointers to the two maps are values of [MapRef] ([None] is the null
      pointer the object holds before [initSeed]); dereferencing goes
      through [deref], [assign], [load] and [store], so that the two buffers
      alias exactly as in the C++ object.  Reads and writes may fail: they
      return an [option], and [None] stands for undefined behaviour (null
      dereference, index out of the array).  Also the constructors,
      [setColor], the generation an object shows ([current_field]) and the
      object invariant [valid].
    - [Neighbors]: the private helper [checkNeighbors], its loop over the
      3x3 square written with [for_loop], its parameters and its counter
      kept at their C width.  The theorems: on every board that fits the
      array it never leaves the array and computes [Life.rule] of the
      live-neighbour count ([checkNeighbors_spec]); told a board taller
      or wider than the array it reads outside the array
      ([checkNeighbors_overrun]), so its reads are safe exactly for the
      boards that fit, and the board [calcNextGen] passes is the largest
      of them ([checkNeighbors_bounds]).
    - [Engine]: [calcNextGen], the two nested loops over the board with
      the 32-bit update counter.  The theorems: [calcNextGen] equals the
      reference step [calcNextGen_ref], which tabulates [Life.next] into the
      other buffer and flips the pointer; the returned count is the number of
      cells that changed; [valid] is preserved; counters never wrap; the
      rules hold cell by cell ([calcNextGen_rules]); [n] calls in a row
      ([generations]) are [n] abstract steps and flip the current buffer
      [n] times.
    - [Symmetry]: the four symmetries of the board (identity, the two
      reflections, the half turn).  [Life.next] and [Life.changes] commute
      with them, and so does the code: [calcNextGen] on an object whose
      maps are reflected returns the reflected object and the same count
      ([calcNextGen_mirror]).
    - [Translation]: the facts of [Plane] carried to the code.
      [calcNextGen] on an object whose maps are moved by some rows and
      columns returns the moved object and the same count, provided the
      generation and its successor fit the board before and after the move
      ([calcNextGen_shift]); and as long as the generations of the game on
      the plane fit the board, [n] calls of [calcNextGen] compute exactly
      them ([generations_plane]); in general they compute the generations
      of the plane clipped to the board after every step
      ([generations_clipped]).
    - [Seed]: [initSeed] against the interface [RandomSource].  It equals
      its reference [initSeed_ref] (one coin per cell in row-major order,
      the pattern on top in the non-random branch) and establishes [valid].
    - [Render]: [drawCurGen], written against a display with the one
      operation the method calls ([Canvas], with [drawPixel]) and run on
      two displays: the canvas of [Display] and a display that records
      the calls made to it.  On the canvas it writes the colour of every
      cell at position (column, row) and nothing else
      ([drawCurGen_spec]); on the recording display it leaves exactly
      2048 calls of [drawPixel], row by row ([drawCurGen_trace]), which
      is what the picture can not show, since writes to different pixels
      commute; the map read back from the canvas
      ([read_back]) is the current map when the colour is not black, and
      the empty map when it is.  On an object that was never seeded
      [drawCurGen], like [calcNextGen] in [Engine] and [checkNeighbors] in
      [Neighbors], dereferences a null pointer; the lemmas on [None] record
      it.
    - [Api]: the class seen by its callers.  The public methods are a type
      of calls [Method], run by [invoke] on a client (object, panel,
      generator, last count).  The theorems: every method preserves the
      representation invariant [typed]; a sequence of calls is defined
      exactly when the life cycle accepts it (nothing but [initSeed] and
      [setColor] before the first seed); through the abstraction that
      keeps the colour and the current generation and forgets the two
      buffers, every method is the method [abs_invoke] of a machine with
      one generation ([invoke_refines]); and two clients with the same
      abstraction ([obs_eq]) are indistinguishable by any sequence of
      calls, so the double buffer cannot be observed.
    - [Scenarios]: the named scenarios of the specification as theorems
      about the code at every position of the board: a single cell dies
      (count 1), the block stays (count 0), the blinker turns (count 4) and
      is back after two calls, the glider changes four cells per call and
      is one row lower and one column further right after four calls, and
      the non-random seed is the twelve-cell pattern exactly when all coins
      are 0.  At the edges: a blinker on the top edge is gone after two
      calls (counts 3 and 2), and a glider on the bottom edge is a block
      after three.
    - [Main]: the sketch [main.cpp].  The state [System] holds the
      simulation object, the display, the generator and the counter
      [cellsUpdated]; [boot] is the state after static initialisation,
      [setup] and [loop] are functions on it ([setup] returns [Hung] when
      the driver reports an error and the source prints for ever), and
      [step] is the relation that iterates [loop].  What the hardware
      supplies is an input: the status of [matrix.begin()], the canvas after
      the splash text, the analog reading.  The theorems: [setup] reaches a
      state of the invariant [sys_inv]; [loop] is defined on every such
      state and keeps it, so every reachable state is safe
      ([reachable_inv]) and the panel always shows the current generation;
      the reseed policy ([cellsUpdated <= updateThreshold]) decides between
      one abstract step and a fresh seed; the first call of [loop] always
      reseeds; a generation that changes at most 35 cells is shown once and
      then replaced.  [setup] and [loop] are sequences of calls of the
      public methods in the sense of [Api] followed by [matrix.show()]
      ([setup_invokes], [loop_invokes]), and [loop] is defined exactly
      when the object is seeded or the counter makes it take a seed
      ([loop_defined]).  The refinement theorems ([loop_tick],
      [run_refines_ticks]) say that the sketch, seen through
      [abstraction] (generation on display, counter, generator), is the
      machine of [Tick]: every finite sequence of calls of [loop] ends in
      the state the same ticks reach.
    - [Stagnation]: what the reseed policy sees in a whole run.  As long
      as every generation changes more than [updateThreshold] cells no
      call of [loop] takes a seed ([loops_lively]); so a generation that
      comes back after [p] such steps ([oscillates]) is shown for ever,
      phase after phase, and the generator is never touched again
      ([run_oscillates]).  Nine blinkers, with 36 changes per step, are an
      instance.  Such a state is reachable: every generation is a possible
      seed ([script_of] lists its cells as the coins of a scripted
      generator), so for every generation that oscillates there are coins
      with which the sketch, from power-up, shows its phases for ever
      ([stall_from_setup]).  And the sketch can do nothing else
      ([run_settles]): from a state with the counter above the threshold
      either there is a call of [loop], the same for every analog input,
      that leaves the counter at or below the threshold, and the call
      after it takes a seed; or no call ever takes a seed and the panel
      ends in a cycle of generations.
    - [Hardware]: the board around the sketch.  The pin tables and the
      constructor arguments of the display object of [main.cpp]; the calls
      of the sketch into the Arduino core and the driver as the event
      signature [sketchE] ([millis], [Serial.begin], [pinMode],
      [matrix.begin], [Serial.print], [setTextSize], [matrix.println],
      [matrix.show], [delay], [analogRead]); and a model of the devices,
      the state [World] with the handler [handle], which answers the calls
      and records the text printed, the frames shown and the time waited.
    - [Sketch]: [main.cpp] as an interactive program.  [setup_tree] and
      [loop_tree] are interaction trees over [sketchE] with the calls in
      source order, the analog input read inside [initSeed(true)] only, the
      error loops of [setup] printing for ever; [sketch] is the
      initialisation of the globals, [setup], and [loop] for ever.  A tree
      ends in [inr Undefined] when the C++ program performs an undefined
      access.  The theorems: the trees are the functions of [Main] between
      their calls ([loop_tree_loop], [start_tree_setup]); every call of
      [loop] returns; [setup] returns exactly when the driver reports no
      error; the program never crashes and never stops
      ([sketch_runs_forever]), with or without its devices
      ([sketch_devices_forever]); run against the devices it shows one
      frame per call of [loop] and waits 100 ms after it
      ([sketch_frames]), and it refines the machine of [Tick], devices
      included: state and remaining analog input are those of [Tick.feed]
      from [Tick.power_up], so the analog pin is read once in [setup] and
      once per seed ([sketch_refines_ticks]); with the coins of [Stagnation]
      it shows the same frames for ever ([sketch_stalls]).

    ** How the files depend on each other

    [Grid], [Life], [Random] and [Display] only need [Prelude]; [Boards]
    builds on [Grid], [Orbit] and [Patterns] on [Life], [Plane] on
    [Patterns], [Edges] on [Plane], and [Tick] on [Life], [Orbit] and
    [Random]; [Object] builds on
    [Grid], [Life] and [Display]; [Neighbors] builds on [Object] and [Engine] on [Neighbors];
    [Engine], [Seed] and [Render] are the three groups of methods on
    [Object] and do not depend on each other; [Symmetry] and [Translation]
    build on [Engine], the second also on [Plane] and [Edges]; [Api] runs
    the three groups as calls on a client; [Scenarios] combines [Engine]
    and [Seed] with [Plane] and [Edges]; [Main] composes the methods into
    the sketch and relates it to [Tick] and to [Api], and [Stagnation]
    follows its runs; [Hardware] adds the calls and the devices, and
    [Sketch] puts the functions of [Main] between the calls of
    [Hardware] and carries the result of [Stagnation] to the program.
    [Sketch] is the only file that loads the interaction tree library; it writes [bind] in a notation of its
    own ([x <- t ;; k] in [sketch_scope]) because the library's notation
    and stdpp's use the same level.  The main theorems (each marked with
    its claim number) are stated in [Neighbors], [Engine],
    [Symmetry], [Translation], [Seed], [Render], [Api], [Scenarios],
    [Main], [Stagnation] and [Sketch]; they rest on shared lemmas and never
    on one another.

    ** Bounds and fuel

    The model of the methods takes no fuel: every loop of the source is a
    counted loop with a constant bound, modelled by [for_loop] over [seqZ],
    so the theorems about results are total ("the call returns
    [Some ...]"), not conditional on termination.  Termination of the
    methods is therefore by construction of the model and is not claimed
    as a property of the program; what justifies the construction is that
    no loop body of the source assigns its loop variable, and the lemma
    [c_for_terminates]: [c_for] is the loop with its test and increment
    written out and a fuel that bounds the number of tests, [hi - lo + 1]
    tests are enough, and the result is the one of [for_loop].  The two loops of the
    program that do not terminate, [while(true)] in [setup] and the
    repetition of [loop], are not cut off by fuel either: they are
    [ITree.iter] in [Sketch], and the theorems about them are about
    infinite trees ([all_infinite]) or about every finite prefix ([prefix
    n] for every [n]).  The theorems on patterns are proved for every
    position, not tested at some: where a proof computes ([by_compute] on
    a box of at most 6 by 6 cells around a pattern written down at the
    origin), a translation lemma carries the result to every position of
    every board; the patterns on an edge are computed on the board of the
    program at one column, and at the two columns next to a corner, and
    carried along the edge by [Edges.next_slide].  The theorem that the
    sketch can stall is stated with the scripted generator, the instance
    of [RandomSource] that can deliver every sequence of coins; whether
    the generator of the Arduino core delivers the sequence is a question
    about its 2 ^ 4096 possible outputs that the model does not answer.
    The cycle of [Orbit] closes within 2 ^ (rows * cols) generations; the
    number is a bound in a proof and is never computed, and the search
    for the first quiet step in [Orbit.settles] is a proof by induction,
    not a function that is run.
    The board has the dimensions of the source,
    [gameRows = 32] and [gameColumns = 64]; the general lemmas only use
    [0 < gameRows <= 255] and [0 < gameColumns <= 255], which is what the
    [uint8_t] parameters of [checkNeighbors] need.

    ** Not modelled

    The refresh of the HUB75 panel and the electrical side of the pins are
    hardware behind calls the sources only make.  The glyphs of the title
    text are not modelled: the canvas after [matrix.println] is an answer
    of the devices.  Time is modelled as far as the sketch controls it:
    the clock of [World] advances by the arguments of [delay], and the time
    the computation itself takes is not counted.  The statistical quality
    of the pseudo-random source is not modelled either; the theorems hold
    for every source that respects the range of [random(howbig)].  The two
    buttons are configured as inputs and never read, in the source as in
    the model. *)

From Stdlib Require Import ZArith Lia.
From stdpp Require Import list list_numbers option.

#[local] Open Scope Z_scope.

(** ** Machine integers *)

(** [wrap w z] is the value a [w]-bit unsigned integer holds after [z] is
    stored into it. *)
Definition wrap (w z : Z) : Z := z mod 2 ^ w.

Definition uint8_t : Z → Z := wrap 8.
Definition uint16_t : Z → Z := wrap 16.
Definition uint32_t : Z → Z := wrap 32.

(** A C scalar used as a condition is true when it is not zero; a C++ [bool]
    stored into a byte is 1 or 0. *)
Definition truth (v : Z) : bool := negb (v =? 0).
Definition of_bool (b : bool) : Z := if b then 1 else 0.

(** ** Arrays indexed by a C integer

    The index is a signed [int]; an index outside the array is undefined
    behaviour, which the model reports as [None]. *)
Definition zlookup {A : Type} (l : list A) (i : Z) : option A :=
  if decide (0 ≤ i) then l !! Z.to_nat i else None.

Definition zupdate {A : Type} (l : list A) (i : Z) (v : A) : option (list A) :=
  if decide (0 ≤ i < Z.of_nat (length l)) then Some (<[Z.to_nat i := v]> l) else None.

(** ** Counted loops in the error monad *)

(** [iterM body l s] runs [body i] for the indices [i] of [l] in order,
    threading the state and stopping at the first error. *)
Fixpoint iterM {S : Type} (body : Z → S → option S) (l : list Z) (s : S) : option S :=
  match l with
  | [] => Some s
  | i :: l => s' ← body i s; iterM body l s'
  end.

(** [for_loop lo hi body s] is [for (int i = lo; i < hi; i++) body]. A
    [continue] in the source is a [body] that returns its state early. *)
Definition for_loop {S : Type} (lo hi : Z) (body : Z → S → option S) (s : S) : option S :=
  iterM body (seqZ lo (hi - lo)) s.

(** The same loop read literally, one test of [i < hi] at a time: the
    body, then the increment, then the test again.  [fuel] bounds the
    number of tests; the outer [None] means that it ran out, the inner one
    that the body failed. *)
Fixpoint c_for {S : Type} (fuel : nat) (i hi : Z) (body : Z → S → option S) (s : S)
    : option (option S) :=
  match fuel with
  | O => None
  | Datatypes.S fuel =>
      if decide (i < hi) then
        match body i s with
        | Some s' => c_for fuel (i + 1) hi body s'
        | None => Some None
        end
      else Some (Some s)
  end.

(** ** Sums over an index range *)

Definition sumZ (lo hi : Z) (f : Z → Z) : Z :=
  foldr (λ i acc, f i + acc) 0 (seqZ lo (hi - lo)).

(** ** Notation *)

Declare Scope gol_scope.
Delimit Scope gol_scope with gol.
Notation "l .[ i ]" := (zlookup l i)
  (at level 1, i at level 99, left associativity, format "l .[ i ]") : gol_scope.
Notation "l .[ i <- v ]" := (zupdate l i v)
  (at level 1, i at level 99, v at level 99, left associativity,
   format "l .[ i  <-  v ]") : gol_scope.
#[global] Open Scope gol_scope.

(** ** Hint databases and tactics *)

Create HintDb gol discriminated.
Create Rewrite HintDb gol.

(** [case_tests] splits on every boolean comparison and decision in the
    goal, turning each into the arithmetic fact it decides. *)
Ltac case_test :=
  match goal with
  | |- context [decide ?P] => destruct (decide P)
  | |- context [?a <? ?b] => destruct (Z.ltb_spec a b)
  | |- context [?a <=? ?b] => destruct (Z.leb_spec a b)
  | |- context [?a =? ?b] => destruct (Z.eqb_spec a b)
  | |- context [?a >=? ?b] => rewrite (Z.geb_leb a b)
  | |- context [?a >? ?b] => rewrite (Z.gtb_ltb a b)
  end.
Ltac case_tests := repeat (case_test; simpl; try lia).

(** [by_compute] proves a closed decidable proposition by evaluating its
    decision procedure. *)
Ltac by_compute := apply (bool_decide_unpack _); vm_compute; exact I.

(** [decide_bools] replaces every [bool_decide] of an arithmetic fact that
    [lia] settles by its value. *)
Ltac decide_bools :=
  repeat match goal with
  | |- context [bool_decide ?P] =>
      first [ rewrite (bool_decide_eq_true_2 P) by lia
            | rewrite (bool_decide_eq_false_2 P) by lia ]
  end.

(** [decide_cases] goes through the decisions of arithmetic facts in the
    goal: one that [lia] settles is replaced by its value, any other is
    split, and the facts gained settle the later ones. *)
Ltac decide_case :=
  match goal with
  | |- context [bool_decide ?P] =>
      first [ rewrite (bool_decide_eq_true_2 P) by lia
            | rewrite (bool_decide_eq_false_2 P) by lia
            | destruct (bool_decide_reflect P) ]
  | |- context [decide ?P] =>
      first [ rewrite (decide_True (P := P)) by lia
            | rewrite (decide_False (P := P)) by lia
            | destruct (decide P) ]
  end.
Ltac decide_cases := repeat decide_case.

(** [inv_some] turns equations between [Some]s in the context into
    equations between their contents. *)
Ltac inv_some :=
  repeat match goal with
  | H : Some _ = Some _ |- _ => injection H as H; try subst
  | H : Some _ = None |- _ => discriminate H
  | H : None = Some _ |- _ => discriminate H
  end.

(** ** Lemmas: machine integers *)

Lemma wrap_range w z : 0 ≤ w → 0 ≤ wrap w z < 2 ^ w.
Proof. intros Hw. unfold wrap. apply Z.mod_pos_bound. by apply Z.pow_pos_nonneg. Qed.

Lemma wrap_small w z : 0 ≤ z < 2 ^ w → wrap w z = z.
Proof. intros Hz. unfold wrap. by apply Z.mod_small. Qed.

Lemma wrap_idemp w z : 0 ≤ w → wrap w (wrap w z) = wrap w z.
Proof. intros Hw. apply wrap_small. by apply wrap_range. Qed.

Lemma uint8_small z : 0 ≤ z < 256 → uint8_t z = z.
Proof. intros Hz. by apply wrap_small. Qed.

Lemma uint16_small z : 0 ≤ z < 65536 → uint16_t z = z.
Proof. intros Hz. by apply wrap_small. Qed.

Lemma uint32_small z : 0 ≤ z < 4294967296 → uint32_t z = z.
Proof. intros Hz. by apply wrap_small. Qed.

Lemma uint8_range z : 0 ≤ uint8_t z < 256.
Proof. by apply (wrap_range 8). Qed.

Lemma uint16_range z : 0 ≤ uint16_t z < 65536.
Proof. by apply (wrap_range 16). Qed.

Lemma uint32_range z : 0 ≤ uint32_t z < 4294967296.
Proof. by apply (wrap_range 32). Qed.

(** An increment past the largest value comes back to zero: this is the
    overflow the bounds theorems of the components rule out. *)
Lemma uint8_overflow : uint8_t (255 + 1) = 0.
Proof. reflexivity. Qed.

(** ** Lemmas: bit operations on bounded values *)

Lemma log2_lt_pow2_nonneg n a : 0 < n → 0 ≤ a < 2 ^ n → Z.log2 a < n.
Proof.
  intros Hn Ha. destruct (decide (a = 0)) as [->|Hne]; [done|].
  apply Z.log2_lt_pow2; lia.
Qed.

Lemma lt_pow2_log2 n a : 0 ≤ a → Z.log2 a < n → a < 2 ^ n.
Proof.
  intros Ha Hl. destruct (decide (a = 0)) as [->|Hne].
  - apply Z.pow_pos_nonneg; [done|]. pose proof (Z.log2_nonneg 0). lia.
  - apply Z.log2_lt_pow2; lia.
Qed.

Lemma lor_range n a b : 0 < n → 0 ≤ a < 2 ^ n → 0 ≤ b < 2 ^ n → 0 ≤ Z.lor a b < 2 ^ n.
Proof.
  intros Hn Ha Hb.
  assert (0 ≤ Z.lor a b) as Hnn by (apply Z.lor_nonneg; lia).
  split; [done|]. apply lt_pow2_log2; [done|].
  rewrite Z.log2_lor by lia.
  apply Z.max_lub_lt; by apply log2_lt_pow2_nonneg.
Qed.

Lemma land_range n a b : 0 < n → 0 ≤ a < 2 ^ n → 0 ≤ b → 0 ≤ Z.land a b < 2 ^ n.
Proof.
  intros Hn Ha Hb.
  assert (0 ≤ Z.land a b) as Hnn by (apply Z.land_nonneg; lia).
  split; [done|]. apply lt_pow2_log2; [done|].
  pose proof (Z.log2_land a b ltac:(lia) Hb).
  pose proof (log2_lt_pow2_nonneg n a Hn Ha). lia.
Qed.

Lemma truth_of_bool b : truth (of_bool b) = b.
Proof. by destruct b. Qed.

Lemma of_bool_truth v : v = 0 ∨ v = 1 → of_bool (truth v) = v.
Proof. by intros [-> | ->]. Qed.

Lemma of_bool_range b : 0 ≤ of_bool b ≤ 1.
Proof. destruct b; simpl; lia. Qed.

Lemma of_bool_cases b : of_bool b = 0 ∨ of_bool b = 1.
Proof. destruct b; auto. Qed.

Lemma of_bool_inj b1 b2 : of_bool b1 = of_bool b2 → b1 = b2.
Proof. by destruct b1, b2. Qed.

Lemma truth_0 : truth 0 = false.
Proof. reflexivity. Qed.

Lemma truth_nonzero v : v ≠ 0 → truth v = true.
Proof. intros Hv. unfold truth. by destruct (Z.eqb_spec v 0). Qed.

#[export] Hint Resolve uint8_range uint16_range uint32_range of_bool_range of_bool_cases : gol.
#[export] Hint Rewrite truth_of_bool truth_0 : gol.
#[export] Hint Rewrite uint8_small uint16_small uint32_small using lia : gol.

(** ** Lemmas: arrays *)

Section arrays.
Context {A : Type}.
Implicit Types (l : list A) (i j : Z) (v : A).

Lemma zlookup_Some_lt l i v : l.[i] = Some v → 0 ≤ i < Z.of_nat (length l).
Proof.
  unfold zlookup. case_decide; [|done].
  intros Hl%lookup_lt_Some. lia.
Qed.

Lemma zlookup_is_Some l i : 0 ≤ i < Z.of_nat (length l) → is_Some (l.[i]).
Proof.
  intros Hi. unfold zlookup. case_decide; [|lia].
  apply lookup_lt_is_Some. lia.
Qed.

Lemma zlookup_None l i : ¬ (0 ≤ i < Z.of_nat (length l)) → l.[i] = None.
Proof.
  intros Hi. unfold zlookup. case_decide; [|done].
  apply lookup_ge_None. lia.
Qed.

Lemma zlookup_nat l (n : nat) : l.[Z.of_nat n] = l !! n.
Proof. unfold zlookup. case_decide; [|lia]. by rewrite Nat2Z.id. Qed.

Lemma zupdate_is_Some l i v : 0 ≤ i < Z.of_nat (length l) → l.[i <- v] = Some (<[Z.to_nat i := v]> l).
Proof. intros Hi. unfold zupdate. by case_decide. Qed.

Lemma zupdate_None l i v : ¬ (0 ≤ i < Z.of_nat (length l)) → l.[i <- v] = None.
Proof. intros Hi. unfold zupdate. by case_decide. Qed.

Lemma zupdate_length l l' i v : l.[i <- v] = Some l' → length l' = length l.
Proof. unfold zupdate. case_decide; [|done]. intros [= <-]. apply length_insert. Qed.

Lemma zupdate_lookup_eq l l' i v : l.[i <- v] = Some l' → l'.[i] = Some v.
Proof.
  unfold zupdate, zlookup. case_decide; [|done]. intros [= <-].
  case_decide; [|lia]. apply list_lookup_insert_eq. lia.
Qed.

Lemma zupdate_lookup_ne l l' i j v : l.[i <- v] = Some l' → i ≠ j → l'.[j] = l.[j].
Proof.
  unfold zupdate, zlookup. case_decide; [|done]. intros [= <-] Hne.
  case_decide; [|done]. apply list_lookup_insert_ne. lia.
Qed.

(** Two arrays of the same length with the same cells are equal. *)
Lemma zlookup_ext l1 l2 :
  length l1 = length l2 →
  (∀ i, 0 ≤ i < Z.of_nat (length l1) → l1.[i] = l2.[i]) → l1 = l2.
Proof.
  intros Hlen Hext. apply list_eq. intros n.
  destruct (decide (n < length l1)%nat) as [Hn|Hn].
  - rewrite <- !zlookup_nat. apply Hext. lia.
  - rewrite !lookup_ge_None_2; [done|lia..].
Qed.

Lemma zlookup_fmap_seqZ (f : Z → A) n i :
  0 ≤ i < n → (f <$> seqZ 0 n).[i] = Some (f i).
Proof.
  intros Hi. unfold zlookup. case_decide; [|lia].
  rewrite list_lookup_fmap, lookup_seqZ_lt by lia.
  simpl. f_equal. f_equal. lia.
Qed.

Lemma zlookup_replicate n v i : 0 ≤ i < Z.of_nat n → (replicate n v).[i] = Some v.
Proof.
  intros Hi. unfold zlookup. case_decide; [|lia].
  apply lookup_replicate_2. lia.
Qed.

End arrays.

(** ** Lemmas: counted loops *)

Section loops.
Context {S : Type}.
Implicit Types (body : Z → S → option S) (s : S) (lo hi i : Z).

Lemma iterM_app body l1 l2 s :
  iterM body (l1 ++ l2) s = iterM body l1 s ≫= iterM body l2.
Proof.
  revert s; induction l1 as [|i l1 IH]; intros s; [done|].
  simpl. destruct (body i s); simpl; auto.
Qed.

Lemma iterM_singleton body i s : iterM body [i] s = body i s.
Proof. simpl. by destruct (body i s). Qed.

Lemma for_loop_empty lo hi body s : hi ≤ lo → for_loop lo hi body s = Some s.
Proof. intros Hle. unfold for_loop. by rewrite seqZ_nil by lia. Qed.

(** Unrolling the first iteration. *)
Lemma for_loop_first lo hi body s :
  lo < hi → for_loop lo hi body s = body lo s ≫= for_loop (lo + 1) hi body.
Proof.
  intros Hlt. unfold for_loop. rewrite seqZ_cons by lia.
  replace (Z.pred (hi - lo)) with (hi - (lo + 1)) by lia.
  by replace (Z.succ lo) with (lo + 1) by lia.
Qed.

(** Unrolling the last iteration. *)
Lemma for_loop_last lo hi body s :
  lo ≤ hi → for_loop lo (hi + 1) body s = for_loop lo hi body s ≫= body hi.
Proof.
  intros Hle. unfold for_loop.
  replace (hi + 1 - lo) with ((hi - lo) + 1) by lia.
  rewrite seqZ_app, iterM_app by lia.
  replace (lo + (hi - lo)) with hi by lia.
  destruct (iterM body _ s) as [s'|]; [|done].
  change (seqZ hi 1) with [hi]. apply iterM_singleton.
Qed.

(** The invariant rule: a loop whose body keeps [I] and never fails on
    states that satisfy it returns a state that satisfies [I hi]. *)
Lemma for_loop_inv (I : Z → S → Prop) lo hi body s :
  lo ≤ hi →
  I lo s →
  (∀ i s, lo ≤ i < hi → I i s → ∃ s', body i s = Some s' ∧ I (i + 1) s') →
  ∃ s', for_loop lo hi body s = Some s' ∧ I hi s'.
Proof.
  intros Hle Hlo Hbody.
  assert (∀ n : nat, lo + Z.of_nat n ≤ hi →
    ∃ s', for_loop lo (lo + Z.of_nat n) body s = Some s' ∧ I (lo + Z.of_nat n) s') as Hn.
  { induction n as [|n IH]; intros Hb.
    - exists s. rewrite Z.add_0_r, for_loop_empty by lia. done.
    - destruct IH as (s1 & Hs1 & HI1); [lia|].
      destruct (Hbody (lo + Z.of_nat n) s1) as (s2 & Hs2 & HI2); [lia|done|].
      exists s2. replace (lo + Z.of_nat (Datatypes.S n)) with (lo + Z.of_nat n + 1) by lia.
      rewrite for_loop_last, Hs1 by lia. done. }
  destruct (Hn (Z.to_nat (hi - lo))) as (s' & Hs' & HI'); [lia|].
  replace (lo + Z.of_nat (Z.to_nat (hi - lo))) with hi in * by lia. eauto.
Qed.

(** The invariant rule for two nested loops, the shape of every pass over
    a generation map: [I i j] holds when the loops reach row [i] and column
    [j]; the body moves it one column on, and the end of a row is the start
    of the next. *)
Lemma for_loop2_inv (I : Z → Z → S → Prop) rows cols (body : Z → Z → S → option S) s :
  0 ≤ rows → 0 ≤ cols →
  I 0 0 s →
  (∀ i j s, 0 ≤ i < rows → 0 ≤ j < cols → I i j s →
     ∃ s', body i j s = Some s' ∧ I i (j + 1) s') →
  (∀ i s, 0 ≤ i < rows → I i cols s → I (i + 1) 0 s) →
  ∃ s', for_loop 0 rows (λ i, for_loop 0 cols (body i)) s = Some s' ∧ I rows 0 s'.
Proof.
  intros Hrows Hcols Hstart Hbody Hrow.
  apply (for_loop_inv (λ i s, I i 0 s)); [done..|].
  intros i s1 Hi Hs1.
  destruct (for_loop_inv (I i) 0 cols (body i) s1) as (s2 & Hloop & Hs2); [done..| |].
  - intros j s2 Hj Hs2. by apply Hbody.
  - exists s2. split; [done|]. by apply Hrow.
Qed.

(** Loops with pointwise equal bodies are equal. *)
Lemma for_loop_ext lo hi body1 body2 s :
  (∀ i s, lo ≤ i < hi → body1 i s = body2 i s) →
  for_loop lo hi body1 s = for_loop lo hi body2 s.
Proof.
  intros Hext. unfold for_loop.
  assert (∀ i, i ∈ seqZ lo (hi - lo) → lo ≤ i < hi) as Hin.
  { intros i Hi%elem_of_seqZ. lia. }
  revert s Hin. generalize (seqZ lo (hi - lo)) as l.
  induction l as [|i l IH]; intros s Hin; [done|]. simpl.
  rewrite Hext by (apply Hin; left).
  destruct (body2 i s); simpl; [|done]. apply IH. intros j Hj. apply Hin. by right.
Qed.

(** The literal loop with enough fuel is the counted loop. *)
Lemma c_for_for_loop (fuel : nat) lo hi body s :
  (Z.to_nat (hi - lo) < fuel)%nat → c_for fuel lo hi body s = Some (for_loop lo hi body s).
Proof.
  revert lo s. induction fuel as [|fuel IH]; intros lo s Hfuel; [lia|]. cbn [c_for].
  case_decide; [|by rewrite for_loop_empty by lia].
  rewrite for_loop_first by done. destruct (body lo s) as [s'|]; [|done].
  cbn [mbind option_bind]. apply IH. lia.
Qed.

(** A loop [for (int i = lo; i < hi; i++)] whose body returns tests its
    condition at most [hi - lo + 1] times: with that much fuel the literal
    loop never runs out, and what it returns, a state or the failure of
    its body, is what the counted loop [for_loop] of the model returns. *)
Lemma c_for_terminates lo hi body s :
  c_for (Datatypes.S (Z.to_nat (hi - lo))) lo hi body s = Some (for_loop lo hi body s).
Proof. apply c_for_for_loop. lia. Qed.

(** A loop with an iteration that fails on every state fails. *)
Lemma for_loop_fails lo hi k body s :
  lo ≤ k < hi → (∀ s, body k s = None) → for_loop lo hi body s = None.
Proof.
  intros Hk Hfail. unfold for_loop.
  replace (hi - lo) with ((k - lo) + (hi - k)) by lia.
  rewrite seqZ_app, iterM_app by lia. replace (lo + (k - lo)) with k by lia.
  destruct (iterM body _ s) as [s'|]; [|done]. cbn [mbind option_bind].
  rewrite seqZ_cons by lia. cbn [iterM]. by rewrite Hfail.
Qed.

(** A loop whose body never fails is a fold over its index range. *)
Lemma for_loop_foldl (f : Z → S → S) lo hi body s :
  (∀ i s, lo ≤ i < hi → body i s = Some (f i s)) →
  for_loop lo hi body s = Some (foldl (λ s i, f i s) s (seqZ lo (hi - lo))).
Proof.
  intros Hbody. rewrite (for_loop_ext lo hi body (λ i s, Some (f i s))) by done.
  unfold for_loop. revert s. induction (seqZ lo (hi - lo)) as [|i l IH]; intros s; [done|].
  apply IH.
Qed.

(** Two nested folds are one fold over the pairs of indices in order. *)
Lemma foldl_bind {A B} (f : S → B → S) (k : A → list B) (l : list A) s :
  foldl f s (l ≫= k) = foldl (λ s a, foldl f s (k a)) s l.
Proof.
  revert s. induction l as [|a l IH]; intros s; [done|].
  cbn [mbind list_bind foldl]. by rewrite foldl_app, <- IH.
Qed.

End loops.

(** ** Lemmas: sums *)

Section sums.
Implicit Types (f g : Z → Z) (lo hi : Z).

Lemma sumZ_empty lo hi f : hi ≤ lo → sumZ lo hi f = 0.
Proof. intros Hle. unfold sumZ. by rewrite seqZ_nil by lia. Qed.

Lemma sumZ_first lo hi f : lo < hi → sumZ lo hi f = f lo + sumZ (lo + 1) hi f.
Proof.
  intros Hlt. unfold sumZ. rewrite seqZ_cons by lia. simpl.
  replace (Z.pred (hi - lo)) with (hi - (lo + 1)) by lia.
  by replace (Z.succ lo) with (lo + 1) by lia.
Qed.

Lemma sumZ_last lo hi f : lo ≤ hi → sumZ lo (hi + 1) f = sumZ lo hi f + f hi.
Proof.
  intros Hle. unfold sumZ.
  replace (hi + 1 - lo) with ((hi - lo) + 1) by lia.
  rewrite seqZ_app, foldr_app by lia.
  replace (lo + (hi - lo)) with hi by lia.
  change (seqZ hi 1) with [hi]. simpl.
  generalize (seqZ lo (hi - lo)) as l.
  induction l as [|i l IH]; simpl; [lia|]. rewrite IH. lia.
Qed.

Lemma sumZ_ext lo hi f g : (∀ i, lo ≤ i < hi → f i = g i) → sumZ lo hi f = sumZ lo hi g.
Proof.
  intros Hext. unfold sumZ.
  assert (∀ i, i ∈ seqZ lo (hi - lo) → lo ≤ i < hi) as Hin.
  { intros i Hi%elem_of_seqZ. lia. }
  revert Hin. generalize (seqZ lo (hi - lo)) as l.
  induction l as [|i l IH]; intros Hin; [done|]. simpl.
  rewrite Hext by (apply Hin; left). rewrite IH; [done|].
  intros j Hj. apply Hin. by right.
Qed.

(** A sum of terms between 0 and [k] lies between 0 and [k] times the
    number of terms. *)
Lemma sumZ_bound lo hi f k :
  lo ≤ hi → (∀ i, lo ≤ i < hi → 0 ≤ f i ≤ k) → 0 ≤ sumZ lo hi f ≤ k * (hi - lo).
Proof.
  intros Hle Hf.
  assert (∀ n : nat, lo + Z.of_nat n ≤ hi →
    0 ≤ sumZ lo (lo + Z.of_nat n) f ≤ k * Z.of_nat n) as Hn.
  { induction n as [|n IH]; intros Hb.
    - rewrite sumZ_empty by lia. lia.
    - replace (lo + Z.of_nat (Datatypes.S n)) with (lo + Z.of_nat n + 1) by lia.
      rewrite sumZ_last by lia.
      specialize (IH ltac:(lia)). specialize (Hf (lo + Z.of_nat n) ltac:(lia)). lia. }
  specialize (Hn (Z.to_nat (hi - lo)) ltac:(lia)).
  by replace (lo + Z.of_nat (Z.to_nat (hi - lo))) with hi in * by lia;
     replace (Z.of_nat (Z.to_nat (hi - lo))) with (hi - lo) in * by lia.
Qed.

Lemma sumZ_zero lo hi f : (∀ i, lo ≤ i < hi → f i = 0) → sumZ lo hi f = 0.
Proof.
  intros Hf. destruct (decide (lo ≤ hi)); [|by apply sumZ_empty; lia].
  pose proof (sumZ_bound lo hi f 0 ltac:(done)) as Hb.
  assert (0 ≤ sumZ lo hi f ≤ 0 * (hi - lo)); [|lia].
  apply Hb. intros i Hi. rewrite Hf by done. lia.
Qed.

Lemma sumZ_add lo hi f g :
  sumZ lo hi (λ i, f i + g i) = sumZ lo hi f + sumZ lo hi g.
Proof.
  unfold sumZ. generalize (seqZ lo (hi - lo)) as l.
  induction l as [|i l IH]; simpl; lia.
Qed.

Lemma sumZ_split lo mid hi f :
  lo ≤ mid ≤ hi → sumZ lo hi f = sumZ lo mid f + sumZ mid hi f.
Proof.
  intros Hle. unfold sumZ.
  replace (hi - lo) with ((mid - lo) + (hi - mid)) by lia.
  rewrite seqZ_app, foldr_app by lia.
  replace (lo + (mid - lo)) with mid by lia.
  generalize (foldr (λ i acc, f i + acc) 0 (seqZ mid (hi - mid))) as a.
  generalize (seqZ lo (mid - lo)) as l.
  induction l as [|i l IH]; intros a; simpl; [lia|]. rewrite IH. lia.
Qed.

(** A sum whose terms vanish except at one index is the term there. *)
Lemma sumZ_point lo hi k f :
  lo ≤ k < hi → (∀ i, lo ≤ i < hi → i ≠ k → f i = 0) → sumZ lo hi f = f k.
Proof.
  intros Hk Hf. rewrite (sumZ_split lo k hi), (sumZ_split k (k + 1) hi) by lia.
  rewrite (sumZ_zero lo k), (sumZ_zero (k + 1) hi) by (intros; apply Hf; lia).
  rewrite sumZ_first, sumZ_empty by lia. lia.
Qed.

(** Moving the index range. *)
Lemma sumZ_shift lo hi k f : sumZ (lo + k) (hi + k) f = sumZ lo hi (λ i, f (i + k)).
Proof.
  unfold sumZ. replace (hi + k - (lo + k)) with (hi - lo) by lia.
  rewrite (Z.add_comm lo k), <- fmap_add_seqZ, foldr_fmap.
  apply foldr_ext; [|done..]. intros i a. by rewrite (Z.add_comm k i).
Qed.

(** Summing from the other end. *)
Lemma sumZ_reverse n f : sumZ 0 n (λ i, f (n - 1 - i)) = sumZ 0 n f.
Proof.
  destruct (decide (0 ≤ n)) as [Hn|]; [|by rewrite !sumZ_empty by lia].
  revert f. pattern n. apply natlike_ind; [done| |done].
  clear n Hn. intros n Hn IH f. unfold Z.succ.
  rewrite sumZ_first, (sumZ_shift 0 n 1), (sumZ_last _ n f) by lia.
  rewrite <- (IH f), Z.add_comm. f_equal; [|f_equal; lia].
  apply sumZ_ext. intros i _. f_equal. lia.
Qed.

(** A sum is the sum over any part of its range that holds every term
    that is not zero. *)
Lemma sumZ_support lo hi a b f :
  lo ≤ a → b ≤ hi → (∀ i, lo ≤ i < hi → ¬ (a ≤ i < b) → f i = 0) →
  sumZ lo hi f = sumZ a b f.
Proof.
  intros Ha Hb Hf. destruct (decide (a ≤ b)) as [Hab|Hab].
  - rewrite (sumZ_split lo a hi), (sumZ_split a b hi) by lia.
    rewrite (sumZ_zero lo a), (sumZ_zero b hi) by (intros; apply Hf; lia). lia.
  - rewrite (sumZ_empty a b) by lia. apply sumZ_zero. intros. apply Hf; lia.
Qed.

(** The same for a sum over a rectangle. *)
Lemma sumZ_support2 rows cols a b c d (F : Z → Z → Z) :
  0 ≤ a → b ≤ rows → 0 ≤ c → d ≤ cols →
  (∀ y x, F y x ≠ 0 → a ≤ y < b ∧ c ≤ x < d) →
  sumZ 0 rows (λ y, sumZ 0 cols (F y)) = sumZ a b (λ y, sumZ c d (F y)).
Proof.
  intros Ha Hb Hc Hd HF.
  assert (∀ y x, ¬ (a ≤ y < b ∧ c ≤ x < d) → F y x = 0) as H0.
  { intros y x Hn. destruct (decide (F y x = 0)); [done|]. by apply HF in n. }
  rewrite (sumZ_support 0 rows a b) by
    (done || (intros; apply sumZ_zero; intros; apply H0; lia)).
  apply sumZ_ext. intros y _. apply sumZ_support; [done..|]. intros. apply H0. lia.
Qed.

(** Moving a rectangle. *)
Lemma sumZ_shift2 a b c d dy dx (F : Z → Z → Z) :
  sumZ (a + dy) (b + dy) (λ y, sumZ (c + dx) (d + dx) (λ x, F (y - dy) (x - dx)))
  = sumZ a b (λ y, sumZ c d (F y)).
Proof.
  rewrite sumZ_shift. apply sumZ_ext. intros y _. rewrite sumZ_shift.
  apply sumZ_ext. intros x _. by rewrite !Z.add_simpl_r.
Qed.

End sums.

#[export] Hint Rewrite @for_loop_empty sumZ_empty using lia : gol.
