(* ===== verification/Grid.v ===== *)
(** * Grid: one generation map

    [simulation.h] stores a generation in a [byte [gameRows][gameColumns]]
    array.  This file models that array type as a list of rows of bytes,
    its read and write as partial functions that fail outside the array,
    and the invariants the simulation relies on: the shape ([Grid.wf], the
    array type of the source) and the cell values ([Grid.boolean], every
    byte is 0 or 1).  It also defines the tabulated map and the count of
    differing cells, which the reference step of [Engine] is stated
    with. *)

From Stdlib Require Import ZArith Lia.
From stdpp Require Import list list_numbers option.
From S2P Require Import Prelude.

#[local] Open Scope Z_scope.

(** The board size of the source, [#define gameRows 32] and
    [#define gameColumns 64]. *)
Definition gameRows : Z := 32.
Definition gameColumns : Z := 64.

Module Grid.

(** [byte genMap[gameRows][gameColumns]]: rows of bytes, row index first. *)
Definition genMap : Type := list (list Z).

(** [m[y][x]] as an rvalue. *)
Definition get (m : genMap) (y x : Z) : option Z :=
  row ← m.[y]; row.[x].

(** [m[y][x] = v]. *)
Definition set (m : genMap) (y x v : Z) : option genMap :=
  row ← m.[y]; row' ← row.[x <- v]; m.[y <- row'].

(** The shape the C array type fixes. *)
Definition wf (m : genMap) : Prop :=
  Z.of_nat (length m) = gameRows ∧
  Forall (λ row, Z.of_nat (length row) = gameColumns) m.

(** Every cell holds 0 or 1. *)
Definition boolean (m : genMap) : Prop :=
  Forall (Forall (λ v, v = 0 ∨ v = 1)) m.

(** A map in static storage before any write: all zero. *)
Definition zero : genMap :=
  replicate (Z.to_nat gameRows) (replicate (Z.to_nat gameColumns) 0).

(** The map whose cell [(y, x)] holds [f y x]. *)
Definition tabulate (f : Z → Z → Z) : genMap :=
  (λ y, f y <$> seqZ 0 gameColumns) <$> seqZ 0 gameRows.

(** The truth value the code reads from a cell; cells outside the board
    read as dead. *)
Definition alive (m : genMap) (y x : Z) : bool :=
  from_option truth false (get m y x).

(** 1 when the two cells differ as bytes, else 0. *)
Definition cell_diff (m1 m2 : genMap) (y x : Z) : Z :=
  if decide (get m1 y x = get m2 y x) then 0 else 1.

(** The number of differing cells in the first [x] cells of row [y]. *)
Definition row_diff (m1 m2 : genMap) (y x : Z) : Z :=
  sumZ 0 x (cell_diff m1 m2 y).

(** The number of cells in which two maps differ. *)
Definition diff_count (m1 m2 : genMap) : Z :=
  sumZ 0 gameRows (λ y, row_diff m1 m2 y gameColumns).

#[export] Instance wf_dec m : Decision (wf m).
Proof. unfold wf. apply _. Defined.

#[export] Instance boolean_dec m : Decision (boolean m).
Proof. unfold boolean. apply _. Defined.

(** ** The dimensions *)

Lemma gameRows_range : 0 < gameRows ≤ 255.
Proof. done. Qed.

Lemma gameColumns_range : 0 < gameColumns ≤ 255.
Proof. done. Qed.

(** ** Reads and writes *)

Section access.
Implicit Types (m : genMap) (y x v : Z).

Lemma wf_row m y row : wf m → m.[y] = Some row → Z.of_nat (length row) = gameColumns.
Proof.
  intros [_ Hrows] Hy. unfold zlookup in Hy. case_decide; [|done].
  by eapply (Forall_lookup_1 _ _ _ _ Hrows).
Qed.

Lemma get_Some_range m y x v :
  wf m → get m y x = Some v → 0 ≤ y < gameRows ∧ 0 ≤ x < gameColumns.
Proof.
  intros Hwf Hget. unfold get in Hget.
  destruct (m.[y]) as [row|] eqn:Hy; [|done]. simpl in Hget.
  pose proof (wf_row _ _ _ Hwf Hy). destruct Hwf as [Hlen _].
  apply zlookup_Some_lt in Hy, Hget. lia.
Qed.

Lemma get_is_Some m y x :
  wf m → 0 ≤ y < gameRows → 0 ≤ x < gameColumns → is_Some (get m y x).
Proof.
  intros Hwf Hy Hx. unfold get.
  destruct (zlookup_is_Some m y) as [row Hrow]; [destruct Hwf; lia|].
  rewrite Hrow. simpl. apply zlookup_is_Some.
  pose proof (wf_row _ _ _ Hwf Hrow). lia.
Qed.

Lemma get_outside m y x :
  wf m → ¬ (0 ≤ y < gameRows ∧ 0 ≤ x < gameColumns) → get m y x = None.
Proof.
  intros Hwf Hout. destruct (get m y x) eqn:Hget; [|done].
  by apply get_Some_range in Hget.
Qed.

Lemma set_is_Some m y x v :
  wf m → 0 ≤ y < gameRows → 0 ≤ x < gameColumns → is_Some (set m y x v).
Proof.
  intros Hwf Hy Hx. unfold set.
  destruct (zlookup_is_Some m y) as [row Hrow]; [destruct Hwf; lia|].
  pose proof (wf_row _ _ _ Hwf Hrow). destruct Hwf as [Hlen _].
  rewrite Hrow. simpl. rewrite zupdate_is_Some by lia. simpl.
  rewrite zupdate_is_Some by lia. done.
Qed.

Lemma set_outside m y x v :
  wf m → ¬ (0 ≤ y < gameRows ∧ 0 ≤ x < gameColumns) → set m y x v = None.
Proof.
  intros Hwf Hout. unfold set.
  destruct (m.[y]) as [row|] eqn:Hy; [|done]. simpl.
  pose proof (wf_row _ _ _ Hwf Hy). apply zlookup_Some_lt in Hy.
  destruct Hwf as [Hlen _]. rewrite zupdate_None by lia. done.
Qed.

(** What [set] returns, spelled out. *)
Lemma set_Some_inv m m' y x v :
  set m y x v = Some m' →
  ∃ row row', m.[y] = Some row ∧ row.[x <- v] = Some row' ∧ m.[y <- row'] = Some m'.
Proof.
  unfold set. intros Hset.
  destruct (m.[y]) as [row|]; [|done]. simpl in Hset.
  destruct (row.[x <- v]) as [row'|] eqn:Hx; [|done]. by exists row, row'.
Qed.

Lemma set_wf m m' y x v : wf m → set m y x v = Some m' → wf m'.
Proof.
  intros Hwf (row & row' & Hy & Hx & Hm')%set_Some_inv.
  pose proof (wf_row _ _ _ Hwf Hy) as Hrow. destruct Hwf as [Hlen Hrows].
  split; [by rewrite (zupdate_length _ _ _ _ Hm')|].
  unfold zupdate in Hm'. case_decide; [|done]. injection Hm' as <-.
  apply Forall_insert; [done|]. by rewrite (zupdate_length _ _ _ _ Hx).
Qed.

Lemma get_set_eq m m' y x v : set m y x v = Some m' → get m' y x = Some v.
Proof.
  intros (row & row' & Hy & Hx & Hm')%set_Some_inv. unfold get.
  rewrite (zupdate_lookup_eq _ _ _ _ Hm'). simpl.
  by apply (zupdate_lookup_eq row).
Qed.

Lemma get_set_ne m m' y x v y' x' :
  set m y x v = Some m' → (y', x') ≠ (y, x) → get m' y' x' = get m y' x'.
Proof.
  intros (row & row' & Hy & Hx & Hm')%set_Some_inv Hne. unfold get.
  destruct (decide (y' = y)) as [->|Hy'].
  - rewrite (zupdate_lookup_eq _ _ _ _ Hm'), Hy. simpl.
    apply (zupdate_lookup_ne _ _ _ _ _ Hx). congruence.
  - by rewrite (zupdate_lookup_ne _ _ _ _ _ Hm').
Qed.

Lemma boolean_get m y x v : boolean m → get m y x = Some v → v = 0 ∨ v = 1.
Proof.
  intros Hb Hget. unfold get in Hget.
  destruct (m.[y]) as [row|] eqn:Hy; [|done]. simpl in Hget.
  unfold zlookup in Hy, Hget. repeat case_decide; try done.
  pose proof (Forall_lookup_1 _ _ _ _ Hb Hy) as Hrow.
  apply (Forall_lookup_1 _ _ _ _ Hrow Hget).
Qed.

Lemma set_boolean m m' y x v :
  boolean m → v = 0 ∨ v = 1 → set m y x v = Some m' → boolean m'.
Proof.
  intros Hb Hv (row & row' & Hy & Hx & Hm')%set_Some_inv.
  unfold zupdate in Hm', Hx. repeat case_decide; try done.
  injection Hm' as <-. injection Hx as <-.
  apply Forall_insert; [done|]. apply Forall_insert; [|done].
  unfold zlookup in Hy. case_decide; [|done].
  apply (Forall_lookup_1 _ _ _ _ Hb Hy).
Qed.

(** Two well-formed maps with the same cells are equal. *)
Lemma ext m1 m2 :
  wf m1 → wf m2 →
  (∀ y x, 0 ≤ y < gameRows → 0 ≤ x < gameColumns → get m1 y x = get m2 y x) →
  m1 = m2.
Proof.
  intros Hwf1 Hwf2 Hext. apply zlookup_ext.
  { destruct Hwf1, Hwf2. lia. }
  intros y Hy.
  destruct (zlookup_is_Some m1 y) as [r1 Hr1]; [done|].
  destruct (zlookup_is_Some m2 y) as [r2 Hr2]; [destruct Hwf1, Hwf2; lia|].
  pose proof (wf_row _ _ _ Hwf1 Hr1). pose proof (wf_row _ _ _ Hwf2 Hr2).
  rewrite Hr1, Hr2. f_equal. apply zlookup_ext; [lia|].
  intros x Hx. specialize (Hext y x). unfold get in Hext.
  rewrite Hr1, Hr2 in Hext. apply Hext; destruct Hwf1; lia.
Qed.

End access.

(** ** The zero map and tabulated maps *)

Lemma tabulate_wf f : wf (tabulate f).
Proof.
  split.
  - unfold tabulate. rewrite length_fmap, length_seqZ. done.
  - unfold tabulate. apply Forall_fmap, Forall_forall. intros y _. unfold compose.
    rewrite length_fmap, length_seqZ. done.
Qed.

Lemma get_tabulate f y x :
  0 ≤ y < gameRows → 0 ≤ x < gameColumns → get (tabulate f) y x = Some (f y x).
Proof.
  intros Hy Hx. unfold get, tabulate.
  rewrite zlookup_fmap_seqZ by done. cbv [mbind option_bind].
  by rewrite zlookup_fmap_seqZ.
Qed.

Lemma tabulate_boolean f :
  (∀ y x, f y x = 0 ∨ f y x = 1) → boolean (tabulate f).
Proof.
  intros Hf. apply Forall_fmap, Forall_forall. intros y _.
  apply Forall_fmap, Forall_forall. intros x _. apply Hf.
Qed.

Lemma zero_wf : wf zero.
Proof. apply (bool_decide_unpack _). by vm_compute. Qed.

Lemma zero_boolean : boolean zero.
Proof. apply (bool_decide_unpack _). by vm_compute. Qed.

Lemma get_zero y x : 0 ≤ y < gameRows → 0 ≤ x < gameColumns → get zero y x = Some 0.
Proof.
  intros Hy Hx. unfold get, zero.
  rewrite zlookup_replicate by lia. cbv [mbind option_bind].
  apply zlookup_replicate. lia.
Qed.

(** ** The field a map stands for *)

Lemma alive_outside m y x :
  wf m → ¬ (0 ≤ y < gameRows ∧ 0 ≤ x < gameColumns) → alive m y x = false.
Proof. intros Hwf Hout. unfold alive. by rewrite get_outside. Qed.

Lemma alive_get m y x v : get m y x = Some v → alive m y x = truth v.
Proof. intros Hget. unfold alive. by rewrite Hget. Qed.

Lemma alive_tabulate (f : Z → Z → bool) y x :
  0 ≤ y < gameRows → 0 ≤ x < gameColumns →
  alive (tabulate (λ y x, of_bool (f y x))) y x = f y x.
Proof.
  intros Hy Hx. unfold alive. rewrite get_tabulate by done. apply truth_of_bool.
Qed.

Lemma alive_zero y x : alive zero y x = false.
Proof.
  destruct (decide (0 ≤ y < gameRows ∧ 0 ≤ x < gameColumns)) as [[Hy Hx]|Hout].
  - unfold alive. by rewrite get_zero.
  - apply alive_outside; [apply zero_wf|done].
Qed.

(** In a boolean map the byte of a cell is determined by its truth value. *)
Lemma boolean_get_alive m y x :
  wf m → boolean m → 0 ≤ y < gameRows → 0 ≤ x < gameColumns →
  get m y x = Some (of_bool (alive m y x)).
Proof.
  intros Hwf Hb Hy Hx. destruct (get_is_Some m y x) as [v Hv]; [done..|].
  rewrite (alive_get _ _ _ _ Hv), Hv. f_equal. symmetry.
  apply of_bool_truth. by eapply boolean_get.
Qed.

(** ** Counting differences *)

Lemma cell_diff_range m1 m2 y x : 0 ≤ cell_diff m1 m2 y x ≤ 1.
Proof. unfold cell_diff. case_decide; lia. Qed.

Lemma row_diff_0 m1 m2 y : row_diff m1 m2 y 0 = 0.
Proof. unfold row_diff. by apply sumZ_empty. Qed.

Lemma row_diff_last m1 m2 y x :
  0 ≤ x → row_diff m1 m2 y (x + 1) = row_diff m1 m2 y x + cell_diff m1 m2 y x.
Proof. intros Hx. unfold row_diff. by apply sumZ_last. Qed.

Lemma row_diff_range m1 m2 y x : 0 ≤ x → 0 ≤ row_diff m1 m2 y x ≤ x.
Proof.
  intros Hx. pose proof (sumZ_bound 0 x (cell_diff m1 m2 y) 1 Hx) as Hb.
  unfold row_diff. assert (0 ≤ sumZ 0 x (cell_diff m1 m2 y) ≤ 1 * (x - 0)); [|lia].
  apply Hb. intros. apply cell_diff_range.
Qed.

Lemma diff_count_range m1 m2 : 0 ≤ diff_count m1 m2 ≤ gameRows * gameColumns.
Proof.
  unfold diff_count.
  pose proof (sumZ_bound 0 gameRows (λ y, row_diff m1 m2 y gameColumns) gameColumns) as Hb.
  enough (0 ≤ sumZ 0 gameRows (λ y, row_diff m1 m2 y gameColumns)
            ≤ gameColumns * (gameRows - 0)) by lia.
  apply Hb; [done|]. intros y _. by apply row_diff_range.
Qed.

Lemma diff_count_refl m : diff_count m m = 0.
Proof.
  unfold diff_count. apply sumZ_zero. intros y _.
  apply sumZ_zero. intros x _. unfold cell_diff. by case_decide.
Qed.

(** For boolean maps a byte differs exactly when the truth value does. *)
Lemma cell_diff_alive m1 m2 y x :
  wf m1 → wf m2 → boolean m1 → boolean m2 →
  0 ≤ y < gameRows → 0 ≤ x < gameColumns →
  cell_diff m1 m2 y x = if decide (alive m1 y x = alive m2 y x) then 0 else 1.
Proof.
  intros Hwf1 Hwf2 Hb1 Hb2 Hy Hx. unfold cell_diff.
  rewrite !boolean_get_alive by done.
  repeat case_decide; try done; [|congruence].
  by simplify_eq; destruct (alive m1 y x), (alive m2 y x).
Qed.

End Grid.

#[export] Hint Resolve Grid.zero_wf Grid.zero_boolean Grid.tabulate_wf : gol.
#[export] Hint Resolve Grid.gameRows_range Grid.gameColumns_range : gol.
