(* ===== verification/Boards.v ===== *)
(** * Boards: concrete generations

    Generation maps given by their live cells ([Boards.of_cells]): a single
    cell, the 2x2 block, the blinker lying and standing, a corner cluster
    with cells on the opposite edges, and a map that breaks the cell
    invariant, with the function that lists the live cells of a map.  They
    are the inputs at which the general theorems of [Engine], [Render],
    [Scenarios] and [Main] are instantiated. *)

From Stdlib Require Import ZArith Lia.
From stdpp Require Import list list_numbers option.
From S2P Require Import Prelude.
From S2P Require Import Grid.

#[local] Open Scope Z_scope.

Module Boards.

(** The map whose live cells are the listed [(row, column)] positions. *)
Definition of_cells (cells : list (Z * Z)) : Grid.genMap :=
  Grid.tabulate (λ y x, of_bool (bool_decide ((y, x) ∈ cells))).

(** The live cells of a map, in row-major order. *)
Definition live_cells (m : Grid.genMap) : list (Z * Z) :=
  y ← seqZ 0 gameRows; x ← seqZ 0 gameColumns;
  if Grid.alive m y x then [(y, x)] else [].

(** A single live cell in the middle of the board. *)
Definition lone : Grid.genMap := of_cells [(10, 20)].

(** The 2x2 block, a still life. *)
Definition block : Grid.genMap := of_cells [(10, 20); (10, 21); (11, 20); (11, 21)].

(** The blinker, lying and standing, centred on [(10, 20)]. *)
Definition blinker_h : Grid.genMap := of_cells [(10, 19); (10, 20); (10, 21)].
Definition blinker_v : Grid.genMap := of_cells [(9, 20); (10, 20); (11, 20)].

(** Three live cells in the top left corner, and cells on the opposite
    edges that a toroidal board would count as neighbours of [(0, 0)]. *)
Definition corner : Grid.genMap :=
  of_cells [(0, 0); (0, 1); (1, 0); (31, 0); (0, 63); (31, 63); (31, 1); (1, 63)].

(** A map that breaks the cell invariant: a live cell stored as 2. *)
Definition stray : Grid.genMap :=
  default Grid.zero (Grid.set Grid.zero 10 20 2).

Lemma of_cells_wf cells : Grid.wf (of_cells cells).
Proof. apply Grid.tabulate_wf. Qed.

Lemma of_cells_boolean cells : Grid.boolean (of_cells cells).
Proof. apply Grid.tabulate_boolean. intros y x. apply of_bool_cases. Qed.

Lemma alive_of_cells cells y x :
  0 ≤ y < gameRows → 0 ≤ x < gameColumns →
  Grid.alive (of_cells cells) y x = bool_decide ((y, x) ∈ cells).
Proof. intros Hy Hx. unfold of_cells. by rewrite Grid.alive_tabulate. Qed.

(** Listing the live cells of a board built from a list gives the list
    back, here for the blinker. *)
Example live_cells_blinker : live_cells blinker_h = [(10, 19); (10, 20); (10, 21)].
Proof. by vm_compute. Qed.

End Boards.

#[export] Hint Resolve Boards.of_cells_wf Boards.of_cells_boolean : gol.
