(* ===== verification/Life.v ===== *)
(** * Life: the abstract specification

    Conway's Game of Life on a bounded board, independent of how the
    program stores a generation.  A generation is a field [Z -> Z -> bool];
    the board has [rows] x [cols] cells and hard edges: a position outside
    it is never alive and is never counted as a neighbour.  Generations
    are compared on the board ([Life.board_eq], decidable); a generation
    that comes back after [p] steps has period [p]
    ([Life.iterate_period]).  [Engine] proves that the C++ methods compute
    [Life.next] and [Life.changes]. *)

From Stdlib Require Import ZArith Lia.
From stdpp Require Import list list_numbers option.
From S2P Require Import Prelude.

#[local] Open Scope Z_scope.

Module Life.

(** A generation: which positions hold a live cell. *)
Definition field : Type := Z → Z → bool.

(** The field with no live cell. *)
Definition empty : field := λ _ _, false.

(** Conway's rule: a live cell survives with two or three live neighbours,
    a dead cell comes alive with exactly three. *)
Definition rule (alive : bool) (n : Z) : bool :=
  if alive then bool_decide (n = 2 ∨ n = 3) else bool_decide (n = 3).

(** The eight neighbour offsets, row offset first. *)
Definition offsets : list (Z * Z) :=
  [(-1, -1); (-1, 0); (-1, 1); (0, -1); (0, 1); (1, -1); (1, 0); (1, 1)].

(** Fields are compared cell by cell. *)
Definition feq : relation field := pointwise_relation Z (pointwise_relation Z eq).

Section board.
Context (rows cols : Z).
Implicit Types (f g : field) (y x : Z).

(** Is [(y, x)] a position of the board? *)
Definition inside y x : bool := bool_decide (0 ≤ y < rows ∧ 0 ≤ x < cols).

(** 1 for a live cell of the board, 0 for a dead cell or a position
    outside the board. *)
Definition live_at f y x : Z := if inside y x && f y x then 1 else 0.

(** The number of live cells among the eight neighbours of [(y, x)]. *)
Definition live_neighbours f y x : Z :=
  foldr (λ d n, live_at f (y + d.1) (x + d.2) + n) 0 offsets.

(** One generation step. *)
Definition next f : field :=
  λ y x, inside y x && rule (f y x) (live_neighbours f y x).

(** [n] generation steps. *)
Definition iterate (n : nat) f : field := Nat.iter n next f.

(** The number of board cells on which two fields differ. *)
Definition changes f g : Z :=
  sumZ 0 rows (λ y, sumZ 0 cols (λ x, if decide (f y x = g y x) then 0 else 1)).

(** Two fields agree on the board. *)
Definition board_eq : relation field :=
  λ f g, ∀ y x, 0 ≤ y < rows → 0 ≤ x < cols → f y x = g y x.

(** ** The rule *)

Lemma rule_three a : rule a 3 = true.
Proof. by destruct a. Qed.

Lemma rule_two a : rule a 2 = a.
Proof. by destruct a. Qed.

Lemma rule_isolation a n : n < 2 → rule a n = false.
Proof. intros Hn. destruct a; simpl; apply bool_decide_eq_false_2; lia. Qed.

Lemma rule_overpopulation a n : 3 < n → rule a n = false.
Proof. intros Hn. destruct a; simpl; apply bool_decide_eq_false_2; lia. Qed.

Lemma rule_true a n : rule a n = true ↔ n = 3 ∨ (a = true ∧ n = 2).
Proof. destruct a; simpl; rewrite bool_decide_eq_true; naive_solver. Qed.

(** ** Positions and neighbour counts *)

Lemma inside_true y x : inside y x = true ↔ 0 ≤ y < rows ∧ 0 ≤ x < cols.
Proof. unfold inside. by rewrite bool_decide_eq_true. Qed.

Lemma inside_false y x : inside y x = false ↔ ¬ (0 ≤ y < rows ∧ 0 ≤ x < cols).
Proof. unfold inside. by rewrite bool_decide_eq_false. Qed.

Lemma live_at_range f y x : 0 ≤ live_at f y x ≤ 1.
Proof. unfold live_at. destruct (_ && _); lia. Qed.

Lemma live_at_outside f y x : ¬ (0 ≤ y < rows ∧ 0 ≤ x < cols) → live_at f y x = 0.
Proof. intros Hout%inside_false. unfold live_at. by rewrite Hout. Qed.

Lemma live_at_inside f y x :
  0 ≤ y < rows → 0 ≤ x < cols → live_at f y x = if f y x then 1 else 0.
Proof.
  intros Hy Hx. unfold live_at.
  by rewrite (proj2 (inside_true y x)).
Qed.

(** The count written out as the eight terms of the neighbourhood. *)
Lemma live_neighbours_unfold f y x :
  live_neighbours f y x =
    live_at f (y - 1) (x - 1) + live_at f (y - 1) x + live_at f (y - 1) (x + 1)
    + live_at f y (x - 1) + live_at f y (x + 1)
    + live_at f (y + 1) (x - 1) + live_at f (y + 1) x + live_at f (y + 1) (x + 1).
Proof.
  unfold live_neighbours, offsets, foldr, fst, snd.
  rewrite !Z.add_0_r, !Z.add_assoc. done.
Qed.

Lemma live_neighbours_range f y x : 0 ≤ live_neighbours f y x ≤ 8.
Proof.
  rewrite live_neighbours_unfold.
  pose proof (live_at_range f (y - 1) (x - 1)). pose proof (live_at_range f (y - 1) x).
  pose proof (live_at_range f (y - 1) (x + 1)). pose proof (live_at_range f y (x - 1)).
  pose proof (live_at_range f y (x + 1)). pose proof (live_at_range f (y + 1) (x - 1)).
  pose proof (live_at_range f (y + 1) x). pose proof (live_at_range f (y + 1) (x + 1)).
  lia.
Qed.

Lemma live_neighbours_empty y x : live_neighbours empty y x = 0.
Proof.
  rewrite live_neighbours_unfold. unfold live_at, empty.
  by rewrite !andb_false_r.
Qed.

(** ** Cells outside the board do not matter *)

Lemma live_at_board_eq f g y x : board_eq f g → live_at f y x = live_at g y x.
Proof.
  intros Hfg. unfold live_at. destruct (inside y x) eqn:Hin; [|done].
  apply inside_true in Hin as [Hy Hx]. by rewrite (Hfg y x).
Qed.

Lemma live_neighbours_board_eq f g y x :
  board_eq f g → live_neighbours f y x = live_neighbours g y x.
Proof.
  intros Hfg. rewrite !live_neighbours_unfold.
  by rewrite !(live_at_board_eq f g _ _ Hfg).
Qed.

Lemma next_outside f y x : ¬ (0 ≤ y < rows ∧ 0 ≤ x < cols) → next f y x = false.
Proof. intros Hout%inside_false. unfold next. by rewrite Hout. Qed.

Lemma next_inside f y x :
  0 ≤ y < rows → 0 ≤ x < cols → next f y x = rule (f y x) (live_neighbours f y x).
Proof. intros Hy Hx. unfold next. by rewrite (proj2 (inside_true y x)). Qed.

(** The step only reads the board: fields that agree on the board have the
    same next generation everywhere. *)
Lemma next_board_eq f g : board_eq f g → feq (next f) (next g).
Proof.
  intros Hfg y x. unfold next. destruct (inside y x) eqn:Hin; [|done].
  apply inside_true in Hin as [Hy Hx].
  by rewrite (Hfg y x), (live_neighbours_board_eq f g).
Qed.

Lemma next_empty : feq (next empty) empty.
Proof.
  intros y x. unfold next. rewrite live_neighbours_empty.
  unfold empty. simpl. apply andb_false_r.
Qed.

(** ** Iteration *)

Lemma iterate_next n f : iterate (S n) f = iterate n (next f).
Proof. unfold iterate. apply Nat.iter_succ_r. Qed.

(** ** Counting changes *)

Lemma changes_range f g : 0 ≤ rows → 0 ≤ cols → 0 ≤ changes f g ≤ rows * cols.
Proof.
  intros Hr Hc. unfold changes.
  enough (0 ≤ sumZ 0 rows (λ y, sumZ 0 cols (λ x, if decide (f y x = g y x) then 0 else 1))
            ≤ cols * (rows - 0)) by lia.
  apply sumZ_bound; [done|]. intros y _.
  enough (0 ≤ sumZ 0 cols (λ x, if decide (f y x = g y x) then 0 else 1)
            ≤ 1 * (cols - 0)) by lia.
  apply sumZ_bound; [done|]. intros x _. case_decide; lia.
Qed.

Lemma changes_zero f g : board_eq f g → changes f g = 0.
Proof.
  intros Hfg. unfold changes. apply sumZ_zero. intros y Hy.
  apply sumZ_zero. intros x Hx. rewrite (Hfg y x) by done. by case_decide.
Qed.

Lemma changes_sym f g : changes f g = changes g f.
Proof.
  unfold changes. apply sumZ_ext; intros y _. apply sumZ_ext; intros x _.
  repeat case_decide; congruence.
Qed.

Lemma changes_board_eq f f' g g' :
  board_eq f f' → board_eq g g' → changes f g = changes f' g'.
Proof.
  intros Hf Hg. unfold changes. apply sumZ_ext. intros y Hy.
  apply sumZ_ext. intros x Hx. by rewrite (Hf y x), (Hg y x).
Qed.

End board.

(** ** Setoid structure *)

#[export] Instance feq_equivalence : Equivalence feq.
Proof. unfold feq. apply _. Qed.

#[export] Instance board_eq_equivalence rows cols : Equivalence (board_eq rows cols).
Proof.
  split.
  - by intros f y x.
  - intros f g Hfg y x Hy Hx. by rewrite Hfg.
  - intros f g h Hfg Hgh y x Hy Hx. by rewrite Hfg, Hgh.
Qed.

#[export] Instance feq_board_eq rows cols : subrelation feq (board_eq rows cols).
Proof. intros f g Hfg y x _ _. apply Hfg. Qed.

#[export] Instance live_neighbours_proper rows cols :
  Proper (board_eq rows cols ==> eq ==> eq ==> eq) (live_neighbours rows cols).
Proof. intros f g Hfg y ? <- x ? <-. by apply live_neighbours_board_eq. Qed.

#[export] Instance next_proper rows cols :
  Proper (board_eq rows cols ==> feq) (next rows cols).
Proof. intros f g Hfg. by apply next_board_eq. Qed.

#[export] Instance changes_proper rows cols :
  Proper (board_eq rows cols ==> board_eq rows cols ==> eq) (changes rows cols).
Proof. intros f f' Hf g g' Hg. by apply changes_board_eq. Qed.

#[export] Instance iterate_proper rows cols n :
  Proper (board_eq rows cols ==> board_eq rows cols) (iterate rows cols n).
Proof.
  intros f g Hfg. induction n as [|n IH]; [done|].
  unfold iterate in *. simpl. by rewrite IH.
Qed.

(** ** Periodic generations *)

Section periods.
Context (rows cols : Z).
Implicit Types (f g : field) (n m p : nat).

Lemma iterate_add n m f :
  iterate rows cols (n + m) f = iterate rows cols n (iterate rows cols m f).
Proof. apply Nat.iter_add. Qed.

Lemma iterate_multiple p f q r :
  board_eq rows cols (iterate rows cols p f) f →
  board_eq rows cols (iterate rows cols (q * p + r) f) (iterate rows cols r f).
Proof.
  intros Hp. induction q as [|q IH]; [done|].
  replace (S q * p + r)%nat with ((q * p + r) + p)%nat by lia.
  rewrite iterate_add. etrans; [|exact IH]. by apply iterate_proper.
Qed.

(** A generation that comes back after [p] steps is, after [n] steps,
    where it was after [n mod p]. *)
Lemma iterate_period p f n :
  board_eq rows cols (iterate rows cols p f) f →
  board_eq rows cols (iterate rows cols n f) (iterate rows cols (n `mod` p) f).
Proof.
  intros Hp. rewrite (Nat.div_mod_eq n p) at 1. rewrite Nat.mul_comm.
  by apply iterate_multiple.
Qed.

Lemma board_eq_Forall f g :
  board_eq rows cols f g
  ↔ Forall (λ y, Forall (λ x, f y x = g y x) (seqZ 0 cols)) (seqZ 0 rows).
Proof.
  unfold board_eq. rewrite list.Forall_forall. setoid_rewrite list.Forall_forall.
  setoid_rewrite elem_of_seqZ. split.
  - intros H y Hy x Hx. apply H; lia.
  - intros H y x Hy Hx. apply H; lia.
Qed.

#[export] Instance board_eq_dec f g : Decision (board_eq rows cols f g) :=
  match decide (Forall (λ y, Forall (λ x, f y x = g y x) (seqZ 0 cols)) (seqZ 0 rows)) with
  | left H => left (proj2 (board_eq_Forall f g) H)
  | right H => right (λ H', H (proj1 (board_eq_Forall f g) H'))
  end.

End periods.

End Life.

#[export] Existing Instance Life.board_eq_dec.
#[export] Existing Instance Life.board_eq_equivalence.
#[export] Hint Resolve Life.live_neighbours_range Life.live_at_range : gol.
#[export] Hint Rewrite Life.rule_three Life.rule_two Life.live_neighbours_empty : gol.
