(* ===== verification/Orbit.v ===== *)
(** * Orbit: every sequence of generations ends in a cycle

    The board is finite, so the generations that follow one another can
    not all be different: some generation comes back, and from then on
    the game repeats itself ([Orbit.eventually_periodic]).  The proof
    never counts the 2 ^ (rows * cols) boards: the cells of a board are a
    vector of booleans ([snapshot]), vectors of booleans are a finite type,
    and the pigeonhole principle of stdpp gives two equal snapshots among
    the first [2 ^ (rows * cols) + 1] generations.

    For a program that watches the number of cells a step changes, as the
    sketch does, this gives a dichotomy ([Orbit.settles]): either some
    step changes at most [threshold] cells, or the generations end in a
    cycle every step of which changes more than [threshold] cells.  The
    case distinction is a search through the generations before the cycle
    closes, so the dichotomy needs no classical axiom. *)

From Stdlib Require Import ZArith Lia.
From stdpp Require Import list list_numbers option fin vector finite.
From S2P Require Import Prelude.
From S2P Require Import Life.

#[local] Open Scope Z_scope.

Module Orbit.

Section definitions.
Context (rows cols threshold : Z).

(** The number of cells of the board. *)
Definition size : nat := Z.to_nat (rows * cols).

(** The cells of the board as a vector, row by row. *)
Definition snapshot (f : Life.field) : vec bool size :=
  fun_to_vec (λ i : fin size, f (Z.of_nat i `div` cols) (Z.of_nat i `mod` cols)).

(** The number of cells step [k] changes: the cells on which generation
    [k] and generation [k + 1] differ. *)
Definition activity (f : Life.field) (k : nat) : Z :=
  Life.changes rows cols (Life.iterate rows cols k f) (Life.iterate rows cols (S k) f).

(** The first [n] steps each change more than [threshold] cells. *)
Definition lively (n : nat) (f : Life.field) : Prop :=
  ∀ k, (k < n)%nat → threshold < activity f k.

(** The generations are in a cycle of length [p] from generation [t]
    on. *)
Definition cycle (t p : nat) (f : Life.field) : Prop :=
  (0 < p)%nat ∧
  Life.board_eq rows cols (Life.iterate rows cols (t + p) f) (Life.iterate rows cols t f).

End definitions.

Section board.
Context (rows cols : Z).
Implicit Types (f g : Life.field) (t p k n m : nat).

#[local] Abbreviation next := (Life.next rows cols).
#[local] Abbreviation iterate := (Life.iterate rows cols).
#[local] Abbreviation board_eq := (Life.board_eq rows cols).
#[local] Abbreviation snapshot := (snapshot rows cols).
#[local] Abbreviation activity := (activity rows cols).
#[local] Abbreviation cycle := (cycle rows cols).

(** ** Boards are finitely many *)

(** The position of a cell in the snapshot. *)
Lemma index_range y x :
  0 ≤ y < rows → 0 ≤ x < cols → (Z.to_nat (y * cols + x) < size rows cols)%nat.
Proof. intros Hy Hx. unfold size. nia. Qed.

(** Two generations with the same snapshot agree on the board. *)
Lemma snapshot_board_eq f g : snapshot f = snapshot g → board_eq f g.
Proof.
  intros Hs y x Hy Hx.
  pose proof (f_equal (.!!! nat_to_fin (index_range y x Hy Hx)) Hs) as Hi.
  unfold Orbit.snapshot in Hi. rewrite !lookup_fun_to_vec, fin_to_nat_to_fin in Hi.
  rewrite Z2Nat.id, Z.div_add_l, Z.div_small, Z.add_0_r in Hi by (lia || nia).
  by rewrite (Z.add_comm _ x), Z.mod_add, Z.mod_small in Hi by lia.
Qed.

(** Among the first [2 ^ size + 1] generations two are the same. *)
Lemma repeats f : ∃ i j, (i < j)%nat ∧ board_eq (iterate j f) (iterate i f).
Proof.
  destruct (finite_pigeonhole
    (λ k : fin (S (2 ^ size rows cols)), snapshot (iterate k f))) as (k1 & k2 & Hne & Heq).
  { rewrite vec_card, bool_card, fin_card. apply Nat.lt_succ_diag_r. }
  apply snapshot_board_eq in Heq. apply (not_inj (f := fin_to_nat)) in Hne.
  destruct (decide (k1 < k2)%nat); [exists k1, k2|exists k2, k1];
    (split; [lia|done]).
Qed.

(** ** Cycles *)

(** Every sequence of generations ends in a cycle. *)
Lemma eventually_periodic f : ∃ t p, cycle t p f.
Proof.
  destruct (repeats f) as (i & j & Hij & Heq). exists i, (j - i)%nat.
  split; [lia|]. by replace (i + (j - i))%nat with j by lia.
Qed.

(** In a cycle generation [t + m] is generation [t + m mod p]. *)
Lemma cycle_iterate t p f m :
  cycle t p f → board_eq (iterate (t + m) f) (iterate (t + m `mod` p) f).
Proof.
  intros [Hp Hc]. rewrite !(Nat.add_comm t), !Life.iterate_add.
  apply Life.iterate_period. by rewrite <- Life.iterate_add, Nat.add_comm.
Qed.

(** Generations that agree on the board have the same activity. *)
Lemma activity_board_eq f k k' :
  board_eq (iterate k f) (iterate k' f) → activity f k = activity f k'.
Proof.
  intros Hk. apply Life.changes_board_eq; [done|].
  change (board_eq (next (iterate k f)) (next (iterate k' f))).
  intros y x _ _. by apply Life.next_board_eq.
Qed.

(** So the activity of every step is the activity of a step before the
    cycle closes. *)
Lemma cycle_activity t p f k :
  cycle t p f → ∃ k', (k' < t + p)%nat ∧ activity f k = activity f k'.
Proof.
  intros Hc. destruct (decide (k < t + p)%nat) as [|Hk]; [by exists k|].
  exists (t + (k - t) `mod` p)%nat. split.
  - pose proof (Nat.mod_upper_bound (k - t) p ltac:(destruct Hc; lia)). lia.
  - apply activity_board_eq. replace k with (t + (k - t))%nat at 1 by lia.
    by apply cycle_iterate.
Qed.

(** ** Lively and still *)

Section threshold.
Context (threshold : Z).

#[local] Abbreviation lively := (lively rows cols threshold).

Lemma lively_le n m f : (m ≤ n)%nat → lively n f → lively m f.
Proof. intros Hm Hn k Hk. apply Hn. lia. Qed.

(** Either the first [n] steps are lively, or there is a first step that
    is not. *)
Lemma lively_first n f :
  lively n f ∨ ∃ k, (k < n)%nat ∧ lively k f ∧ activity f k ≤ threshold.
Proof.
  induction n as [|n [IH|(k & Hk & IH)]].
  - left. intros k Hk. lia.
  - destruct (decide (threshold < activity f n)) as [Hn|Hn].
    + left. intros k Hk. destruct (decide (k = n)) as [->|]; [done|]. apply IH. lia.
    + right. exists n. split; [lia|]. split; [done|lia].
  - right. exists k. split; [lia|done].
Qed.

(** A sequence of generations whose steps are lively until the cycle
    closes is lively for ever. *)
Lemma cycle_lively t p f n : cycle t p f → lively (t + p) f → lively n f.
Proof.
  intros Hc Hl k _. destruct (cycle_activity t p f k Hc) as (k' & Hk' & ->). by apply Hl.
Qed.

(** The dichotomy: either there is a first step that changes at most
    [threshold] cells, or the generations end in a cycle and every step,
    before the cycle and in it, changes more than [threshold] cells. *)
Lemma settles f :
  (∃ k, lively k f ∧ activity f k ≤ threshold)
  ∨ (∃ t p, cycle t p f ∧ ∀ n, lively n f).
Proof.
  destruct (eventually_periodic f) as (t & p & Hc).
  destruct (lively_first (t + p) f) as [Hl|(k & _ & Hk)].
  - right. exists t, p. split; [done|]. intros n. by apply (cycle_lively t p).
  - left. by exists k.
Qed.

End threshold.

End board.

End Orbit.
