(* ===== verification/Patterns.v ===== *)
(** * Patterns: generations given by their live cells

    A generation with finitely many live cells is a list of positions
    ([Patterns.cells]).  This file holds the named patterns of the
    specification (single cell, block, blinker) by their anchor cell, and
    the facts on membership.  [Plane] steps them, at every position of
    every board. *)

From Stdlib Require Import ZArith Lia.
From stdpp Require Import list list_numbers option.
From S2P Require Import Prelude.
From S2P Require Import Life.

#[local] Open Scope Z_scope.

Module Patterns.

(** The field whose live cells are the listed [(row, column)] positions. *)
Definition cells (l : list (Z * Z)) : Life.field := λ y x, bool_decide ((y, x) ∈ l).

(** The named patterns, by their anchor cell. *)
Definition single (y x : Z) : list (Z * Z) := [(y, x)].
Definition block (y x : Z) : list (Z * Z) := [(y, x); (y, x + 1); (y + 1, x); (y + 1, x + 1)].
Definition blinker_h (y x : Z) : list (Z * Z) := [(y, x - 1); (y, x); (y, x + 1)].
Definition blinker_v (y x : Z) : list (Z * Z) := [(y - 1, x); (y, x); (y + 1, x)].

(** A position of the board. *)
Definition on_board (rows cols : Z) (c : Z * Z) : Prop := 0 ≤ c.1 < rows ∧ 0 ≤ c.2 < cols.

#[export] Instance on_board_dec rows cols c : Decision (on_board rows cols c).
Proof. unfold on_board. apply _. Defined.

Section membership.
Implicit Types (l : list (Z * Z)) (c : Z * Z) (y x : Z).

Lemma cells_nil y x : cells [] y x = false.
Proof. unfold cells. apply bool_decide_eq_false_2. by intros ?%elem_of_nil. Qed.

Lemma cells_cons c l y x :
  cells (c :: l) y x = bool_decide (y = c.1 ∧ x = c.2) || cells l y x.
Proof.
  unfold cells. destruct c as [cy cx]. simpl.
  destruct (bool_decide_reflect (y = cy ∧ x = cx)) as [[-> ->]|Hne]; simpl.
  - apply bool_decide_eq_true_2. left.
  - apply bool_decide_ext. rewrite elem_of_cons.
    split; [intros [[= -> ->]|?]; [by destruct Hne|done]|by right].
Qed.

Lemma cells_app l1 l2 y x : cells (l1 ++ l2) y x = cells l1 y x || cells l2 y x.
Proof.
  induction l1 as [|c l1 IH]; [by rewrite cells_nil|].
  by rewrite <- app_comm_cons, !cells_cons, IH, orb_assoc.
Qed.

Lemma cells_not_elem c l : c ∉ l → cells l c.1 c.2 = false.
Proof. intros Hc. unfold cells. apply bool_decide_eq_false_2. by destruct c. Qed.

Lemma cells_empty : Life.feq (cells []) Life.empty.
Proof. intros y x. apply cells_nil. Qed.

End membership.

End Patterns.
