(* ===== verification/Plane.v ===== *)
(** * Plane: the game away from the edges

    The specification of [Life] is the game on a bounded board.  The game
    as it is usually defined lives on the unbounded plane: [Plane.step]
    counts the eight neighbours wherever they are.  This file relates the
    two: the bounded step agrees with the step on the plane exactly as
    long as the generation and its successor fit the board
    ([Plane.next_step]), and the step on the plane commutes with every
    translation ([Plane.step_shift]).  Together they say that a pattern
    behaves the same wherever it is put, until it touches an edge.

    A generation with finitely many live cells is checked by running the
    step on a box around them ([Plane.step_cells]).  The named patterns
    of the specification (single cell, block, blinker) and the glider,
    which the step moves one cell down and one cell right every four
    generations, are stepped that way once, where their lists are written
    down, and then at every position of every board that holds them
    ([Plane.next_move], [Plane.changes_move]). *)

From Stdlib Require Import ZArith Lia.
From stdpp Require Import list list_numbers option.
From S2P Require Import Prelude.
From S2P Require Import Life.
From S2P Require Import Patterns.

#[local] Open Scope Z_scope.

Module Plane.

Implicit Types (f g : Life.field) (l : list (Z * Z)) (y x dy dx : Z).

(** The number of live cells among the eight neighbours of [(y, x)]. *)
Definition count f y x : Z :=
  foldr (λ d n, (if f (y + d.1) (x + d.2) then 1 else 0) + n) 0 Life.offsets.

(** One generation on the plane. *)
Definition step f : Life.field := λ y x, Life.rule (f y x) (count f y x).

(** [n] generations on the plane. *)
Definition steps (n : nat) f : Life.field := Nat.iter n step f.

(** The field moved [dy] rows down and [dx] columns to the right. *)
Definition shift dy dx f : Life.field := λ y x, f (y - dy) (x - dx).

(** The listed cells moved likewise. *)
Definition move dy dx l : list (Z * Z) := (λ c, (c.1 + dy, c.2 + dx)) <$> l.

(** Every live cell lies in rows [a] to [b] and columns [c] to [d]. *)
Definition boxed (a b c d : Z) f : Prop := ∀ y x, f y x = true → a ≤ y ≤ b ∧ c ≤ x ≤ d.

(** Every live cell lies on the board. *)
Definition fits (rows cols : Z) f : Prop := boxed 0 (rows - 1) 0 (cols - 1) f.

(** Two fields agree on a box; the check runs over its cells. *)
Definition agree (a b c d : Z) f g : Prop :=
  Forall (λ y, Forall (λ x, f y x = g y x) (seqZ c (d - c + 1))) (seqZ a (b - a + 1)).

(** The cells of a list lie in a box. *)
Definition within (a b c d : Z) l : Prop := Forall (λ p, a ≤ p.1 ≤ b ∧ c ≤ p.2 ≤ d) l.

(** The number of cells of a box on which two listed generations differ. *)
Definition differ (a b c d : Z) l l' : Z :=
  sumZ a (b + 1) (λ y, sumZ c (d + 1) (λ x,
    if decide (Patterns.cells l y x = Patterns.cells l' y x) then 0 else 1)).

(** The glider with the top left corner of its 3x3 square at the origin,
    and the three generations that follow it. *)
Definition glider_0 : list (Z * Z) := [(0, 1); (1, 2); (2, 0); (2, 1); (2, 2)].
Definition glider_1 : list (Z * Z) := [(1, 0); (1, 2); (2, 1); (2, 2); (3, 1)].
Definition glider_2 : list (Z * Z) := [(1, 2); (2, 0); (2, 2); (3, 1); (3, 2)].
Definition glider_3 : list (Z * Z) := [(1, 1); (2, 2); (2, 3); (3, 1); (3, 2)].

(** The glider whose 3x3 square has its top left corner at [(y, x)], in
    its phase [k] of four. *)
Definition phase (k : nat) : list (Z * Z) :=
  match k with
  | 0%nat => glider_0
  | 1%nat => glider_1
  | 2%nat => glider_2
  | 3%nat => glider_3
  | _ => move 1 1 glider_0
  end.

Definition glider y x : list (Z * Z) := move y x glider_0.

#[export] Instance agree_dec a b c d f g : Decision (agree a b c d f g).
Proof. unfold agree. apply _. Defined.

#[export] Instance within_dec a b c d l : Decision (within a b c d l).
Proof. unfold within. apply _. Defined.

(** ** Counting *)

Lemma count_unfold f y x :
  count f y x =
    of_bool (f (y - 1) (x - 1)) + of_bool (f (y - 1) x) + of_bool (f (y - 1) (x + 1))
    + of_bool (f y (x - 1)) + of_bool (f y (x + 1))
    + of_bool (f (y + 1) (x - 1)) + of_bool (f (y + 1) x) + of_bool (f (y + 1) (x + 1)).
Proof.
  unfold count, Life.offsets, foldr, fst, snd, of_bool.
  rewrite !Z.add_0_r, !Z.add_assoc. done.
Qed.

Lemma count_ext f g y x :
  (∀ y' x', y - 1 ≤ y' ≤ y + 1 → x - 1 ≤ x' ≤ x + 1 → f y' x' = g y' x') →
  count f y x = count g y x.
Proof. intros H. rewrite !count_unfold. rewrite !H by lia. done. Qed.

#[export] Instance count_proper : Proper (Life.feq ==> eq ==> eq ==> eq) count.
Proof. intros f g H y ? <- x ? <-. apply count_ext. intros. apply H. Qed.

#[export] Instance step_proper : Proper (Life.feq ==> Life.feq) step.
Proof. intros f g H y x. unfold step. by rewrite (H y x), (count_proper f g H y y eq_refl x x eq_refl). Qed.

#[export] Instance steps_proper n : Proper (Life.feq ==> Life.feq) (steps n).
Proof. intros f g H. induction n as [|n IH]; [done|]. cbn. by apply step_proper. Qed.

Lemma steps_S n f : steps (S n) f = step (steps n f).
Proof. done. Qed.

Lemma steps_add n m f : steps (n + m) f = steps n (steps m f).
Proof. unfold steps. apply Nat.iter_add. Qed.

(** ** Translations *)

Lemma shift_0 f : Life.feq (shift 0 0 f) f.
Proof. intros y x. unfold shift. f_equal; lia. Qed.

Lemma shift_shift dy dx dy' dx' f :
  Life.feq (shift dy dx (shift dy' dx' f)) (shift (dy + dy') (dx + dx') f).
Proof. intros y x. unfold shift. f_equal; lia. Qed.

#[export] Instance shift_proper dy dx : Proper (Life.feq ==> Life.feq) (shift dy dx).
Proof. intros f g H y x. apply H. Qed.

(** The neighbours of the moved cell are the moved neighbours. *)
Lemma count_shift dy dx f y x : count (shift dy dx f) y x = count f (y - dy) (x - dx).
Proof.
  unfold count, shift. apply foldr_ext; [|done..]. intros d n.
  by rewrite !Z.add_sub_swap.
Qed.

(** The step on the plane commutes with every translation. *)
Lemma step_shift dy dx f : Life.feq (step (shift dy dx f)) (shift dy dx (step f)).
Proof. intros y x. unfold step. rewrite count_shift. done. Qed.

Lemma steps_shift n dy dx f : Life.feq (steps n (shift dy dx f)) (shift dy dx (steps n f)).
Proof.
  induction n as [|n IH]; [done|]. rewrite !steps_S.
  etrans; [by apply step_proper|]. apply step_shift.
Qed.

(** ** Boxes *)

Lemma boxed_mono a b c d a' b' c' d' f :
  a' ≤ a → b ≤ b' → c' ≤ c → d ≤ d' → boxed a b c d f → boxed a' b' c' d' f.
Proof. intros ???? H y x Hf. apply H in Hf. lia. Qed.

Lemma boxed_feq a b c d f g : Life.feq f g → boxed a b c d f → boxed a b c d g.
Proof. intros H Hf y x. rewrite <- (H y x). apply Hf. Qed.

Lemma boxed_outside a b c d f y x : boxed a b c d f → ¬ (a ≤ y ≤ b ∧ c ≤ x ≤ d) → f y x = false.
Proof. intros H Hn. destruct (f y x) eqn:E; [|done]. by apply H in E. Qed.

Lemma boxed_shift a b c d dy dx f :
  boxed a b c d f → boxed (a + dy) (b + dy) (c + dx) (d + dx) (shift dy dx f).
Proof. intros H y x Hf. apply H in Hf. lia. Qed.

(** A generation grows by at most one cell in every direction. *)
Lemma step_boxed a b c d f : boxed a b c d f → boxed (a - 1) (b + 1) (c - 1) (d + 1) (step f).
Proof.
  intros H y x Hs.
  destruct (decide (a - 1 ≤ y ≤ b + 1 ∧ c - 1 ≤ x ≤ d + 1)) as [|Hn]; [done|exfalso].
  unfold step in Hs. rewrite count_unfold in Hs.
  rewrite !(boxed_outside a b c d f) in Hs by (done || lia). done.
Qed.

(** [n] generations grow by at most [n] cells in every direction. *)
Lemma steps_boxed n a b c d f :
  boxed a b c d f →
  boxed (a - Z.of_nat n) (b + Z.of_nat n) (c - Z.of_nat n) (d + Z.of_nat n) (steps n f).
Proof.
  intros H. induction n as [|n IH]; [eapply boxed_mono; [..|exact H]; lia|].
  rewrite steps_S. eapply boxed_mono; [..|apply step_boxed, IH]; lia.
Qed.

(** Two fields in the same box are equal when they agree on the box. *)
Lemma agree_spec a b c d f g :
  agree a b c d f g ↔ ∀ y x, a ≤ y ≤ b → c ≤ x ≤ d → f y x = g y x.
Proof.
  unfold agree. rewrite list.Forall_forall. setoid_rewrite list.Forall_forall.
  setoid_rewrite elem_of_seqZ. split.
  - intros H y x Hy Hx. apply H; lia.
  - intros H y Hy x Hx. apply H; lia.
Qed.

Lemma boxed_agree a b c d f g :
  boxed a b c d f → boxed a b c d g → agree a b c d f g → Life.feq f g.
Proof.
  intros Hf Hg H y x.
  destruct (decide (a ≤ y ≤ b ∧ c ≤ x ≤ d)) as [[Hy Hx]|Hn].
  - by apply (proj1 (agree_spec a b c d f g) H).
  - by rewrite (boxed_outside a b c d f), (boxed_outside a b c d g).
Qed.

(** ** Lists of cells *)

Lemma cells_within a b c d l : within a b c d l → boxed a b c d (Patterns.cells l).
Proof.
  unfold within, Patterns.cells. rewrite list.Forall_forall. intros H y x Hc.
  apply bool_decide_eq_true in Hc. by apply (H (y, x)).
Qed.

Lemma cells_move dy dx l :
  Life.feq (Patterns.cells (move dy dx l)) (shift dy dx (Patterns.cells l)).
Proof.
  intros y x. unfold Patterns.cells, shift, move. apply bool_decide_ext.
  rewrite list_elem_of_fmap. split.
  - intros ([y' x'] & [= -> ->] & Hin). cbn. by rewrite !Z.add_simpl_r.
  - intros Hin. exists (y - dy, x - dx). split; [cbn; f_equal; lia|done].
Qed.

Lemma within_move a b c d dy dx l :
  within a b c d l → within (a + dy) (b + dy) (c + dx) (d + dx) (move dy dx l).
Proof.
  unfold within, move. rewrite Forall_fmap. apply Forall_impl. intros [y x]. cbn. lia.
Qed.

(** One step of a finite generation is checked on a box around it. *)
Lemma step_cells a b c d l l' :
  within (a + 1) (b - 1) (c + 1) (d - 1) l → within a b c d l' →
  agree a b c d (step (Patterns.cells l)) (Patterns.cells l') →
  Life.feq (step (Patterns.cells l)) (Patterns.cells l').
Proof.
  intros Hl Hl' H. apply (boxed_agree a b c d); [|by apply cells_within|done].
  eapply boxed_mono; [..|apply step_boxed, cells_within, Hl]; lia.
Qed.

(** ** The bounded board *)

Section board.
Context (rows cols : Z).

#[local] Abbreviation next := (Life.next rows cols).
#[local] Abbreviation iterate := (Life.iterate rows cols).

(** The bounded step never leaves the board. *)
Lemma next_fits f : fits rows cols (next f).
Proof.
  intros y x Hn. unfold Life.next in Hn. apply andb_true_iff in Hn as [Hin _].
  apply Life.inside_true in Hin. lia.
Qed.

Lemma live_at_fits f y x : fits rows cols f → Life.live_at rows cols f y x = of_bool (f y x).
Proof.
  intros Hf. unfold Life.live_at. destruct (f y x) eqn:E; [|by rewrite andb_false_r].
  apply Hf in E. rewrite (proj2 (Life.inside_true rows cols y x)) by lia. done.
Qed.

(** On a generation that fits the board no neighbour is lost at an edge. *)
Lemma live_neighbours_fits f y x :
  fits rows cols f → Life.live_neighbours rows cols f y x = count f y x.
Proof.
  intros Hf. rewrite Life.live_neighbours_unfold, count_unfold.
  by rewrite !live_at_fits.
Qed.

(** The bounded step is the step on the plane exactly when the successor
    on the plane still fits the board. *)
Lemma next_step f :
  fits rows cols f → Life.feq (next f) (step f) ↔ fits rows cols (step f).
Proof.
  intros Hf. split.
  - intros H. eapply boxed_feq; [exact H|apply next_fits].
  - intros Hs y x. unfold Life.next, step. rewrite live_neighbours_fits by done.
    destruct (Life.rule (f y x) (count f y x)) eqn:E; [|by rewrite andb_false_r].
    apply Hs in E. rewrite (proj2 (Life.inside_true rows cols y x)) by lia. done.
Qed.

(** As long as the generations on the plane fit the board, the bounded
    game is the game on the plane. *)
Lemma iterate_steps n f :
  (∀ k, (k ≤ n)%nat → fits rows cols (steps k f)) →
  Life.feq (iterate n f) (steps n f).
Proof.
  induction n as [|n IH]; intros Hf; [done|].
  change (iterate (S n) f) with (next (iterate n f)). rewrite steps_S.
  etrans; [apply Life.next_board_eq; intros y x _ _; apply IH; intros k Hk; apply Hf; lia|].
  apply next_step; [apply Hf; lia|apply (Hf (S n)); lia].
Qed.

(** The cells on which two generations differ are counted on any box of
    the board that holds both. *)
Lemma changes_boxed a b c d f g :
  boxed a b c d f → boxed a b c d g → 0 ≤ a → b < rows → 0 ≤ c → d < cols →
  Life.changes rows cols f g
  = sumZ a (b + 1) (λ y, sumZ c (d + 1) (λ x, if decide (f y x = g y x) then 0 else 1)).
Proof.
  intros Hf Hg ? ? ? ?.
  apply (sumZ_support2 rows cols a (b + 1) c (d + 1)
           (λ y x, if decide (f y x = g y x) then 0 else 1)); try lia.
  intros y x Hne. case_decide as Hfg; [done|].
  specialize (Hf y x). specialize (Hg y x). destruct (f y x), (g y x); try done; lia.
Qed.

(** Where two generations that fit the board before and after a
    translation differ. *)
Lemma differ_shift dy dx f g y x :
  fits rows cols f → fits rows cols g →
  fits rows cols (shift dy dx f) → fits rows cols (shift dy dx g) →
  f y x ≠ g y x →
  Z.max 0 (- dy) ≤ y < Z.min rows (rows - dy) ∧ Z.max 0 (- dx) ≤ x < Z.min cols (cols - dx).
Proof.
  intros Hf Hg Hf' Hg' Hne.
  specialize (Hf y x). specialize (Hg y x).
  specialize (Hf' (y + dy) (x + dx)). specialize (Hg' (y + dy) (x + dx)).
  unfold shift in Hf', Hg'. rewrite !Z.add_simpl_r in Hf', Hg'.
  destruct (f y x), (g y x); try done; lia.
Qed.

(** Two generations differ in as many cells as their translations. *)
Lemma changes_shift dy dx f g :
  fits rows cols f → fits rows cols g →
  fits rows cols (shift dy dx f) → fits rows cols (shift dy dx g) →
  Life.changes rows cols (shift dy dx f) (shift dy dx g) = Life.changes rows cols f g.
Proof.
  intros Hf Hg Hf' Hg'.
  set (F := λ y x, if decide (f y x = g y x) then 0 else 1).
  set (a := Z.max 0 (- dy)). set (b := Z.min rows (rows - dy)).
  set (c := Z.max 0 (- dx)). set (d := Z.min cols (cols - dx)).
  assert (∀ y x, F y x ≠ 0 → a ≤ y < b ∧ c ≤ x < d) as HF.
  { intros y x HFn. apply (differ_shift dy dx f g); try done.
    unfold F in HFn. by case_decide. }
  transitivity (sumZ a b (λ y, sumZ c d (F y)));
    [|symmetry; apply (sumZ_support2 rows cols a b c d F); lia || done].
  rewrite <- (sumZ_shift2 a b c d dy dx F).
  apply (sumZ_support2 rows cols (a + dy) (b + dy) (c + dx) (d + dx)
           (λ y x, F (y - dy) (x - dx))); try lia.
  intros y x HFn. apply HF in HFn. lia.
Qed.

End board.

(** ** The glider *)

Lemma glider_step_0 : Life.feq (step (Patterns.cells glider_0)) (Patterns.cells glider_1).
Proof. apply (step_cells (-1) 4 (-1) 4); by_compute. Qed.

Lemma glider_step_1 : Life.feq (step (Patterns.cells glider_1)) (Patterns.cells glider_2).
Proof. apply (step_cells (-1) 4 (-1) 4); by_compute. Qed.

Lemma glider_step_2 : Life.feq (step (Patterns.cells glider_2)) (Patterns.cells glider_3).
Proof. apply (step_cells (-1) 4 (-1) 4); by_compute. Qed.

Lemma glider_step_3 :
  Life.feq (step (Patterns.cells glider_3)) (Patterns.cells (move 1 1 glider_0)).
Proof. apply (step_cells (-1) 4 (-1) 4); by_compute. Qed.

Lemma phase_step k :
  (k < 4)%nat → Life.feq (step (Patterns.cells (phase k))) (Patterns.cells (phase (S k))).
Proof.
  intros Hk. destruct k as [|[|[|[|k]]]]; [| | | |lia].
  - apply glider_step_0.
  - apply glider_step_1.
  - apply glider_step_2.
  - apply glider_step_3.
Qed.

(** All phases lie in the 4x4 square of the first. *)
Lemma phase_within k : within 0 3 0 3 (phase k).
Proof. destruct k as [|[|[|[|k]]]]; by_compute. Qed.

Lemma steps_phase k :
  (k ≤ 4)%nat → Life.feq (steps k (Patterns.cells glider_0)) (Patterns.cells (phase k)).
Proof.
  induction k as [|k IH]; intros Hk; [done|]. rewrite steps_S.
  etrans; [apply step_proper, IH; lia|]. apply phase_step. lia.
Qed.

(** The generations of a glider, wherever it is on the plane. *)
Lemma glider_steps y x k :
  (k ≤ 4)%nat →
  Life.feq (steps k (Patterns.cells (glider y x))) (Patterns.cells (move y x (phase k))).
Proof.
  intros Hk. unfold glider.
  etrans; [apply steps_proper, cells_move|]. etrans; [apply steps_shift|].
  etrans; [apply shift_proper, steps_phase, Hk|]. symmetry. apply cells_move.
Qed.

Lemma glider_within y x k : within y (y + 3) x (x + 3) (move y x (phase k)).
Proof.
  pose proof (within_move 0 3 0 3 y x _ (phase_within k)) as H.
  by rewrite !Z.add_0_l, !(Z.add_comm 3) in H.
Qed.

Lemma glider_next y x :
  Life.feq (Patterns.cells (move y x (phase 4))) (Patterns.cells (glider (y + 1) (x + 1))).
Proof.
  unfold glider. change (phase 4) with (move 1 1 glider_0).
  etrans; [apply cells_move|]. etrans; [apply shift_proper, cells_move|].
  etrans; [apply shift_shift|]. symmetry. apply cells_move.
Qed.

(** ** Patterns on a board *)

Section patterns.
Context (rows cols : Z).
Implicit Types (a b c d : Z).

(** A listed generation moved into the board fits it. *)
Lemma moved_fits a b c d l dy dx :
  within a b c d l → 0 ≤ a + dy → b + dy < rows → 0 ≤ c + dx → d + dx < cols →
  fits rows cols (Patterns.cells (move dy dx l)).
Proof.
  intros Hl ? ? ? ?. eapply boxed_mono; [..|apply cells_within, within_move, Hl]; lia.
Qed.

(** A step on the plane is a step on every board, wherever the two
    generations are put, as long as both fit. *)
Lemma next_move l l' dy dx :
  Life.feq (step (Patterns.cells l)) (Patterns.cells l') →
  fits rows cols (Patterns.cells (move dy dx l)) →
  fits rows cols (Patterns.cells (move dy dx l')) →
  Life.feq (Life.next rows cols (Patterns.cells (move dy dx l)))
    (Patterns.cells (move dy dx l')).
Proof.
  intros Hs Hf Hf'.
  assert (Life.feq (step (Patterns.cells (move dy dx l)))
            (Patterns.cells (move dy dx l'))) as Hm.
  { etrans; [apply step_proper, cells_move|]. etrans; [apply step_shift|].
    etrans; [apply shift_proper, Hs|]. symmetry. apply cells_move. }
  etrans; [|exact Hm]. apply next_step; [done|].
  eapply boxed_feq; [symmetry; exact Hm|done].
Qed.

(** The cells on which two listed generations differ, counted where the
    lists are written down. *)
Lemma changes_move a b c d l l' dy dx :
  within a b c d l → within a b c d l' →
  0 ≤ a + dy → b + dy < rows → 0 ≤ c + dx → d + dx < cols →
  Life.changes rows cols (Patterns.cells (move dy dx l)) (Patterns.cells (move dy dx l'))
  = differ a b c d l l'.
Proof.
  intros Hl Hl' ? ? ? ?.
  rewrite (Life.changes_board_eq rows cols _ (shift dy dx (Patterns.cells l))
             _ (shift dy dx (Patterns.cells l')))
    by (intros ? ? _ _; apply cells_move).
  rewrite (changes_boxed rows cols (a + dy) (b + dy) (c + dx) (d + dx))
    by (lia || (apply boxed_shift, cells_within; done)).
  replace (b + dy + 1) with (b + 1 + dy) by lia.
  replace (d + dx + 1) with (d + 1 + dx) by lia.
  pose (F := λ y x, if decide (Patterns.cells l y x = Patterns.cells l' y x) then 0 else 1).
  apply (sumZ_shift2 a (b + 1) c (d + 1) dy dx F).
Qed.

End patterns.

(** ** The named patterns *)

(** The patterns are their copies at the origin, moved. *)
Ltac same_cells :=
  repeat (apply (f_equal2 (@cons (Z * Z))); [apply (f_equal2 (@pair Z Z)); lia|]);
  reflexivity.

Lemma single_move y x : Patterns.single y x = move y x (Patterns.single 0 0).
Proof. unfold Patterns.single, move. cbn. same_cells. Qed.

Lemma block_move y x : Patterns.block y x = move y x (Patterns.block 0 0).
Proof. unfold Patterns.block, move. cbn. same_cells. Qed.

Lemma blinker_h_move y x : Patterns.blinker_h y x = move y x (Patterns.blinker_h 0 0).
Proof. unfold Patterns.blinker_h, move. cbn. same_cells. Qed.

Lemma blinker_v_move y x : Patterns.blinker_v y x = move y x (Patterns.blinker_v 0 0).
Proof. unfold Patterns.blinker_v, move. cbn. same_cells. Qed.

(** Their steps on the plane. *)
Lemma step_single : Life.feq (step (Patterns.cells (Patterns.single 0 0))) (Patterns.cells []).
Proof. apply (step_cells (-1) 1 (-1) 1); by_compute. Qed.

Lemma step_block :
  Life.feq (step (Patterns.cells (Patterns.block 0 0))) (Patterns.cells (Patterns.block 0 0)).
Proof. apply (step_cells (-1) 2 (-1) 2); by_compute. Qed.

Lemma step_blinker_h :
  Life.feq (step (Patterns.cells (Patterns.blinker_h 0 0)))
    (Patterns.cells (Patterns.blinker_v 0 0)).
Proof. apply (step_cells (-2) 2 (-2) 2); by_compute. Qed.

Lemma step_blinker_v :
  Life.feq (step (Patterns.cells (Patterns.blinker_v 0 0)))
    (Patterns.cells (Patterns.blinker_h 0 0)).
Proof. apply (step_cells (-2) 2 (-2) 2); by_compute. Qed.

Section named.
Context (rows cols : Z).

#[local] Abbreviation next := (Life.next rows cols).
#[local] Abbreviation changes := (Life.changes rows cols).
#[local] Abbreviation on_board := (Patterns.on_board rows cols).

(** A single cell of the board dies. *)
Lemma next_single y x :
  on_board (y, x) → Life.feq (next (Patterns.cells (Patterns.single y x))) Life.empty.
Proof.
  intros [Hy Hx]. cbn in Hy, Hx. rewrite single_move.
  etrans; [apply (next_move rows cols _ [] y x step_single)|apply Patterns.cells_empty].
  - apply (moved_fits rows cols 0 0 0 0); [by_compute|lia..].
  - apply (moved_fits rows cols 0 0 0 0); [by_compute|lia..].
Qed.

Lemma changes_single y x :
  on_board (y, x) → changes (Patterns.cells (Patterns.single y x)) Life.empty = 1.
Proof.
  intros [Hy Hx]. cbn in Hy, Hx. rewrite single_move.
  rewrite (Life.changes_board_eq rows cols _ _ Life.empty (Patterns.cells (move y x [])))
    by (done || intros ? ? _ _; symmetry; apply Patterns.cells_nil).
  rewrite (changes_move rows cols 0 0 0 0) by (by_compute || lia). by_compute.
Qed.

(** The block is a still life, wherever it fits the board. *)
Lemma next_block y x :
  on_board (y, x) → on_board (y + 1, x + 1) →
  Life.feq (next (Patterns.cells (Patterns.block y x))) (Patterns.cells (Patterns.block y x)).
Proof.
  intros [Hy Hx] [Hy' Hx']. cbn in Hy, Hx, Hy', Hx'. rewrite block_move.
  apply (next_move rows cols _ _ y x step_block);
    apply (moved_fits rows cols 0 1 0 1); by_compute || lia.
Qed.

(** The lying blinker stands up and the standing blinker lies down,
    wherever the 3x3 square around the centre fits the board. *)
Lemma next_blinker_h y x :
  on_board (y - 1, x - 1) → on_board (y + 1, x + 1) →
  Life.feq (next (Patterns.cells (Patterns.blinker_h y x)))
    (Patterns.cells (Patterns.blinker_v y x)).
Proof.
  intros [Hy Hx] [Hy' Hx']. cbn in Hy, Hx, Hy', Hx'. rewrite blinker_h_move, blinker_v_move.
  apply (next_move rows cols _ _ y x step_blinker_h);
    apply (moved_fits rows cols (-1) 1 (-1) 1); by_compute || lia.
Qed.

Lemma next_blinker_v y x :
  on_board (y - 1, x - 1) → on_board (y + 1, x + 1) →
  Life.feq (next (Patterns.cells (Patterns.blinker_v y x)))
    (Patterns.cells (Patterns.blinker_h y x)).
Proof.
  intros [Hy Hx] [Hy' Hx']. cbn in Hy, Hx, Hy', Hx'. rewrite blinker_h_move, blinker_v_move.
  apply (next_move rows cols _ _ y x step_blinker_v);
    apply (moved_fits rows cols (-1) 1 (-1) 1); by_compute || lia.
Qed.

(** Each turn of the blinker changes four cells: the two ends go out and
    two new ends come on. *)
Lemma changes_blinker y x :
  on_board (y - 1, x - 1) → on_board (y + 1, x + 1) →
  changes (Patterns.cells (Patterns.blinker_h y x)) (Patterns.cells (Patterns.blinker_v y x))
  = 4.
Proof.
  intros [Hy Hx] [Hy' Hx']. cbn in Hy, Hx, Hy', Hx'. rewrite blinker_h_move, blinker_v_move.
  rewrite (changes_move rows cols (-1) 1 (-1) 1) by (by_compute || lia). by_compute.
Qed.

(** On a board that holds its 4x4 square the glider makes the steps it
    makes on the plane, and each of them changes four cells. *)
Lemma glider_next_phase y x k :
  0 ≤ y → y + 3 < rows → 0 ≤ x → x + 3 < cols → (k < 4)%nat →
  Life.feq (next (Patterns.cells (move y x (phase k))))
    (Patterns.cells (move y x (phase (S k)))).
Proof.
  intros ? ? ? ? Hk. apply next_move; [by apply phase_step|..];
    apply (moved_fits rows cols 0 3 0 3); apply phase_within || lia.
Qed.

Lemma glider_changes y x k :
  0 ≤ y → y + 3 < rows → 0 ≤ x → x + 3 < cols → (k < 4)%nat →
  changes (Patterns.cells (move y x (phase k))) (Patterns.cells (move y x (phase (S k)))) = 4.
Proof.
  intros ? ? ? ? Hk.
  rewrite (changes_move rows cols 0 3 0 3) by (apply phase_within || lia).
  destruct k as [|[|[|[|k]]]]; [by_compute..|lia].
Qed.

End named.

End Plane.
