(* ===== verification/Edges.v ===== *)
(** * Edges: the game at the edges of the board

    The board of the program has hard edges: a position outside it is
    never alive and never counted.  [Plane] relates the bounded step to
    the step on the plane for generations that stay away from the edges.
    This file gives the relation without that condition: one generation on
    the board is one generation on the plane with the cells outside the
    board killed before and after ([Edges.next_clip]).

    It follows that a pattern behaves the same wherever it is put along
    an edge.  A translation [slides] a generation when, along every axis
    on which it moves, the live cells keep one cell away from both edges
    before and after; along the other axis they may touch the edges, or
    lie across them.  The bounded step commutes with such a translation
    ([Edges.next_slide]).  So a pattern on an edge is stepped once, by
    computation on the board of the program, and then at every position
    along that edge ([Edges.next_slide_cells]): a blinker that lies on the
    top edge dies in two generations, and a glider that reaches the bottom
    edge becomes a block. *)

From Stdlib Require Import ZArith Lia.
From stdpp Require Import list list_numbers option.
From S2P Require Import Prelude.
From S2P Require Import Grid.
From S2P Require Import Life.
From S2P Require Import Patterns.
From S2P Require Import Plane.

#[local] Open Scope Z_scope.

Module Edges.

Implicit Types (f g : Life.field) (l : list (Z * Z)) (y x dy dx : Z).

Section definitions.
Context (rows cols : Z).

(** The field with the cells outside the board killed. *)
Definition clip f : Life.field := λ y x, Life.inside rows cols y x && f y x.

(** The translation by [dy] rows and [dx] columns slides [f] along the
    edges: on an axis it moves along, the live cells of [f] are at least
    one cell away from both edges, before and after. *)
Definition slides dy dx f : Prop :=
  ∀ y x, f y x = true →
    (dy = 0 ∨ (1 ≤ y < rows - 1 ∧ 1 ≤ y + dy < rows - 1)) ∧
    (dx = 0 ∨ (1 ≤ x < cols - 1 ∧ 1 ≤ x + dx < cols - 1)).

(** The same for a list of cells; the check runs over the list. *)
Definition slide dy dx l : Prop :=
  Forall (λ p, (dy = 0 ∨ (1 ≤ p.1 < rows - 1 ∧ 1 ≤ p.1 + dy < rows - 1)) ∧
               (dx = 0 ∨ (1 ≤ p.2 < cols - 1 ∧ 1 ≤ p.2 + dx < cols - 1))) l.

#[export] Instance slide_dec dy dx l : Decision (slide dy dx l).
Proof. unfold slide. apply _. Defined.

(** [n] generations on the plane, with the cells outside the board killed
    after every one of them. *)
Definition steps (n : nat) f : Life.field := Nat.iter n (λ f, clip (Plane.step f)) f.

End definitions.

(** What is left of a blinker that lies on the top edge around column [x]
    after one generation: its centre and the cell below. *)
Definition stub x : list (Z * Z) := [(0, x); (1, x)].

(** A glider that rests on the bottom edge of the board of the program,
    its 3x3 square in the columns from [x] on, and the generations that
    follow it; the last is a block. *)
Definition landing (k : nat) x : list (Z * Z) :=
  match k with
  | 0%nat => Plane.glider 29 x
  | 1%nat => [(30, x); (30, x + 2); (31, x + 1); (31, x + 2)]
  | 2%nat => [(30, x + 2); (31, x + 1); (31, x + 2)]
  | _ => Patterns.block 30 (x + 1)
  end.

(** The number of cells generation [k] of the landing changes. *)
Definition landing_changes (k : nat) : Z :=
  match k with
  | 0%nat => 3
  | 1%nat | 2%nat => 1
  | _ => 0
  end.

(** ** The board is the plane, clipped *)

Section board.
Context (rows cols : Z).

#[local] Abbreviation inside := (Life.inside rows cols).
#[local] Abbreviation next := (Life.next rows cols).
#[local] Abbreviation clip := (clip rows cols).
#[local] Abbreviation slides := (slides rows cols).
#[local] Abbreviation fits := (Plane.fits rows cols).

#[export] Instance clip_proper : Proper (Life.feq ==> Life.feq) clip.
Proof. intros f g H y x. unfold Edges.clip. by rewrite (H y x). Qed.

Lemma clip_fits f : fits (clip f).
Proof.
  intros y x Hc. apply andb_true_iff in Hc as [Hin _].
  apply Life.inside_true in Hin. lia.
Qed.

Lemma clip_id f : fits f → Life.feq (clip f) f.
Proof.
  intros Hf y x. unfold Edges.clip. destruct (f y x) eqn:E; [|by rewrite andb_false_r].
  rewrite andb_true_r. apply Life.inside_true. apply Hf in E. lia.
Qed.

Lemma clip_board_eq f : Life.board_eq rows cols (clip f) f.
Proof. intros y x Hy Hx. unfold Edges.clip. by rewrite (proj2 (Life.inside_true _ _ y x)). Qed.

(** The neighbours the board counts are the neighbours of the clipped
    field on the plane. *)
Lemma live_neighbours_count f y x :
  Life.live_neighbours rows cols f y x = Plane.count (clip f) y x.
Proof. rewrite Life.live_neighbours_unfold, Plane.count_unfold. done. Qed.

(** One generation on the board: kill what is outside, make a step on the
    plane, kill what is outside. *)
Lemma next_clip f : Life.feq (next f) (clip (Plane.step (clip f))).
Proof.
  intros y x. unfold Life.next, Edges.clip at 1, Plane.step.
  destruct (inside y x) eqn:Hin; [|done]. cbn [andb].
  apply Life.inside_true in Hin as [Hy Hx].
  by rewrite live_neighbours_count, (clip_board_eq f y x Hy Hx).
Qed.

(** So the generations on the board are the generations on the plane,
    clipped after every step. *)
Lemma steps_fits n f : fits f → fits (steps rows cols n f).
Proof. intros Hf. destruct n as [|n]; [done|apply clip_fits]. Qed.

Lemma iterate_clipped n f :
  fits f → Life.feq (Life.iterate rows cols n f) (steps rows cols n f).
Proof.
  intros Hf. induction n as [|n IH]; [done|].
  change (Life.feq (next (Life.iterate rows cols n f))
            (clip (Plane.step (steps rows cols n f)))).
  etrans; [apply next_clip|]. apply clip_proper, Plane.step_proper.
  etrans; [apply clip_proper, IH|]. by apply clip_id, steps_fits.
Qed.

(** ** Sliding along an edge *)

(** A cell that is alive after a step on the plane is alive before it or
    has a live neighbour. *)
Lemma step_near g y x :
  Plane.step g y x = true →
  ∃ y' x', y - 1 ≤ y' ≤ y + 1 ∧ x - 1 ≤ x' ≤ x + 1 ∧ g y' x' = true.
Proof.
  intros Hs. unfold Plane.step in Hs. rewrite Plane.count_unfold in Hs.
  destruct (g y x) eqn:E; [exists y, x; split_and!; done || lia|].
  repeat match type of Hs with
  | context [of_bool (g ?a ?b)] =>
      destruct (g a b) eqn:?; [exists a, b; split_and!; done || lia|]
  end.
  done.
Qed.

Section slide.
Context (dy dx : Z).

#[local] Abbreviation moved := (Plane.shift dy dx).

(** Where a live cell slides, it is on the board before exactly when it
    is on the board after. *)
Lemma slides_inside f y x :
  slides dy dx f → f y x = true → inside (y + dy) (x + dx) = inside y x.
Proof. intros Hf E. apply Hf in E. apply bool_decide_ext. lia. Qed.

Lemma slides_clip f : slides dy dx f → slides dy dx (clip f).
Proof. intros Hf y x Hc. apply andb_true_iff in Hc as [_ Hc]. by apply Hf. Qed.

(** Clipping commutes with sliding. *)
Lemma clip_slide f : slides dy dx f → Life.feq (clip (moved f)) (moved (clip f)).
Proof.
  intros Hf y x. unfold Edges.clip, Plane.shift.
  destruct (f (y - dy) (x - dx)) eqn:E; [|by rewrite !andb_false_r].
  rewrite <- (slides_inside f _ _ Hf E). by rewrite !Z.sub_add.
Qed.

(** And so it does after a step on the plane, which moves a live cell by
    at most one position. *)
Lemma clip_step_slide f :
  slides dy dx f → Life.feq (clip (moved (Plane.step f))) (moved (clip (Plane.step f))).
Proof.
  intros Hf y x. unfold Edges.clip, Plane.shift.
  destruct (Plane.step f (y - dy) (x - dx)) eqn:E; [|by rewrite !andb_false_r].
  destruct (step_near f _ _ E) as (y' & x' & Hy & Hx & E'). apply Hf in E'.
  rewrite !andb_true_r. apply bool_decide_ext. lia.
Qed.

(** The bounded step commutes with every translation along the edges. *)
Lemma next_slide f : slides dy dx f → Life.feq (next (moved f)) (moved (next f)).
Proof.
  intros Hf. etrans; [apply next_clip|].
  etrans; [apply clip_proper, Plane.step_proper, (clip_slide f Hf)|].
  etrans; [apply clip_proper, Plane.step_shift|].
  etrans; [apply clip_step_slide, slides_clip, Hf|].
  apply Plane.shift_proper. symmetry. apply next_clip.
Qed.

End slide.

(** ** Generations given by their cells *)

Lemma cells_slides dy dx l : slide rows cols dy dx l → slides dy dx (Patterns.cells l).
Proof.
  unfold slide, Patterns.cells. rewrite list.Forall_forall. intros H y x Hc.
  apply bool_decide_eq_true in Hc. by apply (H (y, x)).
Qed.

(** A step of a listed generation on the board is the same step wherever
    the list slides to. *)
Lemma next_slide_cells l l' dy dx :
  slide rows cols dy dx l →
  Life.feq (next (Patterns.cells l)) (Patterns.cells l') →
  Life.feq (next (Patterns.cells (Plane.move dy dx l))) (Patterns.cells (Plane.move dy dx l')).
Proof.
  intros Hl Hs. etrans; [apply Life.next_board_eq, Life.feq_board_eq, Plane.cells_move|].
  etrans; [by apply next_slide, cells_slides|].
  etrans; [apply Plane.shift_proper, Hs|]. symmetry. apply Plane.cells_move.
Qed.

(** A step that gives a listed generation on the board gives it
    everywhere. *)
Lemma next_cells l l' :
  Plane.within 0 (rows - 1) 0 (cols - 1) l' →
  Life.board_eq rows cols (next (Patterns.cells l)) (Patterns.cells l') →
  Life.feq (next (Patterns.cells l)) (Patterns.cells l').
Proof.
  intros Hl' H y x. destruct (decide (0 ≤ y < rows ∧ 0 ≤ x < cols)) as [[Hy Hx]|Hn].
  - by apply H.
  - rewrite Life.next_outside by done. symmetry.
    eapply Plane.boxed_outside; [by apply Plane.cells_within|lia].
Qed.

End board.

(** ** On the board of the program *)

(** The cells of a list slide by a distance that is not known. *)
Ltac slide_cells :=
  unfold slide, gameRows, gameColumns;
  repeat first [apply Forall_nil_2|apply Forall_cons_2; [cbn; lia|]].

Section program.

#[local] Abbreviation next := (Life.next gameRows gameColumns).
#[local] Abbreviation changes := (Life.changes gameRows gameColumns).
#[local] Abbreviation iterate := (Life.iterate gameRows gameColumns).

(** *** A blinker on the top edge

    On the plane it would stand up, one end above the edge.  On the board
    the cell above the edge does not exist: the centre and the cell below
    it are left, and they die of isolation in the next generation. *)
Lemma edge_blinker_move x :
  Patterns.blinker_h 0 x = Plane.move 0 (x - 2) (Patterns.blinker_h 0 2).
Proof. unfold Patterns.blinker_h, Plane.move. cbn. Plane.same_cells. Qed.

Lemma stub_move x : stub x = Plane.move 0 (x - 2) (stub 2).
Proof. unfold stub, Plane.move. cbn. Plane.same_cells. Qed.

Lemma next_edge_blinker x :
  1 ≤ x ≤ 62 →
  Life.feq (next (Patterns.cells (Patterns.blinker_h 0 x))) (Patterns.cells (stub x)).
Proof.
  intros Hx. destruct (decide (x = 1)) as [->|]; [apply next_cells; by_compute|].
  destruct (decide (x = 62)) as [->|]; [apply next_cells; by_compute|].
  rewrite edge_blinker_move, stub_move.
  apply next_slide_cells; [slide_cells|apply next_cells; by_compute].
Qed.

Lemma next_stub x :
  1 ≤ x ≤ 62 → Life.feq (next (Patterns.cells (stub x))) (Patterns.cells []).
Proof.
  intros Hx. destruct (decide (x = 1)) as [->|]; [apply next_cells; by_compute|].
  destruct (decide (x = 62)) as [->|]; [apply next_cells; by_compute|].
  rewrite stub_move.
  apply (next_slide_cells _ _ _ []); [slide_cells|apply next_cells; by_compute].
Qed.

Lemma changes_edge_blinker x :
  1 ≤ x ≤ 62 →
  changes (Patterns.cells (Patterns.blinker_h 0 x)) (Patterns.cells (stub x)) = 3.
Proof.
  intros Hx. rewrite edge_blinker_move, stub_move.
  rewrite (Plane.changes_move gameRows gameColumns 0 1 1 3)
    by (by_compute || (unfold gameRows, gameColumns; lia)).
  by_compute.
Qed.

Lemma changes_stub x :
  1 ≤ x ≤ 62 → changes (Patterns.cells (stub x)) (Patterns.cells []) = 2.
Proof.
  intros Hx. rewrite stub_move.
  rewrite (Plane.changes_move gameRows gameColumns 0 1 1 3 _ [])
    by (by_compute || (unfold gameRows, gameColumns; lia)).
  by_compute.
Qed.

(** *** A glider that lands on the bottom edge

    A glider travels down and to the right.  When its square rests on the
    bottom edge the cells it would put below the edge are missing, and
    after three generations it has become a block. *)
Lemma landing_move k x : landing k x = Plane.move 0 (x - 1) (landing k 1).
Proof.
  destruct k as [|[|[|k]]];
    unfold landing, Plane.glider, Plane.glider_0, Patterns.block, Plane.move; cbn;
    Plane.same_cells.
Qed.

Lemma landing_within k x : Plane.within 29 31 x (x + 2) (landing k x).
Proof.
  destruct k as [|[|[|k]]];
    unfold Plane.within, landing, Plane.glider, Plane.glider_0, Patterns.block, Plane.move; cbn;
    repeat first [apply Forall_nil_2|apply Forall_cons_2; [cbn; lia|]].
Qed.

Lemma next_landing k x :
  0 ≤ x ≤ 61 →
  Life.feq (next (Patterns.cells (landing k x))) (Patterns.cells (landing (S k) x)).
Proof.
  intros Hx.
  destruct (decide (x = 0)) as [->|];
    [destruct k as [|[|[|k]]]; apply next_cells; by_compute|].
  destruct (decide (x = 61)) as [->|];
    [destruct k as [|[|[|k]]]; apply next_cells; by_compute|].
  rewrite (landing_move k), (landing_move (S k)). apply next_slide_cells.
  - destruct k as [|[|[|k]]]; slide_cells.
  - destruct k as [|[|[|k]]]; apply next_cells; by_compute.
Qed.

Lemma changes_landing k x :
  0 ≤ x ≤ 61 →
  changes (Patterns.cells (landing k x)) (Patterns.cells (landing (S k) x))
  = landing_changes k.
Proof.
  intros Hx. rewrite (landing_move k), (landing_move (S k)).
  rewrite (Plane.changes_move gameRows gameColumns 29 31 1 3)
    by (apply landing_within || (unfold gameRows, gameColumns; lia)).
  destruct k as [|[|[|k]]]; by_compute.
Qed.

(** The generations of the landing glider. *)
Lemma iterate_landing k x :
  0 ≤ x ≤ 61 →
  Life.feq (iterate k (Patterns.cells (Plane.glider 29 x))) (Patterns.cells (landing k x)).
Proof.
  intros Hx. induction k as [|k IH]; [done|].
  etrans; [|by apply next_landing].
  apply Life.next_board_eq, Life.feq_board_eq, IH.
Qed.

End program.

End Edges.
