(* ===== verification/Random.v ===== *)
(** * Random: the pseudo-random source

    [initSeed] calls Arduino's [randomSeed] and [random].  Both belong to
    the Arduino core, not to this repository, so the simulation is verified
    against an interface: a type of generator states with the two
    operations and the one law the simulation needs, that [random howbig]
    returns a value in [[0, howbig)].  Three instances make the model
    executable: a scripted source that replays a list of raw values, a
    source that delivers one value for ever, and a 64-bit linear
    congruential generator.  The scripted source is the one that can
    deliver every sequence of coins, so it is the one the theorems on what
    a seed can be are stated with. *)

From Stdlib Require Import ZArith Lia.
From stdpp Require Import list list_numbers option.
From S2P Require Import Prelude.

#[local] Open Scope Z_scope.

(** [randomSeed seed r] is the state after [randomSeed(seed)];
    [random howbig r] is the value [random(howbig)] returns and the state
    it leaves. *)
Class RandomSource (R : Type) : Type := {
  randomSeed : Z → R → R;
  random : Z → R → Z * R;
  random_range howbig r : 0 < howbig → 0 ≤ (random howbig r).1 < howbig;
}.

(** ** The stream of coins

    [initSeed] only calls [random(2)].  [advance k r] is the generator after
    [k] such calls and [coin r k] the value the call number [k] returns,
    counting from 0. *)
Section coins.
Context `{RandomSource R}.

Definition advance (k : nat) (r : R) : R := Nat.iter k (λ r, (random 2 r).2) r.

Definition coin (r : R) (k : nat) : Z := (random 2 (advance k r)).1.

End coins.

(** ** A scripted source

    The state is the list of raw values still to be delivered; an exhausted
    script delivers zeros.  Seeding does not change a script. *)
Abbreviation script := (list Z).

Definition script_random (howbig : Z) (s : script) : Z * script :=
  match s with
  | [] => (0, [])
  | v :: s => (v `mod` howbig, s)
  end.

(** ** A linear congruential generator

    A 64-bit state advanced by a multiply-and-add, of which the upper bits
    are delivered, following the C library generator behind the Arduino
    calls.  [randomSeed] ignores a zero seed, and [random] reduces the raw
    value modulo [howbig]. *)
Definition lcg_next (s : Z) : Z := wrap 64 (s * 6364136223846793005 + 1).

Definition lcg_raw (s : Z) : Z := Z.land (Z.shiftr s 32) 2147483647.

Definition lcg_seed (seed s : Z) : Z := if decide (seed = 0) then s else wrap 64 seed.

Definition lcg_random (howbig s : Z) : Z * Z :=
  if decide (howbig = 0) then (0, s)
  else let s' := lcg_next s in (lcg_raw s' `rem` howbig, s').

Lemma script_random_range howbig s : 0 < howbig → 0 ≤ (script_random howbig s).1 < howbig.
Proof.
  intros Hb. destruct s as [|v s]; simpl; [lia|]. by apply Z.mod_pos_bound.
Qed.

Lemma lcg_raw_range s : 0 ≤ lcg_raw s < 2147483648.
Proof.
  unfold lcg_raw. change 2147483647 with (Z.ones 31).
  rewrite Z.land_ones by done. by apply Z.mod_pos_bound.
Qed.

Lemma lcg_random_range howbig s : 0 < howbig → 0 ≤ (lcg_random howbig s).1 < howbig.
Proof.
  intros Hb. unfold lcg_random. case_decide; [lia|]. simpl.
  pose proof (lcg_raw_range (lcg_next s)) as [Hraw _].
  rewrite Z.rem_mod_nonneg by lia. by apply Z.mod_pos_bound.
Qed.

#[export] Instance script_source : RandomSource script :=
  {| randomSeed := λ _ s, s; random := script_random; random_range := script_random_range |}.

(** The generator is not a global instance: a development that wants it
    passes it explicitly. *)
Definition lcg_source : RandomSource Z :=
  {| randomSeed := lcg_seed; random := lcg_random; random_range := lcg_random_range |}.

(** A source that delivers the same raw value for ever. *)
Definition constant_random (v howbig : Z) (s : unit) : Z * unit := (v `mod` howbig, s).

Lemma constant_random_range v howbig s : 0 < howbig → 0 ≤ (constant_random v howbig s).1 < howbig.
Proof. intros Hb. simpl. by apply Z.mod_pos_bound. Qed.

Definition constant_source (v : Z) : RandomSource unit :=
  {| randomSeed := λ _ s, s; random := constant_random v;
     random_range := constant_random_range v |}.

(** The coin of [initSeed]: [random(2)] is 0 or 1 for every source. *)
Lemma random_coin `{RandomSource R} (r : R) : (random 2 r).1 = 0 ∨ (random 2 r).1 = 1.
Proof. pose proof (random_range 2 r). lia. Qed.

#[export] Hint Resolve random_coin : gol.

Section coin_lemmas.
Context `{RandomSource R}.
Implicit Types (r : R) (k : nat).

Lemma advance_S k r : advance (S k) r = (random 2 (advance k r)).2.
Proof. done. Qed.

Lemma random_coin_advance r k : random 2 (advance k r) = (coin r k, advance (S k) r).
Proof. unfold coin. rewrite advance_S. by destruct (random 2 (advance k r)). Qed.

Lemma coin_cases r k : coin r k = 0 ∨ coin r k = 1.
Proof. apply random_coin. Qed.

End coin_lemmas.

(** ** The scripted source, coin by coin

    The script after [k] coins is the script without its first [k] values,
    and coin number [k] is value number [k] modulo 2. *)
Lemma script_advance k (s : script) : advance k s = drop k s.
Proof.
  induction k as [|k IH]; [done|]. rewrite advance_S, IH.
  replace (S k) with (k + 1)%nat by lia. rewrite <- drop_drop. by destruct (drop k s).
Qed.

Lemma script_coin (s : script) k : coin s k = default 0 (s !! k) `mod` 2.
Proof.
  unfold coin. rewrite script_advance.
  pose proof (lookup_drop s k 0) as Hk. rewrite Nat.add_0_r in Hk. rewrite <- Hk.
  by destruct (drop k s).
Qed.
