(* ===== verification/Tick.v ===== *)
(** * Tick: the abstract machine of the sketch

    What the sketch is meant to do, without arrays, pointers or a display:
    a state is a generation, the number of cells the last step changed and
    the pseudo-random source; one tick replaces the generation by a field
    of coins when the last step changed at most [threshold] cells, and then
    makes one step of the Game of Life and records how many cells it
    changed.  The machine is parametric in the board and the threshold.
    A run whose generations all change more than [threshold] cells never
    touches the source ([Tick.run_lively]), and the tick after the first
    step that changes fewer takes a seed ([Tick.run_stagnates]).

    The analog input enters in two ways.  [tick] takes the reading as an
    argument, whether it is used or not; [input_tick] takes the readings
    as a list and uses one up only when a seed is taken, which is how the
    sketch treats its analog pin.  [Main] proves that [loop] implements
    [Tick.tick], and [Sketch] that the program with its devices
    implements [Tick.feed] from [Tick.power_up]. *)

From Stdlib Require Import ZArith Lia.
From stdpp Require Import list list_numbers option.
From S2P Require Import Prelude.
From S2P Require Import Life.
From S2P Require Import Orbit.
From S2P Require Import Random.

#[local] Open Scope Z_scope.

Module Tick.

Section machine.
Context (rows cols threshold : Z) `{RandomSource R}.

#[local] Abbreviation next := (Life.next rows cols).
#[local] Abbreviation changes := (Life.changes rows cols).
#[local] Abbreviation board_eq := (Life.board_eq rows cols).

Record t : Type := mk {
  gen : Life.field;
  count : Z;
  source : R;
}.

(** The generation whose cell [(y, x)] is alive when coin number
    [y * cols + x] of the source is 1. *)
Definition random_field (r : R) : Life.field :=
  λ y x, Life.inside rows cols y x && bool_decide (coin r (Z.to_nat (y * cols + x)) = 1).

(** A fresh seed: the source is seeded with the analog reading and
    delivers one coin per cell. *)
Definition seed (adc : Z) (s : t) : t :=
  let r := randomSeed adc (source s) in
  mk (random_field r) (count s) (advance (Z.to_nat (rows * cols)) r).

(** One generation, and the number of cells it changed. *)
Definition step (s : t) : t :=
  mk (next (gen s)) (changes (gen s) (next (gen s))) (source s).

(** One tick: the seed check, then the step. *)
Definition tick (adc : Z) (s : t) : t :=
  step (if decide (count s ≤ threshold) then seed adc s else s).

(** The ticks for a sequence of analog readings. *)
Definition run (adcs : list Z) (s : t) : t := foldl (λ s adc, tick adc s) s adcs.

(** The machine with its analog input.  The readings are a list, and a
    reading is taken from it when a seed is taken and at no other time; an
    exhausted input reads 0.  [power_up] is the machine after the first
    seed, which is taken before the first tick. *)
Definition input_tick (st : t * list Z) : t * list Z :=
  if decide (count st.1 ≤ threshold)
  then (step (seed (default 0 (head st.2)) st.1), tail st.2)
  else (step st.1, st.2).

Definition power_up (r : R) (input : list Z) : t * list Z :=
  (seed (default 0 (head input)) (mk Life.empty 0 r), tail input).

Definition feed (n : nat) (st : t * list Z) : t * list Z := Nat.iter n input_tick st.

(** States are compared on the board. *)
Definition eq : relation t :=
  λ s s', board_eq (gen s) (gen s') ∧ count s = count s' ∧ source s = source s'.

#[export] Instance eq_equivalence : Equivalence eq.
Proof.
  split.
  - by intros s.
  - intros s s' (Hg & Hc & Hr). split; [|done]. intros y x Hy Hx. by rewrite (Hg y x).
  - intros s1 s2 s3 (Hg & Hc & Hr) (Hg' & Hc' & Hr'). split; [|split; congruence].
    intros y x Hy Hx. by rewrite (Hg y x), (Hg' y x).
Qed.

#[export] Instance step_proper : Proper (eq ==> eq) step.
Proof.
  intros s s' (Hg & Hc & Hr). unfold step, eq. simpl.
  pose proof (Life.next_board_eq rows cols _ _ Hg) as Hn.
  split; [intros y x _ _; apply Hn|]. split; [|done].
  apply Life.changes_board_eq; [done|]. intros y x _ _. apply Hn.
Qed.

#[export] Instance seed_proper adc : Proper (eq ==> eq) (seed adc).
Proof. intros s s' (Hg & Hc & Hr). unfold seed, eq. simpl. by rewrite Hr, Hc. Qed.

#[export] Instance tick_proper adc : Proper (eq ==> eq) (tick adc).
Proof.
  intros s s' Hs. unfold tick. destruct (Hs) as (_ & <- & _).
  apply step_proper. case_decide; [by apply seed_proper|done].
Qed.

#[export] Instance run_proper adcs : Proper (eq ==> eq) (run adcs).
Proof.
  induction adcs as [|adc adcs IH]; intros s s' Hs; [done|].
  apply IH. by apply tick_proper.
Qed.

#[export] Instance input_tick_proper :
  Proper (prod_relation eq (=) ==> prod_relation eq (=)) input_tick.
Proof.
  intros [s l] [s' l'] [Hs Hl]. cbn in Hs, Hl. subst l'. unfold input_tick. cbn [fst snd].
  destruct (Hs) as (_ & <- & _).
  case_decide; (split; [cbn [fst]|done]); [by apply step_proper, seed_proper|by apply step_proper].
Qed.

#[export] Instance feed_proper n :
  Proper (prod_relation eq (=) ==> prod_relation eq (=)) (feed n).
Proof.
  intros st st' Hst. induction n as [|n IH]; [done|]. by apply input_tick_proper.
Qed.

(** ** Facts *)

Lemma run_cons adc adcs s : run (adc :: adcs) s = run adcs (tick adc s).
Proof. done. Qed.

Lemma run_app adcs1 adcs2 s : run (adcs1 ++ adcs2) s = run adcs2 (run adcs1 s).
Proof. apply foldl_app. Qed.

(** After a tick the count is a number of cells of the board. *)
Lemma tick_count_range adc s :
  0 ≤ rows → 0 ≤ cols → 0 ≤ count (tick adc s) ≤ rows * cols.
Proof. intros Hr Hc. by apply Life.changes_range. Qed.

(** After a tick no position outside the board is alive. *)
Lemma tick_outside adc s y x :
  ¬ (0 ≤ y < rows ∧ 0 ≤ x < cols) → gen (tick adc s) y x = false.
Proof. intros Hout. by apply Life.next_outside. Qed.

(** A tick on a state with a low count does not depend on its generation. *)
Lemma tick_low adc s s' :
  count s ≤ threshold → count s' ≤ threshold → source s = source s' →
  tick adc s = tick adc s'.
Proof.
  intros Hs Hs' Hr. unfold tick. rewrite !decide_True by done.
  unfold step, seed. simpl. by rewrite Hr.
Qed.

(** A still life is replaced: when a tick changes at most [threshold]
    cells, the following tick starts from a fresh seed. *)
Lemma tick_stagnant adc adc' s :
  threshold < count s → changes (gen s) (next (gen s)) ≤ threshold →
  source (tick adc' (tick adc s))
  = advance (Z.to_nat (rows * cols)) (randomSeed adc' (source s)).
Proof.
  intros Hhigh Hlow. unfold tick at 2. rewrite decide_False by lia.
  unfold tick. rewrite decide_True by done. done.
Qed.

(** A lively generation is never replaced: as long as every step changes
    more than [threshold] cells, the ticks are steps of the rule and the
    source is left alone. *)
Lemma run_lively adcs s :
  threshold < count s →
  (∀ k, (k < length adcs)%nat →
     threshold < changes (Life.iterate rows cols k (gen s))
                   (Life.iterate rows cols (S k) (gen s))) →
  threshold < count (run adcs s) ∧ source (run adcs s) = source s ∧
  gen (run adcs s) = Life.iterate rows cols (length adcs) (gen s).
Proof.
  revert s. induction adcs as [|adc adcs IH]; intros s Hc Hk; [done|].
  rewrite run_cons. unfold tick at 1 2 3. rewrite decide_False by lia.
  destruct (IH (step s)) as (Hc' & Hs' & Hg').
  - apply (Hk 0%nat). cbn. lia.
  - intros k Hlt. change (gen (step s)) with (next (gen s)).
    rewrite <- !Life.iterate_next. apply (Hk (S k)). cbn. lia.
  - split_and!; [done..|]. rewrite Hg'. change (gen (step s)) with (next (gen s)).
    by rewrite <- Life.iterate_next.
Qed.

(** One more tick after lively ones is still a step of the rule: its
    count is the activity of that step, whatever it is. *)
Lemma run_steps adcs adc s :
  threshold < count s → Orbit.lively rows cols threshold (length adcs) (gen s) →
  source (run (adcs ++ [adc]) s) = source s ∧
  gen (run (adcs ++ [adc]) s) = Life.iterate rows cols (S (length adcs)) (gen s) ∧
  count (run (adcs ++ [adc]) s) = Orbit.activity rows cols (gen s) (length adcs).
Proof.
  intros Hc Hl. destruct (run_lively adcs s Hc Hl) as (Hc' & Hs' & Hg').
  rewrite run_app. cbn [run foldl]. unfold tick. rewrite decide_False by lia.
  unfold step, Orbit.activity. cbn [source gen count]. by rewrite Hs', Hg'.
Qed.

(** Stagnation is found one tick late: when the first steps are lively
    and the next one is not, the tick that makes that step leaves the
    source alone and the tick after it takes a seed. *)
Lemma run_stagnates adcs adc adc' s :
  threshold < count s → Orbit.lively rows cols threshold (length adcs) (gen s) →
  Orbit.activity rows cols (gen s) (length adcs) ≤ threshold →
  source (run (adcs ++ [adc; adc']) s)
  = advance (Z.to_nat (rows * cols)) (randomSeed adc' (source s)).
Proof.
  intros Hc Hl Hk. destruct (run_steps adcs adc s Hc Hl) as (Hs' & _ & Hc').
  change (adcs ++ [adc; adc']) with (adcs ++ [adc] ++ [adc']).
  rewrite app_assoc, run_app. cbn [run foldl]. unfold tick.
  rewrite decide_True by lia. cbn [step seed source]. by rewrite Hs'.
Qed.

(** ** The machine with input *)

(** A tick of the machine with input is a tick with the reading at the
    head of the input. *)
Lemma input_tick_tick s input :
  (input_tick (s, input)).1 = tick (default 0 (head input)) s.
Proof. unfold input_tick, tick. cbn [fst snd]. by case_decide. Qed.

Lemma feed_S n st : feed (S n) st = feed n (input_tick st).
Proof. unfold feed. apply Nat.iter_succ_r. Qed.

(** The machine with input makes ticks of the machine without. *)
Lemma feed_run n st : ∃ adcs, length adcs = n ∧ (feed n st).1 = run adcs st.1.
Proof.
  revert st. induction n as [|n IH]; intros st; [by exists []|].
  rewrite feed_S. destruct (IH (input_tick st)) as (adcs & Hlen & ->).
  exists (default 0 (head st.2) :: adcs). split; [by rewrite <- Hlen|].
  rewrite run_cons. f_equal. destruct st. apply input_tick_tick.
Qed.

(** The input is only ever shortened from the front, by one reading per
    seed. *)
Lemma feed_input n st : ∃ k, (k ≤ n)%nat ∧ (feed n st).2 = drop k st.2.
Proof.
  revert st. induction n as [|n IH]; intros st; [by exists 0%nat|].
  rewrite feed_S. destruct (IH (input_tick st)) as (k & Hk & ->).
  unfold input_tick. case_decide; cbn [snd].
  - exists (S k). split; [lia|]. destruct st.2; [|done]. cbn. by rewrite drop_nil.
  - exists k. split; [lia|done].
Qed.

End machine.

End Tick.
