(* ===== verification/Display.v ===== *)
(** * Display: the LED matrix canvas

    The sketch draws through an [Adafruit_Protomatter] object.  The driver
    is a library the sources only call; what the simulation needs from it
    is modelled here from its documented behaviour: the RGB565 colour
    packing [color565], the canvas write [drawPixel], which clips to the
    panel, and [show], which makes the canvas visible.  Pixels are keyed by
    [(x, y)], column first, as in the driver. *)

From Stdlib Require Import ZArith Lia.
From stdpp Require Import list list_numbers option gmap.
From S2P Require Import Prelude.

#[local] Open Scope Z_scope.

Module Display.

(** The panel: its size, the canvas the sketch draws into and the frame
    the LEDs show. *)
Record t : Type := mk {
  width : Z;
  height : Z;
  canvas : gmap (Z * Z) Z;
  shown : gmap (Z * Z) Z;
}.

(** A blank panel of the given size. *)
Definition blank (w h : Z) : t := mk w h ∅ ∅.

(** [color565(r, g, b)]: the upper five, six and five bits of the three
    8-bit channels, packed into 16 bits. *)
Definition color565 (red green blue : Z) : Z :=
  let red := uint8_t red in
  let green := uint8_t green in
  let blue := uint8_t blue in
  Z.lor (Z.lor (Z.shiftl (Z.land red 248) 8) (Z.shiftl (Z.land green 252) 3))
        (Z.shiftr blue 3).

(** [drawPixel(x, y, color)]: a write into the canvas, ignored outside the
    panel. *)
Definition drawPixel (x y color : Z) (d : t) : t :=
  if decide (0 ≤ x < width d ∧ 0 ≤ y < height d)
  then mk (width d) (height d) (<[(x, y) := uint16_t color]> (canvas d)) (shown d)
  else d.

(** [show()]: the canvas becomes the visible frame. *)
Definition show (d : t) : t := mk (width d) (height d) (canvas d) (canvas d).

(** The colour of a canvas pixel; a pixel never written is black. *)
Definition pixel (d : t) (x y : Z) : Z := default 0 (canvas d !! (x, y)).

(** The colour of a visible pixel. *)
Definition lit (d : t) (x y : Z) : Z := default 0 (shown d !! (x, y)).

(** ** Colours *)

Lemma color565_black : color565 0 0 0 = 0.
Proof. reflexivity. Qed.

Lemma color565_red : color565 255 0 0 = 63488.
Proof. reflexivity. Qed.

Lemma color565_range r g b : 0 ≤ color565 r g b < 65536.
Proof.
  unfold color565.
  pose proof (uint8_range r). pose proof (uint8_range g). pose proof (uint8_range b).
  set (r' := uint8_t r) in *. set (g' := uint8_t g) in *. set (b' := uint8_t b) in *.
  pose proof (land_range 8 r' 248 ltac:(done) ltac:(done) ltac:(done)) as Hr.
  pose proof (land_range 8 g' 252 ltac:(done) ltac:(done) ltac:(done)) as Hg.
  assert (0 ≤ Z.shiftr b' 3 < 32) as Hb.
  { rewrite Z.shiftr_div_pow2 by lia. change (2 ^ 3) with 8.
    split; [apply Z.div_pos; lia|]. apply Z.div_lt_upper_bound; lia. }
  rewrite !Z.shiftl_mul_pow2 by lia.
  change (2 ^ 8) with 256 in *. change (2 ^ 3) with 8.
  change 65536 with (2 ^ 16). apply lor_range; [done| |lia].
  apply lor_range; [done|lia..].
Qed.

(** ** Canvas writes *)

Section canvas.
Implicit Types (d : t) (x y c : Z).

Lemma drawPixel_size d x y c :
  width (drawPixel x y c d) = width d ∧ height (drawPixel x y c d) = height d.
Proof. unfold drawPixel. by case_decide. Qed.

Lemma drawPixel_shown d x y c : shown (drawPixel x y c d) = shown d.
Proof. unfold drawPixel. by case_decide. Qed.

Lemma pixel_drawPixel_eq d x y c :
  0 ≤ x < width d → 0 ≤ y < height d → pixel (drawPixel x y c d) x y = uint16_t c.
Proof.
  intros Hx Hy. unfold drawPixel, pixel. case_decide; [|lia]. simpl.
  by rewrite lookup_insert_eq.
Qed.

Lemma pixel_drawPixel_ne d x y c x' y' :
  (x', y') ≠ (x, y) → pixel (drawPixel x y c d) x' y' = pixel d x' y'.
Proof.
  intros Hne. unfold drawPixel, pixel. case_decide; [|done]. simpl.
  by rewrite lookup_insert_ne.
Qed.

(** A write outside the panel changes nothing. *)
Lemma drawPixel_clipped d x y c :
  ¬ (0 ≤ x < width d ∧ 0 ≤ y < height d) → drawPixel x y c d = d.
Proof. intros Hout. unfold drawPixel. by case_decide. Qed.

Lemma lit_show d x y : lit (show d) x y = pixel d x y.
Proof. done. Qed.

End canvas.

End Display.

#[export] Hint Rewrite Display.color565_black Display.color565_red Display.lit_show : gol.
