(* ===== verification/Object.v ===== *)
(** * Object: the state of the class [ConwaysGame]

    The data members of the class of [simulation.h] as a record, and what
    every method does to them.  A pointer to one of the two generation maps
    is a [MapRef]; the pointer members hold [option MapRef], with [None]
    for the null pointer of an object that has not been seeded.  Reads and
    writes through a pointer go through [deref], [assign], [load] and
    [store], so both buffers live in the one record and alias as they do in
    the object; each returns [None] for undefined behaviour (a null
    dereference, or an index outside the array).

    The file also holds the constructors and [setColor], the generation an
    object shows ([current_field]), the object invariant [valid] that the
    methods of [Engine], [Seed] and [Render] establish and preserve, and
    the algebra of the pointer operations, collected in the rewrite
    database [gol]. *)

From Stdlib Require Import ZArith Lia.
From stdpp Require Import list list_numbers option.
From S2P Require Import Prelude.
From S2P Require Import Grid.
From S2P Require Import Boards.
From S2P Require Import Life.
From S2P Require Import Display.

#[local] Open Scope Z_scope.

(** [&genMap_1] and [&genMap_2]. *)
Inductive MapRef : Type := Map1 | Map2.

#[export] Instance MapRef_eq_dec : EqDecision MapRef.
Proof. solve_decision. Defined.

(** The data members of [ConwaysGame].  The member [matrix], a pointer to
    the display, is the [Display.t] that [drawCurGen] takes and returns. *)
Record ConwaysGame : Type := mkGame {
  simColor : Z;
  genMap_1 : Grid.genMap;
  genMap_2 : Grid.genMap;
  currentGenMap : option MapRef;
  nextGenMap : option MapRef;
}.

#[export] Instance ConwaysGame_eq_dec : EqDecision ConwaysGame.
Proof. solve_decision. Defined.

(** ** Field updates and pointers *)

Definition set_simColor (c : Z) (g : ConwaysGame) : ConwaysGame :=
  mkGame c (genMap_1 g) (genMap_2 g) (currentGenMap g) (nextGenMap g).

Definition set_currentGenMap (p : option MapRef) (g : ConwaysGame) : ConwaysGame :=
  mkGame (simColor g) (genMap_1 g) (genMap_2 g) p (nextGenMap g).

Definition set_nextGenMap (p : option MapRef) (g : ConwaysGame) : ConwaysGame :=
  mkGame (simColor g) (genMap_1 g) (genMap_2 g) (currentGenMap g) p.

(** The map a reference points to, and the object with that map replaced. *)
Definition get_map (r : MapRef) (g : ConwaysGame) : Grid.genMap :=
  match r with Map1 => genMap_1 g | Map2 => genMap_2 g end.

Definition put_map (r : MapRef) (m : Grid.genMap) (g : ConwaysGame) : ConwaysGame :=
  match r with
  | Map1 => mkGame (simColor g) m (genMap_2 g) (currentGenMap g) (nextGenMap g)
  | Map2 => mkGame (simColor g) (genMap_1 g) m (currentGenMap g) (nextGenMap g)
  end.

(** The buffer that [r] does not point to. *)
Definition other (r : MapRef) : MapRef :=
  match r with Map1 => Map2 | Map2 => Map1 end.

(** The pointed-to map as an rvalue and as the target of a write; a null
    pointer fails. *)
Definition deref (g : ConwaysGame) (p : option MapRef) : option Grid.genMap :=
  r ← p; Some (get_map r g).

Definition assign (g : ConwaysGame) (p : option MapRef) (m : Grid.genMap) : option ConwaysGame :=
  r ← p; Some (put_map r m g).

(** A cell of the pointed-to map, read and written. *)
Definition load (g : ConwaysGame) (p : option MapRef) (y x : Z) : option Z :=
  m ← deref g p; Grid.get m y x.

Definition store (g : ConwaysGame) (p : option MapRef) (y x v : Z) : option ConwaysGame :=
  m ← deref g p; m' ← Grid.set m y x v; assign g p m'.

(** ** Construction *)

(** An object as a seed leaves it: [m] in [genMap_1], [genMap_2] cleared,
    [currentGenMap] on [genMap_1], and [nextGenMap] not yet assigned. *)
Definition seeded (m : Grid.genMap) : ConwaysGame :=
  mkGame 0 m Grid.zero (Some Map1) None.

(** The object in static storage before its constructor runs: every member
    zero, both pointers null. *)
Definition static_init : ConwaysGame := mkGame 0 Grid.zero Grid.zero None None.

(** [ConwaysGame(disp)]: the colour defaults to red. *)
Definition new_default : ConwaysGame :=
  set_simColor (Display.color565 255 0 0) static_init.

(** [ConwaysGame(disp, color)]. *)
Definition new_colored (color : Z) : ConwaysGame :=
  set_simColor (uint16_t color) static_init.

(** [setColor(color)]. *)
Definition setColor (color : Z) (g : ConwaysGame) : ConwaysGame :=
  set_simColor (uint16_t color) g.

(** The generation on display: the field of the current map. *)
Definition current_field (g : ConwaysGame) : Life.field :=
  match currentGenMap g with
  | Some c => Grid.alive (get_map c g)
  | None => Life.empty
  end.

(** The invariant of a seeded object: both maps have the array shape and
    hold only 0 and 1, the colour fits 16 bits, and [currentGenMap] points
    to one of the maps. *)
Definition valid (g : ConwaysGame) : Prop :=
  Grid.wf (genMap_1 g) ∧ Grid.wf (genMap_2 g) ∧
  Grid.boolean (genMap_1 g) ∧ Grid.boolean (genMap_2 g) ∧
  0 ≤ simColor g < 65536 ∧
  is_Some (currentGenMap g).

(** The invariant of the object before seeding: as [valid], but the
    pointers may be null. *)
Definition shaped (g : ConwaysGame) : Prop :=
  Grid.wf (genMap_1 g) ∧ Grid.wf (genMap_2 g) ∧
  Grid.boolean (genMap_1 g) ∧ Grid.boolean (genMap_2 g) ∧
  0 ≤ simColor g < 65536.

#[export] Instance valid_dec g : Decision (valid g).
Proof. unfold valid. apply _. Defined.

#[export] Instance shaped_dec g : Decision (shaped g).
Proof. unfold shaped. apply _. Defined.

(** ** Pointers and fields *)

Section pointers.
Implicit Types (g : ConwaysGame) (r c : MapRef) (m : Grid.genMap) (p : option MapRef).

Lemma other_ne r : other r ≠ r.
Proof. by destruct r. Qed.

Lemma other_involutive r : other (other r) = r.
Proof. by destruct r. Qed.

Lemma get_put_eq r m g : get_map r (put_map r m g) = m.
Proof. by destruct r. Qed.

Lemma get_put_ne r r' m g : r ≠ r' → get_map r' (put_map r m g) = get_map r' g.
Proof. by destruct r, r'. Qed.

Lemma get_put_other r m g : get_map r (put_map (other r) m g) = get_map r g.
Proof. by destruct r. Qed.

Lemma put_put r m m' g : put_map r m (put_map r m' g) = put_map r m g.
Proof. by destruct r. Qed.

Lemma put_get r g : put_map r (get_map r g) g = g.
Proof. by destruct r, g. Qed.

Lemma put_map_fields r m g :
  simColor (put_map r m g) = simColor g ∧
  currentGenMap (put_map r m g) = currentGenMap g ∧
  nextGenMap (put_map r m g) = nextGenMap g.
Proof. by destruct r. Qed.

Lemma current_put r m g : currentGenMap (put_map r m g) = currentGenMap g.
Proof. apply put_map_fields. Qed.

Lemma next_put r m g : nextGenMap (put_map r m g) = nextGenMap g.
Proof. apply put_map_fields. Qed.

Lemma color_put r m g : simColor (put_map r m g) = simColor g.
Proof. apply put_map_fields. Qed.

Lemma get_set_next r p g : get_map r (set_nextGenMap p g) = get_map r g.
Proof. by destruct r. Qed.

Lemma get_set_current r p g : get_map r (set_currentGenMap p g) = get_map r g.
Proof. by destruct r. Qed.

Lemma get_set_color r k g : get_map r (set_simColor k g) = get_map r g.
Proof. by destruct r. Qed.

Lemma load_ref g r y x : load g (Some r) y x = Grid.get (get_map r g) y x.
Proof. done. Qed.

Lemma load_null g y x : load g None y x = None.
Proof. done. Qed.

Lemma store_ref g r y x v :
  store g (Some r) y x v = (m' ← Grid.set (get_map r g) y x v; Some (put_map r m' g)).
Proof. done. Qed.

Lemma store_null g y x v : store g None y x v = None.
Proof. done. Qed.

End pointers.

#[export] Hint Rewrite get_put_eq get_put_other put_put put_get current_put next_put
  color_put load_ref store_ref other_involutive get_set_next get_set_current
  get_set_color : gol.
#[export] Hint Rewrite get_put_ne using done : gol.
#[export] Hint Resolve other_ne : gol.

Lemma valid_wf g : valid g → Grid.wf (genMap_1 g) ∧ Grid.wf (genMap_2 g).
Proof. by intros (? & ? & _). Qed.

Lemma valid_map g r : valid g → Grid.wf (get_map r g) ∧ Grid.boolean (get_map r g).
Proof. intros (? & ? & ? & ? & _). by destruct r. Qed.

(** ** [setColor] *)

(** [setColor] keeps the low 16 bits of the colour and touches nothing
    else: the object stays valid and shows the same generation. *)
Lemma setColor_valid color g :
  valid g →
  valid (setColor color g) ∧ simColor (setColor color g) = color `mod` 65536 ∧
  current_field (setColor color g) = current_field g.
Proof.
  intros (Hwf1 & Hwf2 & Hb1 & Hb2 & _ & Hcur). pose proof (uint16_range color).
  split; [|split]; [|done|].
  - unfold valid, setColor. cbn [genMap_1 genMap_2 simColor currentGenMap set_simColor].
    split_and!; [done|done|done|done|lia|lia|done].
  - unfold current_field; simpl. by destruct (currentGenMap g) as [[]|].
Qed.

Lemma setColor_valid_witness :
  valid (setColor 70000 (seeded Boards.block)) ∧
  simColor (setColor 70000 (seeded Boards.block)) = 4464 ∧
  current_field (setColor 70000 (seeded Boards.block)) = current_field (seeded Boards.block).
Proof. apply (setColor_valid 70000 (seeded Boards.block)). by_compute. Defined.
