(* ===== verification/Neighbors.v ===== *)
(** * Neighbors: [checkNeighbors]

    The private helper of the class: the loop over the 3x3 square around
    a cell, with its three [continue]s and its 8-bit counter, and the
    rules of the game on the count.  The four parameters are [uint8_t] and
    the board size is a parameter, so the method is modelled, and proved,
    for every board that fits the array and not only for the one
    [calcNextGen] passes.

    The theorems: on every board that fits the array [checkNeighbors]
    stays inside the array and computes [Life.rule] of
    [Life.live_neighbours]; told a board taller or wider than the array
    it reads outside the array, so its reads are safe exactly for the
    boards that fit ([checkNeighbors_bounds]); on an object that was
    never seeded it dereferences a null pointer. *)

From Stdlib Require Import ZArith Lia.
From stdpp Require Import list list_numbers option.
From S2P Require Import Prelude.
From S2P Require Import Grid.
From S2P Require Import Boards.
From S2P Require Import Life.
From S2P Require Import Object.

#[local] Open Scope Z_scope.

(** ** The method *)

(** One iteration of the loop over the 3x3 square around [(y, x)]: the
    three [continue]s, then the count of a live neighbour in the 8-bit
    counter. *)
Definition neighbor_step (g : ConwaysGame) (y x totalRows totalColumns yTopLeft xTopLeft : Z)
    (i liveNeighbors : Z) : option Z :=
  let curYLoc := yTopLeft + i `quot` 3 in
  let curXLoc := xTopLeft + i `rem` 3 in
  if decide (curYLoc < 0 ∨ curXLoc < 0) then Some liveNeighbors
  else if decide (curYLoc >= totalRows ∨ curXLoc >= totalColumns) then Some liveNeighbors
  else if decide (curXLoc = x ∧ curYLoc = y) then Some liveNeighbors
  else
    v ← load g (currentGenMap g) curYLoc curXLoc;
    Some (if truth v then uint8_t (liveNeighbors + 1) else liveNeighbors).

(** The rules, on the state of the cell and its live-neighbour count. *)
Definition evaluate_rules (currentCellState : bool) (liveNeighbors : Z) : bool :=
  if currentCellState then
    if decide (liveNeighbors < 2) then false
    else if decide (liveNeighbors > 3) then false
    else true
  else
    if decide (liveNeighbors = 3) then true else false.

(** [checkNeighbors(y, x, totalRows, totalColumns)]; the four parameters
    are [uint8_t], so the arguments are converted on entry. *)
Definition checkNeighbors (g : ConwaysGame) (y x totalRows totalColumns : Z) : option bool :=
  let y := uint8_t y in
  let x := uint8_t x in
  let totalRows := uint8_t totalRows in
  let totalColumns := uint8_t totalColumns in
  let yTopLeft := y - 1 in
  let xTopLeft := x - 1 in
  liveNeighbors ← for_loop 0 9
    (neighbor_step g y x totalRows totalColumns yTopLeft xTopLeft) 0;
  currentCellState ← load g (currentGenMap g) y x;
  Some (evaluate_rules (truth currentCellState) liveNeighbors).

(** ** Its specification *)

(** The term iteration [i] of the loop of [checkNeighbors] adds to the
    count: nothing for the centre of the square, else whether the cell at
    row offset [i / 3] and column offset [i mod 3] from the top left corner
    is a live cell of the board. *)
Definition window_term (rows cols : Z) (f : Life.field) (y x i : Z) : Z :=
  if decide (i = 4) then 0
  else Life.live_at rows cols f (y - 1 + i `quot` 3) (x - 1 + i `rem` 3).

(** ** The window and the rules *)

Lemma window_term_range rows cols f y x i : 0 ≤ window_term rows cols f y x i ≤ 1.
Proof. unfold window_term. case_decide; [lia|]. apply Life.live_at_range. Qed.

Section neighbours.
Context (g : ConwaysGame) (c : MapRef) (rows cols : Z).
Context (Hcur : currentGenMap g = Some c).
Context (Hwf : Grid.wf (get_map c g)).
Context (Hrows : rows ≤ gameRows) (Hcols : cols ≤ gameColumns).

#[local] Abbreviation cur := (get_map c g).
#[local] Abbreviation field := (Grid.alive (get_map c g)).

(** Row and column offset of iteration [i] in the 3x3 square. *)
Lemma quot_rem_3 i :
  0 ≤ i < 9 → 0 ≤ i `quot` 3 ≤ 2 ∧ 0 ≤ i `rem` 3 ≤ 2 ∧ i = 3 * (i `quot` 3) + i `rem` 3.
Proof.
  intros Hi. rewrite Z.quot_div_nonneg, Z.rem_mod_nonneg by lia.
  pose proof (Z.div_mod i 3 ltac:(done)). pose proof (Z.mod_pos_bound i 3 ltac:(done)).
  split; [|lia]. split; [apply Z.div_pos; lia|].
  assert (i `div` 3 < 3); [|lia]. apply Z.div_lt_upper_bound; lia.
Qed.

Lemma evaluate_rules_rule a n : evaluate_rules a n = Life.rule a n.
Proof.
  unfold evaluate_rules, Life.rule.
  destruct a; repeat case_decide; symmetry;
    (apply bool_decide_eq_true_2 || apply bool_decide_eq_false_2); lia.
Qed.

(** An iteration on a cell of a board that fits the array never fails and
    adds its term. *)
Lemma neighbor_step_term y x i n :
  0 ≤ y < rows → 0 ≤ x < cols → 0 ≤ i < 9 → 0 ≤ n ≤ i →
  neighbor_step g y x rows cols (y - 1) (x - 1) i n
  = Some (n + window_term rows cols field y x i).
Proof.
  intros Hy Hx Hi Hn. unfold neighbor_step, window_term.
  pose proof (quot_rem_3 i Hi) as (Ha & Hb & Hab).
  set (a := i `quot` 3) in *. set (b := i `rem` 3) in *.
  destruct (decide (y - 1 + a < 0 ∨ x - 1 + b < 0)) as [Hneg|Hneg].
  { rewrite decide_False by lia. rewrite Life.live_at_outside by lia. f_equal; lia. }
  destruct (decide (y - 1 + a >= rows ∨ x - 1 + b >= cols)) as [Hbig|Hbig].
  { rewrite decide_False by lia. rewrite Life.live_at_outside by lia. f_equal; lia. }
  destruct (decide (x - 1 + b = x ∧ y - 1 + a = y)) as [Hself|Hself].
  { rewrite decide_True by lia. f_equal; lia. }
  rewrite decide_False by lia. rewrite Hcur, load_ref.
  destruct (Grid.get_is_Some cur (y - 1 + a) (x - 1 + b)) as [v Hv]; [done|lia..|].
  rewrite Hv. simpl. rewrite Life.live_at_inside by lia.
  rewrite (Grid.alive_get _ _ _ _ Hv). destruct (truth v); f_equal; [|lia].
  apply uint8_small. lia.
Qed.

(** The loop returns the sum of the nine terms. *)
Lemma neighbor_loop y x :
  0 ≤ y < rows → 0 ≤ x < cols →
  for_loop 0 9 (neighbor_step g y x rows cols (y - 1) (x - 1)) 0
  = Some (sumZ 0 9 (window_term rows cols field y x)).
Proof.
  intros Hy Hx.
  destruct (for_loop_inv (λ i n, n = sumZ 0 i (window_term rows cols field y x) ∧ 0 ≤ n ≤ i)
    0 9 (neighbor_step g y x rows cols (y - 1) (x - 1)) 0)
    as (n & Hloop & -> & _); [done|by rewrite sumZ_empty| |done].
  intros i n Hi [-> Hn]. eexists. split; [by apply neighbor_step_term|].
  rewrite sumZ_last by lia. split; [done|].
  pose proof (window_term_range rows cols field y x i). lia.
Qed.

End neighbours.

(** The nine terms are the eight neighbours. *)
Lemma window_sum rows cols f y x :
  sumZ 0 9 (window_term rows cols f y x) = Life.live_neighbours rows cols f y x.
Proof.
  rewrite Life.live_neighbours_unfold. unfold sumZ.
  change (seqZ 0 (9 - 0)) with [0; 1; 2; 3; 4; 5; 6; 7; 8].
  cbv [foldr window_term].
  rewrite (decide_True (P := 4 = 4)) by done. rewrite !decide_False by lia.
  change (0 `quot` 3) with 0. change (1 `quot` 3) with 0. change (2 `quot` 3) with 0.
  change (3 `quot` 3) with 1. change (5 `quot` 3) with 1. change (6 `quot` 3) with 2.
  change (7 `quot` 3) with 2. change (8 `quot` 3) with 2.
  change (0 `rem` 3) with 0. change (1 `rem` 3) with 1. change (2 `rem` 3) with 2.
  change (3 `rem` 3) with 0. change (5 `rem` 3) with 2. change (6 `rem` 3) with 0.
  change (7 `rem` 3) with 1. change (8 `rem` 3) with 2.
  replace (y - 1 + 0) with (y - 1) by lia. replace (y - 1 + 1) with y by lia.
  replace (y - 1 + 2) with (y + 1) by lia. replace (x - 1 + 0) with (x - 1) by lia.
  replace (x - 1 + 1) with x by lia. replace (x - 1 + 2) with (x + 1) by lia.
  lia.
Qed.

(** The run of [checkNeighbors] on a cell of a board of [rows] by [cols]
    cells that fits the array: the window loop stays inside the array, its
    counter ends as the number of live neighbours on that board, and the
    rules are evaluated on it. *)
Lemma checkNeighbors_board g c rows cols y x :
  currentGenMap g = Some c → Grid.wf (get_map c g) →
  rows ≤ gameRows → cols ≤ gameColumns → 0 ≤ y < rows → 0 ≤ x < cols →
  checkNeighbors g y x rows cols
  = Some (evaluate_rules (Grid.alive (get_map c g) y x)
            (Life.live_neighbours rows cols (Grid.alive (get_map c g)) y x)).
Proof.
  intros Hcur Hwf Hrows Hcols Hy Hx. unfold checkNeighbors.
  pose proof Grid.gameRows_range. pose proof Grid.gameColumns_range.
  rewrite !uint8_small by lia.
  rewrite (neighbor_loop g c rows cols Hcur Hwf) by done. simpl.
  rewrite Hcur, load_ref.
  destruct (Grid.get_is_Some (get_map c g) y x) as [v Hv]; [done|lia..|].
  rewrite Hv. simpl.
  by rewrite window_sum, (Grid.alive_get _ _ _ _ Hv).
Qed.

(** The call [calcNextGen] makes: the whole board. *)
Lemma checkNeighbors_run g c y x :
  currentGenMap g = Some c → Grid.wf (get_map c g) →
  0 ≤ y < gameRows → 0 ≤ x < gameColumns →
  checkNeighbors g y x gameRows gameColumns
  = Some (evaluate_rules (Grid.alive (get_map c g) y x)
            (Life.live_neighbours gameRows gameColumns (Grid.alive (get_map c g)) y x)).
Proof. intros Hcur Hwf. by apply checkNeighbors_board. Qed.

(** C2: [checkNeighbors] computes Conway's rule on the board it is given.
    On an object whose current map has the array shape, for every board of
    [totalRows] by [totalColumns] cells that fits the array and every cell
    of it, the call is defined (no read leaves the array, the 8-bit
    counter does not wrap) and returns the rule applied to the cell and to
    the number of its live neighbours on that board. *)
Theorem checkNeighbors_spec g c rows cols y x :
  currentGenMap g = Some c → Grid.wf (get_map c g) →
  rows ≤ gameRows → cols ≤ gameColumns → 0 ≤ y < rows → 0 ≤ x < cols →
  checkNeighbors g y x rows cols
  = Some (Life.rule (Grid.alive (get_map c g) y x)
            (Life.live_neighbours rows cols (Grid.alive (get_map c g)) y x)).
Proof.
  intros Hcur Hwf Hrows Hcols Hy Hx. rewrite (checkNeighbors_board g c) by done.
  by rewrite evaluate_rules_rule.
Qed.

Lemma checkNeighbors_spec_witness :
  checkNeighbors (seeded Boards.blinker_h) 10 20 gameRows gameColumns = Some true.
Proof.
  rewrite (checkNeighbors_spec (seeded Boards.blinker_h) Map1 gameRows gameColumns 10 20);
    [by vm_compute|done|by_compute|done..].
Defined.

(** [checkNeighbors] has no bounds of its own: told that the board is
    taller than the array, it reads past the last row of the map. *)
Lemma checkNeighbors_overrun g c x rows cols :
  currentGenMap g = Some c → Grid.wf (get_map c g) →
  gameRows < rows ≤ 255 → 0 ≤ x < cols → cols ≤ 255 →
  checkNeighbors g (gameRows - 1) x rows cols = None.
Proof.
  intros Hcur Hwf Hrows Hx Hcols. unfold checkNeighbors.
  rewrite !uint8_small by (unfold gameRows in *; lia).
  rewrite (for_loop_fails 0 9 7); [done|done|]. intros n. unfold neighbor_step.
  change (7 `quot` 3) with 2. change (7 `rem` 3) with 1.
  rewrite !decide_False by (unfold gameRows in *; lia).
  rewrite Hcur, load_ref, Grid.get_outside; [done|done|unfold gameRows; lia].
Qed.

(** With a null [currentGenMap] the first read of [checkNeighbors] is undefined. *)
Lemma checkNeighbors_unseeded g y x rows cols :
  currentGenMap g = None → checkNeighbors g y x rows cols = None.
Proof.
  intros Hcur. unfold checkNeighbors. rewrite Hcur.
  by destruct (for_loop _ _ _ _).
Qed.

(** Told that the board is wider than the array, it reads past the end of
    a row. *)
Lemma checkNeighbors_overrun_columns g c y rows cols :
  currentGenMap g = Some c → Grid.wf (get_map c g) →
  0 ≤ y < rows → rows ≤ 255 → gameColumns < cols ≤ 255 →
  checkNeighbors g y (gameColumns - 1) rows cols = None.
Proof.
  intros Hcur Hwf Hy Hrows Hcols. unfold checkNeighbors.
  rewrite !uint8_small by (unfold gameColumns in *; lia).
  rewrite (for_loop_fails 0 9 5); [done|done|]. intros n. unfold neighbor_step.
  change (5 `quot` 3) with 1. change (5 `rem` 3) with 2.
  rewrite !decide_False by (unfold gameColumns in *; lia).
  rewrite Hcur, load_ref, Grid.get_outside; [done|done|unfold gameColumns; lia].
Qed.

(** C26: The array bounds of [checkNeighbors].  The method guards its reads
    with the board size it is told, not with the size of the array.  On
    an object whose current map has the array shape, and for a board size
    that the 8-bit parameters can hold, the reads of the call stay inside
    the array for every cell of the board exactly when the board fits the
    array: the board of 32 by 64 cells that [calcNextGen] passes is the
    largest for which the method is safe. *)
Theorem checkNeighbors_bounds g c rows cols :
  currentGenMap g = Some c → Grid.wf (get_map c g) →
  0 < rows ≤ 255 → 0 < cols ≤ 255 →
  (∀ y x, 0 ≤ y < rows → 0 ≤ x < cols → is_Some (checkNeighbors g y x rows cols))
  ↔ rows ≤ gameRows ∧ cols ≤ gameColumns.
Proof.
  intros Hcur Hwf Hrows Hcols. split.
  - intros Hsafe. split.
    + destruct (decide (rows ≤ gameRows)) as [|Hbig]; [done|].
      destruct (Hsafe (gameRows - 1) 0) as [b Hb]; [unfold gameRows in *; lia|lia|].
      rewrite (checkNeighbors_overrun g c 0 rows cols) in Hb by (done || lia). done.
    + destruct (decide (cols ≤ gameColumns)) as [|Hbig]; [done|].
      destruct (Hsafe 0 (gameColumns - 1)) as [b Hb]; [lia|unfold gameColumns in *; lia|].
      rewrite (checkNeighbors_overrun_columns g c 0 rows cols) in Hb by (done || lia). done.
  - intros [Hr Hc] y x Hy Hx. by rewrite (checkNeighbors_board g c).
Qed.

Lemma checkNeighbors_bounds_witness :
  (∀ y x, 0 ≤ y < 32 → 0 ≤ x < 65 →
     is_Some (checkNeighbors (seeded Boards.blinker_h) y x 32 65))
  ↔ 32 ≤ gameRows ∧ 65 ≤ gameColumns.
Proof.
  apply (checkNeighbors_bounds (seeded Boards.blinker_h) Map1); [done|by_compute|lia|lia].
Defined.
