(* ===== verification/Engine.v ===== *)
(** * Engine: [calcNextGen]

    The generation step of [simulation.h].  [calcNextGen] chooses the
    buffer that is not current, runs the two nested loops over the board,
    asking [checkNeighbors] of [Neighbors] for every cell, counts the
    changed cells in a 32-bit counter and makes the new buffer current.

    The theorems: [calcNextGen] equals the reference step
    [calcNextGen_ref] (one [Life.next] tabulated into the other buffer,
    pointers flipped, the count of changed cells); the consequences of the
    refinement (validity, double buffering, the count, the rules cell by
    cell, the edges); [n] calls in a row are [n] abstract steps.  On an
    object that was never seeded the method dereferences a null
    pointer. *)

From Stdlib Require Import ZArith Lia.
From stdpp Require Import list list_numbers option.
From S2P Require Import Prelude.
From S2P Require Import Grid.
From S2P Require Import Boards.
From S2P Require Import Life.
From S2P Require Import Object.
From S2P Require Import Neighbors.

#[local] Open Scope Z_scope.

(** ** The method *)

(** The body of the inner loop: compute the cell, store it through
    [nextGenMap], compare the two maps at the cell and count in the 32-bit
    counter. *)
Definition calc_cell (i j : Z) (st : ConwaysGame * Z) : option (ConwaysGame * Z) :=
  let '(g, updates) := st in
  b ← checkNeighbors g i j gameRows gameColumns;
  g ← (if b : bool then store g (nextGenMap g) i j (of_bool true)
       else store g (nextGenMap g) i j (of_bool false));
  c ← load g (currentGenMap g) i j;
  n ← load g (nextGenMap g) i j;
  Some (g, if decide (c ≠ n) then uint32_t (updates + 1) else updates).

(** [calcNextGen()]: choose the buffer that is not current, fill it, make
    it current, return the number of updates. *)
Definition calcNextGen (g : ConwaysGame) : option (ConwaysGame * Z) :=
  let g :=
    if decide (currentGenMap g = Some Map1) then set_nextGenMap (Some Map2) g
    else set_nextGenMap (Some Map1) g in
  '(g, updates) ← for_loop 0 gameRows (λ i, for_loop 0 gameColumns (calc_cell i)) (g, 0);
  Some (set_currentGenMap (nextGenMap g) g, updates).

(** [n] calls of [calcNextGen] in a row, the counts dropped. *)
Fixpoint generations (n : nat) (g : ConwaysGame) : option ConwaysGame :=
  match n with
  | O => Some g
  | S n => '(g, _) ← calcNextGen g; generations n g
  end.

(** ** The reference step and the object invariant *)

(** The next generation of a map, as a map. *)
Definition next_map (m : Grid.genMap) : Grid.genMap :=
  Grid.tabulate (λ y x, of_bool (Life.next gameRows gameColumns (Grid.alive m) y x)).

(** What [calcNextGen] is meant to do, without loops or counters. *)
Definition calcNextGen_ref (g : ConwaysGame) : option (ConwaysGame * Z) :=
  c ← currentGenMap g;
  let cur := get_map c g in
  let new := next_map cur in
  Some (set_currentGenMap (Some (other c)) (set_nextGenMap (Some (other c))
          (put_map (other c) new g)),
        Grid.diff_count cur new).

(** The state of the loops of [calcNextGen] when they reach row [i] and
    column [j], started on the object [g0] whose current map is [c]: only
    the other map has changed, it holds the next generation in every cell
    the loops have passed, and the counter holds the number of those cells
    that differ from the current map. *)
Definition filled (g0 : ConwaysGame) (c : MapRef) (i j : Z) (st : ConwaysGame * Z) : Prop :=
  ∃ nm, st.1 = put_map (other c) nm g0 ∧ Grid.wf nm ∧
    (∀ y x, 0 ≤ y < gameRows → 0 ≤ x < gameColumns → y < i ∨ (y = i ∧ x < j) →
       Grid.get nm y x = Grid.get (next_map (get_map c g0)) y x) ∧
    st.2 = sumZ 0 i (λ y, Grid.row_diff (get_map c g0) (next_map (get_map c g0)) y gameColumns)
           + Grid.row_diff (get_map c g0) (next_map (get_map c g0)) i j.

(** ** The loops *)

Lemma get_next_map m y x :
  0 ≤ y < gameRows → 0 ≤ x < gameColumns →
  Grid.get (next_map m) y x
  = Some (of_bool (Life.rule (Grid.alive m y x)
                     (Life.live_neighbours gameRows gameColumns (Grid.alive m) y x))).
Proof.
  intros Hy Hx. unfold next_map. rewrite Grid.get_tabulate by done.
  by rewrite Life.next_inside.
Qed.

Lemma next_map_wf m : Grid.wf (next_map m).
Proof. apply Grid.tabulate_wf. Qed.

Lemma next_map_boolean m : Grid.boolean (next_map m).
Proof. apply Grid.tabulate_boolean. intros y x. apply of_bool_cases. Qed.

Lemma alive_next_map m y x :
  Grid.alive (next_map m) y x = Life.next gameRows gameColumns (Grid.alive m) y x.
Proof.
  destruct (decide (0 ≤ y < gameRows ∧ 0 ≤ x < gameColumns)) as [[Hy Hx]|Hout].
  - unfold next_map. by rewrite Grid.alive_tabulate.
  - rewrite Grid.alive_outside by (done || apply next_map_wf).
    by rewrite Life.next_outside.
Qed.

Section advance.
Context (g0 : ConwaysGame) (c : MapRef).
Context (Hcur : currentGenMap g0 = Some c) (Hnext : nextGenMap g0 = Some (other c)).
Context (Hwf : Grid.wf (get_map c g0)) (Hwf' : Grid.wf (get_map (other c) g0)).

#[local] Abbreviation cur := (get_map c g0).
#[local] Abbreviation new := (next_map (get_map c g0)).

(** One cell: the other map is written at [(i, j)] with the byte of the
    next generation, and the counter moves when that byte differs from the
    byte of the current map. *)
Lemma calc_cell_run nm i j u :
  Grid.wf nm → 0 ≤ i < gameRows → 0 ≤ j < gameColumns →
  ∃ nm', Grid.set nm i j (default 0 (Grid.get new i j)) = Some nm' ∧
    calc_cell i j (put_map (other c) nm g0, u)
    = Some (put_map (other c) nm' g0,
            if decide (Grid.get cur i j = Grid.get new i j) then u else uint32_t (u + 1)).
Proof.
  intros Hnm Hi Hj. rewrite get_next_map by done. simpl.
  set (b := Life.rule _ _).
  destruct (Grid.set_is_Some nm i j (of_bool b)) as [nm' Hnm']; [done..|].
  destruct (Grid.get_is_Some cur i j) as [cv Hcv]; [done..|].
  exists nm'. split; [done|]. unfold calc_cell.
  rewrite (checkNeighbors_run _ c), evaluate_rules_rule by (by autorewrite with gol). simpl.
  autorewrite with gol. fold b.
  assert ((if b then store (put_map (other c) nm g0) (nextGenMap g0) i j 1
           else store (put_map (other c) nm g0) (nextGenMap g0) i j 0)
          = Some (put_map (other c) nm' g0)) as ->.
  { rewrite Hnext. destruct b; simpl in Hnm'; autorewrite with gol; rewrite Hnm'; simpl;
      by autorewrite with gol. }
  simpl. autorewrite with gol. rewrite Hcur, Hnext. autorewrite with gol.
  rewrite Hcv, (Grid.get_set_eq _ _ _ _ _ Hnm'). simpl.
  f_equal. f_equal. repeat case_decide; congruence.
Qed.

(** The counter of a loop state is bounded by the cells passed. *)
Lemma filled_count i j st :
  0 ≤ i → 0 ≤ j → filled g0 c i j st → 0 ≤ st.2 ≤ gameColumns * i + j.
Proof.
  intros Hi Hj (nm & _ & _ & _ & ->).
  pose proof (Grid.row_diff_range cur new i j Hj).
  pose proof (sumZ_bound 0 i (λ y, Grid.row_diff cur new y gameColumns) gameColumns Hi) as Hb.
  enough (0 ≤ sumZ 0 i (λ y, Grid.row_diff cur new y gameColumns) ≤ gameColumns * (i - 0)) by lia.
  apply Hb. intros y _. by apply Grid.row_diff_range.
Qed.

(** The body of the inner loop keeps the loop state. *)
Lemma calc_cell_filled i j st :
  0 ≤ i < gameRows → 0 ≤ j < gameColumns → filled g0 c i j st →
  ∃ st', calc_cell i j st = Some st' ∧ filled g0 c i (j + 1) st'.
Proof.
  intros Hi Hj Hst. pose proof (filled_count i j st ltac:(lia) ltac:(lia) Hst) as Hu.
  destruct st as [g u], Hst as (nm & Hg & Hnm & Hdone & Hcount). simpl in *. subst g.
  destruct (calc_cell_run nm i j u) as (nm' & Hnm' & Hrun); [done..|].
  eexists. split; [exact Hrun|]. exists nm'. simpl.
  split; [done|]. split; [by eapply Grid.set_wf|]. split.
  - intros y x Hy Hx Hyx. destruct (decide ((y, x) = (i, j))) as [[= -> ->]|Hne].
    + rewrite (Grid.get_set_eq _ _ _ _ _ Hnm').
      by destruct (Grid.get_is_Some new i j) as [v ->]; [apply next_map_wf|..].
    + rewrite (Grid.get_set_ne _ _ _ _ _ _ _ Hnm') by done.
      apply Hdone; [done..|]. destruct (decide (y = i)); [|lia].
      right. split; [done|]. assert (x ≠ j) by congruence. lia.
  - rewrite Grid.row_diff_last by lia. unfold Grid.cell_diff.
    case_decide; [lia|]. rewrite uint32_small; [lia|].
    unfold gameRows, gameColumns in *. lia.
Qed.

(** The end of a row is the start of the next. *)
Lemma filled_row_end i st :
  0 ≤ i → filled g0 c i gameColumns st → filled g0 c (i + 1) 0 st.
Proof.
  intros Hi (nm & Hg & Hnm & Hdone & Hcount). exists nm.
  split; [done|]. split; [done|]. split.
  - intros y x Hy Hx Hyx. apply Hdone; [done..|]. lia.
  - rewrite Hcount, sumZ_last, Grid.row_diff_0 by lia. lia.
Qed.

(** The two loops fill the whole map. *)
Lemma loops_filled :
  ∃ st', for_loop 0 gameRows (λ i, for_loop 0 gameColumns (calc_cell i)) (g0, 0) = Some st'
         ∧ filled g0 c gameRows 0 st'.
Proof.
  apply (for_loop2_inv (filled g0 c)); [done|done| | |].
  - exists (get_map (other c) g0). simpl. split; [by rewrite put_get|].
    split; [done|]. split; [intros; lia|].
    by rewrite Grid.row_diff_0, sumZ_empty.
  - intros i j st Hi Hj Hst. by apply calc_cell_filled.
  - intros i st Hi Hst. apply filled_row_end; [lia|done].
Qed.

End advance.

(** When the loops are through, the other map is the next generation and
    the counter is the number of differing cells. *)
Lemma filled_final g0 c st :
  filled g0 c gameRows 0 st →
  st = (put_map (other c) (next_map (get_map c g0)) g0,
        Grid.diff_count (get_map c g0) (next_map (get_map c g0))).
Proof.
  destruct st as [g u]. intros (nm & Hg & Hnm & Hdone & Hcount). simpl in *.
  rewrite Grid.row_diff_0, Z.add_0_r in Hcount. subst g u. f_equal. f_equal.
  apply Grid.ext; [done|apply next_map_wf|].
  intros y x Hy Hx. apply Hdone; [done..|lia].
Qed.

(** The choice of the buffer to fill. *)
Lemma choose_next g c :
  currentGenMap g = Some c →
  (if decide (currentGenMap g = Some Map1) then set_nextGenMap (Some Map2) g
   else set_nextGenMap (Some Map1) g) = set_nextGenMap (Some (other c)) g.
Proof. intros ->. by destruct c. Qed.

Lemma calc_cell_null i j g u : currentGenMap g = None → calc_cell i j (g, u) = None.
Proof. intros Hcur. unfold calc_cell. by rewrite checkNeighbors_unseeded. Qed.

(** With a null [currentGenMap] the first cell of [calcNextGen] is undefined. *)
Lemma calcNextGen_unseeded g : currentGenMap g = None → calcNextGen g = None.
Proof.
  intros Hcur. unfold calcNextGen. rewrite decide_False by congruence.
  rewrite for_loop_first by done. rewrite for_loop_first by done.
  by rewrite calc_cell_null.
Qed.

(** The loops of [calcNextGen] on a seeded object run to the end: the
    other buffer holds the next generation, both pointers are on it, and
    the counter is the number of cells whose byte differs. *)
Lemma calcNextGen_run g c :
  Grid.wf (genMap_1 g) → Grid.wf (genMap_2 g) → currentGenMap g = Some c →
  calcNextGen g
  = Some (set_currentGenMap (Some (other c)) (set_nextGenMap (Some (other c))
            (put_map (other c) (next_map (get_map c g)) g)),
          Grid.diff_count (get_map c g) (next_map (get_map c g))).
Proof.
  intros Hwf1 Hwf2 Hcur. unfold calcNextGen. rewrite (choose_next g c Hcur).
  destruct (loops_filled (set_nextGenMap (Some (other c)) g) c) as (st & -> & Hst);
    [done|done|by destruct c..|].
  apply filled_final in Hst as ->. simpl. autorewrite with gol.
  by destruct c.
Qed.

(** C1: [calcNextGen] implements the reference step.  Whenever the two
    maps have the array shape, the loops of the source, with their reads
    through [currentGenMap], their writes through [nextGenMap] and their
    32-bit counter, return exactly what [calcNextGen_ref] returns: the
    object with one [Life.next] step tabulated into the buffer that was not
    current, both pointers on that buffer, and the number of cells whose
    byte changed; on a null [currentGenMap] both are undefined. *)
Theorem calcNextGen_refines g :
  Grid.wf (genMap_1 g) → Grid.wf (genMap_2 g) → calcNextGen g = calcNextGen_ref g.
Proof.
  intros Hwf1 Hwf2. unfold calcNextGen_ref.
  destruct (currentGenMap g) as [c|] eqn:Hcur;
    [by apply calcNextGen_run|by apply calcNextGen_unseeded].
Qed.

Lemma calcNextGen_refines_witness :
  calcNextGen (seeded Boards.blinker_h) = calcNextGen_ref (seeded Boards.blinker_h).
Proof. apply calcNextGen_refines; by_compute. Defined.

(** ** Consequences of the reference step *)

Section step.
Context (g g' : ConwaysGame) (n : Z) (c : MapRef).
Context (Hwf1 : Grid.wf (genMap_1 g)) (Hwf2 : Grid.wf (genMap_2 g)).
Context (Hcur : currentGenMap g = Some c).
Context (Hstep : calcNextGen g = Some (g', n)).

(** The result of a defined step, field by field. *)
Lemma calcNextGen_inv :
  g' = set_currentGenMap (Some (other c)) (set_nextGenMap (Some (other c))
         (put_map (other c) (next_map (get_map c g)) g)) ∧
  n = Grid.diff_count (get_map c g) (next_map (get_map c g)).
Proof.
  rewrite (calcNextGen_run g c) in Hstep by done. by injection Hstep as <- <-.
Qed.

Lemma calcNextGen_current : currentGenMap g' = Some (other c).
Proof. by destruct calcNextGen_inv as [-> _]. Qed.

Lemma calcNextGen_new_map : get_map (other c) g' = next_map (get_map c g).
Proof. destruct calcNextGen_inv as [-> _]. by destruct c. Qed.

Lemma calcNextGen_old_map : get_map c g' = get_map c g.
Proof. destruct calcNextGen_inv as [-> _]. by destruct c. Qed.

Lemma calcNextGen_field y x :
  current_field g' y x = Life.next gameRows gameColumns (current_field g) y x.
Proof.
  unfold current_field. rewrite calcNextGen_current, calcNextGen_new_map, Hcur.
  apply alive_next_map.
Qed.

End step.

(** A step is defined exactly when [currentGenMap] is not null. *)
Lemma calcNextGen_is_Some g :
  Grid.wf (genMap_1 g) → Grid.wf (genMap_2 g) → is_Some (currentGenMap g) →
  is_Some (calcNextGen g).
Proof.
  intros Hwf1 Hwf2 [c Hcur]. rewrite (calcNextGen_run g c) by done. by eexists.
Qed.

(** What a defined step leaves behind on a valid object: a valid object
    of the same colour, and a count that fits the board. *)
Lemma calcNextGen_post g g' n :
  valid g → calcNextGen g = Some (g', n) →
  valid g' ∧ simColor g' = simColor g ∧ 0 ≤ n ≤ gameRows * gameColumns.
Proof.
  intros Hv Hstep. pose proof (valid_wf g Hv) as [Hwf1 Hwf2].
  destruct Hv as (_ & _ & Hb1 & Hb2 & Hcol & [c Hcur]).
  destruct (calcNextGen_inv g g' n c) as [-> ->]; [done..|].
  pose proof (next_map_wf (get_map c g)). pose proof (next_map_boolean (get_map c g)).
  split; [by destruct c|]. split; [by destruct c|].
  apply (Grid.diff_count_range (get_map c g) (next_map (get_map c g))).
Qed.

(** C8: The object invariant is preserved by [calcNextGen]: on a valid
    object the call is defined, and the object it returns is valid again
    (both maps keep the array shape and hold only 0 and 1, the colour is
    untouched, [currentGenMap] is not null). *)
Theorem calcNextGen_valid g :
  valid g → ∃ g' n, calcNextGen g = Some (g', n) ∧ valid g'.
Proof.
  intros Hv. pose proof (valid_wf g Hv) as [Hwf1 Hwf2].
  destruct (calcNextGen_is_Some g) as [[g' n] Hstep]; [done|done|by apply Hv|].
  exists g', n. split; [done|]. by apply (calcNextGen_post g g' n).
Qed.

Lemma calcNextGen_valid_witness :
  ∃ g' n, calcNextGen (seeded Boards.block) = Some (g', n) ∧ valid g'.
Proof. apply calcNextGen_valid. by_compute. Defined.

(** The generation after a defined step is one [Life.next] step from the generation before it. *)
Lemma calcNextGen_step_field g g' n :
  Grid.wf (genMap_1 g) → Grid.wf (genMap_2 g) → calcNextGen g = Some (g', n) →
  Life.feq (current_field g') (Life.next gameRows gameColumns (current_field g)).
Proof.
  intros Hwf1 Hwf2 Hstep y x.
  destruct (currentGenMap g) as [c|] eqn:Hcur.
  - by eapply calcNextGen_field.
  - by rewrite calcNextGen_unseeded in Hstep.
Qed.

(** C3: One call of [calcNextGen] is one generation of Conway's Game of
    Life on the bounded board: the field read through [currentGenMap]
    after the call is [Life.next] of the field read before it, at every
    position. *)
Theorem calcNextGen_next g g' n :
  Grid.wf (genMap_1 g) → Grid.wf (genMap_2 g) → calcNextGen g = Some (g', n) →
  Life.feq (current_field g') (Life.next gameRows gameColumns (current_field g)).
Proof. intros. by eapply calcNextGen_step_field. Qed.

(** C9: The old generation survives the step.  [calcNextGen] writes only
    the buffer that was not current: afterwards [currentGenMap] and
    [nextGenMap] both point to that buffer, the buffer that was current
    still holds the previous generation byte for byte, and the colour is
    unchanged. *)
Theorem calcNextGen_double_buffer g g' n c :
  Grid.wf (genMap_1 g) → Grid.wf (genMap_2 g) → currentGenMap g = Some c →
  calcNextGen g = Some (g', n) →
  currentGenMap g' = Some (other c) ∧ nextGenMap g' = Some (other c) ∧
  get_map c g' = get_map c g ∧ simColor g' = simColor g.
Proof.
  intros Hwf1 Hwf2 Hcur Hstep.
  destruct (calcNextGen_inv g g' n c) as [-> _]; [done..|]. by destruct c.
Qed.

Lemma calcNextGen_next_witness :
  ∃ g' n, calcNextGen (seeded Boards.blinker_h) = Some (g', n) ∧
    Life.feq (current_field g')
      (Life.next gameRows gameColumns (current_field (seeded Boards.blinker_h))).
Proof.
  destruct (calcNextGen_is_Some (seeded Boards.blinker_h)) as [[g' n] Hstep]; [by_compute..|].
  exists g', n. split; [exact Hstep|].
  apply (calcNextGen_next (seeded Boards.blinker_h) g' n); [by_compute..|exact Hstep].
Defined.

Lemma calcNextGen_double_buffer_witness :
  ∃ g' n, calcNextGen (seeded Boards.block) = Some (g', n) ∧
    currentGenMap g' = Some Map2 ∧ nextGenMap g' = Some Map2 ∧
    genMap_1 g' = Boards.block ∧ simColor g' = 0.
Proof.
  destruct (calcNextGen_is_Some (seeded Boards.block)) as [[g' n] Hstep]; [by_compute..|].
  exists g', n. split; [exact Hstep|].
  apply (calcNextGen_double_buffer (seeded Boards.block) g' n Map1);
    [by_compute..|reflexivity|exact Hstep].
Defined.

(** ** The update count *)

(** On maps that hold only 0 and 1, bytes differ exactly where the fields
    differ. *)
Lemma diff_count_changes m1 m2 :
  Grid.wf m1 → Grid.wf m2 → Grid.boolean m1 → Grid.boolean m2 →
  Grid.diff_count m1 m2 = Life.changes gameRows gameColumns (Grid.alive m1) (Grid.alive m2).
Proof.
  intros Hwf1 Hwf2 Hb1 Hb2. unfold Grid.diff_count, Grid.row_diff, Life.changes.
  apply sumZ_ext. intros y Hy. apply sumZ_ext. intros x Hx.
  by apply Grid.cell_diff_alive.
Qed.

(** The count of a defined step on a valid object, in terms of the two generations. *)
Lemma calcNextGen_changes g g' n :
  valid g → calcNextGen g = Some (g', n) →
  n = Life.changes gameRows gameColumns (current_field g) (current_field g').
Proof.
  intros Hv Hstep. pose proof (valid_wf g Hv) as [Hwf1 Hwf2].
  destruct Hv as (_ & _ & Hb1 & Hb2 & _ & [c Hcur]).
  pose proof (calcNextGen_current g g' n c Hwf1 Hwf2 Hcur Hstep) as Hcur'.
  pose proof (calcNextGen_new_map g g' n c Hwf1 Hwf2 Hcur Hstep) as Hnew.
  destruct (calcNextGen_inv g g' n c) as [_ ->]; [done..|].
  unfold current_field. rewrite Hcur', Hnew, Hcur.
  apply diff_count_changes; try apply next_map_wf; try apply next_map_boolean;
    by destruct c.
Qed.

(** A defined step on a valid object whose generation is [f] on the
    board: the generation afterwards is the abstract step of [f], and the
    count is the number of cells the abstract step changes. *)
Lemma calcNextGen_abstract g g' n f :
  valid g → Life.board_eq gameRows gameColumns (current_field g) f →
  calcNextGen g = Some (g', n) →
  Life.feq (current_field g') (Life.next gameRows gameColumns f) ∧
  n = Life.changes gameRows gameColumns f (Life.next gameRows gameColumns f).
Proof.
  intros Hv Hf Hstep. pose proof (valid_wf g Hv) as [Hwf1 Hwf2].
  assert (Life.feq (current_field g') (Life.next gameRows gameColumns f)) as Hg'.
  { intros y x. rewrite (calcNextGen_step_field g g' n Hwf1 Hwf2 Hstep y x).
    by apply Life.next_board_eq. }
  split; [done|]. rewrite (calcNextGen_changes g g' n Hv Hstep).
  apply Life.changes_board_eq; [done|]. intros y x _ _. apply Hg'.
Qed.

(** C10: The number [calcNextGen] returns is the number of board cells that
    are alive in exactly one of the two generations, the one before and the
    one after the call.  This needs the cell invariant: the source compares
    bytes, and bytes agree with truth values only on maps of 0 and 1. *)
Theorem calcNextGen_count g g' n :
  valid g → calcNextGen g = Some (g', n) →
  n = Life.changes gameRows gameColumns (current_field g) (current_field g').
Proof. intros. by eapply calcNextGen_changes. Qed.

Lemma calcNextGen_count_witness :
  ∃ g' n, calcNextGen (seeded Boards.blinker_h) = Some (g', n) ∧
    n = Life.changes gameRows gameColumns (current_field (seeded Boards.blinker_h))
          (current_field g').
Proof.
  destruct (calcNextGen_is_Some (seeded Boards.blinker_h)) as [[g' n] Hstep]; [by_compute..|].
  exists g', n. split; [exact Hstep|].
  apply (calcNextGen_count (seeded Boards.blinker_h) g' n); [by_compute|exact Hstep].
Defined.

(** Without the cell invariant the count is not the number of changed
    cells: on a block one of whose live cells is stored as 2 nothing
    changes, yet one update is counted. *)
Example calcNextGen_count_stray :
  let m := default Grid.zero (Grid.set Boards.block 10 20 2) in
  (snd <$> calcNextGen (seeded m)) = Some 1 ∧
  Life.changes gameRows gameColumns (Grid.alive m) (Grid.alive (next_map m)) = 0.
Proof. by vm_compute. Qed.

(** The 32-bit update counter cannot wrap: the number [calcNextGen]
    returns lies between 0 and the number of cells of the board, 2048. *)
Lemma calcNextGen_count_range g g' n :
  Grid.wf (genMap_1 g) → Grid.wf (genMap_2 g) → calcNextGen g = Some (g', n) →
  0 ≤ n ≤ 2048.
Proof.
  intros Hwf1 Hwf2 Hstep.
  destruct (currentGenMap g) as [c|] eqn:Hcur; [|by rewrite calcNextGen_unseeded in Hstep].
  destruct (calcNextGen_inv g g' n c) as [_ ->]; [done..|].
  apply (Grid.diff_count_range (get_map c g) (next_map (get_map c g))).
Qed.

Lemma calcNextGen_count_range_witness :
  ∃ g' n, calcNextGen (seeded Boards.corner) = Some (g', n) ∧ 0 ≤ n ≤ 2048.
Proof.
  destruct (calcNextGen_is_Some (seeded Boards.corner)) as [[g' n] Hstep]; [by_compute..|].
  exists g', n. split; [exact Hstep|].
  apply (calcNextGen_count_range (seeded Boards.corner) g' n); [by_compute..|exact Hstep].
Defined.

(** ** The rules, cell by cell *)

Section rules.
Context (g g' : ConwaysGame) (n : Z).
Context (Hwf1 : Grid.wf (genMap_1 g)) (Hwf2 : Grid.wf (genMap_2 g)).
Context (Hstep : calcNextGen g = Some (g', n)).

#[local] Abbreviation neighbours := (Life.live_neighbours gameRows gameColumns (current_field g)).

Lemma calcNextGen_rule y x :
  0 ≤ y < gameRows → 0 ≤ x < gameColumns →
  current_field g' y x = Life.rule (current_field g y x) (neighbours y x).
Proof.
  intros Hy Hx. rewrite (calcNextGen_step_field g g' n Hwf1 Hwf2 Hstep y x).
  by apply Life.next_inside.
Qed.

(** A cell of the board with exactly three live neighbours is alive
    after [calcNextGen], whatever its state before (survival and birth). *)
Lemma calcNextGen_three y x :
  0 ≤ y < gameRows → 0 ≤ x < gameColumns → neighbours y x = 3 →
  current_field g' y x = true.
Proof. intros Hy Hx H3. rewrite calcNextGen_rule, H3 by done. apply Life.rule_three. Qed.

(** A cell of the board with fewer than two or more than three live
    neighbours is dead after [calcNextGen] (isolation and overpopulation). *)
Lemma calcNextGen_dies y x :
  0 ≤ y < gameRows → 0 ≤ x < gameColumns → neighbours y x < 2 ∨ 3 < neighbours y x →
  current_field g' y x = false.
Proof.
  intros Hy Hx [Hn|Hn]; rewrite calcNextGen_rule by done;
    [by apply Life.rule_isolation|by apply Life.rule_overpopulation].
Qed.

(** A cell of the board with exactly two live neighbours keeps its
    state: a live cell survives, a dead cell stays dead. *)
Lemma calcNextGen_two y x :
  0 ≤ y < gameRows → 0 ≤ x < gameColumns → neighbours y x = 2 →
  current_field g' y x = current_field g y x.
Proof. intros Hy Hx H2. rewrite calcNextGen_rule, H2 by done. apply Life.rule_two. Qed.

(** No cell outside the board is ever alive after [calcNextGen]: the
    edges are hard, the grid does not grow. *)
Lemma calcNextGen_edges y x :
  ¬ (0 ≤ y < gameRows ∧ 0 ≤ x < gameColumns) → current_field g' y x = false.
Proof.
  intros Hout. rewrite (calcNextGen_step_field g g' n Hwf1 Hwf2 Hstep y x).
  by apply Life.next_outside.
Qed.

End rules.

(** C38: The rules of the game, cell by cell.  After [calcNextGen] a
    cell of the board with exactly three live neighbours on the board is
    alive, whatever it was; with exactly two it is what it was; with fewer
    than two or more than three it is dead; and no cell outside the board
    is alive: the edges are hard and nothing beyond them is counted. *)
Theorem calcNextGen_rules g g' n y x :
  Grid.wf (genMap_1 g) → Grid.wf (genMap_2 g) → calcNextGen g = Some (g', n) →
  let neighbours := Life.live_neighbours gameRows gameColumns (current_field g) y x in
  (0 ≤ y < gameRows ∧ 0 ≤ x < gameColumns →
     (neighbours = 3 → current_field g' y x = true) ∧
     (neighbours = 2 → current_field g' y x = current_field g y x) ∧
     (neighbours < 2 ∨ 3 < neighbours → current_field g' y x = false)) ∧
  (¬ (0 ≤ y < gameRows ∧ 0 ≤ x < gameColumns) → current_field g' y x = false).
Proof.
  intros Hwf1 Hwf2 Hstep neighbours. split; [intros [Hy Hx]; split_and!|]; intros.
  - by apply (calcNextGen_three g g' n).
  - by apply (calcNextGen_two g g' n).
  - by apply (calcNextGen_dies g g' n).
  - by apply (calcNextGen_edges g g' n).
Qed.

Lemma calcNextGen_rules_witness :
  ∃ g' n, calcNextGen (seeded Boards.blinker_h) = Some (g', n) ∧
    let neighbours :=
      Life.live_neighbours gameRows gameColumns (current_field (seeded Boards.blinker_h)) 9 20 in
    (0 ≤ 9 < gameRows ∧ 0 ≤ 20 < gameColumns →
       (neighbours = 3 → current_field g' 9 20 = true) ∧
       (neighbours = 2 → current_field g' 9 20 = current_field (seeded Boards.blinker_h) 9 20) ∧
       (neighbours < 2 ∨ 3 < neighbours → current_field g' 9 20 = false)) ∧
    (¬ (0 ≤ 9 < gameRows ∧ 0 ≤ 20 < gameColumns) → current_field g' 9 20 = false).
Proof.
  destruct (calcNextGen_is_Some (seeded Boards.blinker_h)) as [[g' n] Hstep]; [by_compute..|].
  exists g', n. split; [exact Hstep|].
  apply (calcNextGen_rules (seeded Boards.blinker_h) g' n); [by_compute|by_compute|exact Hstep].
Defined.

(** The board does not wrap around.  After [calcNextGen] the corner
    cell [(0, 0)] is Conway's rule of its own state and of its three
    neighbours on the board, [(0, 1)], [(1, 0)] and [(1, 1)]: the cells of
    the last row and the last column do not count. *)
Lemma calcNextGen_corner g g' n :
  Grid.wf (genMap_1 g) → Grid.wf (genMap_2 g) → calcNextGen g = Some (g', n) →
  current_field g' 0 0
  = Life.rule (current_field g 0 0)
      (Z.b2z (current_field g 0 1) + Z.b2z (current_field g 1 0) + Z.b2z (current_field g 1 1)).
Proof.
  intros Hwf1 Hwf2 Hstep. rewrite (calcNextGen_rule g g' n) by done.
  f_equal. rewrite Life.live_neighbours_unfold.
  unfold Life.live_at, Life.inside, gameRows, gameColumns. decide_bools.
  change (0 + 1) with 1.
  by destruct (current_field g 0 1), (current_field g 1 0), (current_field g 1 1).
Qed.

Lemma calcNextGen_corner_witness :
  ∃ g' n, calcNextGen (seeded Boards.corner) = Some (g', n) ∧ current_field g' 0 0 = true.
Proof.
  destruct (calcNextGen_is_Some (seeded Boards.corner)) as [[g' n] Hstep]; [by_compute..|].
  exists g', n. split; [exact Hstep|].
  rewrite (calcNextGen_corner (seeded Boards.corner) g' n);
    [vm_compute; reflexivity|by_compute..|exact Hstep].
Defined.

(** The empty board is a fixed point.  On a valid object with no live
    cell on the board [calcNextGen] returns the count 0 and leaves no cell
    alive. *)
Lemma calcNextGen_empty g :
  valid g → Life.board_eq gameRows gameColumns (current_field g) Life.empty →
  ∃ g', calcNextGen g = Some (g', 0) ∧ Life.feq (current_field g') Life.empty.
Proof.
  intros Hv Hempty. pose proof (valid_wf g Hv) as [Hwf1 Hwf2].
  destruct (calcNextGen_is_Some g) as [[g' n] Hstep]; [done|done|by apply Hv|].
  assert (Life.feq (current_field g') Life.empty) as Hempty'.
  { etrans; [exact (calcNextGen_step_field g g' n Hwf1 Hwf2 Hstep)|].
    etrans; [by apply Life.next_board_eq|]. apply Life.next_empty. }
  exists g'. split; [|done]. rewrite Hstep. f_equal. f_equal.
  rewrite (calcNextGen_changes g g' n Hv Hstep). apply Life.changes_zero.
  intros y x Hy Hx. by rewrite (Hempty y x), (Hempty' y x).
Qed.

(** ** Several generations *)

Lemma iter_other n c : Nat.iter n other c = if Nat.even n then c else other c.
Proof.
  induction n as [|n IH]; [done|].
  rewrite Nat.even_succ, <- Nat.negb_even, Nat.iter_succ, IH.
  destruct (Nat.even n); [done|apply other_involutive].
Qed.

(** [n] calls on a valid object are defined and keep it valid; the pointer
    has flipped [n] times and the generation has made [n] steps. *)
Lemma generations_run n g c :
  valid g → currentGenMap g = Some c →
  ∃ g', generations n g = Some g' ∧ valid g' ∧
    currentGenMap g' = Some (Nat.iter n other c) ∧
    Life.board_eq gameRows gameColumns (current_field g')
      (Life.iterate gameRows gameColumns n (current_field g)).
Proof.
  revert g c. induction n as [|n IH]; intros g c Hv Hcur; [by exists g|].
  pose proof (valid_wf g Hv) as [Hwf1 Hwf2].
  destruct (calcNextGen_is_Some g) as [[g1 k] Hstep]; [done|done|by eexists|].
  destruct (calcNextGen_post g g1 k Hv Hstep) as (Hv1 & _).
  pose proof (calcNextGen_current g g1 k c Hwf1 Hwf2 Hcur Hstep) as Hcur1.
  destruct (IH g1 (other c) Hv1 Hcur1) as (g' & Hrun & Hv' & Hcur' & Hf).
  exists g'. cbn [generations]. rewrite Hstep. cbn [mbind option_bind].
  split; [done|]. split; [done|]. split; [by rewrite Nat.iter_succ_r|].
  rewrite Life.iterate_next. intros y x Hy Hx. rewrite (Hf y x Hy Hx).
  apply Life.iterate_proper; [|done..]. intros y' x' _ _.
  by apply (calcNextGen_step_field g g1 k).
Qed.

(** [n] calls of [calcNextGen] are [n] steps of the Game of Life.  On
    a valid object the calls are all defined, the object stays valid, and
    the generation afterwards agrees on the board with [n] abstract steps
    of the generation before. *)
Lemma generations_iterate n g :
  valid g →
  ∃ g', generations n g = Some g' ∧ valid g' ∧
    Life.board_eq gameRows gameColumns (current_field g')
      (Life.iterate gameRows gameColumns n (current_field g)).
Proof.
  intros Hv. destruct (Hv) as (_ & _ & _ & _ & _ & [c Hcur]).
  destruct (generations_run n g c Hv Hcur) as (g' & ? & ? & _ & ?). by exists g'.
Qed.

(** The two buffers alternate.  After an even number of calls
    [currentGenMap] points to the buffer it started on, after an odd number
    to the other one. *)
Lemma generations_pointer n g c :
  valid g → currentGenMap g = Some c →
  ∃ g', generations n g = Some g' ∧
    currentGenMap g' = Some (if Nat.even n then c else other c).
Proof.
  intros Hv Hcur. destruct (generations_run n g c Hv Hcur) as (g' & ? & _ & Hcur' & _).
  exists g'. by rewrite <- iter_other.
Qed.

Lemma generations_pointer_witness :
  ∃ g', generations 3 (seeded Boards.block) = Some g' ∧ currentGenMap g' = Some Map2.
Proof. apply (generations_pointer 3 (seeded Boards.block) Map1); [by_compute|reflexivity]. Defined.
