(* ===== verification/Symmetry.v ===== *)
(** * Symmetry: the step has no preferred direction

    A bounded rectangular board has four symmetries: the identity, the two
    reflections and their composition, the half turn.  The rule of the game
    treats the eight neighbours alike, so one generation of a reflected
    field is the reflection of one generation.  This file proves it of the
    specification [Life.next], and then of the code: [calcNextGen] on an
    object whose maps are reflected returns the reflected object and the
    same count.  A window loop that missed a neighbour, counted one twice
    or read past an edge on one side only would break the equation.

    [reflect n b] is the reflection of the index range of length [n] when
    [b] holds and the identity otherwise; the first flag of a symmetry is
    for the rows, the second for the columns. *)

From Stdlib Require Import ZArith Lia.
From stdpp Require Import list list_numbers option.
From S2P Require Import Prelude.
From S2P Require Import Grid.
From S2P Require Import Boards.
From S2P Require Import Life.
From S2P Require Import Object.
From S2P Require Import Engine.

#[local] Open Scope Z_scope.

(** The index [i] of a range of length [n], counted from the other end
    when [b] holds. *)
Definition reflect (n : Z) (b : bool) (i : Z) : Z := if b then n - 1 - i else i.

(** A field seen through a symmetry of the board. *)
Definition mirror_field (rows cols : Z) (v h : bool) (f : Life.field) : Life.field :=
  λ y x, f (reflect rows v y) (reflect cols h x).

(** A map seen through a symmetry of the board. *)
Definition mirror (v h : bool) (m : Grid.genMap) : Grid.genMap :=
  Grid.tabulate (λ y x,
    of_bool (Grid.alive m (reflect gameRows v y) (reflect gameColumns h x))).

(** An object with both of its maps seen through a symmetry. *)
Definition mirror_game (v h : bool) (g : ConwaysGame) : ConwaysGame :=
  mkGame (simColor g) (mirror v h (genMap_1 g)) (mirror v h (genMap_2 g))
    (currentGenMap g) (nextGenMap g).

(** ** Reflections *)

Lemma reflect_range n b i : 0 ≤ reflect n b i < n ↔ 0 ≤ i < n.
Proof. unfold reflect. destruct b; lia. Qed.

Lemma reflect_involutive n b i : reflect n b (reflect n b i) = i.
Proof. unfold reflect. destruct b; lia. Qed.

(** A reflection turns a step down into a step up. *)
Lemma reflect_add n b i d :
  reflect n b (i + d) = reflect n b i + (if b then - d else d).
Proof. unfold reflect. destruct b; lia. Qed.

Lemma sumZ_reflect n b f : sumZ 0 n (λ i, f (reflect n b i)) = sumZ 0 n f.
Proof. destruct b; [apply sumZ_reverse|done]. Qed.

(** ** The specification *)

Section fields.
Context (rows cols : Z) (v h : bool).
Implicit Types (f g : Life.field) (y x : Z).

#[local] Abbreviation mirrored := (mirror_field rows cols v h).
#[local] Abbreviation ry := (reflect rows v).
#[local] Abbreviation rx := (reflect cols h).

Lemma inside_reflect y x : Life.inside rows cols (ry y) (rx x) = Life.inside rows cols y x.
Proof.
  unfold Life.inside. apply bool_decide_ext.
  by rewrite (reflect_range rows v y), (reflect_range cols h x).
Qed.

Lemma live_at_mirror f y x :
  Life.live_at rows cols (mirrored f) y x = Life.live_at rows cols f (ry y) (rx x).
Proof. unfold Life.live_at, mirror_field. by rewrite inside_reflect. Qed.

(** The neighbours of the reflected cell are the reflected neighbours. *)
Lemma live_neighbours_mirror f y x :
  Life.live_neighbours rows cols (mirrored f) y x
  = Life.live_neighbours rows cols f (ry y) (rx x).
Proof.
  rewrite !Life.live_neighbours_unfold, !live_at_mirror.
  unfold Z.sub at 1 2 3 4 5 6. rewrite !reflect_add.
  destruct v, h; rewrite ?Z.opp_involutive, ?Z.add_opp_r; lia.
Qed.

(** One generation of the reflection is the reflection of one generation. *)
Lemma next_mirror f :
  Life.feq (Life.next rows cols (mirrored f)) (mirrored (Life.next rows cols f)).
Proof.
  intros y x.
  change (mirrored (Life.next rows cols f) y x) with (Life.next rows cols f (ry y) (rx x)).
  unfold Life.next. by rewrite inside_reflect, live_neighbours_mirror.
Qed.

(** Two fields differ in as many cells as their reflections. *)
Lemma changes_mirror f g :
  Life.changes rows cols (mirrored f) (mirrored g) = Life.changes rows cols f g.
Proof.
  unfold Life.changes, mirror_field.
  etrans; [exact (sumZ_reflect rows v
    (λ y, sumZ 0 cols (λ x, if decide (f y (rx x) = g y (rx x)) then 0 else 1)))|].
  apply sumZ_ext. intros y _.
  exact (sumZ_reflect cols h (λ x, if decide (f y x = g y x) then 0 else 1)).
Qed.

End fields.

(** ** The code *)

Section maps.
Context (v h : bool).
Implicit Types (m : Grid.genMap) (g : ConwaysGame).

#[local] Abbreviation mirrored := (mirror_field gameRows gameColumns v h).

Lemma mirror_wf m : Grid.wf (mirror v h m).
Proof. apply Grid.tabulate_wf. Qed.

Lemma mirror_boolean m : Grid.boolean (mirror v h m).
Proof. apply Grid.tabulate_boolean. intros y x. apply of_bool_cases. Qed.

(** The field of the reflected map is the reflected field, on the board. *)
Lemma alive_mirror m :
  Life.board_eq gameRows gameColumns (Grid.alive (mirror v h m)) (mirrored (Grid.alive m)).
Proof. intros y x Hy Hx. unfold mirror. by rewrite Grid.alive_tabulate. Qed.

(** The next generation of the reflected map is the reflection of the
    next generation. *)
Lemma next_map_mirror m : next_map (mirror v h m) = mirror v h (next_map m).
Proof.
  apply Grid.ext; [apply next_map_wf|apply mirror_wf|]. intros y x Hy Hx.
  unfold mirror at 2. rewrite Grid.get_tabulate, get_next_map by done.
  rewrite alive_next_map, Life.next_inside by (by apply reflect_range).
  rewrite (Life.live_neighbours_board_eq _ _ _ _ y x (alive_mirror m)).
  by rewrite live_neighbours_mirror, (alive_mirror m y x Hy Hx).
Qed.

(** Two maps differ in as many cells as their reflections. *)
Lemma diff_count_mirror m1 m2 :
  Grid.wf m1 → Grid.wf m2 → Grid.boolean m1 → Grid.boolean m2 →
  Grid.diff_count (mirror v h m1) (mirror v h m2) = Grid.diff_count m1 m2.
Proof.
  intros Hwf1 Hwf2 Hb1 Hb2.
  rewrite !diff_count_changes by (done || apply mirror_wf || apply mirror_boolean).
  rewrite (Life.changes_board_eq _ _ _ _ _ _ (alive_mirror m1) (alive_mirror m2)).
  apply changes_mirror.
Qed.

Lemma get_map_mirror c g : get_map c (mirror_game v h g) = mirror v h (get_map c g).
Proof. by destruct c. Qed.

Lemma mirror_game_valid g : valid g → valid (mirror_game v h g).
Proof.
  intros (_ & _ & _ & _ & Hcol & Hcur). unfold valid. cbn.
  split_and!; try done; (apply mirror_wf || apply mirror_boolean || lia).
Qed.

(** C17: [calcNextGen] has no preferred direction.  For each of the four
    symmetries of the board (the identity, the two reflections and the
    half turn), the call on a valid object whose two maps are seen through
    the symmetry returns the object that the call on the original returns,
    seen through the symmetry, and the same count. *)
Theorem calcNextGen_mirror g :
  valid g →
  calcNextGen (mirror_game v h g) = (λ '(g', n), (mirror_game v h g', n)) <$> calcNextGen g.
Proof.
  intros Hv. pose proof (valid_wf g Hv) as [Hwf1 Hwf2].
  destruct Hv as (_ & _ & Hb1 & Hb2 & _ & [c Hcur]).
  rewrite (calcNextGen_run g c), (calcNextGen_run (mirror_game v h g) c)
    by (done || apply mirror_wf).
  cbn [fmap option_fmap option_map]. rewrite get_map_mirror, next_map_mirror.
  f_equal. f_equal.
  - unfold mirror_game. destruct c; cbn; by rewrite ?next_map_mirror.
  - apply diff_count_mirror;
      (by destruct c) || apply next_map_wf || apply next_map_boolean.
Qed.

End maps.

Lemma calcNextGen_mirror_witness :
  calcNextGen (mirror_game true false (seeded Boards.blinker_h))
  = (λ '(g', n), (mirror_game true false g', n)) <$> calcNextGen (seeded Boards.blinker_h).
Proof. apply calcNextGen_mirror. by_compute. Defined.
