(* ===== verification/Translation.v ===== *)
(** * Translation: the step has no preferred place

    Away from the edges the board of the program is a window on the
    unbounded plane of the game.  This file carries the two facts of
    [Plane] from the specification to the code.  [calcNextGen] commutes
    with translations: on an object whose maps are moved by [dy] rows and
    [dx] columns it returns the moved object and the same count, provided
    the generation and its successor fit the board before and after the
    move.  And [n] calls of [calcNextGen] are [n] generations of the game
    on the plane, as long as those generations fit the board; without the
    condition they are the generations on the plane with the cells outside
    the board killed after every step ([generations_clipped]).  A step that
    treated one row or column differently from the others, or that let a
    pattern feel an edge it does not touch, would break either.

    [shift dy dx m] is the map [m] moved by [dy] rows and [dx] columns;
    cells moved off the array are lost and the cells moved in are dead. *)

From Stdlib Require Import ZArith Lia.
From stdpp Require Import list list_numbers option.
From S2P Require Import Prelude.
From S2P Require Import Grid.
From S2P Require Import Boards.
From S2P Require Import Life.
From S2P Require Import Patterns.
From S2P Require Import Plane.
From S2P Require Import Edges.
From S2P Require Import Object.
From S2P Require Import Engine.

#[local] Open Scope Z_scope.

(** A map moved [dy] rows down and [dx] columns to the right. *)
Definition shift (dy dx : Z) (m : Grid.genMap) : Grid.genMap :=
  Grid.tabulate (λ y x, of_bool (Grid.alive m (y - dy) (x - dx))).

(** An object with both of its maps moved. *)
Definition shift_game (dy dx : Z) (g : ConwaysGame) : ConwaysGame :=
  mkGame (simColor g) (shift dy dx (genMap_1 g)) (shift dy dx (genMap_2 g))
    (currentGenMap g) (nextGenMap g).

(** The first [n] generations on the plane, the given one included, fit
    the board. *)
Definition roams (n : nat) (f : Life.field) : Prop :=
  ∀ k, (k ≤ n)%nat → Plane.fits gameRows gameColumns (Plane.steps k f).

(** The generation and its successor on the plane fit the board. *)
Definition stays (f : Life.field) : Prop :=
  Plane.fits gameRows gameColumns f ∧ Plane.fits gameRows gameColumns (Plane.step f).

(** ** Maps as windows on the plane *)

Section maps.
Context (dy dx : Z).
Implicit Types (m : Grid.genMap) (g : ConwaysGame) (f : Life.field).

#[local] Abbreviation fits := (Plane.fits gameRows gameColumns).
#[local] Abbreviation next := (Life.next gameRows gameColumns).
#[local] Abbreviation moved := (Plane.shift dy dx).

Lemma shift_wf m : Grid.wf (shift dy dx m).
Proof. apply Grid.tabulate_wf. Qed.

Lemma shift_boolean m : Grid.boolean (shift dy dx m).
Proof. apply Grid.tabulate_boolean. intros y x. apply of_bool_cases. Qed.

(** The field of a map has no live cell outside the board. *)
Lemma alive_fits m : Grid.wf m → fits (Grid.alive m).
Proof.
  intros Hwf y x Ha.
  destruct (decide (0 ≤ y < gameRows ∧ 0 ≤ x < gameColumns)) as [|Hn]; [lia|].
  by rewrite Grid.alive_outside in Ha.
Qed.

(** Two maps are equal when their fields are. *)
Lemma alive_inj m1 m2 :
  Grid.wf m1 → Grid.wf m2 → Grid.boolean m1 → Grid.boolean m2 →
  Life.board_eq gameRows gameColumns (Grid.alive m1) (Grid.alive m2) → m1 = m2.
Proof.
  intros Hwf1 Hwf2 Hb1 Hb2 H. apply Grid.ext; [done..|]. intros y x Hy Hx.
  by rewrite !Grid.boolean_get_alive, (H y x) by done.
Qed.

(** The field of the moved map is the moved field, where that fits. *)
Lemma alive_shift m : fits (moved (Grid.alive m)) →
  Life.feq (Grid.alive (shift dy dx m)) (moved (Grid.alive m)).
Proof.
  intros Hf y x.
  destruct (decide (0 ≤ y < gameRows ∧ 0 ≤ x < gameColumns)) as [[Hy Hx]|Hn].
  - unfold shift. by rewrite Grid.alive_tabulate.
  - rewrite Grid.alive_outside by (done || apply shift_wf).
    symmetry. eapply Plane.boxed_outside; [exact Hf|lia].
Qed.

(** A generation that stays on the board after the move stays there with
    its successor moved. *)
Lemma stays_shift f : stays (moved f) → fits (moved (Plane.step f)).
Proof. intros [_ Hs]. eapply Plane.boxed_feq; [apply Plane.step_shift|done]. Qed.

(** The bounded step of a moved generation is the moved bounded step. *)
Lemma next_shift f :
  stays f → stays (moved f) → Life.feq (next (moved f)) (moved (next f)).
Proof.
  intros [Hf Hs] [Hf' Hs'].
  etrans; [by apply Plane.next_step|]. etrans; [apply Plane.step_shift|].
  apply Plane.shift_proper. symmetry. by apply Plane.next_step.
Qed.

(** The next generation of the moved map is the moved next generation. *)
Lemma next_map_shift m :
  Grid.wf m → stays (Grid.alive m) → stays (moved (Grid.alive m)) →
  next_map (shift dy dx m) = shift dy dx (next_map m).
Proof.
  intros Hwf Hs Hs'.
  apply (alive_inj (next_map (shift dy dx m)) (shift dy dx (next_map m)));
    [apply next_map_wf|apply shift_wf|apply next_map_boolean|apply shift_boolean|].
  intros y x Hy Hx. rewrite alive_next_map.
  rewrite (Life.next_board_eq _ _ _ (moved (Grid.alive m)))
    by (intros ? ? _ _; by apply alive_shift, Hs').
  rewrite next_shift by done. unfold shift, Plane.shift.
  by rewrite Grid.alive_tabulate, alive_next_map.
Qed.

(** Two maps differ in as many cells as the moved maps, when both fit the
    board after the move. *)
Lemma diff_count_shift m1 m2 :
  Grid.wf m1 → Grid.wf m2 → Grid.boolean m1 → Grid.boolean m2 →
  fits (moved (Grid.alive m1)) → fits (moved (Grid.alive m2)) →
  Grid.diff_count (shift dy dx m1) (shift dy dx m2) = Grid.diff_count m1 m2.
Proof.
  intros Hwf1 Hwf2 Hb1 Hb2 Hf1 Hf2.
  rewrite !diff_count_changes by (done || apply shift_wf || apply shift_boolean).
  rewrite (Life.changes_board_eq _ _ _ (moved (Grid.alive m1)) _ (moved (Grid.alive m2)))
    by (intros ? ? _ _; by apply alive_shift).
  by apply Plane.changes_shift; try apply alive_fits.
Qed.

Lemma get_map_shift c g : get_map c (shift_game dy dx g) = shift dy dx (get_map c g).
Proof. by destruct c. Qed.

Lemma shift_game_valid g : valid g → valid (shift_game dy dx g).
Proof.
  intros (_ & _ & _ & _ & Hcol & Hcur). unfold valid. cbn.
  split_and!; try done; (apply shift_wf || apply shift_boolean || lia).
Qed.

Lemma current_field_fits g : valid g → fits (current_field g).
Proof.
  intros Hv. destruct (Hv) as (_ & _ & _ & _ & _ & [c Hcur]).
  unfold current_field. rewrite Hcur. apply alive_fits. by apply valid_map.
Qed.

(** C18: [calcNextGen] has no preferred place.  On a valid object whose
    generation and its successor fit the board, and still fit it when
    moved by [dy] rows and [dx] columns, the call on the object with both
    maps moved returns the object that the call on the original returns,
    moved, and the same count. *)
Theorem calcNextGen_shift g :
  valid g → stays (current_field g) → stays (moved (current_field g)) →
  calcNextGen (shift_game dy dx g) = (λ '(g', n), (shift_game dy dx g', n)) <$> calcNextGen g.
Proof.
  intros Hv Hs Hs'. pose proof (valid_wf g Hv) as [Hwf1 Hwf2].
  destruct (Hv) as (_ & _ & _ & _ & _ & [c Hcur]).
  destruct (valid_map g c Hv) as [Hwf Hb].
  unfold current_field in Hs, Hs'. rewrite Hcur in Hs, Hs'.
  rewrite (calcNextGen_run g c), (calcNextGen_run (shift_game dy dx g) c)
    by (done || apply shift_wf).
  cbn [fmap option_fmap option_map]. rewrite get_map_shift, next_map_shift by done.
  f_equal. f_equal.
  - unfold shift_game. destruct c; cbn; by rewrite ?next_map_shift.
  - apply diff_count_shift;
      try (done || apply next_map_wf || apply next_map_boolean || apply Hs').
    eapply Plane.boxed_feq; [|by apply stays_shift].
    apply Plane.shift_proper. intros y x. rewrite alive_next_map. symmetry.
    by apply Plane.next_step; apply Hs.
Qed.

End maps.

(** ** The game on the plane *)

(** C11: Away from the edges the program plays the game of the unbounded
    plane.  On a valid object, as long as the first [n] generations of the
    game on the plane fit the board, [n] calls of [calcNextGen] are
    defined, keep the object valid and leave exactly the [n]-th generation
    of the game on the plane. *)
Theorem generations_plane n g :
  valid g → roams n (current_field g) →
  ∃ g', generations n g = Some g' ∧ valid g' ∧
    Life.feq (current_field g') (Plane.steps n (current_field g)).
Proof.
  intros Hv Hf. destruct (Hv) as (_ & _ & _ & _ & _ & [c Hcur]).
  destruct (generations_run n g c Hv Hcur) as (g' & Hrun & Hv' & _ & Hg').
  exists g'. split_and!; [done..|]. intros y x.
  destruct (decide (0 ≤ y < gameRows ∧ 0 ≤ x < gameColumns)) as [[Hy Hx]|Hn].
  - rewrite (Hg' y x Hy Hx). by apply Plane.iterate_steps.
  - rewrite (Plane.boxed_outside _ _ _ _ _ y x (current_field_fits g' Hv')) by lia.
    symmetry. eapply Plane.boxed_outside; [apply (Hf n); lia|lia].
Qed.

(** Without the condition the cells that leave the board are lost: [n]
    calls of [calcNextGen] are [n] generations on the plane with the cells
    outside the board killed after every one of them. *)
Lemma generations_clipped n g :
  valid g →
  ∃ g', generations n g = Some g' ∧ valid g' ∧
    Life.feq (current_field g') (Edges.steps gameRows gameColumns n (current_field g)).
Proof.
  intros Hv. destruct (Hv) as (_ & _ & _ & _ & _ & [c Hcur]).
  destruct (generations_run n g c Hv Hcur) as (g' & Hrun & Hv' & _ & Hg').
  pose proof (current_field_fits g Hv) as Hf.
  exists g'. split_and!; [done..|]. intros y x.
  destruct (decide (0 ≤ y < gameRows ∧ 0 ≤ x < gameColumns)) as [[Hy Hx]|Hn].
  - rewrite (Hg' y x Hy Hx). by apply Edges.iterate_clipped.
  - rewrite (Plane.boxed_outside _ _ _ _ _ y x (current_field_fits g' Hv')) by lia.
    symmetry. eapply Plane.boxed_outside; [by apply Edges.steps_fits|lia].
Qed.

(** ** Generations given by their cells *)

(** A generation that keeps [n] cells away from every edge fits the board
    for [n] generations on the plane. *)
Lemma boxed_roams n a b c d f :
  Plane.boxed a b c d f →
  Z.of_nat n ≤ a → b + Z.of_nat n < gameRows → Z.of_nat n ≤ c → d + Z.of_nat n < gameColumns →
  roams n f.
Proof.
  intros H ? ? ? ? k Hk. eapply Plane.boxed_mono; [..|apply Plane.steps_boxed, H]; lia.
Qed.

Lemma boxed_stays a b c d f :
  Plane.boxed a b c d f → 1 ≤ a → b + 1 < gameRows → 1 ≤ c → d + 1 < gameColumns → stays f.
Proof.
  intros H ? ? ? ?.
  split; [apply (boxed_roams 1 a b c d f) with (k := 0%nat)
         |apply (boxed_roams 1 a b c d f) with (k := 1%nat)]; done || lia.
Qed.

(** The field of a board built from a list of cells lies in every box
    that holds the cells. *)
Lemma of_cells_boxed a b c d l :
  Plane.within a b c d l → Plane.boxed a b c d (Grid.alive (Boards.of_cells l)).
Proof.
  intros Hl y x Ha. pose proof (alive_fits _ (Boards.of_cells_wf l) y x Ha) as [Hy Hx].
  rewrite Boards.alive_of_cells in Ha by lia. by apply (Plane.cells_within _ _ _ _ l).
Qed.

(** ** At concrete boards *)

Lemma calcNextGen_shift_witness :
  calcNextGen (shift_game 3 5 (seeded Boards.blinker_h))
  = (λ '(g', n), (shift_game 3 5 g', n)) <$> calcNextGen (seeded Boards.blinker_h).
Proof.
  apply calcNextGen_shift; [by_compute|..].
  - apply (boxed_stays 10 10 19 21); [apply of_cells_boxed; by_compute|done..].
  - apply (boxed_stays 13 13 24 26); [|done..].
    apply (Plane.boxed_shift 10 10 19 21 3 5), of_cells_boxed. by_compute.
Defined.

Lemma generations_plane_witness :
  ∃ g', generations 2 (seeded Boards.blinker_h) = Some g' ∧ valid g' ∧
    Life.feq (current_field g') (Plane.steps 2 (current_field (seeded Boards.blinker_h))).
Proof.
  apply generations_plane; [by_compute|].
  apply (boxed_roams 2 10 10 19 21); [apply of_cells_boxed; by_compute|done..].
Defined.
