(* ===== verification/Seed.v ===== *)
(** * Seed: [initSeed]

    The seeding method of [simulation.h], against the interface
    [RandomSource]: both branches fill [genMap_1] with one coin per cell in
    row-major order and clear [genMap_2]; the non-random branch then sets
    the twelve cells of the hardcoded pattern; both end with
    [currentGenMap] on [genMap_1].

    The theorems: [initSeed] is defined on every object whose maps have the
    array shape and equals its loop-free reference [initSeed_ref]; it
    establishes the object invariant; the generation it leaves is described
    cell by cell, which shows that the non-random branch does not clear the
    board. *)

From Stdlib Require Import ZArith Lia.
From stdpp Require Import list list_numbers option sets.
From S2P Require Import Prelude.
From S2P Require Import Grid.
From S2P Require Import Life.
From S2P Require Import Random.
From S2P Require Import Display.
From S2P Require Import Object.

#[local] Open Scope Z_scope.

(** ** [initSeed] *)

(** The cells of the fixed pattern around [(centerY, centerX)], in the
    order the source assigns them: the ring of eight, then the four
    outliers. *)
Definition pattern (centerY centerX : Z) : list (Z * Z) :=
  [ (centerY - 1, centerX - 1); (centerY - 1, centerX); (centerY - 1, centerX + 1);
    (centerY, centerX - 1); (centerY, centerX + 1);
    (centerY + 1, centerX - 1); (centerY + 1, centerX); (centerY + 1, centerX + 1);
    (centerY, centerX + 2); (centerY, centerX - 2);
    (centerY + 4, centerX); (centerY - 4, centerX) ].

(** [genMap_1[y][x] = 1] for each listed cell, in order. *)
Fixpoint plot (cells : list (Z * Z)) (m : Grid.genMap) : option Grid.genMap :=
  match cells with
  | [] => Some m
  | c :: cells => m' ← Grid.set m c.1 c.2 1; plot cells m'
  end.

Section seeding.
Context `{RandomSource R}.

(** The body of the seeding loops: a coin for [genMap_1], zero for
    [genMap_2]. *)
Definition seed_cell (i j : Z) (st : ConwaysGame * R) : option (ConwaysGame * R) :=
  let '(g, r) := st in
  let '(v, r) := random 2 r in
  m1 ← Grid.set (genMap_1 g) i j (of_bool (bool_decide (v = 1)));
  m2 ← Grid.set (genMap_2 (put_map Map1 m1 g)) i j (of_bool false);
  Some (put_map Map2 m2 (put_map Map1 m1 g), r).

Definition seed_loops (st : ConwaysGame * R) : option (ConwaysGame * R) :=
  for_loop 0 gameRows (λ i, for_loop 0 gameColumns (seed_cell i)) st.

(** [initSeed(rand)].  [adc] is the value [analogRead(26)] returns, which
    seeds the generator in the random branch only. *)
Definition initSeed (rand : bool) (adc : Z) (g : ConwaysGame) (r : R) : option (ConwaysGame * R) :=
  '(g, r) ←
    (if rand then seed_loops (g, randomSeed adc r)
     else
       '(g, r) ← seed_loops (g, r);
       let centerY := uint8_t (gameRows `quot` 2 - 1) in
       let centerX := uint8_t (gameColumns `quot` 2 - 1) in
       m ← plot (pattern centerY centerX) (genMap_1 g);
       Some (put_map Map1 m g, r));
  Some (set_currentGenMap (Some Map1) g, r).

End seeding.

Section seeding_reference.
Context `{RandomSource R}.

(** The map a seeding pass leaves in [genMap_1]: cell [(y, x)] holds the
    coin number [y * gameColumns + x] of the generator [r], and with
    [fixed] the cells of the hardcoded pattern hold 1 whatever their coin. *)
Definition seed_map (fixed : bool) (r : R) : Grid.genMap :=
  Grid.tabulate (λ y x,
    of_bool ((fixed && bool_decide ((y, x) ∈ pattern 15 31))
             || bool_decide (coin r (Z.to_nat (y * gameColumns + x)) = 1))).

(** What [initSeed] is meant to return, without loops. *)
Definition initSeed_ref (rand : bool) (adc : Z) (g : ConwaysGame) (r : R) : ConwaysGame * R :=
  let r0 := if rand then randomSeed adc r else r in
  (set_currentGenMap (Some Map1)
     (put_map Map2 Grid.zero (put_map Map1 (seed_map (negb rand) r0) g)),
   advance 2048 r0).

(** The state of the seeding loops at row [i] and column [j], started on
    [g0] with the generator [r0]: the generator has delivered one coin per
    cell passed, and in the cells passed [genMap_1] holds the coins and
    [genMap_2] holds 0. *)
Definition seeding (g0 : ConwaysGame) (r0 : R) (i j : Z) (st : ConwaysGame * R) : Prop :=
  ∃ m1 m2, st.1 = put_map Map2 m2 (put_map Map1 m1 g0) ∧ Grid.wf m1 ∧ Grid.wf m2 ∧
    st.2 = advance (Z.to_nat (i * gameColumns + j)) r0 ∧
    ∀ y x, 0 ≤ y < gameRows → 0 ≤ x < gameColumns → y < i ∨ (y = i ∧ x < j) →
      Grid.get m1 y x = Grid.get (seed_map false r0) y x ∧ Grid.get m2 y x = Some 0.

End seeding_reference.

(** ** [initSeed] *)

(** Plotting cells of the board never fails; it sets the listed cells to 1
    and leaves the others. *)
Lemma plot_spec cells m :
  Grid.wf m → Forall (λ c, 0 ≤ c.1 < gameRows ∧ 0 ≤ c.2 < gameColumns) cells →
  ∃ m', plot cells m = Some m' ∧ Grid.wf m' ∧
    ∀ y x, Grid.get m' y x = if decide ((y, x) ∈ cells) then Some 1 else Grid.get m y x.
Proof.
  intros Hwf Hcells. revert m Hwf.
  induction Hcells as [|[cy cx] cells [Hy Hx] _ IH]; intros m Hwf.
  { exists m. split; [done|]. split; [done|]. intros y x. by rewrite decide_False by set_solver. }
  destruct (Grid.set_is_Some m cy cx 1) as [m1 Hm1]; [done..|].
  destruct (IH m1) as (m' & Hplot & Hwf' & Hget); [by eapply Grid.set_wf|].
  exists m'. simpl. rewrite Hm1. split; [done|]. split; [done|].
  intros y x. rewrite Hget. destruct (decide ((y, x) = (cy, cx))) as [[= -> ->]|Hne].
  - rewrite (Grid.get_set_eq _ _ _ _ _ Hm1), (decide_True (P := _ ∈ _ :: _)) by set_solver.
    by case_decide.
  - rewrite (Grid.get_set_ne _ _ _ _ _ _ _ Hm1) by done.
    repeat case_decide; set_solver.
Qed.

Lemma pattern_inside :
  Forall (λ c, 0 ≤ c.1 < gameRows ∧ 0 ≤ c.2 < gameColumns) (pattern 15 31).
Proof. by_compute. Qed.

Section seeding_loops.
Context `{RandomSource R}.
Context (g0 : ConwaysGame) (r0 : R).
Context (Hwf1 : Grid.wf (genMap_1 g0)) (Hwf2 : Grid.wf (genMap_2 g0)).

Lemma get_seed_map fixed r y x :
  0 ≤ y < gameRows → 0 ≤ x < gameColumns →
  Grid.get (seed_map fixed r) y x
  = Some (of_bool ((fixed && bool_decide ((y, x) ∈ pattern 15 31))
                   || bool_decide (coin r (Z.to_nat (y * gameColumns + x)) = 1))).
Proof. intros Hy Hx. unfold seed_map. by rewrite Grid.get_tabulate. Qed.

Lemma seed_map_wf fixed r : Grid.wf (seed_map fixed r).
Proof. apply Grid.tabulate_wf. Qed.

Lemma seed_map_boolean fixed r : Grid.boolean (seed_map fixed r).
Proof. apply Grid.tabulate_boolean. intros y x. apply of_bool_cases. Qed.

(** The body of the seeding loops keeps the loop state. *)
Lemma seed_cell_seeding i j st :
  0 ≤ i < gameRows → 0 ≤ j < gameColumns → seeding g0 r0 i j st →
  ∃ st', seed_cell i j st = Some st' ∧ seeding g0 r0 i (j + 1) st'.
Proof.
  intros Hi Hj. destruct st as [g r].
  intros (m1 & m2 & Hg & Hm1 & Hm2 & Hr & Hdone). simpl in *. subst g r.
  unfold seed_cell. rewrite random_coin_advance.
  set (k := Z.to_nat (i * gameColumns + j)).
  destruct (Grid.set_is_Some m1 i j (of_bool (bool_decide (coin r0 k = 1))))
    as [m1' Hm1']; [done..|].
  destruct (Grid.set_is_Some m2 i j 0) as [m2' Hm2']; [done..|].
  eexists. split; [simpl; rewrite Hm1'; simpl; rewrite Hm2'; reflexivity|].
  exists m1', m2'. simpl.
  split; [done|]. split; [exact (Grid.set_wf _ _ _ _ _ Hm1 Hm1')|].
  split; [exact (Grid.set_wf _ _ _ _ _ Hm2 Hm2')|].
  split; [rewrite <- advance_S; f_equal; subst k; unfold gameColumns in *; lia|].
  intros y x Hy Hx Hyx. destruct (decide ((y, x) = (i, j))) as [[= -> ->]|Hne].
  - rewrite (Grid.get_set_eq _ _ _ _ _ Hm1'), (Grid.get_set_eq _ _ _ _ _ Hm2').
    by rewrite get_seed_map.
  - rewrite (Grid.get_set_ne _ _ _ _ _ _ _ Hm1'), (Grid.get_set_ne _ _ _ _ _ _ _ Hm2') by done.
    apply Hdone; [done..|]. destruct (decide (y = i)); [|lia].
    right. split; [done|]. assert (x ≠ j) by congruence. lia.
Qed.

(** The seeding loops are defined on every object whose maps have the
    array shape, and leave the coins in [genMap_1] and zeros in
    [genMap_2]. *)
Lemma seed_loops_spec :
  seed_loops (g0, r0)
  = Some (put_map Map2 Grid.zero (put_map Map1 (seed_map false r0) g0), advance 2048 r0).
Proof.
  unfold seed_loops.
  destruct (for_loop2_inv (seeding g0 r0) gameRows gameColumns seed_cell (g0, r0))
    as ([g r] & -> & m1 & m2 & Hg & Hm1 & Hm2 & Hr & Hdone); [done|done| | | |].
  - exists (genMap_1 g0), (genMap_2 g0). simpl. split; [by destruct g0|].
    split; [done|]. split; [done|]. split; [done|]. intros; lia.
  - intros i j st Hi Hj. by apply seed_cell_seeding.
  - intros i st Hi (m1 & m2 & Hg & Hm1 & Hm2 & Hr & Hdone). exists m1, m2.
    split; [done|]. split; [done|]. split; [done|].
    split; [rewrite Hr; f_equal; unfold gameColumns; lia|].
    intros y x Hy Hx Hyx. apply Hdone; [done..|lia].
  - cbn [fst snd] in Hg, Hr. subst g r.
    assert (m1 = seed_map false r0) as ->.
    { apply Grid.ext; [done|apply seed_map_wf|]. intros y x Hy Hx.
      apply Hdone; [done..|lia]. }
    assert (m2 = Grid.zero) as ->; [|done].
    apply Grid.ext; [done|apply Grid.zero_wf|]. intros y x Hy Hx.
    rewrite Grid.get_zero by done. apply Hdone; [done..|lia].
Qed.

End seeding_loops.

Section seeding_theorems.
Context `{RandomSource R}.
Implicit Types (g : ConwaysGame) (r : R).

(** The pattern plotted over the coins is the fixed seed map. *)
Lemma plot_seed_map r : plot (pattern 15 31) (seed_map false r) = Some (seed_map true r).
Proof.
  destruct (plot_spec (pattern 15 31) (seed_map false r)) as (m & -> & Hwf & Hget);
    [apply seed_map_wf|apply pattern_inside|].
  f_equal. apply Grid.ext; [done|apply seed_map_wf|]. intros y x Hy Hx.
  rewrite Hget, !get_seed_map by done. simpl.
  case_decide.
  - by rewrite (bool_decide_eq_true_2 ((y, x) ∈ pattern 15 31)).
  - by rewrite (bool_decide_eq_false_2 ((y, x) ∈ pattern 15 31)).
Qed.

(** The loops and the pattern of [initSeed] run to the end and build the
    object of the reference. *)
Lemma initSeed_run rand adc g r :
  Grid.wf (genMap_1 g) → Grid.wf (genMap_2 g) →
  initSeed rand adc g r = Some (initSeed_ref rand adc g r).
Proof.
  intros Hwf1 Hwf2. unfold initSeed, initSeed_ref.
  destruct rand; rewrite seed_loops_spec by done; [done|].
  cbn [mbind option_bind negb].
  change (uint8_t (gameRows `quot` 2 - 1)) with 15.
  change (uint8_t (gameColumns `quot` 2 - 1)) with 31.
  assert (genMap_1 (put_map Map2 Grid.zero (put_map Map1 (seed_map false r) g))
          = seed_map false r) as -> by done.
  by rewrite plot_seed_map.
Qed.

(** The object of the reference is valid, and keeps the colour. *)
Lemma initSeed_ref_valid rand adc g r :
  0 ≤ simColor g < 65536 →
  valid (initSeed_ref rand adc g r).1 ∧
  simColor (initSeed_ref rand adc g r).1 = simColor g.
Proof.
  intros Hcol. unfold initSeed_ref.
  pose proof (seed_map_wf (negb rand) (if rand then randomSeed adc r else r)).
  pose proof (seed_map_boolean (negb rand) (if rand then randomSeed adc r else r)).
  pose proof Grid.zero_wf. pose proof Grid.zero_boolean.
  unfold valid.
  cbn [fst genMap_1 genMap_2 simColor currentGenMap nextGenMap set_currentGenMap put_map].
  split_and!; [done|done|done|done|lia|lia|by eexists|done].
Qed.

(** C12: [initSeed] implements its reference.  On every object whose maps
    have the array shape, seeded or not, the call is defined and returns
    what [initSeed_ref] describes: [genMap_1] holds one coin of the
    generator per cell in row-major order (with the twelve pattern cells
    forced to 1 in the non-random branch), [genMap_2] is cleared,
    [currentGenMap] points to [genMap_1], and the generator has been
    seeded in the random branch only and has delivered 2048 coins. *)
Theorem initSeed_refines rand adc g r :
  Grid.wf (genMap_1 g) → Grid.wf (genMap_2 g) →
  initSeed rand adc g r = Some (initSeed_ref rand adc g r).
Proof. apply initSeed_run. Qed.

(** C30: [initSeed] establishes the object invariant: from any object whose
    maps have the array shape and whose colour fits 16 bits, in particular
    from the object as constructed, the call returns a valid object with
    [currentGenMap] on [genMap_1] and [genMap_2] all zero. *)
Theorem initSeed_valid rand adc g r :
  Grid.wf (genMap_1 g) → Grid.wf (genMap_2 g) → 0 ≤ simColor g < 65536 →
  ∃ g' r', initSeed rand adc g r = Some (g', r') ∧ valid g' ∧
    currentGenMap g' = Some Map1 ∧ genMap_2 g' = Grid.zero.
Proof.
  intros Hwf1 Hwf2 Hcol. rewrite initSeed_run by done.
  exists (initSeed_ref rand adc g r).1, (initSeed_ref rand adc g r).2.
  split; [by destruct (initSeed_ref rand adc g r)|].
  split; [by apply initSeed_ref_valid|done].
Qed.

(** The field [initSeed] leaves on the board. *)
Lemma initSeed_field rand adc g r g' r' y x :
  Grid.wf (genMap_1 g) → Grid.wf (genMap_2 g) →
  initSeed rand adc g r = Some (g', r') →
  0 ≤ y < gameRows → 0 ≤ x < gameColumns →
  current_field g' y x
  = (negb rand && bool_decide ((y, x) ∈ pattern 15 31))
    || bool_decide (coin (if rand then randomSeed adc r else r)
                      (Z.to_nat (y * gameColumns + x)) = 1).
Proof.
  intros Hwf1 Hwf2 Hseed Hy Hx. rewrite initSeed_run in Hseed by done.
  injection Hseed as <- _. unfold current_field. simpl.
  unfold seed_map. by rewrite Grid.alive_tabulate.
Qed.

(** In its non-random branch [initSeed] makes the twelve cells of the
    hardcoded pattern alive: the ring of eight around the centre
    [(15, 31)] and the four outliers. *)
Lemma initSeed_pattern adc g r g' r' y x :
  Grid.wf (genMap_1 g) → Grid.wf (genMap_2 g) →
  initSeed false adc g r = Some (g', r') →
  (y, x) ∈ pattern 15 31 → current_field g' y x = true.
Proof.
  intros Hwf1 Hwf2 Hseed Hin.
  assert (0 ≤ y < gameRows ∧ 0 ≤ x < gameColumns) as [Hy Hx].
  { by apply (proj1 (Forall_forall _ _) pattern_inside (y, x)). }
  rewrite (initSeed_field false adc g r g' r') by done.
  by rewrite (bool_decide_eq_true_2 ((y, x) ∈ pattern 15 31)).
Qed.

(** C36: The non-random branch of [initSeed] does not clear [genMap_1]: a
    cell outside the pattern is alive exactly when the coin drawn for it
    is 1, as in the random branch.  The comment in the source says "clear
    both arrays and load hardcoded pattern"; the code fills the first
    array with coins. *)
Theorem initSeed_fixed_not_cleared adc g r g' r' y x :
  Grid.wf (genMap_1 g) → Grid.wf (genMap_2 g) →
  initSeed false adc g r = Some (g', r') →
  0 ≤ y < gameRows → 0 ≤ x < gameColumns → (y, x) ∉ pattern 15 31 →
  current_field g' y x = bool_decide (coin r (Z.to_nat (y * gameColumns + x)) = 1).
Proof.
  intros Hwf1 Hwf2 Hseed Hy Hx Hout.
  rewrite (initSeed_field false adc g r g' r') by done.
  by rewrite (bool_decide_eq_false_2 ((y, x) ∈ pattern 15 31)).
Qed.

(** In its random branch [initSeed] seeds the generator with the
    analog reading and makes a cell alive exactly when the coin drawn for
    it, in row-major order, is 1. *)
Lemma initSeed_random adc g r g' r' y x :
  Grid.wf (genMap_1 g) → Grid.wf (genMap_2 g) →
  initSeed true adc g r = Some (g', r') →
  0 ≤ y < gameRows → 0 ≤ x < gameColumns →
  current_field g' y x
  = bool_decide (coin (randomSeed adc r) (Z.to_nat (y * gameColumns + x)) = 1).
Proof.
  intros Hwf1 Hwf2 Hseed Hy Hx.
  by rewrite (initSeed_field true adc g r g' r').
Qed.

End seeding_theorems.

Lemma initSeed_refines_witness :
  initSeed false 0 static_init ([1; 0; 1] : script)
  = Some (initSeed_ref false 0 static_init ([1; 0; 1] : script)).
Proof. apply initSeed_refines; by_compute. Defined.

Lemma initSeed_valid_witness :
  ∃ g' r', initSeed true 7 (new_colored 31744) ([1; 1; 0; 1] : script) = Some (g', r') ∧
    valid g' ∧ currentGenMap g' = Some Map1 ∧ genMap_2 g' = Grid.zero.
Proof. apply initSeed_valid; by_compute. Defined.

Lemma initSeed_pattern_witness :
  current_field (initSeed_ref false 0 static_init ([] : script)).1 11 31 = true.
Proof.
  apply (initSeed_pattern 0 static_init ([] : script) _ (initSeed_ref false 0 static_init []).2);
    [by_compute|by_compute| |by_compute].
  rewrite initSeed_run by by_compute. by destruct (initSeed_ref _ _ _ _).
Defined.

(** With a source that always delivers 1, the centre of the pattern, which
    the pattern itself leaves dead, is alive after the non-random seed. *)
Lemma initSeed_fixed_not_cleared_witness :
  current_field (@initSeed_ref _ (constant_source 1) false 0 static_init tt).1 15 31 = true.
Proof.
  rewrite (@initSeed_fixed_not_cleared _ (constant_source 1) 0 static_init tt _
             (@initSeed_ref _ (constant_source 1) false 0 static_init tt).2);
    [by vm_compute|by_compute|by_compute| |by_compute..].
  rewrite initSeed_run by by_compute. by destruct (initSeed_ref _ _ _ _).
Defined.

Lemma initSeed_random_witness :
  current_field (initSeed_ref true 3 static_init ([0; 1] : script)).1 0 1 = true.
Proof.
  rewrite (initSeed_random 3 static_init ([0; 1] : script) _
             (initSeed_ref true 3 static_init [0; 1]).2);
    [by vm_compute|by_compute|by_compute| |by_compute..].
  rewrite initSeed_run by by_compute. by destruct (initSeed_ref _ _ _ _).
Defined.
