(* ===== verification/Render.v ===== *)
(** * Render: [drawCurGen]

    The drawing method of [simulation.h]: for every cell of the board, in
    row-major order, one [drawPixel] at column [j] and row [i], in the
    simulation colour when the byte read through [currentGenMap] is not
    zero and in black otherwise.

    The method does one thing with the display, it calls [drawPixel]
    through the pointer [matrix]; so it is written once, against a display
    with that operation ([Canvas]), and run on two displays: the canvas of
    [Display], which keeps the pixels, and a display that records the
    calls made to it.  The first gives the picture, the second the order
    and the number of the calls, which the picture can not show because
    writes to different pixels commute.

    The theorems: on a valid object and a panel that covers the board the
    call is defined, paints every cell of the board with [cell_color] and
    touches nothing else; on the recording display it leaves exactly 2048
    calls, call number [k] for column [k mod 64] of row [k / 64]
    ([drawCurGen_trace]), and on every display it is the replay of these
    calls ([drawCurGen_replay]); the map read back from the canvas
    ([read_back]) is the current map when the colour is not black, and the
    empty map when it is; on an object that was never seeded the call
    dereferences a null pointer. *)

From Stdlib Require Import ZArith Lia.
From stdpp Require Import list list_numbers option gmap.
From S2P Require Import Prelude.
From S2P Require Import Grid.
From S2P Require Import Boards.
From S2P Require Import Life.
From S2P Require Import Display.
From S2P Require Import Object.

#[local] Open Scope Z_scope.

(** ** The display as [drawCurGen] uses it *)

(** A display that can be told to draw a pixel: column, row, colour. *)
Class Canvas (D : Type) := drawPixel : Z → Z → Z → D → D.
#[global] Hint Mode Canvas ! : typeclass_instances.

(** The panel of the sketch. *)
#[export] Instance panel_canvas : Canvas Display.t := Display.drawPixel.

(** The display that only records its calls, the latest last. *)
#[export] Instance log_canvas : Canvas (list (Z * Z * Z)) :=
  λ x y c log, log ++ [(x, y, c)].

(** ** [drawCurGen] *)

(** The body of the drawing loops: the simulation colour for a live cell,
    black for a dead one, at column [j] and row [i]. *)
Definition draw_cell `{Canvas D} (g : ConwaysGame) (i j : Z) (d : D) : option D :=
  v ← load g (currentGenMap g) i j;
  Some (if truth v then drawPixel j i (simColor g) d
        else drawPixel j i (Display.color565 0 0 0) d).

Definition drawCurGen `{Canvas D} (g : ConwaysGame) (d : D) : option D :=
  for_loop 0 gameRows (λ i, for_loop 0 gameColumns (draw_cell g i)) d.

(** The colour [drawCurGen] gives the cell [(y, x)]. *)
Definition cell_color (g : ConwaysGame) (y x : Z) : Z :=
  if current_field g y x then simColor g else 0.

(** The calls of [drawPixel] a row-major traversal of the board makes:
    column, row and colour, row by row. *)
Definition draw_calls (g : ConwaysGame) : list (Z * Z * Z) :=
  i ← seqZ 0 gameRows; j ← seqZ 0 gameColumns; [(j, i, cell_color g i j)].

(** A sequence of [drawPixel] calls on a display. *)
Definition replay `{Canvas D} (calls : list (Z * Z * Z)) (d : D) : D :=
  foldl (λ d '(x, y, c), drawPixel x y c d) d calls.

(** Reading a canvas back into a map: a cell is alive when its pixel is
    lit. *)
Definition read_back (d : Display.t) : Grid.genMap :=
  Grid.tabulate (λ y x, of_bool (truth (Display.pixel d x y))).

(** The canvas when the drawing loops reach row [i] and column [j],
    started on the panel [d0]: the cells passed have their colour, every
    other pixel and the visible frame are as they were. *)
Definition drawing (g : ConwaysGame) (d0 : Display.t) (i j : Z) (d : Display.t) : Prop :=
  Display.width d = Display.width d0 ∧ Display.height d = Display.height d0 ∧
  Display.shown d = Display.shown d0 ∧
  ∀ y x, Display.pixel d x y =
    if decide (0 ≤ y < gameRows ∧ 0 ≤ x < gameColumns ∧ (y < i ∨ (y = i ∧ x < j)))
    then cell_color g y x else Display.pixel d0 x y.

(** ** [drawCurGen] *)

(** The loops are reasoned about by their rules, never by running them. *)
#[local] Opaque for_loop.

Section draw.
Context (g : ConwaysGame) (d0 : Display.t).
Context (Hv : valid g).
Context (Hwidth : gameColumns ≤ Display.width d0) (Hheight : gameRows ≤ Display.height d0).

(** One cell: the pixel at column [j] and row [i] gets the colour of the
    cell. *)
Lemma draw_cell_run `{Canvas D} i j (d : D) :
  0 ≤ i < gameRows → 0 ≤ j < gameColumns →
  draw_cell g i j d = Some (drawPixel j i (cell_color g i j) d).
Proof.
  intros Hi Hj. unfold draw_cell, cell_color, current_field.
  destruct Hv as (_ & _ & _ & _ & _ & [c Hcur]). rewrite Hcur, load_ref.
  destruct (Grid.get_is_Some (get_map c g) i j) as [v Hv']; [by apply valid_map|done..|].
  rewrite Hv', (Grid.alive_get _ _ _ _ Hv'). simpl.
  by destruct (truth v).
Qed.

Lemma cell_color_range y x : 0 ≤ cell_color g y x < 65536.
Proof.
  unfold cell_color. destruct Hv as (_ & _ & _ & _ & Hcol & _).
  destruct (current_field g y x); lia.
Qed.

(** The body of the drawing loops keeps the loop state. *)
Lemma draw_cell_drawing i j d :
  0 ≤ i < gameRows → 0 ≤ j < gameColumns → drawing g d0 i j d →
  ∃ d', draw_cell g i j d = Some d' ∧ drawing g d0 i (j + 1) d'.
Proof.
  intros Hi Hj (Hw & Hh & Hs & Hpix). rewrite draw_cell_run by done.
  unfold drawPixel, panel_canvas. eexists. split; [done|].
  pose proof (Display.drawPixel_size d j i (cell_color g i j)) as [Hw' Hh'].
  split; [congruence|]. split; [congruence|].
  split; [by rewrite Display.drawPixel_shown|].
  intros y x. destruct (decide ((x, y) = (j, i))) as [[= -> ->]|Hne].
  - rewrite Display.pixel_drawPixel_eq by lia. rewrite decide_True by lia.
    apply uint16_small, cell_color_range.
  - rewrite Display.pixel_drawPixel_ne, Hpix by done.
    assert (¬ (y = i ∧ x = j)) by (intros [-> ->]; done).
    repeat case_decide; try done; lia.
Qed.

(** The loops of [drawCurGen] run to the end, and the loop state then
    covers the whole board. *)
Lemma drawCurGen_drawing :
  ∃ d, drawCurGen g d0 = Some d ∧ drawing g d0 gameRows 0 d.
Proof.
  apply (for_loop2_inv (drawing g d0) gameRows gameColumns (draw_cell g) d0); [done|done| | |].
  - split; [done|]. split; [done|]. split; [done|].
    intros y x. by rewrite decide_False by lia.
  - intros i j d Hi Hj. by apply draw_cell_drawing.
  - intros i d Hi (Hw & Hh & Hs & Hpix). split; [done|]. split; [done|]. split; [done|].
    intros y x. rewrite Hpix. repeat case_decide; try done; lia.
Qed.

(** C13: [drawCurGen] renders the current generation.  On a valid object
    and a panel that covers the board the call is defined; afterwards the
    canvas pixel at column [x] and row [y] holds the simulation colour
    when the cell [(y, x)] of the current generation is alive and black
    when it is dead; pixels outside the board, the panel size and the
    visible frame are untouched. *)
Theorem drawCurGen_spec :
  ∃ d, drawCurGen g d0 = Some d ∧
    Display.width d = Display.width d0 ∧ Display.height d = Display.height d0 ∧
    Display.shown d = Display.shown d0 ∧
    ∀ y x, Display.pixel d x y =
      if decide (0 ≤ y < gameRows ∧ 0 ≤ x < gameColumns)
      then cell_color g y x else Display.pixel d0 x y.
Proof.
  destruct drawCurGen_drawing as (d & Hloop & Hw & Hh & Hs & Hpix).
  exists d. split; [done|]. split; [done|]. split; [done|]. split; [done|].
  intros y x. rewrite Hpix. repeat case_decide; try done; lia.
Qed.

(** [drawCurGen] is the replay of the row-major calls, on every display. *)
Lemma drawCurGen_replay `{Canvas D} (d : D) : drawCurGen g d = Some (replay (draw_calls g) d).
Proof.
  unfold drawCurGen, replay, draw_calls. rewrite foldl_bind.
  apply for_loop_foldl. intros i d1 Hi. rewrite foldl_bind.
  apply for_loop_foldl. intros j d2 Hj. by apply draw_cell_run.
Qed.

(** The map read back from the canvas, cell by cell. *)
Lemma read_back_drawn d c :
  currentGenMap g = Some c → drawCurGen g d0 = Some d →
  ∀ y x, 0 ≤ y < gameRows → 0 ≤ x < gameColumns →
    Grid.get (read_back d) y x
    = Some (if truth (simColor g) then of_bool (Grid.alive (get_map c g) y x) else 0).
Proof.
  intros Hcur Hdraw y x Hy Hx.
  destruct drawCurGen_drawing as (d' & Hloop & _ & _ & _ & Hpix).
  rewrite Hdraw in Hloop. injection Hloop as <-.
  unfold read_back. rewrite Grid.get_tabulate, Hpix by done. rewrite decide_True by lia.
  unfold cell_color, current_field. rewrite Hcur.
  by destruct (Grid.alive (get_map c g) y x), (truth (simColor g)).
Qed.

(** C27: Drawing loses nothing when the colour is not black.  On a valid
    object whose colour is not 0 and a panel that covers the board, the map
    read back from the canvas that [drawCurGen] leaves is the current map
    of the object, byte for byte. *)
Theorem drawCurGen_read_back d c :
  simColor g ≠ 0 → currentGenMap g = Some c → drawCurGen g d0 = Some d →
  read_back d = get_map c g.
Proof.
  intros Hcol Hcur Hdraw. destruct (valid_map g c Hv) as [Hwf Hb].
  apply Grid.ext; [apply Grid.tabulate_wf|done|]. intros y x Hy Hx.
  rewrite (read_back_drawn d c Hcur Hdraw y x Hy Hx), (Grid.boolean_get_alive _ y x) by done.
  unfold truth. by rewrite (proj2 (Z.eqb_neq _ _) Hcol).
Qed.

(** C39: A black simulation cannot be seen.  When the colour is 0, which
    [color565] returns for every colour whose channels are below the
    resolution of the 16-bit format, the canvas that [drawCurGen] leaves is
    black on the whole board whatever the generation: the map read back is
    the empty map. *)
Theorem drawCurGen_black d c :
  simColor g = 0 → currentGenMap g = Some c → drawCurGen g d0 = Some d →
  read_back d = Grid.zero.
Proof.
  intros Hcol Hcur Hdraw.
  apply Grid.ext; [apply Grid.tabulate_wf|apply Grid.zero_wf|]. intros y x Hy Hx.
  rewrite (read_back_drawn d c Hcur Hdraw y x Hy Hx), Grid.get_zero by done.
  by rewrite Hcol.
Qed.

End draw.

Lemma drawCurGen_spec_witness :
  ∃ d, drawCurGen (seeded Boards.blinker_h) (Display.blank 64 32) = Some d ∧
    Display.width d = 64 ∧ Display.height d = 32 ∧ Display.shown d = ∅ ∧
    ∀ y x, Display.pixel d x y =
      if decide (0 ≤ y < gameRows ∧ 0 ≤ x < gameColumns)
      then cell_color (seeded Boards.blinker_h) y x
      else Display.pixel (Display.blank 64 32) x y.
Proof. apply (drawCurGen_spec (seeded Boards.blinker_h) (Display.blank 64 32)); by_compute. Defined.

Lemma draw_cell_null `{Canvas D} g i j (d : D) :
  currentGenMap g = None → draw_cell g i j d = None.
Proof. intros Hcur. unfold draw_cell. by rewrite Hcur. Qed.

Lemma drawCurGen_unseeded `{Canvas D} g (d : D) :
  currentGenMap g = None → drawCurGen g d = None.
Proof.
  intros Hcur. unfold drawCurGen.
  rewrite for_loop_first by done. rewrite for_loop_first by done.
  by rewrite draw_cell_null.
Qed.

(** On a valid object the drawing loops run to the end on every display;
    on a panel of any size, where a pixel outside the panel is clipped. *)
Lemma drawCurGen_total `{Canvas D} g (d : D) : valid g → ∃ d', drawCurGen g d = Some d'.
Proof. intros Hv. eexists. by apply drawCurGen_replay. Qed.

(** The calls come in row-major order: call number [k] draws column
    [k mod 64] of row [k / 64]. *)
Lemma draw_calls_order g :
  draw_calls g
  = (λ k, (k `mod` gameColumns, k `div` gameColumns,
           cell_color g (k `div` gameColumns) (k `mod` gameColumns)))
    <$> seqZ 0 (gameRows * gameColumns).
Proof. unfold draw_calls. generalize (cell_color g) as c. intros c. by vm_compute. Qed.

(** Replayed on the recording display, calls are appended to the record. *)
Lemma replay_log (calls log : list (Z * Z * Z)) : replay calls log = log ++ calls.
Proof.
  revert log. induction calls as [|[[x y] c] calls IH]; intros log; [by rewrite app_nil_r|].
  cbn [replay foldl]. change (replay calls (log ++ [(x, y, c)]) = log ++ (x, y, c) :: calls).
  by rewrite IH, <- app_assoc.
Qed.

(** C25: The calls [drawCurGen] makes.  Run on a display that records the
    calls made to it, [drawCurGen] on a valid object is defined and leaves
    the record extended by exactly [gameRows * gameColumns] calls of
    [drawPixel], one per cell and row by row: call number [k] is
    [drawPixel(k mod gameColumns, k / gameColumns, colour)] with the
    colour of that cell, the simulation colour when it is alive and 0
    when it is dead. *)
Theorem drawCurGen_trace g (log : list (Z * Z * Z)) :
  valid g →
  drawCurGen g log
  = Some (log ++ ((λ k, (k `mod` gameColumns, k `div` gameColumns,
                         if current_field g (k `div` gameColumns) (k `mod` gameColumns)
                         then simColor g else 0))
                  <$> seqZ 0 (gameRows * gameColumns))).
Proof.
  intros Hv. by rewrite (drawCurGen_replay g Hv), replay_log, draw_calls_order.
Qed.

Lemma drawCurGen_trace_witness :
  drawCurGen (seeded Boards.blinker_h) [(0, 0, 7)]
  = Some ([(0, 0, 7)] ++
          ((λ k, (k `mod` gameColumns, k `div` gameColumns,
                  if current_field (seeded Boards.blinker_h) (k `div` gameColumns)
                       (k `mod` gameColumns)
                  then simColor (seeded Boards.blinker_h) else 0))
           <$> seqZ 0 (gameRows * gameColumns))).
Proof. apply drawCurGen_trace. by_compute. Defined.

Lemma drawCurGen_read_back_witness :
  ∃ d, drawCurGen (setColor 2016 (seeded Boards.blinker_h)) (Display.blank 64 32) = Some d ∧
    read_back d = Boards.blinker_h.
Proof.
  assert (valid (setColor 2016 (seeded Boards.blinker_h))) as Hv by by_compute.
  destruct (drawCurGen_total _ (Display.blank 64 32) Hv) as [d Hd].
  exists d. split; [exact Hd|].
  apply (drawCurGen_read_back _ (Display.blank 64 32) Hv ltac:(done) ltac:(done) d Map1);
    [discriminate|reflexivity|exact Hd].
Defined.

Lemma drawCurGen_black_witness :
  Display.color565 7 3 7 = 0 ∧
  ∃ d, drawCurGen (setColor (Display.color565 7 3 7) (seeded Boards.blinker_h))
         (Display.blank 64 32) = Some d ∧
    read_back d = Grid.zero.
Proof.
  split; [reflexivity|].
  assert (valid (setColor (Display.color565 7 3 7) (seeded Boards.blinker_h))) as Hv by by_compute.
  destruct (drawCurGen_total _ (Display.blank 64 32) Hv) as [d Hd].
  exists d. split; [exact Hd|].
  apply (drawCurGen_black _ (Display.blank 64 32) Hv ltac:(done) ltac:(done) d Map1);
    [reflexivity|reflexivity|exact Hd].
Defined.

