(* ===== verification/Api.v ===== *)
(** * Api: the class seen by its callers

    The public methods of [ConwaysGame] as a type of calls, [Method], and
    [invoke], which runs one call on a client: the object, the panel it
    draws on, the generator it draws coins from and the last count that
    [calcNextGen] returned.  A client is all a caller of the class can
    hold, so what is proved of [invoke] holds of every program over the
    class, the sketch of [Main] included.

    The theorems.  Typing: the representation invariant
    [typed] (two arrays of 32 by 64 bytes that are 0 or 1, a 16-bit colour,
    a 32-bit count) is preserved by every method.  Typestate: the object is
    [Constructed] until the first [initSeed] and [Seeded] from then on, and
    a sequence of calls is defined exactly when it never advances or draws
    a [Constructed] object ([accepts]).  Refinement: through [abstraction],
    which keeps the colour and the current generation and forgets the two
    buffers, every method is the method [abs_invoke] of a machine with one
    generation; so two clients with the same colour and the same current
    generation ([obs_eq]) cannot be told apart by any sequence of calls,
    whichever of the two buffers is current and whatever the other one
    holds. *)

From Stdlib Require Import ZArith Lia.
From stdpp Require Import list list_numbers option.
From S2P Require Import Prelude.
From S2P Require Import Grid.
From S2P Require Import Boards.
From S2P Require Import Life.
From S2P Require Import Random.
From S2P Require Import Display.
From S2P Require Import Object.
From S2P Require Import Engine.
From S2P Require Import Seed.
From S2P Require Import Render.

#[local] Open Scope Z_scope.

(** The public methods, with their arguments; [adc] is the analog reading
    [initSeed] takes. *)
Inductive Method : Type :=
  | InitSeed (rand : bool) (adc : Z)
  | CalcNextGen
  | DrawCurGen
  | SetColor (color : Z).

#[export] Instance Method_eq_dec : EqDecision Method.
Proof. solve_decision. Defined.

(** The life cycle of an object. *)
Inductive Phase : Type :=
  | Constructed
  | Seeded.

#[export] Instance Phase_eq_dec : EqDecision Phase.
Proof. solve_decision. Defined.

(** The phase an object is in: it is seeded when [currentGenMap] is set. *)
Definition phase (g : ConwaysGame) : Phase :=
  if currentGenMap g is Some _ then Seeded else Constructed.

(** The calls a phase allows, and the phase after a call. *)
Definition allowed (p : Phase) (m : Method) : bool :=
  match m, p with
  | CalcNextGen, Constructed | DrawCurGen, Constructed => false
  | _, _ => true
  end.

Definition after (p : Phase) (m : Method) : Phase :=
  match m with
  | InitSeed _ _ => Seeded
  | _ => p
  end.

(** The sequences of calls the life cycle allows. *)
Fixpoint accepts (p : Phase) (ms : list Method) : bool :=
  match ms with
  | [] => true
  | m :: ms => allowed p m && accepts (after p m) ms
  end.

(** What a caller sees of an object: its colour and its current
    generation. *)
Definition view (g : ConwaysGame) : Z * option Grid.genMap :=
  (simColor g, c ← currentGenMap g; Some (get_map c g)).

(** Painting a generation on a panel: the calls of [drawPixel] for a map
    and a colour, row by row. *)
Definition paint (color : Z) (m : Grid.genMap) (d : Display.t) : Display.t :=
  replay (i ← seqZ 0 gameRows; j ← seqZ 0 gameColumns;
          [(j, i, if Grid.alive m i j then color else 0)]) d.

Section api.
Context `{RandomSource R}.

(** What a caller of the class holds. *)
Record Client : Type := mkClient {
  object : ConwaysGame;
  panel : Display.t;
  source : R;
  updates : Z;
}.

(** A client with a freshly constructed object. *)
Definition connect (color : Z) (d : Display.t) (r : R) : Client :=
  mkClient (new_colored color) d r 0.

(** One call. *)
Definition invoke (m : Method) (st : Client) : option Client :=
  match m with
  | InitSeed rand adc =>
      '(g, r) ← initSeed rand adc (object st) (source st);
      Some (mkClient g (panel st) r (updates st))
  | CalcNextGen =>
      '(g, n) ← calcNextGen (object st);
      Some (mkClient g (panel st) (source st) n)
  | DrawCurGen =>
      d ← drawCurGen (object st) (panel st);
      Some (mkClient (object st) d (source st) (updates st))
  | SetColor color =>
      Some (mkClient (setColor color (object st)) (panel st) (source st) (updates st))
  end.

(** A sequence of calls, in order. *)
Fixpoint invokes (ms : list Method) (st : Client) : option Client :=
  match ms with
  | [] => Some st
  | m :: ms => st ← invoke m st; invokes ms st
  end.

(** The representation invariant. *)
Definition typed (st : Client) : Prop :=
  shaped (object st) ∧ 0 ≤ updates st < 2 ^ 32.

(** The class as a caller may think of it: a colour and, once seeded, one
    generation, with the panel, the generator and the last count. *)
Record Abstract : Type := mkAbstract {
  seen : Z * option Grid.genMap;
  screen : Display.t;
  coins : R;
  count : Z;
}.

(** What a client stands for: the two buffers and the pointers are
    forgotten. *)
Definition abstraction (st : Client) : Abstract :=
  mkAbstract (view (object st)) (panel st) (source st) (updates st).

(** The methods on the abstract state: a seed is a map of coins, a step is
    [next_map] and its count of changes, drawing paints the generation. *)
Definition abs_invoke (m : Method) (a : Abstract) : option Abstract :=
  match m with
  | InitSeed rand adc =>
      let r := if rand then randomSeed adc (coins a) else coins a in
      Some (mkAbstract ((seen a).1, Some (seed_map (negb rand) r)) (screen a)
              (advance 2048 r) (count a))
  | CalcNextGen =>
      cur ← (seen a).2;
      Some (mkAbstract ((seen a).1, Some (next_map cur)) (screen a) (coins a)
              (Grid.diff_count cur (next_map cur)))
  | DrawCurGen =>
      cur ← (seen a).2;
      Some (mkAbstract (seen a) (paint (seen a).1 cur (screen a)) (coins a) (count a))
  | SetColor color =>
      Some (mkAbstract (uint16_t color, (seen a).2) (screen a) (coins a) (count a))
  end.

Fixpoint abs_invokes (ms : list Method) (a : Abstract) : option Abstract :=
  match ms with
  | [] => Some a
  | m :: ms => a ← abs_invoke m a; abs_invokes ms a
  end.

(** Two clients a caller cannot tell apart. *)
Definition obs_eq (s1 s2 : Client) : Prop :=
  typed s1 ∧ typed s2 ∧ abstraction s1 = abstraction s2.

End api.

(** Two clients for the instances at the end of the file, with the same
    blinker on display: the first holds it in [genMap_1] with [genMap_2]
    cleared, the second in [genMap_2] with a block left over in
    [genMap_1]. *)
Definition blinker_client : Client (R := Z) :=
  mkClient (seeded Boards.blinker_h) (Display.blank 64 32) 0 0.

Definition stale_client : Client (R := Z) :=
  mkClient (mkGame 0 Boards.block Boards.blinker_h (Some Map2) (Some Map1))
    (Display.blank 64 32) 0 0.

(** ** Phases and views *)

Lemma valid_shaped g : valid g → shaped g.
Proof. unfold valid, shaped. tauto. Qed.

Lemma shaped_valid g : shaped g → phase g = Seeded → valid g.
Proof.
  intros (? & ? & ? & ? & ?) Hph. unfold phase in Hph.
  destruct (currentGenMap g) eqn:Hcur; [|done]. unfold valid. rewrite Hcur. split_and!; eauto; lia.
Qed.

Lemma phase_Constructed g : phase g = Constructed ↔ currentGenMap g = None.
Proof. unfold phase. by destruct (currentGenMap g). Qed.

Lemma phase_valid g : valid g → phase g = Seeded.
Proof. intros (_ & _ & _ & _ & _ & [c Hc]). unfold phase. by rewrite Hc. Qed.

(** ** The methods on typed objects *)

Section methods.
Context `{RandomSource R}.
Implicit Types (g : ConwaysGame) (r : R) (m : Method) (ms : list Method).

(** [initSeed] is defined on every typed object and leaves it seeded. *)
Lemma initSeed_shaped rand adc g r :
  shaped g →
  ∃ g' r', initSeed rand adc g r = Some (g', r') ∧ valid g' ∧
    view g' = (simColor g, Some (seed_map (negb rand) (if rand then randomSeed adc r else r))) ∧
    r' = advance 2048 (if rand then randomSeed adc r else r).
Proof.
  intros (Hwf1 & Hwf2 & _ & _ & Hcol). rewrite initSeed_run by done.
  destruct (initSeed_ref_valid rand adc g r Hcol) as [Hv _].
  by exists (initSeed_ref rand adc g r).1, (initSeed_ref rand adc g r).2.
Qed.

(** [calcNextGen] on a typed object: defined exactly when it is seeded. *)
Lemma calcNextGen_shaped g :
  shaped g → phase g = Seeded →
  ∃ g' n, calcNextGen g = Some (g', n) ∧ valid g' ∧ 0 ≤ n ≤ 2048.
Proof.
  intros Hsh Hph. pose proof (shaped_valid g Hsh Hph) as Hv.
  pose proof (valid_wf g Hv) as [Hwf1 Hwf2].
  destruct (calcNextGen_is_Some g) as [[g' n] Hstep]; [done|done|by apply Hv|].
  destruct (calcNextGen_post g g' n Hv Hstep) as (Hv' & _ & Hn).
  unfold gameRows, gameColumns in Hn. exists g', n. split; [done|]. split; [done|lia].
Qed.

Lemma drawCurGen_shaped g (d : Display.t) :
  shaped g → phase g = Seeded → is_Some (drawCurGen g d).
Proof.
  intros Hsh Hph. pose proof (shaped_valid g Hsh Hph) as Hv.
  destruct (drawCurGen_total g d Hv) as [d' Hd]. by exists d'.
Qed.

Lemma setColor_shaped color g : shaped g → shaped (setColor color g).
Proof.
  intros (? & ? & ? & ? & _). pose proof (uint16_range color). unfold shaped. cbn. tauto.
Qed.

(** A call the phase allows is defined, keeps the invariant and moves the
    object to the next phase. *)
Lemma invoke_run m (st : Client) :
  typed st → allowed (phase (object st)) m = true →
  ∃ st', invoke m st = Some st' ∧ typed st' ∧
    phase (object st') = after (phase (object st)) m.
Proof.
  intros [Hsh Hn] Hallowed. destruct m as [rand adc| | |color]; cbn [invoke after].
  - destruct (initSeed_shaped rand adc _ (source st) Hsh) as (g' & r' & -> & Hv & _).
    eexists. split; [done|]. split; [|by apply phase_valid]. split; [by apply valid_shaped|done].
  - destruct (phase (object st)) eqn:Hph; [done|].
    destruct (calcNextGen_shaped _ Hsh Hph) as (g' & n & -> & Hv & Hn').
    eexists. split; [done|]. split; [|by apply phase_valid].
    split; [by apply valid_shaped|cbn; lia].
  - destruct (phase (object st)) eqn:Hph; [done|].
    destruct (drawCurGen_shaped _ (panel st) Hsh Hph) as [d ->].
    eexists. split; [done|]. by split.
  - eexists. split; [done|]. split; [|done]. split; [by apply setColor_shaped|done].
Qed.

(** A call the phase does not allow is undefined. *)
Lemma invoke_stuck m (st : Client) :
  allowed (phase (object st)) m = false → invoke m st = None.
Proof.
  destruct m as [rand adc| | |color]; cbn [invoke allowed]; try done;
    (destruct (phase (object st)) eqn:Hph; [|done]); intros _;
    apply phase_Constructed in Hph.
  - by rewrite calcNextGen_unseeded.
  - by rewrite drawCurGen_unseeded.
Qed.

Lemma invoke_inv m (st st' : Client) :
  typed st → invoke m st = Some st' →
  allowed (phase (object st)) m = true ∧ typed st' ∧
  phase (object st') = after (phase (object st)) m.
Proof.
  intros Hty Hcall. destruct (allowed (phase (object st)) m) eqn:Hallowed.
  - destruct (invoke_run m st Hty Hallowed) as (st'' & Hcall' & Hty' & Hph).
    rewrite Hcall in Hcall'. by injection Hcall' as <-.
  - by rewrite invoke_stuck in Hcall.
Qed.

Lemma invoke_keeps m (st st' : Client) :
  typed st → invoke m st = Some st' → typed st'.
Proof. intros Hty Hcall. by destruct (invoke_inv m st st' Hty Hcall) as (_ & ? & _). Qed.

(** C19: Every method preserves the representation invariant: after a call
    that returns, both maps are still arrays of 32 by 64 bytes holding 0 or
    1, the colour still fits 16 bits and the count 32 bits. *)
Theorem invoke_typed m (st st' : Client) :
  typed st → invoke m st = Some st' → typed st'.
Proof. apply invoke_keeps. Qed.

(** The sequences of calls that are defined are those the life cycle
    accepts. *)
Lemma invokes_run ms (st : Client) :
  typed st → is_Some (invokes ms st) ↔ accepts (phase (object st)) ms = true.
Proof.
  revert st. induction ms as [|m ms IH]; intros st Hty; cbn [invokes accepts]; [by split|].
  rewrite andb_true_iff. destruct (allowed (phase (object st)) m) eqn:Hallowed.
  - destruct (invoke_run m st Hty Hallowed) as (st' & -> & Hty' & <-).
    cbn [mbind option_bind]. rewrite IH by done. tauto.
  - rewrite invoke_stuck by done. cbn [mbind option_bind]. split; [by intros []|by intros []].
Qed.

(** C15: The life cycle of the class is its only precondition.  On a typed
    client a sequence of calls is defined exactly when no [calcNextGen] and
    no [drawCurGen] comes before the first [initSeed]: those dereference
    the null [currentGenMap], and nothing else in the class can go
    wrong. *)
Theorem invokes_accepts ms (st : Client) :
  typed st → is_Some (invokes ms st) ↔ accepts (phase (object st)) ms = true.
Proof. apply invokes_run. Qed.

End methods.

(** ** Refinement *)

Section refinement.
Context `{RandomSource R}.
Implicit Types (g : ConwaysGame) (r : R) (m : Method) (ms : list Method).

(** On a seeded object [drawCurGen] paints the current map. *)
Lemma drawCurGen_paint g c d :
  valid g → currentGenMap g = Some c →
  drawCurGen g d = Some (paint (simColor g) (get_map c g) d).
Proof.
  intros Hv Hcur. rewrite (drawCurGen_replay g Hv). unfold paint, draw_calls, cell_color.
  unfold current_field. by rewrite Hcur.
Qed.

(** One call on a client is the call on what the client stands for. *)
Lemma invoke_abstraction m (st : Client) :
  typed st → abstraction <$> invoke m st = abs_invoke m (abstraction st).
Proof.
  intros [Hsh _]. unfold abs_invoke, abstraction. cbn [seen screen coins count].
  destruct m as [rand adc| | |color]; cbn [invoke].
  - destruct (initSeed_shaped rand adc _ (source st) Hsh) as (g' & r' & -> & _ & Hview & Hr').
    cbn [fmap option_fmap option_map mbind option_bind object panel source updates].
    rewrite Hview, Hr'. reflexivity.
  - unfold view. destruct (currentGenMap (object st)) as [c|] eqn:Hcur.
    + rewrite (calcNextGen_run _ c) by (done || apply Hsh). cbn. by destruct c.
    + by rewrite calcNextGen_unseeded.
  - unfold view. destruct (currentGenMap (object st)) as [c|] eqn:Hcur.
    + rewrite (drawCurGen_paint _ c); [|apply shaped_valid; [done|]|done].
      * cbn. unfold view. by rewrite Hcur.
      * unfold phase. by rewrite Hcur.
    + by rewrite drawCurGen_unseeded.
  - reflexivity.
Qed.

(** C14: The class implements a machine with one generation.  On a typed
    client every method does what the abstract method does to the colour
    and the current generation: [initSeed] replaces the generation by the
    map of coins, [calcNextGen] by its successor and returns the number of
    changed cells, [drawCurGen] paints it, and a call is undefined exactly
    when the abstract call is, on a generation that is not there yet.  The
    two buffers and the pointers never show. *)
Theorem invoke_refines m (st : Client) :
  typed st → abstraction <$> invoke m st = abs_invoke m (abstraction st).
Proof. apply invoke_abstraction. Qed.

Lemma invokes_keeps ms (st st' : Client) :
  typed st → invokes ms st = Some st' → typed st'.
Proof.
  revert st. induction ms as [|m ms IH]; intros st Hty Hcalls; cbn [invokes] in Hcalls.
  - by injection Hcalls as <-.
  - destruct (invoke m st) as [st1|] eqn:Hcall; [|done].
    apply (IH st1); [by apply (invoke_keeps m st)|done].
Qed.

(** A sequence of calls is the sequence of abstract calls. *)
Lemma invokes_abstraction ms (st : Client) :
  typed st → abstraction <$> invokes ms st = abs_invokes ms (abstraction st).
Proof.
  revert st. induction ms as [|m ms IH]; intros st Hty; cbn [invokes abs_invokes]; [done|].
  rewrite <- (invoke_abstraction m st Hty).
  destruct (invoke m st) as [st1|] eqn:Hcall; [|done].
  cbn [mbind option_bind fmap option_fmap option_map]. apply IH.
  by apply (invoke_keeps m st).
Qed.

End refinement.

(** ** Observation *)

Section observation.
Context `{RandomSource R}.
Implicit Types (m : Method) (ms : list Method).

#[export] Instance obs_eq_symmetric : Symmetric (obs_eq (R := R)).
Proof. intros s1 s2 (? & ? & ?). by split_and!. Qed.

#[export] Instance obs_eq_transitive : Transitive (obs_eq (R := R)).
Proof. intros s1 s2 s3 (? & ? & ?) (? & ? & ?). split_and!; try done; by etrans. Qed.

(** On typed clients the relation is reflexive. *)
Lemma obs_eq_refl (st : Client (R := R)) : typed st → obs_eq st st.
Proof. intros Hty. unfold obs_eq. by split_and!. Qed.

(** Clients that stand for the same abstract state stay so under every
    sequence of calls. *)
Lemma invokes_obs_eq ms (s1 s2 : Client) :
  obs_eq s1 s2 → option_Forall2 obs_eq (invokes ms s1) (invokes ms s2).
Proof.
  intros (Hty1 & Hty2 & Habs).
  pose proof (invokes_abstraction ms s1 Hty1) as H1.
  pose proof (invokes_abstraction ms s2 Hty2) as H2. rewrite <- Habs, <- H1 in H2.
  destruct (invokes ms s1) as [s1'|] eqn:Hs1, (invokes ms s2) as [s2'|] eqn:Hs2;
    try done; constructor.
  split; [by apply (invokes_keeps ms s1)|]. split; [by apply (invokes_keeps ms s2)|].
  symmetry. by apply (inj Some).
Qed.

#[export] Instance invoke_proper m : Proper (obs_eq ==> option_Forall2 obs_eq) (invoke (R := R) m).
Proof.
  intros s1 s2 Hobs. pose proof (invokes_obs_eq [m] s1 s2 Hobs) as Hm. cbn [invokes] in Hm.
  by destruct (invoke m s1), (invoke m s2).
Qed.

(** C16: The double buffer cannot be observed.  Two typed clients with the
    same colour, the same current generation, the same panel, generator and
    count are indistinguishable: every sequence of calls is defined on both
    or on neither, and leaves them with the same current generation, the
    same canvas and the same count, whichever of the two buffers is current
    in each and whatever the other buffer holds. *)
Theorem invokes_obs ms (s1 s2 : Client) :
  obs_eq s1 s2 → option_Forall2 obs_eq (invokes ms s1) (invokes ms s2).
Proof. apply invokes_obs_eq. Qed.

End observation.

(** ** Instances of the theorems

    The generator is the linear congruential [lcg_source] started at 0. *)

Section instances.
#[local] Existing Instance lcg_source.

Lemma blinker_client_typed : typed blinker_client.
Proof. split; [by_compute|done]. Qed.

Lemma stale_client_typed : typed stale_client.
Proof. split; [by_compute|done]. Qed.

Lemma invoke_typed_witness :
  ∃ st', invoke CalcNextGen blinker_client = Some st' ∧ typed st'.
Proof.
  destruct (invoke_run CalcNextGen blinker_client blinker_client_typed) as (st' & Hcall & _);
    [reflexivity|].
  exists st'. split; [exact Hcall|].
  exact (invoke_typed CalcNextGen blinker_client st' blinker_client_typed Hcall).
Defined.

Lemma invokes_accepts_witness :
  is_Some (invokes [SetColor 7; InitSeed true 9; CalcNextGen; DrawCurGen] (connect 0 (Display.blank 64 32) 0))
  ∧ invokes [SetColor 7; DrawCurGen; InitSeed true 9] (connect 0 (Display.blank 64 32) 0) = None.
Proof.
  assert (typed (connect 0 (Display.blank 64 32) 0)) as Hty by (split; [by_compute|done]).
  split.
  - apply (invokes_accepts _ _ Hty). reflexivity.
  - apply eq_None_not_Some. intros Hsome.
    apply (invokes_accepts _ _ Hty) in Hsome. discriminate Hsome.
Defined.

Lemma invoke_refines_witness :
  abstraction <$> invoke CalcNextGen stale_client
  = abs_invoke CalcNextGen (abstraction stale_client).
Proof. apply invoke_refines. exact stale_client_typed. Defined.

Lemma invokes_obs_witness :
  option_Forall2 obs_eq
    (invokes [CalcNextGen; DrawCurGen; CalcNextGen] blinker_client)
    (invokes [CalcNextGen; DrawCurGen; CalcNextGen] stale_client).
Proof.
  apply invokes_obs. split; [exact blinker_client_typed|]. split; [exact stale_client_typed|].
  reflexivity.
Defined.

End instances.
