(* ===== verification/Scenarios.v ===== *)
(** * Scenarios: the named patterns run through the code

    The testable scenarios of the specification, as theorems about
    [calcNextGen] and [initSeed] on every valid object and at every position
    of the board: a single cell dies with one change, the block stays with
    no change, the blinker turns with four changes and is back after two
    calls, the glider changes four cells per call and has moved down the
    diagonal after four, and the non-random seed is the twelve-cell pattern
    exactly when every coin of the generator is 0; and at the edges, a
    blinker that lies on the top edge dies in two calls and a glider that
    lands on the bottom edge becomes a block.  Each is the corresponding
    fact of [Plane] or [Edges] carried through the refinement theorems of
    [Engine]. *)

From Stdlib Require Import ZArith Lia.
From stdpp Require Import list list_numbers option.
From S2P Require Import Prelude.
From S2P Require Import Grid.
From S2P Require Import Boards.
From S2P Require Import Life.
From S2P Require Import Patterns.
From S2P Require Import Plane.
From S2P Require Import Edges.
From S2P Require Import Random.
From S2P Require Import Display.
From S2P Require Import Object.
From S2P Require Import Engine.
From S2P Require Import Seed.
From S2P Require Import Render.

#[local] Open Scope Z_scope.

#[local] Abbreviation next := (Life.next gameRows gameColumns).
#[local] Abbreviation changes := (Life.changes gameRows gameColumns).
#[local] Abbreviation board_eq := (Life.board_eq gameRows gameColumns).
#[local] Abbreviation on_board := (Patterns.on_board gameRows gameColumns).

(** The object [g] holds the generation whose live cells on the board are
    the listed ones. *)
Definition holds (g : ConwaysGame) (l : list (Z * Z)) : Prop :=
  board_eq (current_field g) (Patterns.cells l).

(** ** From fields to objects *)

(** A step of the code on an object whose generation is [f] on the board:
    the generation afterwards and the count are those of the abstract
    step. *)
Lemma step_field g f f' :
  valid g → board_eq (current_field g) f → Life.feq (next f) f' →
  ∃ g', calcNextGen g = Some (g', changes f f') ∧ valid g' ∧
    Life.feq (current_field g') f'.
Proof.
  intros Hv Hf Hf'. pose proof (valid_wf g Hv) as [Hwf1 Hwf2].
  destruct (calcNextGen_is_Some g) as [[g' n] Hstep]; [done|done|by apply Hv|].
  destruct (calcNextGen_post g g' n Hv Hstep) as (Hv' & _).
  destruct (calcNextGen_abstract g g' n f Hv Hf Hstep) as [Hg' ->].
  exists g'. split; [|split; [done|intros y x; rewrite (Hg' y x); apply Hf']].
  rewrite Hstep. f_equal. f_equal.
  apply Life.changes_board_eq; [by intros y x _ _|]. intros y x _ _. apply Hf'.
Qed.

(** [n] steps of the code on an object whose generation is [f] on the
    board. *)
Lemma steps_field n g f :
  valid g → board_eq (current_field g) f →
  ∃ g', generations n g = Some g' ∧ valid g' ∧
    board_eq (current_field g') (Life.iterate gameRows gameColumns n f).
Proof.
  intros Hv Hf. destruct (Hv) as (_ & _ & _ & _ & _ & [c Hcur]).
  destruct (generations_run n g c Hv Hcur) as (g' & Hrun & Hv' & _ & Hg').
  exists g'. split_and!; [done..|]. etrans; [exact Hg'|].
  by apply Life.iterate_proper.
Qed.

(** The object seeded with a listed board has the listed generation. *)
Lemma current_field_seeded l : holds (seeded (Boards.of_cells l)) l.
Proof. intros y x Hy Hx. by apply Boards.alive_of_cells. Qed.

(** ** The scenarios *)

(** C35: A single live cell dies.  On a valid object whose generation is
    one live cell, anywhere on the board, [calcNextGen] returns the count 1
    and leaves no cell alive. *)
Theorem scenario_single g y x :
  valid g → on_board (y, x) →
  holds g (Patterns.single y x) →
  ∃ g', calcNextGen g = Some (g', 1) ∧ Life.feq (current_field g') Life.empty.
Proof.
  intros Hv Hb Hf.
  destruct (step_field g _ Life.empty Hv Hf) as (g' & Hstep & _ & Hg');
    [by apply Plane.next_single|].
  rewrite Plane.changes_single in Hstep by done. by exists g'.
Qed.

(** C34: The block is a still life.  On a valid object whose generation is
    a 2x2 block, anywhere it fits the board, [calcNextGen] returns the
    count 0 and the same block. *)
Theorem scenario_block g y x :
  valid g → on_board (y, x) → on_board (y + 1, x + 1) →
  holds g (Patterns.block y x) →
  ∃ g', calcNextGen g = Some (g', 0) ∧
    Life.feq (current_field g') (Patterns.cells (Patterns.block y x)).
Proof.
  intros Hv Hb0 Hb1 Hf.
  destruct (step_field g _ (Patterns.cells (Patterns.block y x)) Hv Hf)
    as (g' & Hstep & _ & Hg'); [by apply Plane.next_block|].
  rewrite Life.changes_zero in Hstep by done. by exists g'.
Qed.

(** C33: The blinker oscillates with period two.  On a valid object whose
    generation is a lying blinker with its 3x3 square on the board, a
    first [calcNextGen] returns the count 4 and the standing blinker, and a
    second returns the count 4 and the lying blinker again. *)
Theorem scenario_blinker g y x :
  valid g → on_board (y - 1, x - 1) → on_board (y + 1, x + 1) →
  holds g (Patterns.blinker_h y x) →
  ∃ g1 g2, calcNextGen g = Some (g1, 4) ∧
    Life.feq (current_field g1) (Patterns.cells (Patterns.blinker_v y x)) ∧
    calcNextGen g1 = Some (g2, 4) ∧
    Life.feq (current_field g2) (Patterns.cells (Patterns.blinker_h y x)).
Proof.
  intros Hv Hb0 Hb1 Hf.
  destruct (step_field g _ (Patterns.cells (Patterns.blinker_v y x)) Hv Hf)
    as (g1 & Hstep1 & Hv1 & Hg1); [by apply Plane.next_blinker_h|].
  destruct (step_field g1 (Patterns.cells (Patterns.blinker_v y x))
              (Patterns.cells (Patterns.blinker_h y x)) Hv1)
    as (g2 & Hstep2 & _ & Hg2); [intros ? ? _ _; apply Hg1|by apply Plane.next_blinker_v|].
  rewrite Plane.changes_blinker in Hstep1 by done.
  rewrite Life.changes_sym, Plane.changes_blinker in Hstep2 by done.
  by exists g1, g2.
Qed.

(** ** The glider *)

Section glider.
Context (y x : Z) (Hb0 : on_board (y, x)) (Hb1 : on_board (y + 3, x + 3)).

(** One call on a glider in its phase [k]: four cells change, and the
    glider is in its next phase. *)
Lemma glider_call g k :
  valid g → (k < 4)%nat → holds g (Plane.move y x (Plane.phase k)) →
  ∃ g', calcNextGen g = Some (g', 4) ∧ valid g' ∧
    holds g' (Plane.move y x (Plane.phase (S k))).
Proof.
  intros Hv Hk Hf. destruct Hb0 as [Hy Hx], Hb1 as [Hy' Hx']. cbn in Hy, Hx, Hy', Hx'.
  destruct (step_field g _ (Patterns.cells (Plane.move y x (Plane.phase (S k)))) Hv Hf)
    as (g' & Hstep & Hv' & Hg'); [apply Plane.glider_next_phase; lia|].
  rewrite Plane.glider_changes in Hstep by lia.
  exists g'. split_and!; [done..|]. intros ? ? _ _. apply Hg'.
Qed.

(** The calls on a glider, from any of its phases. *)
Lemma glider_calls n g k :
  valid g → (k + n ≤ 4)%nat → holds g (Plane.move y x (Plane.phase k)) →
  ∃ g', generations n g = Some g' ∧ valid g' ∧
    holds g' (Plane.move y x (Plane.phase (k + n))).
Proof.
  revert g k. induction n as [|n IH]; intros g k Hv Hk Hf.
  { exists g. by rewrite Nat.add_0_r. }
  destruct (glider_call g k Hv ltac:(lia) Hf) as (g1 & Hstep & Hv1 & Hf1).
  destruct (IH g1 (S k) Hv1 ltac:(lia) Hf1) as (g' & Hrun & Hv' & Hf').
  exists g'. cbn [generations]. rewrite Hstep. cbn [mbind option_bind].
  by rewrite Nat.add_succ_r.
Qed.

(** C31: The glider travels down the diagonal.  On a valid object whose
    generation is a glider with its 4x4 square on the board, every call of
    [calcNextGen] changes four cells, and after four calls the generation
    is the same glider one row lower and one column further right. *)
Theorem scenario_glider g :
  valid g → holds g (Plane.glider y x) →
  ∃ g1 g', calcNextGen g = Some (g1, 4) ∧ generations 4 g = Some g' ∧ valid g' ∧
    holds g' (Plane.glider (y + 1) (x + 1)).
Proof.
  intros Hv Hf.
  destruct (glider_call g 0 Hv ltac:(lia) Hf) as (g1 & Hstep & _).
  destruct (glider_calls 4 g 0 Hv ltac:(lia) Hf) as (g' & Hrun & Hv' & Hf').
  exists g1, g'. split_and!; [done..|].
  intros ? ? ? ?. rewrite Hf' by done. apply Plane.glider_next.
Qed.

End glider.

(** ** At the edges *)

(** A blinker that lies on the top edge does not oscillate.  The end
    that would stand above the edge does not exist: the first call of
    [calcNextGen] changes three cells and leaves the centre and the cell
    below it, and the second call kills both. *)
Lemma scenario_edge_blinker g x :
  valid g → 1 ≤ x ≤ 62 → holds g (Patterns.blinker_h 0 x) →
  ∃ g1 g2, calcNextGen g = Some (g1, 3) ∧ holds g1 (Edges.stub x) ∧
    calcNextGen g1 = Some (g2, 2) ∧ Life.feq (current_field g2) Life.empty.
Proof.
  intros Hv Hx Hf.
  destruct (step_field g _ (Patterns.cells (Edges.stub x)) Hv Hf)
    as (g1 & Hstep1 & Hv1 & Hg1); [by apply Edges.next_edge_blinker|].
  assert (holds g1 (Edges.stub x)) as Hf1 by (intros ? ? _ _; apply Hg1).
  destruct (step_field g1 _ (Patterns.cells []) Hv1 Hf1)
    as (g2 & Hstep2 & _ & Hg2); [by apply Edges.next_stub|].
  rewrite Edges.changes_edge_blinker in Hstep1 by done.
  rewrite Edges.changes_stub in Hstep2 by done.
  exists g1, g2. split_and!; [done..|]. etrans; [exact Hg2|apply Patterns.cells_empty].
Qed.

(** C32: The edges of the board are hard.  A glider that lands on the
    bottom edge does not leave the board and does not come back at the
    top: on a valid object whose generation is a glider with its 3x3
    square on the three bottom rows, at any column where the square fits,
    the first call of [calcNextGen] changes three cells, and after three
    calls the generation is a block on the two bottom rows and nothing
    else. *)
Theorem scenario_edge_glider g x :
  valid g → 0 ≤ x ≤ 61 → holds g (Plane.glider 29 x) →
  ∃ g1 g', calcNextGen g = Some (g1, 3) ∧ generations 3 g = Some g' ∧ valid g' ∧
    holds g' (Patterns.block 30 (x + 1)).
Proof.
  intros Hv Hx Hf.
  destruct (step_field g _ (Patterns.cells (Edges.landing 1 x)) Hv Hf)
    as (g1 & Hstep & _); [by apply (Edges.next_landing 0)|].
  change (Plane.glider 29 x) with (Edges.landing 0 x) in Hstep.
  rewrite (Edges.changes_landing 0) in Hstep by done.
  destruct (steps_field 3 g _ Hv Hf) as (g' & Hrun & Hv' & Hg').
  exists g1, g'. split_and!; [done..|]. unfold holds. etrans; [exact Hg'|].
  by apply Life.feq_board_eq, (Edges.iterate_landing 3).
Qed.

Section seeds.
Context `{RandomSource R}.

(** C37: The non-random seed is the documented pattern only under a
    generator that never delivers a 1.  With every coin 0 the generation
    [initSeed(false)] leaves is exactly the twelve cells around
    [(15, 31)]. *)
Theorem scenario_fixed_seed adc g (r : R) g' r' :
  Grid.wf (genMap_1 g) → Grid.wf (genMap_2 g) → (∀ k, coin r k = 0) →
  initSeed false adc g r = Some (g', r') → holds g' (pattern 15 31).
Proof.
  intros Hwf1 Hwf2 Hcoin Hseed y x Hy Hx.
  rewrite (initSeed_field false adc g r g' r') by done.
  rewrite Hcoin. by rewrite orb_false_r.
Qed.

End seeds.

(** ** Instances *)

Lemma scenario_single_witness :
  ∃ g', calcNextGen (seeded Boards.lone) = Some (g', 1) ∧
    Life.feq (current_field g') Life.empty.
Proof.
  apply (scenario_single (seeded Boards.lone) 10 20);
    [by_compute|by_compute|apply current_field_seeded].
Defined.

Lemma scenario_block_witness :
  ∃ g', calcNextGen (seeded Boards.block) = Some (g', 0) ∧
    Life.feq (current_field g') (Patterns.cells (Patterns.block 10 20)).
Proof.
  apply (scenario_block (seeded Boards.block) 10 20);
    [by_compute|by_compute|by_compute|apply current_field_seeded].
Defined.

Lemma scenario_blinker_witness :
  ∃ g1 g2, calcNextGen (seeded Boards.blinker_h) = Some (g1, 4) ∧
    Life.feq (current_field g1) (Patterns.cells (Patterns.blinker_v 10 20)) ∧
    calcNextGen g1 = Some (g2, 4) ∧
    Life.feq (current_field g2) (Patterns.cells (Patterns.blinker_h 10 20)).
Proof.
  apply (scenario_blinker (seeded Boards.blinker_h) 10 20);
    [by_compute|by_compute|by_compute|apply current_field_seeded].
Defined.

Lemma scenario_fixed_seed_witness :
  ∃ g' r', initSeed (H := constant_source 0) false 7 new_default tt = Some (g', r') ∧
    holds g' (pattern 15 31).
Proof.
  assert (initSeed (H := constant_source 0) false 7 new_default tt
          = Some ((initSeed_ref (H := constant_source 0) false 7 new_default tt).1,
                  (initSeed_ref (H := constant_source 0) false 7 new_default tt).2)) as Hseed.
  { rewrite initSeed_run by by_compute. rewrite <- surjective_pairing. reflexivity. }
  eexists _, _. split; [exact Hseed|].
  apply (scenario_fixed_seed (H := constant_source 0) 7 new_default tt _
           (initSeed_ref (H := constant_source 0) false 7 new_default tt).2);
    [by_compute|by_compute|intros k; reflexivity|exact Hseed].
Defined.

Lemma scenario_edge_glider_witness :
  ∃ g1 g', calcNextGen (seeded (Boards.of_cells (Plane.glider 29 20))) = Some (g1, 3) ∧
    generations 3 (seeded (Boards.of_cells (Plane.glider 29 20))) = Some g' ∧ valid g' ∧
    holds g' (Patterns.block 30 21).
Proof.
  apply (scenario_edge_glider _ 20); [by_compute|by_compute|apply current_field_seeded].
Defined.

Lemma scenario_glider_witness :
  ∃ g1 g', calcNextGen (seeded (Boards.of_cells (Plane.glider 10 20))) = Some (g1, 4) ∧
    generations 4 (seeded (Boards.of_cells (Plane.glider 10 20))) = Some g' ∧ valid g' ∧
    holds g' (Plane.glider 11 21).
Proof.
  apply (scenario_glider 10 20);
    [by_compute|by_compute|by_compute|apply current_field_seeded].
Defined.
