(* ===== verification/Main.v ===== *)
(** * Main: the sketch

    [main.cpp]: the global objects, [setup] and [loop].  The state of the
    sketch is the simulation object, the display, the pseudo-random
    generator and the counter [cellsUpdated]; [setup] and [loop] are
    functions on it, and the run of the sketch is the step relation [step]
    that iterates [loop].  What the hardware supplies is an input of the
    model: the status [matrix.begin()] returns, the canvas after the splash
    text, and the value of [analogRead(26)] when a seed is taken.

    The theorems: [setup] either hangs (on a driver error) or reaches a
    state that satisfies the system invariant [sys_inv]; [loop] is defined
    on every such state and keeps the invariant, so no state the sketch can
    reach performs an undefined access; the display always shows the
    current generation; [setup] and [loop] are sequences of calls of the
    public methods in the sense of [Api] ([setup_invokes], [loop_invokes]),
    and [loop] is defined exactly when the object is seeded or the counter
    makes it take a seed; the reseed policy is the comparison
    [cellsUpdated <= updateThreshold]; and the sketch refines the abstract
    machine of [Tick]: through [abstraction], a call of [loop] is a tick
    and a sequence of calls ([run]) is the same sequence of ticks.  The
    last section instantiates the theorems on a concrete sketch.  [Sketch]
    models the same two functions with their calls into the hardware. *)

From Stdlib Require Import ZArith Lia.
From stdpp Require Import list list_numbers option gmap relations.
From S2P Require Import Prelude.
From S2P Require Import Grid.
From S2P Require Import Boards.
From S2P Require Import Life.
From S2P Require Import Random.
From S2P Require Import Tick.
From S2P Require Import Display.
From S2P Require Import Object.
From S2P Require Import Engine.
From S2P Require Import Seed.
From S2P Require Import Render.
From S2P Require Import Api.

#[local] Open Scope Z_scope.

(** The status codes of the display driver that [setup] tells apart. *)
Inductive ProtomatterStatus : Type :=
  | PROTOMATTER_OK
  | PROTOMATTER_ERR_PINS
  | PROTOMATTER_ERR_MALLOC
  | PROTOMATTER_ERR_ARG.

#[export] Instance ProtomatterStatus_eq_dec : EqDecision ProtomatterStatus.
Proof. solve_decision. Defined.

(** The constants of the sketch. *)
Definition matrix_chain_width : Z := 64.
Definition address_lines_num : Z := 4.
Definition rgbSimColor : list Z := [125; 76; 0].
Definition refreshRate : Z := 1000.
Definition updateThreshold : Z := 35.

(** The height of the panel: two rows per address, [2 ^ (lines + 1)]. *)
Definition matrix_height : Z := 2 ^ (address_lines_num + 1).

(** The two messages [setup] can print for ever. *)
Inductive Message : Type :=
  | MSG_PINS
  | MSG_INIT.

(** How [setup] ends: the sketch runs on, or it prints a message for ever. *)
Inductive Outcome (S : Type) : Type :=
  | Running (s : S)
  | Hung (message : Message).
Arguments Running {S} s.
Arguments Hung {S} message.

(** A simulation object of the sketch's colour with a blinker in the
    current map, for the instances at the end of the file. *)
Definition demo_sim : ConwaysGame :=
  set_simColor (Display.color565 125 76 0) (seeded Boards.blinker_h).

Section sketch.
Context `{RandomSource R}.

(** The global variables the sketch changes. *)
Record System : Type := mkSystem {
  simulation : ConwaysGame;
  matrix : Display.t;
  generator : R;
  cellsUpdated : Z;
}.

(** The globals after static initialisation: the display object, the
    simulation constructed with the custom colour, [cellsUpdated = 0]. *)
Definition boot (r : R) : System :=
  mkSystem
    (new_colored (Display.color565 (rgbSimColor !!! 0%nat) (rgbSimColor !!! 1%nat)
                    (rgbSimColor !!! 2%nat)))
    (Display.blank matrix_chain_width matrix_height)
    r 0.

(** [setup()].  [status] is what [matrix.begin()] returns, [splash] the
    canvas after the title text was printed, [adc] the analog reading. *)
Definition setup (status : ProtomatterStatus) (splash : gmap (Z * Z) Z) (adc : Z)
    (s : System) : option (Outcome System) :=
  if decide (status = PROTOMATTER_ERR_PINS) then Some (Hung MSG_PINS)
  else if decide (status ≠ PROTOMATTER_OK) then Some (Hung MSG_INIT)
  else
    let d := Display.show
      (Display.mk (Display.width (matrix s)) (Display.height (matrix s)) splash
         (Display.shown (matrix s))) in
    '(sim, r) ← initSeed true adc (simulation s) (generator s);
    d ← drawCurGen sim d;
    Some (Running (mkSystem sim (Display.show d) r (cellsUpdated s))).

(** The first statement of [loop]: the conditional reseed. *)
Definition reseed (adc : Z) (s : System) : option (ConwaysGame * R) :=
  if decide (cellsUpdated s ≤ updateThreshold)
  then initSeed true adc (simulation s) (generator s)
  else Some (simulation s, generator s).

(** [loop()]: reseed when the last generation changed at most
    [updateThreshold] cells, advance, draw, show. *)
Definition loop (adc : Z) (s : System) : option System :=
  '(sim, r) ← reseed adc s;
  '(sim, updates) ← calcNextGen sim;
  d ← drawCurGen sim (matrix s);
  Some (mkSystem sim (Display.show d) r updates).

(** One step of the running sketch: a call of [loop] with some analog
    reading. *)
Inductive step : System → System → Prop :=
  | step_loop adc s s' : loop adc s = Some s' → step s s'.

(** The calls of [loop] for a sequence of analog readings. *)
Fixpoint run (adcs : list Z) (s : System) : option System :=
  match adcs with
  | [] => Some s
  | adc :: adcs => s ← loop adc s; run adcs s
  end.

(** The sketch as a caller of the class: what it holds of the object, and
    the method calls of [setup] and of one call of [loop], in order. *)
Definition client (s : System) : Client :=
  mkClient (simulation s) (matrix s) (generator s) (cellsUpdated s).

Definition setup_calls (adc : Z) : list Method := [InitSeed true adc; DrawCurGen].

Definition loop_calls (adc : Z) (s : System) : list Method :=
  (if decide (cellsUpdated s ≤ updateThreshold) then [InitSeed true adc] else [])
  ++ [CalcNextGen; DrawCurGen].

(** [matrix.show()] after the calls. *)
Definition show_panel (c : Client) : System :=
  mkSystem (object c) (Display.show (panel c)) (source c) (updates c).

(** What the abstract machine sees of a state of the sketch: the
    generation on display, the counter and the generator. *)
Definition abstraction (s : System) : Tick.t :=
  Tick.mk (current_field (simulation s)) (cellsUpdated s) (generator s).

(** The states the sketch reaches after [setup]. *)
Definition reachable (r : R) (s : System) : Prop :=
  ∃ splash adc s0, setup PROTOMATTER_OK splash adc (boot r) = Some (Running s0) ∧ rtc step s0 s.

(** The panel shows the current generation of the simulation. *)
Definition shows_generation (s : System) : Prop :=
  ∀ y x, 0 ≤ y < gameRows → 0 ≤ x < gameColumns →
    Display.lit (matrix s) x y = cell_color (simulation s) y x.

(** The invariant of the running sketch. *)
Definition sys_inv (s : System) : Prop :=
  valid (simulation s) ∧
  simColor (simulation s) = Display.color565 125 76 0 ∧
  Display.width (matrix s) = 64 ∧ Display.height (matrix s) = 32 ∧
  0 ≤ cellsUpdated s ≤ 2048 ∧
  shows_generation s.

(** ** [setup] *)

(** When the display driver reports an error, [setup] never reaches
    [loop]: it prints a message for ever, one message for a pin error and
    another for every other error. *)
Lemma setup_hangs status splash adc s :
  status ≠ PROTOMATTER_OK →
  setup status splash adc s
  = Some (Hung (if decide (status = PROTOMATTER_ERR_PINS) then MSG_PINS else MSG_INIT)).
Proof. intros Hst. unfold setup. by repeat case_decide. Qed.

Lemma boot_shape r :
  Grid.wf (genMap_1 (simulation (boot r))) ∧ Grid.wf (genMap_2 (simulation (boot r))) ∧
  simColor (simulation (boot r)) = Display.color565 125 76 0 ∧
  Display.width (matrix (boot r)) = 64 ∧ Display.height (matrix (boot r)) = 32.
Proof. split_and!; try done; by_compute. Qed.

Lemma color_range : 0 ≤ Display.color565 125 76 0 < 65536.
Proof. by_compute. Qed.

(** Drawing and showing a valid simulation makes the panel show it. *)
Lemma draw_show sim d :
  valid sim → Display.width d = 64 → Display.height d = 32 →
  ∃ d', drawCurGen sim d = Some d' ∧
    Display.width (Display.show d') = 64 ∧ Display.height (Display.show d') = 32 ∧
    ∀ y x, 0 ≤ y < gameRows → 0 ≤ x < gameColumns →
      Display.lit (Display.show d') x y = cell_color sim y x.
Proof.
  intros Hv Hw Hh.
  destruct (drawCurGen_drawing sim d Hv) as (d' & Hdraw & Hw' & Hh' & _ & Hpix).
  { rewrite Hw. done. } { rewrite Hh. done. }
  exists d'. split; [done|]. split; [by rewrite <- Hw, <- Hw'|].
  split; [by rewrite <- Hh, <- Hh'|].
  intros y x Hy Hx. rewrite Display.lit_show, Hpix. rewrite decide_True; [done|lia].
Qed.

(** The seeding of the sketch: [initSeed(true)] on an object of the
    sketch's colour. *)
Lemma seed_run adc sim r :
  Grid.wf (genMap_1 sim) → Grid.wf (genMap_2 sim) →
  simColor sim = Display.color565 125 76 0 →
  ∃ sim', initSeed true adc sim r = Some (sim', advance 2048 (randomSeed adc r)) ∧
    sim' = (initSeed_ref true adc sim r).1 ∧
    valid sim' ∧ simColor sim' = Display.color565 125 76 0.
Proof.
  intros Hwf1 Hwf2 Hcol. rewrite initSeed_run by done.
  destruct (initSeed_ref_valid true adc sim r) as [Hv Hcol']; [rewrite Hcol; apply color_range|].
  exists (initSeed_ref true adc sim r).1. split; [done|]. split; [done|].
  split; [done|]. by rewrite Hcol'.
Qed.

(** [setup] with a working display: the state it returns in. *)
Lemma setup_shape splash adc r :
  ∃ s, setup PROTOMATTER_OK splash adc (boot r) = Some (Running s) ∧ sys_inv s ∧
    cellsUpdated s = 0 ∧ generator s = advance 2048 (randomSeed adc r) ∧
    simulation s = (initSeed_ref true adc (simulation (boot r)) r).1.
Proof.
  destruct (boot_shape r) as (Hwf1 & Hwf2 & Hcol & Hw & Hh).
  unfold setup. rewrite decide_False by done. rewrite decide_False by (by intros []).
  destruct (seed_run adc (simulation (boot r)) (generator (boot r)))
    as (sim & -> & Hsim & Hv & Hcol'); [done..|].
  cbn [mbind option_bind].
  destruct (draw_show sim (Display.show (Display.mk (Display.width (matrix (boot r)))
    (Display.height (matrix (boot r))) splash (Display.shown (matrix (boot r))))))
    as (d' & -> & Hw' & Hh' & Hlit); [done..|].
  eexists. split; [done|]. split; [by split_and!|]. by split_and!.
Qed.

Lemma setup_run splash adc r :
  ∃ s, setup PROTOMATTER_OK splash adc (boot r) = Some (Running s) ∧ sys_inv s ∧
    cellsUpdated s = 0 ∧ generator s = advance 2048 (randomSeed adc r).
Proof. destruct (setup_shape splash adc r) as (s & ? & ? & ? & ? & _). by exists s. Qed.

(** ** [loop] *)

Lemma reseed_run adc s :
  sys_inv s →
  ∃ sim r, reseed adc s = Some (sim, r) ∧ valid sim ∧
    simColor sim = Display.color565 125 76 0.
Proof.
  intros (Hv & Hcol & _). unfold reseed. case_decide; [|by eauto].
  pose proof (valid_wf _ Hv) as [Hwf1 Hwf2].
  destruct (seed_run adc (simulation s) (generator s)) as (sim & -> & _ & ? & ?); [done..|].
  by eauto.
Qed.

(** The rest of [loop] after the reseed: advance, draw, show. *)
Lemma advance_show sim d :
  valid sim → Display.width d = 64 → Display.height d = 32 →
  ∃ sim' n d',
    calcNextGen sim = Some (sim', n) ∧ drawCurGen sim' d = Some d' ∧
    valid sim' ∧ simColor sim' = simColor sim ∧ 0 ≤ n ≤ 2048 ∧
    Display.width (Display.show d') = 64 ∧ Display.height (Display.show d') = 32 ∧
    ∀ y x, 0 ≤ y < gameRows → 0 ≤ x < gameColumns →
      Display.lit (Display.show d') x y = cell_color sim' y x.
Proof.
  intros Hv Hw Hh. pose proof (valid_wf _ Hv) as [Hwf1 Hwf2].
  destruct (calcNextGen_is_Some sim) as [[sim' n] Hstep]; [done|done|by apply Hv|].
  destruct (calcNextGen_post sim sim' n Hv Hstep) as (Hv' & Hcol & Hn).
  destruct (draw_show sim' d Hv' Hw Hh) as (d' & Hdraw & Hw' & Hh' & Hlit).
  unfold gameRows, gameColumns in Hn.
  exists sim', n, d'. split_and!; try done; lia.
Qed.

(** [loop] on a state of the invariant. *)
Lemma loop_run adc s : sys_inv s → ∃ s', loop adc s = Some s' ∧ sys_inv s'.
Proof.
  intros Hinv. destruct (reseed_run adc s Hinv) as (sim & r & Hseed & Hv & Hcol).
  destruct Hinv as (_ & _ & Hw & Hh & _).
  destruct (advance_show sim (matrix s) Hv Hw Hh)
    as (sim' & n & d' & Hstep & Hdraw & Hv' & Hcol' & Hn & Hw' & Hh' & Hlit).
  unfold loop. rewrite Hseed. cbn [mbind option_bind].
  rewrite Hstep. cbn [mbind option_bind]. rewrite Hdraw. cbn [mbind option_bind].
  eexists. split; [done|]. unfold sys_inv. cbn [simulation matrix cellsUpdated].
  split_and!; try done; try lia; by etrans.
Qed.

(** ** The sketch is a client of the class

    [loop] does nothing to the simulation but call its public methods, so
    it is a sequence of calls in the sense of [Api] followed by
    [matrix.show()], and what [Api] proves of every caller holds of the
    sketch. *)
Lemma loop_invokes adc s : loop adc s = show_panel <$> invokes (loop_calls adc s) (client s).
Proof.
  unfold loop, reseed, loop_calls. case_decide; cbn [app invokes invoke client object source
    panel updates mbind option_bind].
  - destruct (initSeed true adc (simulation s) (generator s)) as [[sim r]|]; [|done].
    cbn [mbind option_bind object]. destruct (calcNextGen sim) as [[sim' n]|]; [|done].
    cbn [mbind option_bind object panel]. by destruct (drawCurGen sim' (matrix s)).
  - destruct (calcNextGen (simulation s)) as [[sim' n]|]; [|done].
    cbn [mbind option_bind object panel]. by destruct (drawCurGen sim' (matrix s)).
Qed.

(** [setup] with a working display is the splash screen followed by the
    two calls of [setup_calls]. *)
Lemma setup_invokes splash adc s :
  setup PROTOMATTER_OK splash adc s
  = (λ c, Running (show_panel c))
    <$> invokes (setup_calls adc)
          (mkClient (simulation s)
             (Display.show (Display.mk (Display.width (matrix s)) (Display.height (matrix s))
                              splash (Display.shown (matrix s))))
             (generator s) (cellsUpdated s)).
Proof.
  unfold setup, setup_calls. rewrite decide_False by done. rewrite decide_False by (by intros []).
  cbn [invokes invoke object source panel updates].
  destruct (initSeed true adc (simulation s) (generator s)) as [[sim r]|]; [|done].
  cbn [mbind option_bind object panel]. by destruct (drawCurGen sim _).
Qed.

(** So [loop] is defined exactly when the object is seeded or the counter
    makes [loop] seed it: the only way for [loop] to go wrong is a counter
    above the threshold on an object that never saw [initSeed]. *)
Lemma loop_defined adc s :
  typed (client s) →
  is_Some (loop adc s) ↔ phase (simulation s) = Seeded ∨ cellsUpdated s ≤ updateThreshold.
Proof.
  intros Hty. rewrite loop_invokes, fmap_is_Some, invokes_run by done.
  unfold loop_calls. cbn [client object].
  case_decide; destruct (phase (simulation s)); cbn; intuition (done || lia).
Qed.

(** In particular the globals as initialised are safe for [loop] without
    the seed of [setup]: the counter starts at 0. *)
Lemma loop_boot adc r : is_Some (loop adc (boot r)).
Proof.
  apply loop_defined; [|by right]. destruct (boot_shape r) as (Hwf1 & Hwf2 & Hcol & _).
  split; [|done]. split_and!; [done|done|by_compute..].
Qed.

(** C5: Every state the sketch reaches satisfies the system invariant: the
    simulation is valid and has the custom colour, the counter is at most
    2048, and the panel shows the current generation. *)
Theorem reachable_inv r s : reachable r s → sys_inv s.
Proof.
  intros (splash & adc & s0 & Hsetup & Hsteps).
  destruct (setup_run splash adc r) as (s0' & Hsetup' & Hinv & _).
  rewrite Hsetup in Hsetup'. injection Hsetup' as <-. clear Hsetup.
  induction Hsteps as [s1|s1 s2 s3 [adc' s1' s2' Hloop] _ IH]; [done|].
  apply IH. destruct (loop_run adc' s1' Hinv) as (s2'' & Hloop' & Hinv').
  rewrite Hloop in Hloop'. by injection Hloop' as <-.
Qed.

(** ** The reseed policy *)

(** What [loop] returns, in terms of its reseed. *)
Lemma loop_inv adc s s' :
  loop adc s = Some s' →
  ∃ sim r n, reseed adc s = Some (sim, r) ∧ calcNextGen sim = Some (simulation s', n) ∧
    generator s' = r ∧ cellsUpdated s' = n.
Proof.
  unfold loop. intros Hloop.
  destruct (reseed adc s) as [[sim r]|]; [|done]. cbn [mbind option_bind] in Hloop.
  destruct (calcNextGen sim) as [[sim' n]|] eqn:Hstep; [|done].
  cbn [mbind option_bind] in Hloop.
  destruct (drawCurGen sim' (matrix s)) as [d|]; [|done].
  injection Hloop as <-. by exists sim, r, n.
Qed.

(** When the last generation changed more than [updateThreshold]
    cells, [loop] advances the generation on display by one step of the
    rule and keeps the generator. *)
Lemma loop_advances adc s s' :
  sys_inv s → updateThreshold < cellsUpdated s → loop adc s = Some s' →
  Life.feq (current_field (simulation s'))
    (Life.next gameRows gameColumns (current_field (simulation s)))
  ∧ generator s' = generator s.
Proof.
  intros (Hv & _) Hover Hloop. pose proof (valid_wf _ Hv) as [Hwf1 Hwf2].
  destruct (loop_inv adc s s' Hloop) as (sim & r & n & Hseed & Hstep & Hr & _).
  unfold reseed in Hseed. rewrite decide_False in Hseed by lia.
  injection Hseed as <- <-. split; [|done].
  by apply (calcNextGen_step_field _ _ n).
Qed.

(** C28: When the last generation changed at most [updateThreshold] cells
    (35 included), [loop] throws the generation away: it takes a fresh
    random seed first, and the generation on display afterwards is one step
    from that seed. *)
Theorem loop_reseeds adc s s' :
  sys_inv s → cellsUpdated s ≤ updateThreshold → loop adc s = Some s' →
  Life.feq (current_field (simulation s'))
    (Life.next gameRows gameColumns
       (current_field (initSeed_ref true adc (simulation s) (generator s)).1))
  ∧ generator s' = advance 2048 (randomSeed adc (generator s)).
Proof.
  intros (Hv & Hcol & _) Hunder Hloop. pose proof (valid_wf _ Hv) as [Hwf1 Hwf2].
  destruct (loop_inv adc s s' Hloop) as (sim & r & n & Hseed & Hstep & Hr & _).
  unfold reseed in Hseed. rewrite decide_True in Hseed by done.
  destruct (seed_run adc (simulation s) (generator s) Hwf1 Hwf2 Hcol)
    as (sim' & Hseed' & Hsim & Hv' & _).
  rewrite Hseed' in Hseed. injection Hseed as <- <-. split; [|done].
  pose proof (valid_wf _ Hv') as [Hwf1' Hwf2']. rewrite <- Hsim.
  by apply (calcNextGen_step_field _ _ n).
Qed.

(** The seed that [setup] draws is shown but never evolved.  The
    counter is still 0 when [loop] runs for the first time, so the first
    call takes a second random seed: after it the generator has been seeded
    twice and has delivered two coins per cell. *)
Lemma first_loop_reseeds splash adc adc' r s0 s1 :
  setup PROTOMATTER_OK splash adc (boot r) = Some (Running s0) →
  loop adc' s0 = Some s1 →
  generator s1 = advance 2048 (randomSeed adc' (advance 2048 (randomSeed adc r))).
Proof.
  intros Hsetup Hloop.
  destruct (setup_run splash adc r) as (s0' & Hsetup' & (Hv & Hcol & _) & Hcount & Hgen).
  rewrite Hsetup in Hsetup'. injection Hsetup' as <-.
  pose proof (valid_wf _ Hv) as [Hwf1 Hwf2].
  destruct (loop_inv adc' s0 s1 Hloop) as (sim & r' & n & Hseed & _ & Hr & _).
  unfold reseed in Hseed. rewrite decide_True in Hseed by (rewrite Hcount; done).
  destruct (seed_run adc' (simulation s0) (generator s0) Hwf1 Hwf2 Hcol) as (sim' & Hseed' & _).
  rewrite Hseed' in Hseed. injection Hseed as _ <-. rewrite Hr, Hgen. reflexivity.
Qed.

(** C29: Stagnation is detected one call late.  When a generation changes
    at most [updateThreshold] cells into its successor, the call of [loop]
    that computes the successor still shows it, and the call after that
    throws it away and reseeds. *)
Theorem loop_detects_stagnation adc adc' s s1 s2 :
  sys_inv s → updateThreshold < cellsUpdated s →
  Life.changes gameRows gameColumns (current_field (simulation s))
    (Life.next gameRows gameColumns (current_field (simulation s))) ≤ updateThreshold →
  loop adc s = Some s1 → loop adc' s1 = Some s2 →
  Life.feq (current_field (simulation s1))
    (Life.next gameRows gameColumns (current_field (simulation s)))
  ∧ generator s2 = advance 2048 (randomSeed adc' (generator s)).
Proof.
  intros Hinv Hover Hstill Hloop1 Hloop2.
  destruct (loop_run adc s Hinv) as (s1' & Hloop1' & (Hv1 & Hcol1 & _)).
  rewrite Hloop1 in Hloop1'. injection Hloop1' as <-.
  destruct Hinv as (Hv & _). pose proof (valid_wf _ Hv) as [Hwf1 Hwf2].
  destruct (loop_inv adc s s1 Hloop1) as (sim & r & n & Hseed & Hstep & Hr & Hn).
  unfold reseed in Hseed. rewrite decide_False in Hseed by lia. injection Hseed as <- <-.
  pose proof (calcNextGen_step_field _ _ n Hwf1 Hwf2 Hstep) as Hnext.
  split; [exact Hnext|].
  pose proof (calcNextGen_changes _ _ n Hv Hstep) as Hcount.
  assert (n ≤ updateThreshold) as Hlow.
  { rewrite Hcount. etrans; [|exact Hstill]. apply Z.eq_le_incl.
    apply Life.changes_board_eq; [done|]. intros y x _ _. apply Hnext. }
  destruct (loop_inv adc' s1 s2 Hloop2) as (sim' & r' & n' & Hseed' & _ & Hr' & _).
  unfold reseed in Hseed'. rewrite decide_True in Hseed' by lia.
  pose proof (valid_wf _ Hv1) as [Hwf1' Hwf2'].
  destruct (seed_run adc' (simulation s1) (generator s1) Hwf1' Hwf2' Hcol1) as (? & Hrun & _).
  rewrite Hrun in Hseed'. injection Hseed' as _ <-. rewrite Hr', Hr. reflexivity.
Qed.

(** ** Refinement of the abstract machine *)

#[local] Abbreviation tick := (Tick.tick gameRows gameColumns updateThreshold).
#[local] Abbreviation ticks := (Tick.run gameRows gameColumns updateThreshold).
#[local] Abbreviation tick_eq := (Tick.eq gameRows gameColumns).

(** The generation of a fresh seed is the field of coins. *)
Lemma seed_abstract adc sim r :
  Life.board_eq gameRows gameColumns
    (current_field (initSeed_ref true adc sim r).1)
    (Tick.random_field gameRows gameColumns (randomSeed adc r)).
Proof.
  intros y x Hy Hx. unfold initSeed_ref, current_field, Tick.random_field. simpl.
  unfold seed_map. rewrite Grid.alive_tabulate by done.
  by rewrite (proj2 (Life.inside_true _ _ y x)).
Qed.

(** [setup] is the first seed of the abstract machine. *)
Lemma setup_seed splash adc r s :
  setup PROTOMATTER_OK splash adc (boot r) = Some (Running s) →
  tick_eq (abstraction s) (Tick.seed gameRows gameColumns adc (Tick.mk Life.empty 0 r)).
Proof.
  intros Hsetup. destruct (setup_shape splash adc r) as (s' & Hs & _ & Hn & Hr & Hsim).
  rewrite Hsetup in Hs. injection Hs as <-. unfold abstraction. rewrite Hn, Hr, Hsim.
  split; [apply seed_abstract|done].
Qed.

(** One call of [loop] is one tick. *)
Lemma loop_tick adc s s' :
  sys_inv s → loop adc s = Some s' → tick_eq (abstraction s') (tick adc (abstraction s)).
Proof.
  intros (Hv & Hcol & _) Hloop. pose proof (valid_wf _ Hv) as [Hwf1 Hwf2].
  destruct (loop_inv adc s s' Hloop) as (sim & r & n & Hseed & Hstep & Hr & Hn).
  unfold Tick.tick, abstraction, Tick.eq, reseed in *. cbn [Tick.count Tick.source Tick.gen].
  case_decide.
  - destruct (seed_run adc (simulation s) (generator s) Hwf1 Hwf2 Hcol)
      as (sim' & Hseed' & Hsim & Hv' & _).
    rewrite Hseed' in Hseed. apply (inj Some), pair_equal_spec in Hseed as [<- Hr'].
    destruct (calcNextGen_abstract sim' (simulation s') n _ Hv'
                ltac:(rewrite Hsim; apply seed_abstract) Hstep) as [Hg Hc].
    split; [intros y x _ _; apply Hg|]. split; [by rewrite Hn|].
    rewrite Hr, <- Hr'. reflexivity.
  - apply (inj Some), pair_equal_spec in Hseed as [<- <-].
    destruct (calcNextGen_abstract (simulation s) (simulation s') n _ Hv
                ltac:(by intros y x _ _) Hstep) as [Hg Hc].
    split; [intros y x _ _; apply Hg|]. split; [by rewrite Hn|done].
Qed.

(** A sequence of calls of [loop] is the same sequence of ticks. *)
Lemma run_ticks adcs s :
  sys_inv s →
  ∃ s', run adcs s = Some s' ∧ sys_inv s' ∧
    tick_eq (abstraction s') (ticks adcs (abstraction s)).
Proof.
  revert s. induction adcs as [|adc adcs IH]; intros s Hinv; [by exists s|].
  destruct (loop_run adc s Hinv) as (s1 & Hloop & Hinv1).
  destruct (IH s1 Hinv1) as (s' & Hrun & Hinv' & Heq).
  exists s'. cbn [run]. rewrite Hloop. split; [done|]. split; [done|].
  rewrite Tick.run_cons.
  eapply (@Equivalence_Transitive _ _ (Tick.eq_equivalence gameRows gameColumns));
    [exact Heq|].
  apply Tick.run_proper. by apply loop_tick.
Qed.

(** C6: The running sketch simulates the abstract machine.  For every
    sequence of analog readings the calls of [loop] are all defined, keep
    the invariant, and end in the state the abstract machine reaches by
    the same number of ticks. *)
Theorem run_refines_ticks adcs s :
  sys_inv s →
  ∃ s', run adcs s = Some s' ∧ sys_inv s' ∧
    tick_eq (abstraction s') (ticks adcs (abstraction s)).
Proof. apply run_ticks. Qed.

End sketch.

(** ** Instances of the theorems on a concrete sketch

    The generator is the linear congruential [lcg_source] started at 0;
    the analog readings are 7 and 9 and the splash canvas is empty. *)

Section instances.
#[local] Existing Instance lcg_source.

(** A running state with [demo_sim], the panel showing it, and a count
    above the threshold. *)
Lemma demo_state :
  ∃ s : System (R := Z), sys_inv s ∧ simulation s = demo_sim ∧ cellsUpdated s = 100.
Proof.
  destruct (draw_show demo_sim (Display.blank 64 32)) as (d & _ & Hw & Hh & Hlit);
    [by_compute|done|done|].
  exists (mkSystem demo_sim (Display.show d) 0 100).
  split; [|done]. unfold sys_inv. cbn [simulation matrix cellsUpdated].
  split_and!; [by_compute|done|done|done|lia|lia|done].
Qed.

Lemma setup_hangs_witness :
  setup PROTOMATTER_ERR_MALLOC ∅ 7 (boot 0) = Some (Hung MSG_INIT).
Proof. apply (setup_hangs PROTOMATTER_ERR_MALLOC ∅ 7 (boot 0)). done. Defined.

Lemma reachable_inv_witness :
  ∃ s s' : System, setup PROTOMATTER_OK ∅ 7 (boot 0) = Some (Running s) ∧
    loop 9 s = Some s' ∧ sys_inv s'.
Proof.
  destruct (setup_run ∅ 7 0) as (s & Hsetup & Hinv & _).
  destruct (loop_run 9 s Hinv) as (s' & Hloop & _).
  exists s, s'. split; [exact Hsetup|]. split; [exact Hloop|].
  apply (reachable_inv 0 s'). exists ∅, 7, s. split; [exact Hsetup|].
  apply rtc_once. exact (step_loop 9 s s' Hloop).
Defined.

Lemma loop_advances_witness :
  ∃ s s' : System, simulation s = demo_sim ∧ cellsUpdated s = 100 ∧ loop 9 s = Some s' ∧
    Life.feq (current_field (simulation s'))
      (Life.next gameRows gameColumns (current_field (simulation s)))
    ∧ generator s' = generator s.
Proof.
  destruct demo_state as (s & Hinv & Hsim & Hcount).
  destruct (loop_run 9 s Hinv) as (s' & Hloop & _).
  exists s, s'. split; [exact Hsim|]. split; [exact Hcount|]. split; [exact Hloop|].
  apply (loop_advances 9 s s' Hinv); [rewrite Hcount; reflexivity|exact Hloop].
Defined.

Lemma loop_reseeds_witness :
  ∃ s s' : System, setup PROTOMATTER_OK ∅ 7 (boot 0) = Some (Running s) ∧
    loop 9 s = Some s' ∧
    Life.feq (current_field (simulation s'))
      (Life.next gameRows gameColumns
         (current_field (initSeed_ref true 9 (simulation s) (generator s)).1))
    ∧ generator s' = advance 2048 (randomSeed 9 (generator s)).
Proof.
  destruct (setup_run ∅ 7 0) as (s & Hsetup & Hinv & Hcount & _).
  destruct (loop_run 9 s Hinv) as (s' & Hloop & _).
  exists s, s'. split; [exact Hsetup|]. split; [exact Hloop|].
  apply (loop_reseeds 9 s s' Hinv); [rewrite Hcount; discriminate|exact Hloop].
Defined.

Lemma loop_detects_stagnation_witness :
  ∃ s s1 s2 : System, simulation s = demo_sim ∧ cellsUpdated s = 100 ∧
    loop 9 s = Some s1 ∧ loop 11 s1 = Some s2 ∧
    Life.feq (current_field (simulation s1))
      (Life.next gameRows gameColumns (current_field (simulation s)))
    ∧ generator s2 = advance 2048 (randomSeed 11 (generator s)).
Proof.
  destruct demo_state as (s & Hinv & Hsim & Hcount).
  destruct (loop_run 9 s Hinv) as (s1 & Hloop1 & Hinv1).
  destruct (loop_run 11 s1 Hinv1) as (s2 & Hloop2 & _).
  exists s, s1, s2. split; [exact Hsim|]. split; [exact Hcount|].
  split; [exact Hloop1|]. split; [exact Hloop2|].
  apply (loop_detects_stagnation 9 11 s s1 s2 Hinv);
    [rewrite Hcount; reflexivity|rewrite Hsim; by_compute|exact Hloop1|exact Hloop2].
Defined.

Lemma run_refines_ticks_witness :
  ∃ s s' : System, simulation s = demo_sim ∧ run [9; 11; 13] s = Some s' ∧ sys_inv s' ∧
    Tick.eq gameRows gameColumns (abstraction s')
      (Tick.run gameRows gameColumns updateThreshold [9; 11; 13] (abstraction s)).
Proof.
  destruct demo_state as (s & Hinv & Hsim & _).
  destruct (run_refines_ticks [9; 11; 13] s Hinv) as (s' & Hrun & Hinv' & Heq).
  exists s, s'. split; [exact Hsim|]. split; [exact Hrun|]. split; [exact Hinv'|exact Heq].
Defined.

End instances.
