(* ===== verification/Stagnation.v ===== *)
(** * Stagnation: what the reseed policy sees and what it misses

    [loop] decides whether to start over by one number, the count of cells
    the last generation changed.  [Main] shows what the policy does in one
    call.  This file is about whole runs: as long as every generation
    changes more than [updateThreshold] cells the sketch never takes a
    seed, whatever the generations are.  In particular a generation that
    comes back after [p] steps, each of which changes more than 35 cells,
    is shown for ever: the sketch cycles through its [p] phases and the
    generator is never touched again.  Nine blinkers, which change 36
    cells per step, are such a generation.

    Such a state is not only possible but reachable.  Every generation is
    a possible seed: the scripted source that holds its cells in the order
    of the seeding loops makes [initSeed] deliver it ([script_of]).  So for
    every generation that oscillates there is a sequence of coins with
    which the sketch, from power-up, shows its phases for ever
    ([stall_from_setup]).

    And there is nothing else the sketch can do.  The board is finite, so
    every sequence of generations ends in a cycle ([Orbit]); hence from
    every state either some call of [loop] takes a new seed, or none ever
    does and the panel ends in a cycle of generations each of which
    changes more than [updateThreshold] cells ([run_settles]). *)

From Stdlib Require Import ZArith Lia.
From stdpp Require Import list list_numbers option gmap.
From S2P Require Import Prelude.
From S2P Require Import Grid.
From S2P Require Import Boards.
From S2P Require Import Life.
From S2P Require Import Orbit.
From S2P Require Import Patterns.
From S2P Require Import Random.
From S2P Require Import Tick.
From S2P Require Import Display.
From S2P Require Import Object.
From S2P Require Import Engine.
From S2P Require Import Seed.
From S2P Require Import Render.
From S2P Require Import Main.

#[local] Open Scope Z_scope.

(** Nine lying blinkers, far enough apart not to touch. *)
Definition nine_blinkers : list (Z * Z) :=
  y ← [5; 15; 25]; x ← [10; 30; 50]; Patterns.blinker_h y x.

(** A simulation object of the sketch's colour that holds them. *)
Definition lively_sim : ConwaysGame :=
  set_simColor (Display.color565 125 76 0) (seeded (Boards.of_cells nine_blinkers)).

(** A generation the reseed policy cannot tell from a lively one: it comes
    back after [p] steps, and each of them changes more than
    [updateThreshold] cells. *)
Definition oscillates (p : nat) (f : Life.field) : Prop :=
  (0 < p)%nat ∧
  Life.board_eq gameRows gameColumns (Life.iterate gameRows gameColumns p f) f ∧
  ∀ k, (k < p)%nat →
    updateThreshold < Life.changes gameRows gameColumns (Life.iterate gameRows gameColumns k f)
                        (Life.iterate gameRows gameColumns (S k) f).

(** The coins that seed the generation [f]: the cells of the board in the
    order of the seeding loops, row by row, a 1 for a live cell. *)
Definition script_of (f : Life.field) : script :=
  (λ k, of_bool (f (k `div` gameColumns) (k `mod` gameColumns)))
    <$> seqZ 0 (gameRows * gameColumns).

#[local] Abbreviation next := (Life.next gameRows gameColumns).
#[local] Abbreviation iterate := (Life.iterate gameRows gameColumns).
#[local] Abbreviation changes := (Life.changes gameRows gameColumns).
#[local] Abbreviation board_eq := (Life.board_eq gameRows gameColumns).
#[local] Abbreviation random_field := (Tick.random_field gameRows gameColumns).
#[local] Abbreviation tick := (Tick.tick gameRows gameColumns updateThreshold).
#[local] Abbreviation ticks := (Tick.run gameRows gameColumns updateThreshold).
#[local] Abbreviation tick_eq := (Tick.eq gameRows gameColumns).

(** ** Generations that oscillate *)

(** The steps of a periodic generation change as many cells as the steps
    of its phases. *)
Lemma changes_period p f k :
  board_eq (iterate p f) f →
  changes (iterate k f) (iterate (S k) f)
  = changes (iterate (k `mod` p) f) (iterate (S (k `mod` p)) f).
Proof.
  intros Hp. pose proof (Life.iterate_period gameRows gameColumns p f k Hp) as Hk.
  apply Life.changes_board_eq; [done|].
  change (board_eq (next (iterate k f)) (next (iterate (k `mod` p) f))).
  intros y x _ _. by apply Life.next_board_eq.
Qed.

(** Whether a generation oscillates only depends on its cells on the
    board. *)
#[export] Instance oscillates_proper p : Proper (board_eq ==> iff) (oscillates p).
Proof.
  assert (∀ f g, board_eq f g → oscillates p f → oscillates p g) as Himp.
  { intros f g Hfg (Hpos & Hp & Hk).
    pose proof (λ n, Life.iterate_proper gameRows gameColumns n f g Hfg) as Hn.
    split_and!; [done|by rewrite <- (Hn p), Hp|].
    intros k Hlt. rewrite <- (Life.changes_proper _ _ _ _ (Hn k) _ _ (Hn (S k))). by apply Hk. }
  intros f g Hfg. split; apply Himp; [done|by symmetry].
Qed.

(** So every step of it changes more than [updateThreshold] cells. *)
Lemma oscillates_lively p f k :
  oscillates p f → updateThreshold < changes (iterate k f) (iterate (S k) f).
Proof.
  intros (Hpos & Hp & Hk). rewrite (changes_period p) by done.
  apply Hk, Nat.mod_upper_bound. lia.
Qed.

(** A cycle whose steps are all lively is a generation that oscillates,
    from where the cycle starts. *)
Lemma cycle_oscillates t p f :
  Orbit.cycle gameRows gameColumns t p f →
  (∀ n, Orbit.lively gameRows gameColumns updateThreshold n f) →
  oscillates p (iterate t f).
Proof.
  intros [Hp Hc] Hl. split_and!; [done| |].
  - by rewrite <- Life.iterate_add, Nat.add_comm.
  - intros k _. rewrite <- !(Life.iterate_add _ _ (S k)), <- Life.iterate_add.
    apply (Hl (S (k + t)) (k + t)%nat). lia.
Qed.

(** ** Every generation is a possible seed *)

Lemma script_of_length f : length (script_of f) = 2048%nat.
Proof. unfold script_of. by rewrite length_fmap, length_seqZ. Qed.

(** Coin number [y * gameColumns + x] of the script is the cell [(y, x)]. *)
Lemma script_of_coin f rest y x :
  0 ≤ y < gameRows → 0 ≤ x < gameColumns →
  coin (script_of f ++ rest) (Z.to_nat (y * gameColumns + x)) = of_bool (f y x).
Proof.
  intros Hy Hx. unfold gameRows, gameColumns in Hy, Hx.
  rewrite script_coin, lookup_app_l by (rewrite script_of_length; unfold gameColumns; lia).
  unfold script_of.
  rewrite list_lookup_fmap, lookup_seqZ_lt by (unfold gameRows, gameColumns; lia).
  cbn [fmap option_fmap option_map default].
  rewrite Z2Nat.id, Z.add_0_l by (unfold gameColumns; lia).
  unfold gameColumns. rewrite Z.div_add_l, Z.div_small, Z.add_0_r by lia.
  rewrite (Z.add_comm _ x), Z.mod_add, (Z.mod_small x 64) by lia. by destruct (f y x).
Qed.

(** The field of coins of the script is [f], and the coins left after a
    seed are the rest of the script. *)
Lemma random_field_script f rest : board_eq (random_field (script_of f ++ rest)) f.
Proof.
  intros y x Hy Hx. unfold Tick.random_field.
  rewrite (proj2 (Life.inside_true _ _ y x)), script_of_coin by done.
  by destruct (f y x).
Qed.

Lemma script_of_advance f rest : advance 2048 (script_of f ++ rest) = rest.
Proof. rewrite script_advance. apply drop_app_length'. by rewrite script_of_length. Qed.

(** A tick that takes its seed from the script of [f] makes one step
    from [f]. *)
Lemma tick_script adc f rest (t : Tick.t (R := script)) :
  Tick.count t ≤ updateThreshold → Tick.source t = script_of f ++ rest →
  tick_eq (tick adc t) (Tick.mk (next f) (changes f (next f)) rest).
Proof.
  intros Hc Hr. unfold Tick.tick. rewrite decide_True by done.
  unfold Tick.step, Tick.seed, Tick.eq.
  cbn [Tick.gen Tick.count Tick.source randomSeed script_source].
  rewrite Hr. pose proof (random_field_script f rest) as Hf.
  pose proof (Life.next_board_eq gameRows gameColumns _ _ Hf) as Hn.
  split_and!; [intros y x _ _; apply Hn| |apply script_of_advance].
  apply Life.changes_board_eq; [done|]. intros y x _ _. apply Hn.
Qed.

Section runs.
Context `{RandomSource R}.
Implicit Types (s : System (R := R)) (adcs : list Z) (p k : nat).

#[local] Abbreviation field := (λ s : System (R := R), current_field (simulation s)).

(** As long as every generation changes more than [updateThreshold]
    cells, the calls of [loop] are steps of the rule and take no seed. *)
Lemma loops_lively adcs s :
  sys_inv s → updateThreshold < cellsUpdated s →
  (∀ k, (k < length adcs)%nat →
     updateThreshold < changes (iterate k (field s)) (iterate (S k) (field s))) →
  ∃ s', run adcs s = Some s' ∧ sys_inv s' ∧
    updateThreshold < cellsUpdated s' ∧ generator s' = generator s ∧
    board_eq (field s') (iterate (length adcs) (field s)).
Proof.
  intros Hinv Hc Hk. destruct (run_ticks adcs s Hinv) as (s' & Hrun & Hinv' & Hg & Hn & Hr).
  destruct (Tick.run_lively gameRows gameColumns updateThreshold adcs (abstraction s) Hc Hk)
    as (Hc' & Hs' & Hg').
  exists s'. split_and!; [done..| | |].
  - change (updateThreshold < Tick.count (abstraction s')). by rewrite Hn.
  - change (Tick.source (abstraction s') = Tick.source (abstraction s)). by rewrite Hr.
  - intros y x Hy Hx. change (Tick.gen (abstraction s') y x = iterate (length adcs) (field s) y x).
    by rewrite (Hg y x Hy Hx), Hg'.
Qed.

(** C20: The policy is blind to oscillation.  From a state of the
    invariant whose generation comes back after [p] steps that each change
    more than [updateThreshold] cells, every sequence of calls of [loop] is
    defined and none of them takes a seed: the generator is untouched, the
    counter stays above the threshold, and the generation on display is
    the phase [n mod p] of the first one after [n] calls. *)
Theorem run_oscillates p adcs s :
  sys_inv s → updateThreshold < cellsUpdated s → oscillates p (field s) →
  ∃ s', run adcs s = Some s' ∧ sys_inv s' ∧
    updateThreshold < cellsUpdated s' ∧ generator s' = generator s ∧
    board_eq (field s') (iterate (length adcs `mod` p) (field s)).
Proof.
  intros Hinv Hc Hosc.
  destruct (loops_lively adcs s Hinv Hc) as (s' & Hrun & Hinv' & Hc' & Hr & Hg).
  { intros k _. by apply (oscillates_lively p). }
  exists s'. split_and!; [done..|]. etrans; [exact Hg|].
  apply Life.iterate_period, Hosc.
Qed.

(** When the first [k] steps are lively and step [k] is not, the call of
    [loop] that makes step [k] still shows its generation, with a counter
    at or below the threshold, and the call after it takes a seed. *)
Lemma loops_stagnate adcs adc adc' s :
  sys_inv s → updateThreshold < cellsUpdated s →
  Orbit.lively gameRows gameColumns updateThreshold (length adcs) (field s) →
  Orbit.activity gameRows gameColumns (field s) (length adcs) ≤ updateThreshold →
  ∃ s1 s2, run (adcs ++ [adc]) s = Some s1 ∧ loop adc' s1 = Some s2 ∧
    generator s1 = generator s ∧ cellsUpdated s1 ≤ updateThreshold ∧
    board_eq (field s1) (iterate (S (length adcs)) (field s)) ∧
    generator s2 = advance 2048 (randomSeed adc' (generator s)).
Proof.
  intros Hinv Hc Hl Hk.
  destruct (run_ticks (adcs ++ [adc]) s Hinv) as (s1 & Hrun & Hinv1 & Hg & Hn & Hr).
  destruct (Tick.run_steps gameRows gameColumns updateThreshold adcs adc (abstraction s) Hc Hl)
    as (Hs' & Hg' & Hc').
  destruct (loop_run adc' s1 Hinv1) as (s2 & Hloop & _).
  destruct (loop_tick adc' s1 s2 Hinv1 Hloop) as (_ & _ & Hr2).
  assert (generator s1 = generator s) as Hgen by exact (eq_trans Hr Hs').
  assert (cellsUpdated s1 ≤ updateThreshold) as Hlow.
  { change (Tick.count (abstraction s1) ≤ updateThreshold). by rewrite (eq_trans Hn Hc'). }
  exists s1, s2. split_and!; [exact Hrun|exact Hloop|exact Hgen|exact Hlow| |].
  - intros y x Hy Hx. etrans; [exact (Hg y x Hy Hx)|]. by rewrite Hg'.
  - etrans; [exact Hr2|]. unfold Tick.tick. rewrite decide_True by exact Hlow.
    cbn [Tick.step Tick.seed Tick.source abstraction]. by rewrite Hgen.
Qed.

(** C22: Every run settles.  From a state of the invariant with a counter
    above the threshold the sketch has two futures and no third.  Either
    there is a number [k] such that the first [k + 1] calls of [loop]
    show the next [k + 1] generations and leave the generator alone, the
    last of them with a counter at or below the threshold, and call
    [k + 2] takes a new seed.  Or no call ever takes a seed: the panel
    shows generation after generation, the counter stays above the
    threshold, and from some generation [t] on the generations repeat with
    a period [p].  Which of the two happens depends on the generation
    alone, not on the analog readings. *)
Theorem run_settles s :
  sys_inv s → updateThreshold < cellsUpdated s →
  (∃ k, ∀ adcs adc adc', length adcs = k →
     ∃ s1 s2, run (adcs ++ [adc]) s = Some s1 ∧ loop adc' s1 = Some s2 ∧
       generator s1 = generator s ∧ cellsUpdated s1 ≤ updateThreshold ∧
       board_eq (field s1) (iterate (S k) (field s)) ∧
       generator s2 = advance 2048 (randomSeed adc' (generator s)))
  ∨ (∃ t p, oscillates p (iterate t (field s)) ∧
       ∀ adcs, ∃ s', run adcs s = Some s' ∧ sys_inv s' ∧
         updateThreshold < cellsUpdated s' ∧ generator s' = generator s ∧
         board_eq (field s') (iterate (length adcs) (field s))).
Proof.
  intros Hinv Hc.
  destruct (Orbit.settles gameRows gameColumns updateThreshold (field s))
    as [(k & Hl & Hk)|(t & p & Hcyc & Hl)].
  - left. exists k. intros adcs adc adc' <-. by apply loops_stagnate.
  - right. exists t, p. split; [by apply cycle_oscillates|].
    intros adcs. apply loops_lively; [done..|]. apply Hl.
Qed.

End runs.

(** ** From power-up *)

Section scripted.
Implicit Types (adcs : list Z) (junk rest : script) (p : nat).

(** The ticks that start with a seed from the script of a generation
    that oscillates: the seed is the last one. *)
Lemma ticks_script p f rest adc adcs (t : Tick.t (R := script)) :
  Tick.count t ≤ updateThreshold → Tick.source t = script_of f ++ rest → oscillates p f →
  ∃ t', tick_eq (ticks (adc :: adcs) t) t' ∧ updateThreshold < Tick.count t' ∧
    Tick.source t' = rest ∧ Tick.gen t' = iterate (S (length adcs)) f.
Proof.
  intros Hc Hr Hosc. set (t1 := Tick.mk (next f) (changes f (next f)) rest).
  destruct (Tick.run_lively gameRows gameColumns updateThreshold adcs t1) as (Hc' & Hr' & Hg').
  - apply (oscillates_lively p f 0 Hosc).
  - intros k _. unfold t1. cbn [Tick.gen]. rewrite <- !Life.iterate_next.
    apply (oscillates_lively p f (S k) Hosc).
  - exists (ticks adcs t1). split_and!; [|done|done|by rewrite Hg', Life.iterate_next].
    rewrite Tick.run_cons. apply Tick.run_proper. by apply tick_script.
Qed.

(** The calls of [loop] that start with a seed from the script of a
    generation that oscillates. *)
Lemma runs_script p f rest adc adcs (s0 : System (R := script)) :
  sys_inv s0 → cellsUpdated s0 ≤ updateThreshold → generator s0 = script_of f ++ rest →
  oscillates p f →
  ∃ s, run (adc :: adcs) s0 = Some s ∧ sys_inv s ∧
    updateThreshold < cellsUpdated s ∧ generator s = rest ∧
    board_eq (current_field (simulation s)) (iterate (S (length adcs) `mod` p) f).
Proof.
  intros Hinv Hcount Hgen Hosc.
  destruct (run_ticks (adc :: adcs) s0 Hinv) as (s & Hrun & Hinv' & Hg & Hn & Hr).
  destruct (ticks_script p f rest adc adcs (abstraction s0) Hcount Hgen Hosc)
    as (t' & (Hg' & Hn' & Hr') & Hc' & Hs' & Hf').
  exists s. split_and!; [exact Hrun|exact Hinv'| | |].
  - change (updateThreshold < Tick.count (abstraction s)). by rewrite (eq_trans Hn Hn').
  - change (Tick.source (abstraction s) = rest). by rewrite (eq_trans Hr Hr').
  - intros y x Hy Hx. etrans; [exact (eq_trans (Hg y x Hy Hx) (Hg' y x Hy Hx))|].
    rewrite Hf'. by apply Life.iterate_period; [apply Hosc|..].
Qed.

(** The generator after [setup] has the script of [f] next. *)
Lemma setup_script f junk rest splash adc :
  length junk = 2048%nat →
  ∃ s0, setup PROTOMATTER_OK splash adc (boot (junk ++ script_of f ++ rest)) = Some (Running s0) ∧
    sys_inv s0 ∧ cellsUpdated s0 = 0 ∧ generator s0 = script_of f ++ rest.
Proof.
  intros Hjunk.
  destruct (setup_run splash adc (junk ++ script_of f ++ rest))
    as (s0 & Hsetup & Hinv & Hcount & Hgen).
  exists s0. split_and!; [exact Hsetup|exact Hinv|exact Hcount|].
  rewrite Hgen. cbn [randomSeed script_source]. rewrite script_advance.
  by apply drop_app_length'.
Qed.

(** C21: The stall is reachable.  With a generator that delivers any 2048
    coins for the seed of [setup] and then the cells of a generation [f]
    that oscillates, the sketch started from power-up takes [f] as its
    seed in the first call of [loop], and from then on every call shows
    the next phase of [f]: after [n + 1] calls the panel holds the phase
    [(n + 1) mod p], the counter is above the threshold and the generator
    has delivered 4096 coins and no more.  No later call takes a seed,
    however long the sketch runs. *)
Theorem stall_from_setup p f junk rest splash adc adc' adcs :
  length junk = 2048%nat → oscillates p f →
  ∃ s0 s,
    setup PROTOMATTER_OK splash adc (boot (junk ++ script_of f ++ rest)) = Some (Running s0) ∧
    run (adc' :: adcs) s0 = Some s ∧ sys_inv s ∧
    updateThreshold < cellsUpdated s ∧ generator s = rest ∧
    board_eq (current_field (simulation s)) (iterate (S (length adcs) `mod` p) f).
Proof.
  intros Hjunk Hosc.
  destruct (setup_script f junk rest splash adc Hjunk) as (s0 & Hsetup & Hinv & Hcount & Hgen).
  assert (cellsUpdated s0 ≤ updateThreshold) as Hlow by (by rewrite Hcount).
  destruct (runs_script p f rest adc' adcs s0 Hinv Hlow Hgen Hosc) as (s & Hrun).
  by exists s0, s.
Qed.

End scripted.

(** ** Nine blinkers *)

Section instances.
#[local] Existing Instance lcg_source.

(** A running state with the nine blinkers on the panel. *)
Lemma lively_state :
  ∃ s : System (R := Z), sys_inv s ∧ simulation s = lively_sim ∧ cellsUpdated s = 36
    ∧ generator s = 0.
Proof.
  destruct (draw_show lively_sim (Display.blank 64 32)) as (d & _ & Hw & Hh & Hlit);
    [by_compute|done|done|].
  exists (mkSystem lively_sim (Display.show d) 0 36).
  split; [|done]. unfold sys_inv. cbn [simulation matrix cellsUpdated].
  split_and!; [by_compute|done|done|done|lia|lia|done].
Qed.

(** The nine blinkers have period two and change 36 cells per step. *)
Lemma lively_sim_oscillates : oscillates 2 (current_field lively_sim).
Proof.
  split_and!; [lia|by_compute|]. intros k Hk.
  destruct k as [|[|k]]; [by_compute..|lia].
Qed.

Lemma nine_blinkers_oscillate : oscillates 2 (Patterns.cells nine_blinkers).
Proof.
  refine (proj1 (oscillates_proper 2 _ _ _) lively_sim_oscillates).
  intros y x Hy Hx. by apply Boards.alive_of_cells.
Qed.

Lemma run_oscillates_witness :
  ∃ s s' : System (R := Z), simulation s = lively_sim ∧
    run [9; 11; 13] s = Some s' ∧ sys_inv s' ∧
    updateThreshold < cellsUpdated s' ∧ generator s' = generator s ∧
    Life.board_eq gameRows gameColumns (current_field (simulation s'))
      (Life.iterate gameRows gameColumns 1 (current_field (simulation s))).
Proof.
  destruct lively_state as (s & Hinv & Hsim & Hcount & _).
  destruct (run_oscillates 2 [9; 11; 13] s Hinv) as (s' & Hrun);
    [rewrite Hcount; reflexivity|rewrite Hsim; apply lively_sim_oscillates|].
  exists s, s'. split; [exact Hsim|exact Hrun].
Defined.

Lemma run_settles_witness :
  ∃ s : System (R := Z), simulation s = lively_sim ∧ cellsUpdated s = 36 ∧
    ((∃ k, ∀ adcs adc adc', length adcs = k →
        ∃ s1 s2, run (adcs ++ [adc]) s = Some s1 ∧ loop adc' s1 = Some s2 ∧
          generator s1 = generator s ∧ cellsUpdated s1 ≤ updateThreshold ∧
          Life.board_eq gameRows gameColumns (current_field (simulation s1))
            (Life.iterate gameRows gameColumns (S k) (current_field (simulation s))) ∧
          generator s2 = advance 2048 (randomSeed adc' (generator s)))
     ∨ (∃ t p, oscillates p
                 (Life.iterate gameRows gameColumns t (current_field (simulation s))) ∧
          ∀ adcs, ∃ s', run adcs s = Some s' ∧ sys_inv s' ∧
            updateThreshold < cellsUpdated s' ∧ generator s' = generator s ∧
            Life.board_eq gameRows gameColumns (current_field (simulation s'))
              (Life.iterate gameRows gameColumns (length adcs)
                 (current_field (simulation s))))).
Proof.
  destruct lively_state as (s & Hinv & Hsim & Hcount & _).
  exists s. split; [exact Hsim|]. split; [exact Hcount|].
  apply (run_settles s Hinv). rewrite Hcount. reflexivity.
Defined.

Lemma stall_from_setup_witness :
  ∃ s0 s : System (R := script),
    setup PROTOMATTER_OK ∅ 7
      (boot (replicate 2048 0 ++ script_of (Patterns.cells nine_blinkers) ++ []))
    = Some (Running s0) ∧
    run [9; 11; 13] s0 = Some s ∧ sys_inv s ∧
    updateThreshold < cellsUpdated s ∧ generator s = [] ∧
    Life.board_eq gameRows gameColumns (current_field (simulation s))
      (Life.iterate gameRows gameColumns 1 (Patterns.cells nine_blinkers)).
Proof.
  apply (stall_from_setup 2 (Patterns.cells nine_blinkers) (replicate 2048 0) [] ∅ 7 9 [11; 13]);
    [by_compute|exact nine_blinkers_oscillate].
Defined.

End instances.
