(* ===== verification/Hardware.v ===== *)
(** * Hardware: the board around the sketch

    [main.cpp] talks to the outside through the Arduino core and the
    display driver: the serial port, the pin configuration, the analog
    input that seeds the generator, the panel, and the clock that [delay]
    waits on.  This file holds the wiring of the sketch (the pin tables and
    the arguments of the [Adafruit_Protomatter] constructor), the calls as
    an event signature [sketchE] for interaction trees, and a model of the
    devices behind them: the state [World] and the handler [handle], which
    answers each event and records what the sketch did (the text printed,
    the frames shown, the time waited).

    The devices are libraries and hardware the sources only call; [World]
    and [handle] are modelled from their documented behaviour.  What the
    model cannot know is an input: the status of [begin], the canvas after
    the title was printed, and the analog readings.

    The theorems: the wiring uses each pin once and leaves the analog pin
    free, the panel configured is exactly the board of the simulation, and
    the handler only ever moves the clock forward. *)

From Stdlib Require Import ZArith Lia String.
From stdpp Require Import list list_numbers option gmap.
From ITree Require Import ITree.
From S2P Require Import Prelude.
From S2P Require Import Grid.
From S2P Require Import Display.
From S2P Require Import Main.

#[local] Open Scope Z_scope.

(** ** The wiring *)

Definition bit_depth : Z := 4.
Definition double_buffered : bool := true.

Definition rgbPins : list Z := [0; 1; 2; 3; 4; 5].
Definition addrPins : list Z := [6; 7; 8; 9].
Definition clockPin : Z := 11.
Definition latchPin : Z := 12.
Definition oePin : Z := 13.
Definition powerButton : Z := 14.
Definition modeButton : Z := 15.

(** The arguments of the constructor of the display object. *)
Record MatrixConfig : Type := mkConfig {
  bitWidth : Z;
  bitDepth : Z;
  rgbCount : Z;
  rgbList : list Z;
  addrCount : Z;
  addrList : list Z;
  clock_pin : Z;
  latch_pin : Z;
  oe_pin : Z;
  doubleBuffer : bool;
}.

(** [Adafruit_Protomatter matrix(...)]. *)
Definition matrix_config : MatrixConfig :=
  mkConfig matrix_chain_width bit_depth 1 rgbPins address_lines_num addrPins
    clockPin latchPin oePin double_buffered.

(** Every pin the sketch drives or configures. *)
Definition pins_used (c : MatrixConfig) : list Z :=
  rgbList c ++ addrList c ++ [clock_pin c; latch_pin c; oe_pin c; powerButton; modeButton].

(** ** The calls *)

(** The pin modes of the Arduino core. *)
Inductive PinMode : Type :=
  | INPUT
  | OUTPUT
  | INPUT_PULLUP.

#[export] Instance PinMode_eq_dec : EqDecision PinMode.
Proof. solve_decision. Defined.

(** The value of a status when it is printed as an [int]. *)
Definition status_code (status : ProtomatterStatus) : Z :=
  match status with
  | PROTOMATTER_OK => 0
  | PROTOMATTER_ERR_PINS => 1
  | PROTOMATTER_ERR_MALLOC => 2
  | PROTOMATTER_ERR_ARG => 3
  end.

(** What goes out on the serial port. *)
Inductive SerialOut : Type :=
  | Print (text : string)
  | Println (text : string)
  | PrintlnInt (n : Z).

(** The calls of the sketch into the Arduino core and the display driver.
    The index is the type of the answer. *)
Variant sketchE : Type → Type :=
  | Millis : sketchE Z
  | SerialBegin (baud : Z) : sketchE unit
  | SetPinMode (pin : Z) (mode : PinMode) : sketchE unit
  | MatrixBegin : sketchE ProtomatterStatus
  | SerialPrint (out : SerialOut) : sketchE unit
  | SetTextSize (size : Z) : sketchE unit
  | MatrixPrintln (text : string) (canvas : gmap (Z * Z) Z) : sketchE (gmap (Z * Z) Z)
  | MatrixShow (frame : gmap (Z * Z) Z) : sketchE unit
  | Delay (ms : Z) : sketchE unit
  | AnalogRead (pin : Z) : sketchE Z.

(** ** The devices *)

(** The state of the devices.  The first three fields are what the
    hardware will answer; the others record what the sketch did, the most
    recent entry first. *)
Record World : Type := mkWorld {
  status : ProtomatterStatus;
  splash : gmap (Z * Z) Z;
  analog : list Z;
  baud : option Z;
  modes : gmap Z PinMode;
  textSize : Z;
  serial : list SerialOut;
  frames : list (gmap (Z * Z) Z);
  clock : Z;
}.

(** A board just powered up, with the answers it will give. *)
Definition power_on (st : ProtomatterStatus) (title : gmap (Z * Z) Z) (adcs : list Z) : World :=
  mkWorld st title adcs None ∅ 1 [] [] 0.

(** The next analog reading; an exhausted input reads 0. *)
Definition next_adc (w : World) : Z := default 0 (head (analog w)).

(** What the calls do to the devices. *)
Definition set_baud (b : Z) (w : World) : World :=
  mkWorld (status w) (splash w) (analog w) (Some b) (modes w) (textSize w) (serial w)
    (frames w) (clock w).

Definition set_mode (pin : Z) (mode : PinMode) (w : World) : World :=
  mkWorld (status w) (splash w) (analog w) (baud w) (<[pin := mode]> (modes w)) (textSize w)
    (serial w) (frames w) (clock w).

Definition set_textSize (size : Z) (w : World) : World :=
  mkWorld (status w) (splash w) (analog w) (baud w) (modes w) size (serial w) (frames w)
    (clock w).

Definition print (out : SerialOut) (w : World) : World :=
  mkWorld (status w) (splash w) (analog w) (baud w) (modes w) (textSize w) (out :: serial w)
    (frames w) (clock w).

Definition push_frame (frame : gmap (Z * Z) Z) (w : World) : World :=
  mkWorld (status w) (splash w) (analog w) (baud w) (modes w) (textSize w) (serial w)
    (frame :: frames w) (clock w).

Definition wait (ms : Z) (w : World) : World :=
  mkWorld (status w) (splash w) (analog w) (baud w) (modes w) (textSize w) (serial w)
    (frames w) (clock w + uint32_t ms).

Definition read (w : World) : World :=
  mkWorld (status w) (splash w) (tail (analog w)) (baud w) (modes w) (textSize w) (serial w)
    (frames w) (clock w).

(** The answer of the devices to one call, and their state after it.  The
    argument of [delay] is an [uint32_t]. *)
Definition respond (X : Type) (e : sketchE X) (w : World) : World * X :=
  match e in sketchE X return World * X with
  | Millis => (w, uint32_t (clock w))
  | SerialBegin b => (set_baud b w, tt)
  | SetPinMode pin mode => (set_mode pin mode w, tt)
  | MatrixBegin => (w, status w)
  | SerialPrint out => (print out w, tt)
  | SetTextSize size => (set_textSize size w, tt)
  | MatrixPrintln _ _ => (w, splash w)
  | MatrixShow frame => (push_frame frame w, tt)
  | Delay ms => (wait ms w, tt)
  | AnalogRead _ => (read w, next_adc w)
  end.

(** The time a call takes: [delay] waits, the other calls are instant. *)
Definition waits (X : Type) (e : sketchE X) : Z :=
  match e with
  | Delay ms => uint32_t ms
  | _ => 0
  end.

(** The handler of the calls, for [interp_state]. *)
Definition handle : sketchE ~> Monads.stateT World (itree void1) :=
  λ X e w, Ret (respond X e w).

(** ** The wiring is sound *)

(** The sketch uses each pin once, all of them GPIO numbers of the board,
    and none of them the analog input 26 that seeds the generator. *)
Lemma pins_distinct :
  NoDup (26 :: pins_used matrix_config) ∧ Forall (λ p, 0 ≤ p < 30) (pins_used matrix_config).
Proof. split; by_compute. Qed.

(** The panel configured is exactly the board of the simulation. *)
Lemma panel_is_board :
  bitWidth matrix_config = gameColumns ∧ addrCount matrix_config = address_lines_num ∧
  matrix_height = gameRows.
Proof. done. Qed.

(** ** The devices *)

Section devices.
Implicit Types (w : World).

(** No call turns the clock back, and only [delay] moves it. *)
Lemma respond_clock X (e : sketchE X) w :
  clock (respond X e w).1 = clock w + waits X e ∧ 0 ≤ waits X e.
Proof. destruct e; cbn; (split; [lia|]); try done. apply uint32_range. Qed.

(** What the hardware will answer is not changed by the sketch, except
    that analog readings are used up. *)
Lemma respond_answers X (e : sketchE X) w :
  status (respond X e w).1 = status w ∧ splash (respond X e w).1 = splash w ∧
  analog (respond X e w).1 `suffix_of` analog w.
Proof.
  destruct e; cbn; split_and!; try done. destruct (analog w); [done|]. by apply suffix_cons_r.
Qed.

(** Frames are only ever added. *)
Lemma respond_frames X (e : sketchE X) w :
  frames w `suffix_of` frames (respond X e w).1.
Proof. destruct e; cbn; try done. by apply suffix_cons_r. Qed.

End devices.
