(* ===== verification/Sketch.v ===== *)
(** * Sketch: the program as an interaction tree

    [Main] models [setup] and [loop] as functions on the state of the
    sketch, with what the hardware supplies as arguments.  This file models
    the same code as the interactive program it is: [setup_tree] and
    [loop_tree] are interaction trees over the calls [sketchE] of
    [Hardware], in the order of the source, and [sketch] is [setup]
    followed by [loop] for ever, as the Arduino core runs them.  The analog
    input is read where the source reads it (inside [initSeed(true)], so
    only when a seed is taken), every [show] and every [delay] is an event,
    and the two error loops of [setup] are trees that print for ever.

    A tree ends in [inl s] when the function returns in state [s], and in
    [inr Undefined] when the C++ program has performed an undefined access
    (a call through a null map pointer); [sketch] can only end that way.

    The theorems: every call of [loop] returns; [setup] returns exactly
    when the driver reports no error; the sketch never crashes and never
    stops ([sketch_runs_forever]); run against the devices of [Hardware],
    the trees compute what the functions of [Main] compute, show one frame
    per call of [loop] and wait 100 ms after it; the program is the
    machine of [Tick] fed with the analog input of the devices, of which
    it uses one reading per seed ([sketch_refines_ticks]); and with a generator that
    delivers the cells of a generation that oscillates, the program shows
    the same frames for ever ([sketch_stalls]). *)

From Stdlib Require Import ZArith Lia Ascii String.
From stdpp Require Import list list_numbers option gmap.
From ITree Require Import ITree ITreeFacts Events.State Events.StateFacts.
From ITree Require Import Props.Finite Props.Leaf Props.HasPost Props.Infinite Props.EuttNoRet.
From S2P Require Import Prelude.
From S2P Require Import Grid.
From S2P Require Import Life.
From S2P Require Import Random.
From S2P Require Import Tick.
From S2P Require Import Display.
From S2P Require Import Object.
From S2P Require Import Engine.
From S2P Require Import Seed.
From S2P Require Import Render.
From S2P Require Import Main.
From S2P Require Import Stagnation.
From S2P Require Import Hardware.

#[local] Open Scope Z_scope.

(** Sequencing of trees, written as in the library; its own notation is at
    a level that stdpp uses otherwise. *)
Declare Scope sketch_scope.
Delimit Scope sketch_scope with sketch.
Notation "x <- t ;; k" := (ITree.bind t (λ x, k))
  (at level 20, t at level 99, k at level 200, only parsing) : sketch_scope.
#[local] Open Scope sketch_scope.

(** How a tree ends when the program went wrong. *)
Inductive Crash : Type :=
  | Undefined.

(** A board with a working display, an empty title canvas and the analog
    readings 7, 9 and 11, for the instances at the end of the file. *)
Definition demo_world : World := power_on PROTOMATTER_OK ∅ [7; 9; 11].

(** ** The texts *)

Definition nl : string := String "010"%char EmptyString.
Definition status_text : string := "Protomatter begin() status: "%string.
Definition pins_text : string := ("RGB and clock pins are not on the same PORT!" ++ nl)%string.
Definition init_text : string := "Error initializing the matrix!"%string.
Definition title_text : string :=
  ("Conway's " ++ nl ++ "Game " ++ nl ++ "of " ++ nl ++ "Life.")%string.

Section sketch.
Context `{RandomSource R}.

#[local] Abbreviation state := (@System R).
#[local] Abbreviation tree := (itree sketchE (state + Crash)).

(** A call into the core or the driver. *)
Definition call {X} (e : sketchE X) : itree sketchE X := ITree.trigger e.

(** The initialisation of the globals, which runs before [setup]:
    [oldTime] takes the time and is never read again. *)
Definition boot_tree (r : R) : itree sketchE state :=
  oldTime <- call Millis;; Ret (boot r).

(** The rest of a function after a call that may be undefined. *)
Definition try {A} (o : option A) (k : A → tree) : tree :=
  match o with
  | Some a => k a
  | None => Ret (inr Undefined)
  end.

(** [while(true){ Serial.println(text); }] *)
Definition hang (text : string) : tree :=
  ITree.iter (λ _ : unit, _ <- call (SerialPrint (Println text));; Ret (inl tt)) tt.

(** [initSeed(rand)], with the analog reading it takes when [rand] holds. *)
Definition initSeed_tree (rand : bool) (g : ConwaysGame) (r : R)
    : itree sketchE (option (ConwaysGame * R)) :=
  if rand then adc <- call (AnalogRead 26);; Ret (initSeed true adc g r)
  else Ret (initSeed false 0 g r).

(** [matrix.show()]: the canvas goes to the panel. *)
Definition show_tree (d : Display.t) : itree sketchE Display.t :=
  _ <- call (MatrixShow (Display.canvas d));; Ret (Display.show d).

(** [setup] once the display works: the title, the first seed and its
    frame. *)
Definition start_tree (s : state) : tree :=
  _ <- call (SetTextSize 1);;
  canvas <- call (MatrixPrintln title_text (Display.canvas (matrix s)));;
  d <- show_tree (Display.mk (Display.width (matrix s)) (Display.height (matrix s))
                    canvas (Display.shown (matrix s)));;
  _ <- call (Delay 5000);;
  seeded <- initSeed_tree true (simulation s) (generator s);;
  try seeded (λ '(sim, r),
  try (drawCurGen sim d) (λ d,
  d <- show_tree d;;
  _ <- call (Delay 2000);;
  Ret (inl (mkSystem sim d r (cellsUpdated s))))).

(** [setup] after [matrix.begin()] has answered. *)
Definition begun_tree (st : ProtomatterStatus) (s : state) : tree :=
  _ <- call (SerialPrint (Print status_text));;
  _ <- call (SerialPrint (PrintlnInt (status_code st)));;
  if decide (st = PROTOMATTER_ERR_PINS) then hang pins_text
  else if decide (st ≠ PROTOMATTER_OK) then hang init_text
  else start_tree s.

(** [setup()]. *)
Definition setup_tree (s : state) : tree :=
  _ <- call (SerialBegin 9600);;
  _ <- call (SetPinMode 26 INPUT);;
  _ <- call (SetPinMode powerButton INPUT);;
  _ <- call (SetPinMode modeButton INPUT);;
  st <- call MatrixBegin;;
  begun_tree st s.

(** [loop] after the reseed: advance, draw, show, wait. *)
Definition advance_tree (s : state) (sim : ConwaysGame) (r : R) : tree :=
  try (calcNextGen sim) (λ '(sim, updates),
  try (drawCurGen sim (matrix s)) (λ d,
  d <- show_tree d;;
  _ <- call (Delay 100);;
  Ret (inl (mkSystem sim d r updates)))).

(** [loop()]. *)
Definition loop_tree (s : state) : tree :=
  seeded <- (if decide (cellsUpdated s ≤ updateThreshold)
             then initSeed_tree true (simulation s) (generator s)
             else Ret (Some (simulation s, generator s)));;
  try seeded (λ '(sim, r), advance_tree s sim r).

(** The program: [setup], then [loop] for ever. *)
Definition sketch (r : R) : itree sketchE Crash :=
  s <- boot_tree r;;
  s <- setup_tree s;;
  match s with
  | inl s => ITree.iter loop_tree s
  | inr crash => Ret crash
  end.

(** [n] calls of [loop], as long as none goes wrong. *)
Fixpoint loops (n : nat) (s : state) : tree :=
  match n with
  | O => Ret (inl s)
  | S n =>
      r <- loop_tree s;;
      match r with
      | inl s => loops n s
      | inr crash => Ret (inr crash)
      end
  end.

(** [setup] and then [n] calls of [loop]: a prefix of the program. *)
Definition prefix (n : nat) (r : R) : tree :=
  s <- boot_tree r;;
  s <- setup_tree s;;
  match s with
  | inl s => loops n s
  | inr crash => Ret (inr crash)
  end.

(** ** Specification *)

(** A tree never returns. *)
Definition diverges {X} (t : itree sketchE X) : Prop := has_post t (λ _, False).

(** The end of [setup] and of [loop] once the new state is computed: the
    frame goes to the panel and the sketch waits. *)
Definition frame_tree (ms : Z) (o : option state) : tree :=
  try o (λ s,
  _ <- call (MatrixShow (Display.shown (matrix s)));;
  _ <- call (Delay ms);;
  Ret (inl s)).

(** The state in which [setup] returns, if it does. *)
Definition running (o : option (Outcome state)) : option state :=
  out ← o;
  match out with
  | Running s => Some s
  | Hung _ => None
  end.

(** The devices after a call of [loop] from [s] to [s']: a reading is
    used up when a seed was taken, the frame is on the panel, 100 ms have
    passed. *)
Definition loop_world (s s' : state) (w : World) : World :=
  wait 100 (push_frame (Display.shown (matrix s'))
              (if decide (cellsUpdated s ≤ updateThreshold) then read w else w)).

(** [n] calls of [loop] against the devices, as a function. *)
Fixpoint run_world (n : nat) (s : state) (w : World) : option (World * state) :=
  match n with
  | O => Some (w, s)
  | S n => s' ← loop (next_adc w) s; run_world n s' (loop_world s s' w)
  end.

(** The devices after [setup] has returned in [s']. *)
Definition setup_world (s' : state) (w : World) : World :=
  wait 2000 $ push_frame (Display.shown (matrix s')) $ read $
  wait 5000 $ push_frame (splash w) $ set_textSize 1 $
  print (PrintlnInt (status_code (status w))) $ print (Print status_text) $
  set_mode modeButton INPUT $ set_mode powerButton INPUT $ set_mode 26 INPUT $
  set_baud 9600 w.

(** An answer to every call. *)
Definition answer (X : Type) (e : sketchE X) : X :=
  (respond X e (power_on PROTOMATTER_OK ∅ [])).2.

(** ** Trees *)

(** The rules for the constructs of this file. *)
Lemma call_finite X (e : sketchE X) : all_finite (call e).
Proof. apply all_finite_trigger. Qed.

Lemma try_finite A (o : option A) k : (∀ a, all_finite (k a)) → all_finite (try o k).
Proof. intros Hk. destruct o; [apply Hk|apply all_finite_Ret]. Qed.

Lemma call_post X (e : sketchE X) A (k : X → itree sketchE A) Q :
  (∀ x, has_post (k x) Q) → has_post (x <- call e;; k x) Q.
Proof. apply has_post_bind_weak. Qed.

Lemma ret_post A (a : A) (Q : A → Prop) : Q a → has_post (Ret a : itree sketchE A) Q.
Proof. intros Ha. by apply eutt_Ret. Qed.

(** A finite tree returns for some answers of the devices. *)
Lemma finite_returns A (t : itree sketchE A) : all_finite t → ∃ a, Leaf a t.
Proof.
  induction 1 as [a t Ht|t u Ht _ [a Ha]|X e t k Ht _ IH].
  - exists a. by apply LeafRet.
  - exists a. by apply (LeafTau a t u).
  - destruct (IH (answer X e)) as [a Ha]. exists a. by apply (LeafVis a e t k (answer X e)).
Qed.

(** A tree does not both return always and never. *)
Lemma diverges_not_finite A (t : itree sketchE A) : diverges t → all_finite t → False.
Proof.
  intros Hdiv Hfin. destruct (finite_returns A t Hfin) as [a Ha].
  exact (has_post_Leaf t _ a Hdiv Ha).
Qed.

Lemma diverges_all_infinite A (t : itree sketchE A) : diverges t → all_infinite t.
Proof. apply euttNoRet_all_infinite. Qed.

(** Running a call against the devices. *)
Lemma interp_call X (e : sketchE X) A (k : X → itree sketchE A) w :
  interp_state handle (x <- call e;; k x) w
  ≈ interp_state handle (k (respond X e w).2) (respond X e w).1.
Proof.
  unfold call. rewrite interp_state_bind, interp_state_trigger. unfold handle.
  rewrite bind_ret_l. reflexivity.
Qed.

(** The tactic for termination: every construct of the sketch is finite
    when its parts are. *)
Ltac finite :=
  repeat first
    [ apply all_finite_Ret
    | apply call_finite
    | apply try_finite; intros ?
    | apply all_finite_bind; [|intros ? _]
    | case_decide
    | match goal with
      | |- all_finite (match ?x with _ => _ end) => destruct x
      | |- all_finite (let (_, _) := ?x in _) => destruct x
      end ].

(** ** The trees and the functions of [Main] *)

(** [loop] as a tree is the function [loop] of [Main] between its calls:
    an analog reading when the counter asks for a seed, then the frame and
    the wait of 100 ms, or an undefined access before any of them. *)
Lemma loop_tree_loop s :
  loop_tree s ≈
  if decide (cellsUpdated s ≤ updateThreshold)
  then adc <- call (AnalogRead 26);; frame_tree 100 (loop adc s)
  else frame_tree 100 (loop 0 s).
Proof.
  assert (∀ adc o, o = reseed adc s →
    try o (λ '(sim, r), advance_tree s sim r) ≈ frame_tree 100 (loop adc s)) as Hrest.
  { intros adc o ->. unfold loop, frame_tree, advance_tree.
    destruct (reseed adc s) as [[sim r]|]; [|reflexivity]. cbn [try mbind option_bind].
    destruct (calcNextGen sim) as [[sim' n]|]; [|reflexivity]. cbn [try mbind option_bind].
    destruct (drawCurGen sim' (matrix s)) as [d|]; [|reflexivity]. cbn [try mbind option_bind].
    unfold show_tree. rewrite bind_bind. setoid_rewrite bind_ret_l. reflexivity. }
  unfold loop_tree, initSeed_tree. case_decide as Hlow.
  - rewrite bind_bind. apply eutt_eq_bind. intros adc. rewrite bind_ret_l.
    apply Hrest. unfold reseed. by rewrite decide_True.
  - rewrite bind_ret_l. apply Hrest. unfold reseed. by rewrite decide_False.
Qed.

(** [setup] with a working display is the function [setup] of [Main]
    between its calls. *)
Lemma start_tree_setup s :
  start_tree s ≈
  (_ <- call (SetTextSize 1);;
   canvas <- call (MatrixPrintln title_text (Display.canvas (matrix s)));;
   _ <- call (MatrixShow canvas);;
   _ <- call (Delay 5000);;
   adc <- call (AnalogRead 26);;
   frame_tree 2000 (running (setup PROTOMATTER_OK canvas adc s))).
Proof.
  unfold start_tree, show_tree, initSeed_tree.
  apply eutt_eq_bind; intros _. apply eutt_eq_bind; intros canvas.
  rewrite bind_bind. apply eutt_eq_bind; intros _. rewrite bind_ret_l.
  apply eutt_eq_bind; intros _. rewrite bind_bind. apply eutt_eq_bind; intros adc.
  rewrite bind_ret_l. unfold setup, frame_tree, running.
  rewrite decide_False by done. rewrite decide_False by (by intros []). cbn zeta.
  destruct (initSeed true adc (simulation s) (generator s)) as [[sim r]|]; [|reflexivity].
  cbn [try mbind option_bind].
  destruct (drawCurGen sim _) as [d|]; [|reflexivity]. cbn [try mbind option_bind].
  rewrite bind_bind. setoid_rewrite bind_ret_l. reflexivity.
Qed.

(** Without a reseed the analog reading does not matter. *)
Lemma loop_adc adc adc' s : updateThreshold < cellsUpdated s → loop adc s = loop adc' s.
Proof. intros Hover. unfold loop, reseed. rewrite !decide_False by lia. reflexivity. Qed.

(** ** Termination *)

(** Every call of [loop] returns: whatever the state of the sketch and
    whatever the devices answer, the tree of [loop] has no infinite
    branch.  The methods are counted loops, so this only says that [loop]
    itself has no loop and no blocking call. *)
Lemma loop_tree_returns s : all_finite (loop_tree s).
Proof. unfold loop_tree, initSeed_tree, advance_tree, show_tree. finite. Qed.

Lemma hang_diverges text : diverges (hang text).
Proof.
  apply has_post_iter_strong with (Inv := λ _, True); [|done].
  intros _ _. apply call_post. intros _. by apply ret_post.
Qed.

Lemma begun_tree_diverges st s : st ≠ PROTOMATTER_OK → diverges (begun_tree st s).
Proof.
  intros Hst. unfold begun_tree. do 2 (apply call_post; intros _).
  repeat case_decide; try done; apply hang_diverges.
Qed.

(** What [setup] does on a driver error: the status report, then the
    message of the error for ever, the one about the pins for
    [PROTOMATTER_ERR_PINS] and the other one for every other error. *)
Lemma begun_tree_error st s :
  st ≠ PROTOMATTER_OK →
  begun_tree st s
  ≈ (_ <- call (SerialPrint (Print status_text));;
     _ <- call (SerialPrint (PrintlnInt (status_code st)));;
     hang (if decide (st = PROTOMATTER_ERR_PINS) then pins_text else init_text)).
Proof.
  intros Hst. unfold begun_tree. do 2 (apply eutt_eq_bind; intros _).
  case_decide; [reflexivity|]. by rewrite decide_True.
Qed.

(** The error loop prints its message once more with every turn. *)
Lemma hang_unfold text :
  hang text ≈ (_ <- call (SerialPrint (Println text));; hang text).
Proof.
  unfold hang at 1. rewrite unfold_iter, bind_bind. apply eutt_eq_bind. intros [].
  by rewrite bind_ret_l, tau_eutt.
Qed.

Lemma start_tree_finite s : all_finite (start_tree s).
Proof. unfold start_tree, initSeed_tree, show_tree. finite. Qed.

(** C24: [setup] returns exactly when the display driver reports no error.
    With the status [PROTOMATTER_OK] the rest of [setup] has no infinite
    branch; with any other status it never returns (it prints its message
    for ever), so [loop] is never reached. *)
Theorem begun_tree_returns st s :
  all_finite (begun_tree st s) ↔ st = PROTOMATTER_OK.
Proof.
  split.
  - intros Hfin. destruct (decide (st = PROTOMATTER_OK)) as [|Hst]; [done|].
    destruct (diverges_not_finite _ _ (begun_tree_diverges st s Hst) Hfin).
  - intros ->. unfold begun_tree. rewrite decide_False by done.
    rewrite decide_False by (by intros []).
    do 2 (apply all_finite_bind; [apply call_finite|intros _ _]). apply start_tree_finite.
Qed.

(** ** Safety *)

Lemma frame_tree_post ms s (Q : state + Crash → Prop) :
  Q (inl s) → has_post (frame_tree ms (Some s)) Q.
Proof. intros HQ. cbn [frame_tree try]. do 2 (apply call_post; intros _). by apply ret_post. Qed.

(** From a state of the invariant [loop] returns in a state of the
    invariant. *)
Lemma loop_tree_post s :
  sys_inv s → has_post (loop_tree s) (sum_pred sys_inv (λ _, False)).
Proof.
  intros Hinv. rewrite loop_tree_loop. case_decide; [apply call_post; intros adc|].
  - destruct (loop_run adc s Hinv) as (s' & -> & Hinv'). by apply frame_tree_post.
  - destruct (loop_run 0 s Hinv) as (s' & -> & Hinv'). by apply frame_tree_post.
Qed.

(** If [setup] returns, it returns in a state of the invariant. *)
Lemma setup_tree_post r :
  has_post (setup_tree (boot r)) (sum_pred sys_inv (λ _, False)).
Proof.
  unfold setup_tree. do 4 (apply call_post; intros _). apply call_post; intros st.
  destruct (decide (st = PROTOMATTER_OK)) as [->|Hst].
  - unfold begun_tree. do 2 (apply call_post; intros _).
    rewrite decide_False by done. rewrite decide_False by (by intros []).
    rewrite start_tree_setup. apply call_post; intros _. apply call_post; intros canvas.
    do 2 (apply call_post; intros _). apply call_post; intros adc.
    destruct (setup_run canvas adc r) as (s & -> & Hinv & _). by apply frame_tree_post.
  - eapply has_post_weaken; [by apply begun_tree_diverges|done].
Qed.

(** No leaf: the program has no way to return. *)
Lemma sketch_diverges r : diverges (sketch r).
Proof.
  unfold sketch, diverges, boot_tree.
  rewrite bind_bind. apply call_post; intros oldTime. rewrite bind_ret_l.
  eapply has_post_bind; [apply setup_tree_post|]. intros [s|crash] Hs; [|done].
  apply has_post_iter_strong with (Inv := sys_inv); [|done].
  intros i Hi. by apply loop_tree_post.
Qed.

(** C4: The sketch never crashes and never stops.  Whatever the status of
    the display, the title canvas and the analog readings, every branch of
    the program is infinite: no call of [setup] or [loop] performs an
    undefined access, and the program never returns. *)
Theorem sketch_runs_forever r : all_infinite (sketch r).
Proof. apply diverges_all_infinite, sketch_diverges. Qed.

(** The same holds of the program run against any devices: it is a
    computation without calls that never ends. *)
Lemma sketch_devices_forever r w : all_infinite (interp_state handle (sketch r) w).
Proof.
  apply euttNoRet_all_infinite with (t2 := interp_state handle (sketch r) w).
  apply has_post_Leaf_equiv. intros x Hx%Leaf_interp_state_inv.
  exact (has_post_Leaf _ _ _ (sketch_diverges r) Hx).
Qed.

(** ** Against the devices *)

Lemma frame_tree_devices ms s w :
  interp_state handle (frame_tree ms (Some s)) w
  ≈ Ret (wait ms (push_frame (Display.shown (matrix s)) w), inl s).
Proof.
  cbn [frame_tree try]. rewrite !interp_call. cbn [respond fst snd].
  by rewrite interp_state_ret.
Qed.

(** A call of [loop] against the devices computes what the function
    [loop] of [Main] computes: from a state of the invariant it returns in
    the state [loop] gives for the next analog reading; the reading is used
    up only when the counter was at most [updateThreshold]; the new
    generation is on the panel and 100 ms have passed. *)
Lemma loop_tree_run s w :
  sys_inv s →
  ∃ s', loop (next_adc w) s = Some s' ∧ sys_inv s' ∧
    interp_state handle (loop_tree s) w ≈ Ret (loop_world s s' w, inl s').
Proof.
  intros Hinv. destruct (loop_run (next_adc w) s Hinv) as (s' & Hloop & Hinv').
  exists s'. split; [exact Hloop|]. split; [exact Hinv'|].
  rewrite loop_tree_loop. unfold loop_world. case_decide.
  - rewrite interp_call. cbn [respond fst snd]. rewrite Hloop. apply frame_tree_devices.
  - rewrite (loop_adc 0 (next_adc w)) by lia. rewrite Hloop. apply frame_tree_devices.
Qed.

(** [setup] against a working display. *)
Lemma setup_tree_run r w :
  status w = PROTOMATTER_OK →
  ∃ s, setup PROTOMATTER_OK (splash w) (next_adc w) (boot r) = Some (Running s) ∧ sys_inv s ∧
    interp_state handle (setup_tree (boot r)) w ≈ Ret (setup_world s w, inl s).
Proof.
  intros Hok. destruct (setup_run (splash w) (next_adc w) r) as (s & Hsetup & Hinv & _).
  exists s. split; [exact Hsetup|]. split; [exact Hinv|].
  unfold setup_tree. rewrite !interp_call. cbn [respond fst snd].
  change (status (set_mode _ _ _)) with (status w). rewrite Hok.
  unfold begun_tree. rewrite !interp_call. cbn [respond fst snd].
  rewrite decide_False by done. rewrite decide_False by (by intros []).
  rewrite start_tree_setup, !interp_call. cbn [respond fst snd].
  change (splash (set_textSize _ _)) with (splash w).
  change (next_adc (wait _ _)) with (next_adc w). rewrite Hsetup. cbn [running mbind option_bind].
  rewrite frame_tree_devices. unfold setup_world. by rewrite Hok.
Qed.

(** [n] calls of [loop] against the devices. *)
Lemma loops_run n s w :
  sys_inv s →
  ∃ w' s', run_world n s w = Some (w', s') ∧ sys_inv s' ∧
    interp_state handle (loops n s) w ≈ Ret (w', inl s').
Proof.
  revert s w. induction n as [|n IH]; intros s w Hinv.
  - exists w, s. split; [done|]. split; [done|]. cbn [loops]. by rewrite interp_state_ret.
  - destruct (loop_tree_run s w Hinv) as (s1 & Hloop & Hinv1 & Hrun).
    destruct (IH s1 (loop_world s s1 w) Hinv1) as (w' & s' & Hrest & Hinv' & Hrun').
    exists w', s'. cbn [run_world loops]. rewrite Hloop. split; [exact Hrest|].
    split; [exact Hinv'|]. rewrite interp_state_bind, Hrun, bind_ret_l. exact Hrun'.
Qed.

Lemma loop_world_spec s s' w :
  clock (loop_world s s' w) = clock w + 100 ∧
  frames (loop_world s s' w) = Display.shown (matrix s') :: frames w.
Proof. unfold loop_world. by case_decide. Qed.

(** What [n] calls of [loop] leave on the devices: [n] more frames, the
    last of them the frame of the state reached, and 100 ms per call. *)
Lemma run_world_spec n s w w' s' :
  run_world n s w = Some (w', s') →
  clock w' = clock w + 100 * Z.of_nat n ∧
  length (frames w') = (length (frames w) + n)%nat ∧
  (n ≠ 0%nat → head (frames w') = Some (Display.shown (matrix s'))).
Proof.
  revert s w. induction n as [|n IH]; intros s w Hrun.
  - injection Hrun as <- <-. split; [lia|]. split; [lia|done].
  - cbn [run_world] in Hrun. destruct (loop (next_adc w) s) as [s1|]; [|done].
    cbn [mbind option_bind] in Hrun. destruct (IH _ _ Hrun) as (Hclock & Hlen & Hhead).
    destruct (loop_world_spec s s1 w) as [Hc Hf]. rewrite Hc in Hclock. rewrite Hf in Hlen.
    split; [lia|]. split; [cbn [length] in Hlen; lia|]. intros _.
    destruct n as [|n]; [|by apply Hhead]. injection Hrun as <- <-. by rewrite Hf.
Qed.

(** ** The program *)

(** The loop of the program, unrolled [n] times. *)
Lemma iter_loops n s :
  ITree.iter loop_tree s
  ≈ (r <- loops n s;;
     match r with
     | inl s' => ITree.iter loop_tree s'
     | inr crash => Ret crash
     end).
Proof.
  revert s. induction n as [|n IH]; intros s; cbn [loops]; [by rewrite bind_ret_l|].
  rewrite unfold_iter, bind_bind. apply eutt_eq_bind. intros [s1|crash].
  - rewrite tau_eutt. apply IH.
  - by rewrite bind_ret_l.
Qed.

(** The program is any of its prefixes followed by [loop] for ever. *)
Lemma sketch_prefix n r :
  sketch r
  ≈ (s <- prefix n r;;
     match s with
     | inl s => ITree.iter loop_tree s
     | inr crash => Ret crash
     end).
Proof.
  unfold sketch, prefix, boot_tree. rewrite !bind_bind. apply eutt_eq_bind. intros oldTime.
  rewrite !bind_ret_l, bind_bind. apply eutt_eq_bind. intros [s|crash].
  - apply iter_loops.
  - by rewrite bind_ret_l.
Qed.

(** The devices after [setup]: seven seconds have passed and two frames
    were shown, the title and the first seed. *)
Lemma setup_world_spec s w :
  clock (setup_world s w) = clock w + 7000 ∧
  frames (setup_world s w) = Display.shown (matrix s) :: splash w :: frames w.
Proof. split; [|done]. unfold setup_world. cbn. rewrite !uint32_small by lia. lia. Qed.

(** The program up to the [n]-th call of [loop], against the devices. *)
Lemma prefix_run n r w :
  status w = PROTOMATTER_OK →
  ∃ s0 w' s',
    setup PROTOMATTER_OK (splash w) (next_adc w) (boot r) = Some (Running s0) ∧
    run_world n s0 (setup_world s0 w) = Some (w', s') ∧ sys_inv s' ∧
    interp_state handle (prefix n r) w ≈ Ret (w', inl s').
Proof.
  intros Hok. destruct (setup_tree_run r w Hok) as (s0 & Hsetup & Hinv0 & Hrun0).
  destruct (loops_run n s0 (setup_world s0 w) Hinv0) as (w' & s' & Hrun & Hinv & Hrun').
  exists s0, w', s'. split; [exact Hsetup|]. split; [exact Hrun|]. split; [exact Hinv|].
  unfold prefix, boot_tree. rewrite bind_bind, interp_call, bind_ret_l. cbn [respond fst snd].
  rewrite interp_state_bind, Hrun0, bind_ret_l. exact Hrun'.
Qed.

(** C23: With a working display the program reaches its [n]-th call of
    [loop] for every [n], and when that call has returned the sketch has
    shown [n + 2] frames (the title, the first seed and one generation per
    call), the panel shows the current generation, and the time waited is
    7000 ms for [setup] and 100 ms per call of [loop]; [refreshRate] plays
    no part in it. *)
Theorem sketch_frames n r w :
  status w = PROTOMATTER_OK →
  ∃ w' s',
    interp_state handle (prefix n r) w ≈ Ret (w', inl s') ∧ sys_inv s' ∧
    clock w' = clock w + 7000 + 100 * Z.of_nat n ∧
    length (frames w') = (length (frames w) + 2 + n)%nat ∧
    head (frames w') = Some (Display.shown (matrix s')).
Proof.
  intros Hok. destruct (prefix_run n r w Hok) as (s0 & w' & s' & _ & Hrun & Hinv & Hinterp).
  destruct (run_world_spec n _ _ _ _ Hrun) as (Hclock & Hlen & Hhead).
  destruct (setup_world_spec s0 w) as [Hc Hf]. rewrite Hc in Hclock. rewrite Hf in Hlen.
  exists w', s'. split; [exact Hinterp|]. split; [exact Hinv|]. split; [lia|].
  split; [cbn [length] in Hlen; lia|]. destruct n as [|n]; [|by apply Hhead].
  injection Hrun as <- <-. by rewrite Hf.
Qed.

(** The calls of [loop] against the devices are calls of [loop] on some
    sequence of readings. *)
Lemma run_world_run n s w w' s' :
  run_world n s w = Some (w', s') → ∃ adcs, length adcs = n ∧ run adcs s = Some s'.
Proof.
  revert s w. induction n as [|n IH]; intros s w Hrun.
  - injection Hrun as <- <-. by exists [].
  - cbn [run_world] in Hrun. destruct (loop (next_adc w) s) as [s1|] eqn:Hloop; [|done].
    cbn [mbind option_bind] in Hrun. destruct (IH _ _ Hrun) as (adcs & Hlen & Hrest).
    exists (next_adc w :: adcs). cbn [length run]. rewrite Hloop. split; [by rewrite Hlen|done].
Qed.

(** The calls of [loop] against the devices are the ticks of the machine
    with input, fed with the readings the devices hold: the states agree
    and so do the readings that remain. *)
Lemma run_world_feed n s w w' s' :
  sys_inv s → run_world n s w = Some (w', s') →
  Tick.eq gameRows gameColumns (abstraction s')
    (Tick.feed gameRows gameColumns updateThreshold n (abstraction s, analog w)).1 ∧
  analog w' = (Tick.feed gameRows gameColumns updateThreshold n (abstraction s, analog w)).2.
Proof.
  revert s w. induction n as [|n IH]; intros s w Hinv Hrun.
  - by injection Hrun as <- <-.
  - cbn [run_world] in Hrun. destruct (loop_run (next_adc w) s Hinv) as (s1 & Hloop & Hinv1).
    rewrite Hloop in Hrun. cbn [mbind option_bind] in Hrun.
    destruct (IH _ _ Hinv1 Hrun) as [Heq Hin]. rewrite Tick.feed_S.
    destruct (Tick.feed_proper gameRows gameColumns updateThreshold n
      (abstraction s1, analog (loop_world s s1 w))
      (Tick.input_tick gameRows gameColumns updateThreshold (abstraction s, analog w)))
      as [Heq' Hin'].
    { split; [rewrite Tick.input_tick_tick; by apply loop_tick|].
      unfold loop_world, Tick.input_tick. cbn [fst snd abstraction Tick.count].
      by case_decide. }
    split; [|by rewrite Hin].
    by eapply (@Equivalence_Transitive _ _ (Tick.eq_equivalence gameRows gameColumns)).
Qed.

(** C7: The program refines the abstract machine, devices included.  With
    a working display, when the [n]-th call of [loop] has returned the
    generation, the counter and the generator of the sketch are those the
    abstract machine of [Tick] reaches from power-up by [n] ticks when it
    is fed the analog readings the devices hold; the readings that remain
    are the same on both sides, so the sketch has read the analog input
    once in [setup] and once for every seed taken since, and at no other
    time; and the frame on the panel draws that generation: a cell of the
    board is lit in the colour of the simulation when it is alive and
    black when it is dead. *)
Theorem sketch_refines_ticks n r w :
  status w = PROTOMATTER_OK →
  ∃ w' s',
    interp_state handle (prefix n r) w ≈ Ret (w', inl s') ∧
    Tick.eq gameRows gameColumns (abstraction s')
      (Tick.feed gameRows gameColumns updateThreshold n
         (Tick.power_up gameRows gameColumns r (analog w))).1 ∧
    analog w'
    = (Tick.feed gameRows gameColumns updateThreshold n
         (Tick.power_up gameRows gameColumns r (analog w))).2 ∧
    ∀ y x, 0 ≤ y < gameRows → 0 ≤ x < gameColumns →
      default 0 (Display.shown (matrix s') !! (x, y))
      = if Tick.gen (abstraction s') y x then Display.color565 125 76 0 else 0.
Proof.
  intros Hok. destruct (prefix_run n r w Hok) as (s0 & w' & s' & Hsetup & Hrun & Hinv & Hinterp).
  destruct (setup_run (splash w) (next_adc w) r) as (s0' & Hsetup' & Hinv0 & _).
  rewrite Hsetup in Hsetup'. injection Hsetup' as <-.
  destruct (run_world_feed n _ _ _ _ Hinv0 Hrun) as [Heq Hin].
  destruct (Tick.feed_proper gameRows gameColumns updateThreshold n
    (abstraction s0, analog (setup_world s0 w))
    (Tick.power_up gameRows gameColumns r (analog w))) as [Heq' Hin'].
  { split; [|done]. by apply (setup_seed (splash w)). }
  exists w', s'. split; [exact Hinterp|]. split.
  { by eapply (@Equivalence_Transitive _ _ (Tick.eq_equivalence gameRows gameColumns)). }
  split; [by rewrite Hin|]. intros y x Hy Hx.
  destruct Hinv as (_ & Hcol & _ & _ & _ & Hshow). specialize (Hshow y x Hy Hx).
  unfold Display.lit in Hshow. rewrite Hshow. unfold cell_color. by rewrite Hcol.
Qed.

End sketch.

(** ** The program can stall

    The result of [Stagnation] for the program with its devices.  With a
    working display and a generator that delivers any 2048 coins and then
    the cells of a generation [f] that oscillates, the program reaches
    every call of [loop], and when call number [n + 1] has returned the
    frame on the panel draws the phase [(n + 1) mod p] of [f]: the same
    [p] frames for ever. *)
Lemma sketch_stalls p f (junk rest : script) n w :
  status w = PROTOMATTER_OK → length junk = 2048%nat → oscillates p f →
  ∃ w' (s' : System (R := script)),
    interp_state handle (prefix (S n) (junk ++ script_of f ++ rest)) w ≈ Ret (w', inl s') ∧
    generator s' = rest ∧
    ∀ y x, 0 ≤ y < gameRows → 0 ≤ x < gameColumns →
      default 0 (Display.shown (matrix s') !! (x, y))
      = if Life.iterate gameRows gameColumns (S n `mod` p) f y x
        then Display.color565 125 76 0 else 0.
Proof.
  intros Hok Hjunk Hosc.
  destruct (prefix_run (S n) (junk ++ script_of f ++ rest) w Hok)
    as (s0 & w' & s' & Hsetup & Hrun & Hinv & Hinterp).
  destruct (run_world_run (S n) _ _ _ _ Hrun) as ([|adc adcs] & Hlen & Hrun'); [done|].
  destruct (setup_script f junk rest (splash w) (next_adc w) Hjunk)
    as (s0' & Hsetup' & Hinv0 & Hcount & Hgen).
  rewrite Hsetup in Hsetup'. injection Hsetup' as <-.
  assert (cellsUpdated s0 ≤ updateThreshold) as Hlow by (by rewrite Hcount).
  destruct (runs_script p f rest adc adcs s0 Hinv0 Hlow Hgen Hosc)
    as (s & Hrun'' & _ & _ & Hrest & Hf).
  rewrite Hrun' in Hrun''. injection Hrun'' as <-. injection Hlen as <-.
  exists w', s'. split; [exact Hinterp|]. split; [exact Hrest|]. intros y x Hy Hx.
  destruct Hinv as (_ & Hcol & _ & _ & _ & Hshow). specialize (Hshow y x Hy Hx).
  unfold Display.lit in Hshow. rewrite Hshow. unfold cell_color.
  by rewrite Hcol, (Hf y x Hy Hx).
Qed.

(** ** Instances of the theorems on a concrete sketch

    The generator is the linear congruential [lcg_source] started at 0 and
    the devices are those of [demo_world]. *)

Section instances.
#[local] Existing Instance lcg_source.

Lemma sketch_frames_witness :
  ∃ w' (s' : System),
    interp_state handle (prefix 3 0) demo_world ≈ Ret (w', inl s') ∧ sys_inv s' ∧
    clock w' = 7300 ∧ length (frames w') = 5%nat ∧
    head (frames w') = Some (Display.shown (matrix s')).
Proof.
  destruct (sketch_frames 3 0 demo_world eq_refl) as (w' & s' & Hrun & Hinv & Hclock & Hlen & Hhead).
  exists w', s'. split; [exact Hrun|]. split; [exact Hinv|]. split; [exact Hclock|].
  split; [exact Hlen|exact Hhead].
Defined.

Lemma sketch_refines_ticks_witness :
  ∃ w' (s' : System),
    interp_state handle (prefix 3 0) demo_world ≈ Ret (w', inl s') ∧
    Tick.eq gameRows gameColumns (abstraction s')
      (Tick.feed gameRows gameColumns updateThreshold 3
         (Tick.power_up gameRows gameColumns 0 [7; 9; 11])).1 ∧
    analog w'
    = (Tick.feed gameRows gameColumns updateThreshold 3
         (Tick.power_up gameRows gameColumns 0 [7; 9; 11])).2 ∧
    ∀ y x, 0 ≤ y < gameRows → 0 ≤ x < gameColumns →
      default 0 (Display.shown (matrix s') !! (x, y))
      = if Tick.gen (abstraction s') y x then Display.color565 125 76 0 else 0.
Proof. exact (sketch_refines_ticks 3 0 demo_world eq_refl). Defined.

End instances.
